(** * The on-disk storage engine of fslab (fs.hpp, fs.cpp)

    A shallow embedding of the block-device file system: the block proxy,
    the superblock, the two bitmaps with their first-zero hints, the
    allocator, the inode proxy, the three-tier extent engine
    ([get_block_size], [resize], [get_data_block]), byte I/O, directories
    and the path operations of fs.cpp.

    The device is an array of [BLOCK_NUM] blocks of [BLOCK_SIZE] bytes
    (both constants come from disk.h and are parameters here).  A block is
    a function from byte offsets to byte values; every typed view the C++
    code obtains by reinterpreting a block buffer (superblock fields,
    64-bit bitmap words, 32-bit pointers, inode records) is decoded from
    those bytes in little-endian order. *)

From Stdlib Require Import String Ascii.
From Stdlib Require Import ZArith List Bool Lia Permutation.
Import ListNotations.
Open Scope Z_scope.

(** ** Machine integers *)

Definition u32 (x : Z) : Z := x mod 2 ^ 32.
Definition u64 (x : Z) : Z := x mod 2 ^ 64.
(** Conversion of an unsigned value to [int] (two's complement). *)
Definition s32 (x : Z) : Z := (x + 2 ^ 31) mod 2 ^ 32 - 2 ^ 31.

(** ** Blocks as byte arrays *)

Definition block := Z -> Z.

Definition byte_at (b : block) (i : Z) : Z := b i mod 256.

(** Little-endian load of [n] bytes at byte offset [off]. *)
Fixpoint get_le (n : nat) (b : block) (off : Z) : Z :=
  match n with
  | O => 0
  | S n' => byte_at b off + 256 * get_le n' b (off + 1)
  end.

(** Little-endian store of the low [n] bytes of [v] at byte offset [off]. *)
Definition set_le (n : nat) (b : block) (off v : Z) : block :=
  fun i =>
    if (off <=? i) && (i <? off + Z.of_nat n)
    then (v / 256 ^ (i - off)) mod 256
    else b i.

Definition get32 (b : block) (off : Z) : Z := get_le 4 b off.
Definition set32 (b : block) (off v : Z) : block := set_le 4 b off v.
Definition get64 (b : block) (off : Z) : Z := get_le 8 b off.
Definition set64 (b : block) (off v : Z) : block := set_le 8 b off v.

(** [memset(&*proxy, 0, BLOCK_SIZE)]. *)
Definition zero_block : block := fun _ => 0.

(** ** errno values *)

Definition ENOENT : Z := 2.
Definition EACCES : Z := 13.
Definition ENOSPC : Z := 28.

(** ** Program state

    [disk] is the device; the two hints are the static members
    [Disk::data_bitmap_min_pos] and [Disk::inode_bitmap_min_pos]; [clock]
    is what [time(NULL)] returns; [junk] stands for the contents of
    automatic storage that the code leaves uninitialised; [writes] records
    every block handed to [disk_write], newest first. *)

Record state : Type := mkState {
  disk : Z -> block;
  data_bitmap_min_pos : Z;
  inode_bitmap_min_pos : Z;
  clock : Z;
  junk : Z -> Z;
  writes : list (Z * block)
}.

Definition upd (d : Z -> block) (k : Z) (v : block) : Z -> block :=
  fun k' => if k' =? k then v else d k'.

Definition set_disk (s : state) (d : Z -> block) (w : list (Z * block)) : state :=
  mkState d (data_bitmap_min_pos s) (inode_bitmap_min_pos s) (clock s) (junk s) w.

Definition set_data_hint (s : state) (h : Z) : state :=
  mkState (disk s) h (inode_bitmap_min_pos s) (clock s) (junk s) (writes s).

Definition set_inode_hint (s : state) (h : Z) : state :=
  mkState (disk s) (data_bitmap_min_pos s) h (clock s) (junk s) (writes s).

(** ** Outcomes and the state-and-error monad *)

Inductive result (A : Type) : Type :=
| Ok (a : A) (s : state)
| Abort     (* a failed [assert]: the macro logs and calls [exit(-1)] *)
| Fault     (* an access outside the accessed object: undefined behaviour *)
| NoFuel.   (* the recursion bound of the model was reached *)

Arguments Ok {A} a s.
Arguments Abort {A}.
Arguments Fault {A}.
Arguments NoFuel {A}.

Definition M (A : Type) : Type := state -> result A.

Definition ret {A} (a : A) : M A := fun s => Ok a s.

Definition bind {A B} (m : M A) (f : A -> M B) : M B :=
  fun s =>
    match m s with
    | Ok a s' => f a s'
    | Abort => Abort
    | Fault => Fault
    | NoFuel => NoFuel
    end.

Definition abort {A} : M A := fun _ => Abort.
Definition fault {A} : M A := fun _ => Fault.
Definition no_fuel {A} : M A := fun _ => NoFuel.
Definition get_state : M state := fun s => Ok s s.
Definition put_state (s : state) : M unit := fun _ => Ok tt s.
Definition assert (c : bool) : M unit := if c then ret tt else abort.

Declare Scope fs_scope.
Delimit Scope fs_scope with fs.
Notation "x <- c1 ;; c2" := (bind c1 (fun x => c2))
  (at level 61, c1 at next level, right associativity) : fs_scope.
Notation "c1 ;;; c2" := (bind c1 (fun _ => c2))
  (at level 61, right associativity) : fs_scope.
Open Scope fs_scope.

Definition time : M Z := fun s => Ok (clock s) s.

(** ** Field offsets of the on-disk records *)

(** [HeaderBlock]: nine 32-bit fields. *)
Definition OFF_MAGIC : Z := 0.
Definition OFF_inode_num_tot : Z := 4.
Definition OFF_inode_num_free : Z := 8.
Definition OFF_inode_bitmap_offset : Z := 12.
Definition OFF_inode_block_offset : Z := 16.
Definition OFF_data_block_num_tot : Z := 20.
Definition OFF_data_block_num_free : Z := 24.
Definition OFF_data_block_bitmap_offset : Z := 28.
Definition OFF_data_block_offset : Z := 32.

Definition MAGIC_NUMBER_VAL : Z := 0x19260817.

Definition inode_num_tot (h : block) := get32 h OFF_inode_num_tot.
Definition inode_num_free (h : block) := get32 h OFF_inode_num_free.
Definition inode_bitmap_offset (h : block) := get32 h OFF_inode_bitmap_offset.
Definition inode_block_offset (h : block) := get32 h OFF_inode_block_offset.
Definition data_block_num_tot (h : block) := get32 h OFF_data_block_num_tot.
Definition data_block_num_free (h : block) := get32 h OFF_data_block_num_free.
Definition data_block_bitmap_offset (h : block) := get32 h OFF_data_block_bitmap_offset.
Definition data_block_offset (h : block) := get32 h OFF_data_block_offset.

(** [INodeBlock::INode]: eight 32-bit fields, 32 bytes. *)
Definition INODE_SIZE : Z := 32.
Definition TYPE_FILE : Z := 0.
Definition TYPE_DIRECTORY : Z := 1.

Record INode : Type := mkINode {
  type : Z;
  filesize : Z;
  atime : Z;
  mtime : Z;
  ctime : Z;
  direct_pointer : Z;
  indirect_pointer : Z;
  iindirect_pointer : Z
}.

Definition set_type (i : INode) (v : Z) : INode :=
  mkINode (u32 v) (filesize i) (atime i) (mtime i) (ctime i)
          (direct_pointer i) (indirect_pointer i) (iindirect_pointer i).
Definition set_filesize (i : INode) (v : Z) : INode :=
  mkINode (type i) (u32 v) (atime i) (mtime i) (ctime i)
          (direct_pointer i) (indirect_pointer i) (iindirect_pointer i).
Definition set_atime (i : INode) (v : Z) : INode :=
  mkINode (type i) (filesize i) (u32 v) (mtime i) (ctime i)
          (direct_pointer i) (indirect_pointer i) (iindirect_pointer i).
Definition set_mtime (i : INode) (v : Z) : INode :=
  mkINode (type i) (filesize i) (atime i) (u32 v) (ctime i)
          (direct_pointer i) (indirect_pointer i) (iindirect_pointer i).
Definition set_ctime (i : INode) (v : Z) : INode :=
  mkINode (type i) (filesize i) (atime i) (mtime i) (u32 v)
          (direct_pointer i) (indirect_pointer i) (iindirect_pointer i).
Definition set_direct (i : INode) (v : Z) : INode :=
  mkINode (type i) (filesize i) (atime i) (mtime i) (ctime i)
          (u32 v) (indirect_pointer i) (iindirect_pointer i).
Definition set_indirect (i : INode) (v : Z) : INode :=
  mkINode (type i) (filesize i) (atime i) (mtime i) (ctime i)
          (direct_pointer i) (u32 v) (iindirect_pointer i).
Definition set_iindirect (i : INode) (v : Z) : INode :=
  mkINode (type i) (filesize i) (atime i) (mtime i) (ctime i)
          (direct_pointer i) (indirect_pointer i) (u32 v).

(** [inode = block->inodes[idx]]. *)
Definition load_inode (b : block) (idx : Z) : INode :=
  let o := INODE_SIZE * idx in
  mkINode (get32 b o) (get32 b (o + 4)) (get32 b (o + 8)) (get32 b (o + 12))
          (get32 b (o + 16)) (get32 b (o + 20)) (get32 b (o + 24)) (get32 b (o + 28)).

(** [block->inodes[idx] = inode]. *)
Definition store_inode (b : block) (idx : Z) (i : INode) : block :=
  let o := INODE_SIZE * idx in
  set32 (set32 (set32 (set32 (set32 (set32 (set32 (set32 b
    o (type i)) (o + 4) (filesize i)) (o + 8) (atime i)) (o + 12) (mtime i))
    (o + 16) (ctime i)) (o + 20) (direct_pointer i)) (o + 24) (indirect_pointer i))
    (o + 28) (iindirect_pointer i).

(** [PointerBlock::pointers[i]]. *)
Definition get_pointer (b : block) (i : Z) : Z := get32 b (4 * i).
Definition set_pointer (b : block) (i v : Z) : block := set32 b (4 * i) v.

(** ** 64-bit bitmap words *)

Definition lnot64 (x : Z) : Z := 2 ^ 64 - 1 - x.

(** Index of the least significant set bit among the low [n] bits, scanning
    upward from bit [i]. *)
Fixpoint lowest_set_from (n : nat) (x i : Z) : Z :=
  match n with
  | O => i
  | S n' => if Z.testbit x i then i else lowest_set_from n' x (i + 1)
  end.

(** [__builtin_ffsll]: one plus the index of the least significant set bit,
    or zero when there is none. *)
Definition ffsll (x : Z) : Z :=
  if x =? 0 then 0 else 1 + lowest_set_from 64 x 0.

(** ** The device geometry of disk.h *)

Class Geometry : Type := mkGeometry {
  BLOCK_SIZE : Z;
  BLOCK_NUM : Z
}.

Section FS.

Context {G : Geometry}.

Definition INODE_IN_BLOCK : Z := BLOCK_SIZE / INODE_SIZE.
Definition POINTER_PER_BLOCK : Z := BLOCK_SIZE / 4.
(** [BitMap::siz]: bits per bitmap block. *)
Definition siz : Z := BLOCK_SIZE * 8.
(** Number of 64-bit words of a [BitmapBlock]. *)
Definition BITMAP_WORDS : Z := BLOCK_SIZE / 8.

(** ** Block proxy

    [BlockProxy(blockno)] asserts the block number, then reads the block
    into its buffer; [commit] writes the buffer back.  [drop] issues no
    write and has no counterpart here.  The device itself never fails. *)

Definition from_blockno (blockno : Z) : M block :=
  fun s =>
    if (0 <=? blockno) && (blockno <? BLOCK_NUM)
    then Ok (disk s blockno) s
    else Abort.

Definition commit (blockno : Z) (b : block) : M unit :=
  fun s => Ok tt (set_disk s (upd (disk s) blockno b) ((blockno, b) :: writes s)).

Definition get_header : M block := from_blockno 0.

(** ** BitmapBlock *)

Definition bb_word (b : block) (w : Z) : Z := get64 b (8 * w).

Definition bb_set (b : block) (pos : Z) : block :=
  let w := pos / 64 in
  let o := pos mod 64 in
  set64 b (8 * w) (Z.lor (bb_word b w) (Z.shiftl 1 o)).

Definition bb_clear (b : block) (pos : Z) : block :=
  let w := pos / 64 in
  let o := pos mod 64 in
  set64 b (8 * w) (Z.land (bb_word b w) (lnot64 (Z.shiftl 1 o))).

Definition bb_get (b : block) (pos : Z) : bool :=
  let w := pos / 64 in
  let o := pos mod 64 in
  negb (Z.land (bb_word b w) (Z.shiftl 1 o) =? 0).

(** The word loop of [BitmapBlock::get_first_zero]: [n] words from [w]. *)
Fixpoint bb_scan (n : nat) (b : block) (w : Z) : Z :=
  match n with
  | O => -1
  | S n' =>
      let now := bb_word b w in
      if lnot64 now =? 0 then bb_scan n' b (w + 1)
      else w * 64 + (ffsll (lnot64 now) - 1)
  end.

Definition bb_get_first_zero (b : block) (pos : Z) : Z :=
  bb_scan (Z.to_nat (BITMAP_WORDS - pos / 64)) b (pos / 64).

(** ** BitMap: a run of bitmap blocks [start, end) with a hint *)

Record BitMap : Type := mkBitMap {
  bm_start : Z;
  bm_end : Z;
  bm_minpos : Z
}.

(** [BitMap::unpack]: [pos] is an [int] divided by the unsigned [siz]. *)
Definition bm_unpack (pos : Z) : Z * Z :=
  (s32 (u32 pos / siz), s32 (u32 pos mod siz)).

Definition BitMap_set (bm : BitMap) (pos : Z) : M unit :=
  let '(blockno, offset) := bm_unpack pos in
  b <- from_blockno (blockno + bm_start bm) ;;
  commit (blockno + bm_start bm) (bb_set b offset).

Definition BitMap_clear (bm : BitMap) (pos : Z) : M unit :=
  let '(blockno, offset) := bm_unpack pos in
  b <- from_blockno (blockno + bm_start bm) ;;
  commit (blockno + bm_start bm) (bb_clear b offset).

Definition BitMap_get (bm : BitMap) (pos : Z) : M bool :=
  let '(blockno, offset) := bm_unpack pos in
  b <- from_blockno (blockno + bm_start bm) ;;
  ret (bb_get b offset).

(** The block loop of [BitMap::get_first_zero]: [n] blocks from device
    block [pos], which is block [blockno] of the bitmap. *)
Fixpoint bm_scan (n : nat) (pos blockno off : Z) : M Z :=
  match n with
  | O => ret (-1)
  | S n' =>
      b <- from_blockno pos ;;
      let r := bb_get_first_zero b off in
      if r =? -1 then bm_scan n' (pos + 1) (blockno + 1) 0
      else ret (r + blockno * siz)
  end.

Definition BitMap_get_first_zero (bm : BitMap) : M Z :=
  let '(blockoff, off) := bm_unpack (bm_minpos bm) in
  bm_scan (Z.to_nat (bm_end bm - (bm_start bm + blockoff)))
          (bm_start bm + blockoff) blockoff off.

(** ** Allocator (class Disk) *)

Definition inode_bitmap (header : block) (minpos : Z) : BitMap :=
  mkBitMap (s32 (inode_bitmap_offset header))
           (s32 (data_block_bitmap_offset header)) minpos.

Definition data_bitmap (header : block) (minpos : Z) : BitMap :=
  mkBitMap (s32 (data_block_bitmap_offset header))
           (s32 (inode_block_offset header)) minpos.

Definition alloc_inode : M Z :=
  header <- get_header ;;
  if inode_num_free header =? 0 then ret (-1)
  else
    s <- get_state ;;
    let bitmap := inode_bitmap header (inode_bitmap_min_pos s) in
    r <- BitMap_get_first_zero bitmap ;;
    assert (negb (r =? -1)) ;;;
    BitMap_set bitmap r ;;;
    commit 0 (set32 header OFF_inode_num_free (inode_num_free header - 1)) ;;;
    s <- get_state ;;
    put_state (set_inode_hint s (Z.max (inode_bitmap_min_pos s) r)) ;;;
    ret r.

Definition free_inode (inodeno : Z) : M unit :=
  header <- get_header ;;
  let bitmap := inode_bitmap header 0 in
  g <- BitMap_get bitmap inodeno ;;
  assert g ;;;
  BitMap_clear bitmap inodeno ;;;
  commit 0 (set32 header OFF_inode_num_free (inode_num_free header + 1)) ;;;
  s <- get_state ;;
  put_state (set_inode_hint s (Z.min (inode_bitmap_min_pos s) inodeno)).

Definition alloc_data : M Z :=
  header <- get_header ;;
  if data_block_num_free header =? 0 then ret (-1)
  else
    s <- get_state ;;
    let bitmap := data_bitmap header (data_bitmap_min_pos s) in
    r <- BitMap_get_first_zero bitmap ;;
    assert (negb (r =? -1)) ;;;
    put_state (set_data_hint s (Z.max (data_bitmap_min_pos s) r)) ;;;
    BitMap_set bitmap r ;;;
    commit 0 (set32 header OFF_data_block_num_free (data_block_num_free header - 1)) ;;;
    ret (s32 (u32 (r + data_block_offset header))).

Definition free_data (datano : Z) : M unit :=
  header <- get_header ;;
  let datano := s32 (u32 (datano - data_block_offset header)) in
  assert (0 <=? datano) ;;;
  let bitmap := data_bitmap header 0 in
  g <- BitMap_get bitmap datano ;;
  assert g ;;;
  BitMap_clear bitmap datano ;;;
  commit 0 (set32 header OFF_data_block_num_free (data_block_num_free header + 1)) ;;;
  s <- get_state ;;
  put_state (set_data_hint s (Z.min (data_bitmap_min_pos s) datano)).

(** ** The superblock as [HeaderBlock::HeaderBlock()] computes it *)

Definition DIVIDE_CEIL (x y : Z) : Z := u32 (x + y - 1) / y.

Definition new_HeaderBlock (b : block) : block :=
  let avail_block_num := u32 (BLOCK_NUM - 1) in
  let inode_blocks := avail_block_num / INODE_IN_BLOCK in
  let tot := u32 (inode_blocks * INODE_IN_BLOCK) in
  let inode_bitmap_blocks := DIVIDE_CEIL tot (BLOCK_SIZE * 8) in
  let inode_bitmap_off := 1 in
  let data_block_bitmap_off := u32 (inode_bitmap_off + inode_bitmap_blocks) in
  let avail_block_num := u32 (avail_block_num - u32 (inode_blocks + inode_bitmap_blocks)) in
  let data_block_bitmap_blocks := DIVIDE_CEIL avail_block_num (BLOCK_SIZE * 8) in
  let dtot := u32 (avail_block_num - data_block_bitmap_blocks) in
  let inode_block_off := u32 (data_block_bitmap_off + data_block_bitmap_blocks) in
  let data_block_off := u32 (inode_block_off + inode_blocks) in
  set32 (set32 (set32 (set32 (set32 (set32 (set32 (set32 (set32 b
    OFF_MAGIC MAGIC_NUMBER_VAL)
    OFF_inode_num_tot tot)
    OFF_inode_num_free tot)
    OFF_inode_bitmap_offset inode_bitmap_off)
    OFF_data_block_bitmap_offset data_block_bitmap_off)
    OFF_data_block_num_tot dtot)
    OFF_data_block_num_free dtot)
    OFF_inode_block_offset inode_block_off)
    OFF_data_block_offset data_block_off.

(** ** Inode proxy *)

Definition inode_location (header : block) (inodeno : Z) : Z * Z :=
  (s32 (u32 (u32 inodeno / INODE_IN_BLOCK + inode_block_offset header)),
   s32 (u32 inodeno mod INODE_IN_BLOCK)).

(** [INodeProxy(inodeno)]: the record is copied out of the inode block. *)
Definition INodeProxy (inodeno : Z) : M INode :=
  header <- get_header ;;
  let '(blockno, offset) := inode_location header inodeno in
  b <- from_blockno blockno ;;
  ret (load_inode b offset).

(** [INodeProxy::commit]: the inode block is read again and rewritten. *)
Definition INodeProxy_commit (inodeno : Z) (inode : INode) : M unit :=
  header <- get_header ;;
  let '(blockno, offset) := inode_location header inodeno in
  b <- from_blockno blockno ;;
  commit blockno (store_inode b offset inode).

(** Checked access to [pointers[i]] of a pointer block buffer. *)
Definition ptr_read (b : block) (i : Z) : M Z :=
  if (0 <=? i) && (i <? POINTER_PER_BLOCK) then ret (get_pointer b i) else fault.

Definition ptr_write (b : block) (i v : Z) : M block :=
  if (0 <=? i) && (i <? POINTER_PER_BLOCK) then ret (set_pointer b i v) else fault.

(** Number of leading nonzero entries among [pointers[i .. i+n)]. *)
Fixpoint count_leading (n : nat) (b : block) (i : Z) : Z :=
  match n with
  | O => 0
  | S n' => if get_pointer b i =? 0 then 0 else 1 + count_leading n' b (i + 1)
  end.

(** The loop over the outer pointer block in [get_block_size]; [n] slots
    remain from index [now]. *)
Fixpoint count_outer (n : nat) (outer : block) (now now_block : Z) : M Z :=
  match n with
  | O => ret now_block
  | S n' =>
      if get_pointer outer now =? 0 then
        if negb (now =? 0) then
          let now := now - 1 in
          let now_block := now_block - POINTER_PER_BLOCK in
          let block_to_check := get_pointer outer now in
          inner <- from_blockno (s32 block_to_check) ;;
          ret (now_block + count_leading (Z.to_nat POINTER_PER_BLOCK) inner 0)
        else ret now_block
      else count_outer n' outer (now + 1) (now_block + POINTER_PER_BLOCK)
  end.

Definition get_block_size (inodeno : Z) : M Z :=
  inode <- INodeProxy inodeno ;;
  if direct_pointer inode =? 0 then ret 0
  else if indirect_pointer inode =? 0 then ret 1
  else
    pointers <- from_blockno (s32 (indirect_pointer inode)) ;;
    let c := count_leading (Z.to_nat POINTER_PER_BLOCK) pointers 0 in
    if c <? POINTER_PER_BLOCK then ret (s32 (1 + c))
    else if iindirect_pointer inode =? 0 then ret (s32 (1 + c))
    else
      outer <- from_blockno (s32 (iindirect_pointer inode)) ;;
      n <- count_outer (Z.to_nat POINTER_PER_BLOCK) outer 0 (1 + c) ;;
      ret (s32 n).

(** ** resize *)

(** How one iteration of the [while] loop of [resize] ends: the loop goes
    on with the updated in-memory inode, or control jumps to [ROLLBACK]. *)
Inductive loop_exit : Type :=
| Continue (inode : INode)
| Rollback (inode : INode).

(** The grow branch for [block_now < 1]. *)
Definition grow_direct (inode : INode) : M loop_exit :=
  data <- alloc_data ;;
  if data =? -1 then ret (Rollback inode)
  else ret (Continue (set_direct inode data)).

(** The grow branch for [block_now < 1 + POINTER_PER_BLOCK], from the
    point where the indirect block exists: [extend_ind] tells whether
    this iteration created it. *)
Definition grow_indirect_fill (offset : Z) (inode : INode) (extend_ind : bool)
  : M loop_exit :=
  let ind := s32 (indirect_pointer inode) in
  ind_block <- from_blockno ind ;;
  data <- alloc_data ;;
  if data =? -1 then
    if extend_ind then
      free_data (s32 (indirect_pointer inode)) ;;;
      ret (Rollback (set_indirect inode 0))
    else ret (Rollback inode)
  else
    ind_block <- ptr_write ind_block offset (u32 data) ;;
    commit ind ind_block ;;;
    ret (Continue inode).

(** The grow branch for [block_now < 1 + POINTER_PER_BLOCK]. *)
Definition grow_indirect (inode : INode) (block_now : Z) : M loop_exit :=
  let offset := block_now - 1 in
  if offset =? 0 then
    data <- alloc_data ;;
    if data =? -1 then ret (Rollback inode)
    else
      _ <- from_blockno data ;;
      commit data zero_block ;;;
      grow_indirect_fill offset (set_indirect inode data) true
  else grow_indirect_fill offset inode false.

(** The double-indirect tier, from the point where the outer block and
    the inner block [id_ind] exist. *)
Definition grow_iindirect_fill (id_ind id_offset : Z) (inode : INode)
    (extend_ind extend_iind : bool) : M loop_exit :=
  let iind := s32 (iindirect_pointer inode) in
  iind_block <- from_blockno iind ;;
  inner <- ptr_read iind_block id_ind ;;
  let ind := s32 inner in
  ind_block <- from_blockno ind ;;
  data <- alloc_data ;;
  if data =? -1 then
    iind_block <-
      (if extend_ind then
         p <- ptr_read iind_block id_ind ;;
         free_data (s32 p) ;;;
         ptr_write iind_block id_ind 0
       else ret iind_block) ;;
    commit iind iind_block ;;;
    if extend_iind then
      free_data (s32 (iindirect_pointer inode)) ;;;
      ret (Rollback (set_iindirect inode 0))
    else ret (Rollback inode)
  else
    ind_block <- ptr_write ind_block id_offset (u32 data) ;;
    commit ind ind_block ;;;
    ret (Continue inode).

(** The double-indirect tier, from the point where the outer block
    exists and a new inner block is due. *)
Definition grow_iindirect_inner (id_ind id_offset : Z) (inode : INode)
    (extend_iind : bool) : M loop_exit :=
  let iind := s32 (iindirect_pointer inode) in
  iind_block <- from_blockno iind ;;
  data <- alloc_data ;;
  if data =? -1 then
    if extend_iind then
      free_data (s32 (iindirect_pointer inode)) ;;;
      ret (Rollback (set_iindirect inode 0))
    else ret (Rollback inode)
  else
    _ <- from_blockno data ;;
    commit data zero_block ;;;
    iind_block <- ptr_write iind_block id_ind (u32 data) ;;
    commit iind iind_block ;;;
    grow_iindirect_fill id_ind id_offset inode true extend_iind.

(** The grow branch for the double-indirect tier. *)
Definition grow_iindirect (inode : INode) (block_now : Z) : M loop_exit :=
  let offset0 := block_now - (1 + POINTER_PER_BLOCK) in
  let id_ind := Z.quot offset0 POINTER_PER_BLOCK in
  let id_offset := Z.rem offset0 POINTER_PER_BLOCK in
  if id_offset =? 0 then
    if id_ind =? 0 then
      data <- alloc_data ;;
      if data =? -1 then ret (Rollback inode)
      else
        _ <- from_blockno data ;;
        commit data zero_block ;;;
        grow_iindirect_inner id_ind id_offset (set_iindirect inode data) true
    else grow_iindirect_inner id_ind id_offset inode false
  else grow_iindirect_fill id_ind id_offset inode false false.

Definition grow_step (inode : INode) (block_now : Z) : M loop_exit :=
  if block_now <? 1 then grow_direct inode
  else if block_now <? 1 + POINTER_PER_BLOCK then grow_indirect inode block_now
  else grow_iindirect inode block_now.

(** The shrink branch: releases logical block [block_now - 1]. *)
Definition shrink_step (inode : INode) (block_now : Z) : M INode :=
  let block_to_shrink := block_now - 1 in
  if block_to_shrink <? 1 then
    free_data (s32 (direct_pointer inode)) ;;;
    ret (set_direct inode 0)
  else if block_to_shrink <? 1 + POINTER_PER_BLOCK then
    let offset := block_to_shrink - 1 in
    let ind := s32 (indirect_pointer inode) in
    ind_block <- from_blockno ind ;;
    p <- ptr_read ind_block offset ;;
    free_data (s32 p) ;;;
    ind_block <- ptr_write ind_block offset 0 ;;
    commit ind ind_block ;;;
    if offset =? 0 then
      free_data (s32 (indirect_pointer inode)) ;;;
      ret (set_indirect inode 0)
    else ret inode
  else
    let offset0 := block_to_shrink - (1 + POINTER_PER_BLOCK) in
    let id_ind := Z.quot offset0 POINTER_PER_BLOCK in
    let id_offset := Z.rem offset0 POINTER_PER_BLOCK in
    let iind := s32 (iindirect_pointer inode) in
    iind_block <- from_blockno iind ;;
    inner <- ptr_read iind_block id_ind ;;
    let ind := s32 inner in
    ind_block <- from_blockno ind ;;
    p <- ptr_read ind_block id_offset ;;
    free_data (s32 p) ;;;
    ind_block <- ptr_write ind_block id_offset 0 ;;
    commit ind ind_block ;;;
    if id_offset =? 0 then
      free_data ind ;;;
      iind_block <- ptr_write iind_block id_ind 0 ;;
      commit iind iind_block ;;;
      if id_ind =? 0 then
        free_data iind ;;;
        ret (set_iindirect inode 0)
      else ret inode
    else ret inode.

(** The [while (block_now != block_need)] loop; [n] bounds the number of
    iterations and [|block_need - block_now|] always suffices. *)
Fixpoint resize_loop (n : nat) (block_need block_now : Z) (inode : INode)
  : M loop_exit :=
  if block_now =? block_need then ret (Continue inode)
  else
    match n with
    | O => no_fuel
    | S n' =>
        if block_now <? block_need then
          r <- grow_step inode block_now ;;
          match r with
          | Continue inode => resize_loop n' block_need (block_now + 1) inode
          | Rollback inode => ret (Rollback inode)
          end
        else
          inode <- shrink_step inode block_now ;;
          resize_loop n' block_need (block_now - 1) inode
    end.

(** [DataProxy::resize].  [size] is a [size_t]; [depth] bounds the nesting
    of the recursive call made at [ROLLBACK]. *)
Fixpoint resize (depth : nat) (inodeno : Z) (size : Z) : M Z :=
  match depth with
  | O => no_fuel
  | S depth' =>
      let block_need := Z.max 0 (s32 (u64 (size + BLOCK_SIZE - 1) / BLOCK_SIZE)) in
      block_now <- get_block_size inodeno ;;
      inode <- INodeProxy inodeno ;;
      now <- time ;;
      let inode := set_ctime inode now in
      let size_orig := filesize inode in
      r <- resize_loop (Z.to_nat (Z.abs (block_need - block_now)))
                       block_need block_now inode ;;
      match r with
      | Continue inode =>
          INodeProxy_commit inodeno (set_filesize inode size) ;;;
          ret 0
      | Rollback inode =>
          INodeProxy_commit inodeno inode ;;;
          _ <- resize depth' inodeno size_orig ;;
          ret ENOSPC
      end
  end.

(** ** Logical-to-physical mapping *)

Definition get_data_block (inodeno : Z) (datano : Z) : M Z :=
  inode <- INodeProxy inodeno ;;
  if datano =? 0 then
    assert (negb (direct_pointer inode =? 0)) ;;;
    ret (s32 (direct_pointer inode))
  else
    assert (negb (indirect_pointer inode =? 0)) ;;;
    if datano <? 1 + POINTER_PER_BLOCK then
      pointer <- from_blockno (s32 (indirect_pointer inode)) ;;
      p <- ptr_read pointer (datano - 1) ;;
      assert (negb (p =? 0)) ;;;
      ret (s32 p)
    else
      assert (negb (iindirect_pointer inode =? 0)) ;;;
      ipointer <- from_blockno (s32 (iindirect_pointer inode)) ;;
      let offset0 := datano - (1 + POINTER_PER_BLOCK) in
      let id_ind := Z.quot offset0 POINTER_PER_BLOCK in
      let id_offset := Z.rem offset0 POINTER_PER_BLOCK in
      q <- ptr_read ipointer id_ind ;;
      assert (negb (q =? 0)) ;;;
      pointer <- from_blockno (s32 q) ;;
      p <- ptr_read pointer id_offset ;;
      assert (negb (p =? 0)) ;;;
      ret (s32 p).

(** ** Byte I/O *)

(** [memcpy(target, datablock->data + off, n)]: the bytes of the block
    buffer from [off]; the buffer has [BLOCK_SIZE] bytes. *)
Definition copy_out (b : block) (off n : Z) : M (list Z) :=
  if off + n <=? BLOCK_SIZE
  then ret (map (fun k => byte_at b (off + Z.of_nat k)) (seq 0 (Z.to_nat n)))
  else fault.

(** [memcpy(datablock->data + off, source, n)]. *)
Definition copy_in (b : block) (off n : Z) (source : list Z) : M block :=
  if off + n <=? BLOCK_SIZE
  then ret (fun i =>
              if (off <=? i) && (i <? off + n)
              then nth (Z.to_nat (i - off)) source 0 mod 256
              else b i)
  else fault.

(** The loop of [DataProxy::read]; [n] bounds the iterations. *)
Fixpoint read_loop (n : nat) (inodeno offset size : Z) (acc : list Z)
  : M (list Z) :=
  if size =? 0 then ret acc
  else
    match n with
    | O => no_fuel
    | S n' =>
        let datano := offset / BLOCK_SIZE in
        block_no <- get_data_block inodeno (s32 datano) ;;
        let offset_in_block := offset mod BLOCK_SIZE in
        let bytes_to_read := Z.min size BLOCK_SIZE in
        datablock <- from_blockno block_no ;;
        bytes <- copy_out datablock offset_in_block bytes_to_read ;;
        read_loop n' inodeno (u64 (offset + bytes_to_read))
                  (u64 (size - bytes_to_read)) (acc ++ bytes)
    end.

(** [DataProxy::read]: the value returned and the bytes stored through
    [target], in order. *)
Definition read (inodeno offset size : Z) : M (Z * list Z) :=
  inode <- INodeProxy inodeno ;;
  now <- time ;;
  let inode := set_atime inode now in
  INodeProxy_commit inodeno inode ;;;
  let size := u64 (Z.min (u64 (offset + size)) (filesize inode) - offset) in
  out <- read_loop (Z.to_nat size) inodeno offset size [] ;;
  ret (size, out).

(** The loop of [DataProxy::write]. *)
Fixpoint write_loop (n : nat) (inodeno offset size : Z) (source : list Z)
  : M unit :=
  if size =? 0 then ret tt
  else
    match n with
    | O => no_fuel
    | S n' =>
        let datano := offset / BLOCK_SIZE in
        block_no <- get_data_block inodeno (s32 datano) ;;
        let offset_in_block := offset mod BLOCK_SIZE in
        let bytes_to_write := Z.min size BLOCK_SIZE in
        datablock <- from_blockno block_no ;;
        datablock <- copy_in datablock offset_in_block bytes_to_write source ;;
        commit block_no datablock ;;;
        write_loop n' inodeno (u64 (offset + bytes_to_write))
                   (u64 (size - bytes_to_write))
                   (skipn (Z.to_nat bytes_to_write) source)
    end.

Definition write (inodeno offset size : Z) (source : list Z) : M Z :=
  inode <- INodeProxy inodeno ;;
  now <- time ;;
  let inode := set_mtime inode now in
  INodeProxy_commit inodeno inode ;;;
  let size :=
    if filesize inode <? u64 (offset + size)
    then u64 (filesize inode - offset) else size in
  write_loop (Z.to_nat size) inodeno offset size source ;;;
  ret size.

(** ** mkfs *)

(** The loop of [Disk::mkfs] that writes the zeroed bitmap buffer to the
    [n] blocks from [i]. *)
Fixpoint zero_blocks (n : nat) (i : Z) : M unit :=
  match n with
  | O => ret tt
  | S n' => commit i zero_block ;;; zero_blocks n' (i + 1)
  end.

Definition Disk_mkfs (depth : nat) : M Z :=
  header <- from_blockno 0 ;;
  let header := new_HeaderBlock header in
  commit 0 header ;;;
  _ <- from_blockno 1 ;;
  zero_blocks (Z.to_nat (inode_block_offset header - 1)) 1 ;;;
  rootINodeNo <- alloc_inode ;;
  rootINode <- INodeProxy rootINodeNo ;;
  now <- time ;;
  let rootINode := set_mtime rootINode now in
  let rootINode := set_ctime rootINode (mtime rootINode) in
  let rootINode := set_atime rootINode (ctime rootINode) in
  let rootINode := set_filesize rootINode 0 in
  let rootINode := set_type rootINode TYPE_DIRECTORY in
  let rootINode := set_iindirect rootINode 0 in
  let rootINode := set_indirect rootINode 0 in
  let rootINode := set_direct rootINode 0 in
  INodeProxy_commit rootINodeNo rootINode ;;;
  _ <- resize depth rootINodeNo 0 ;;
  ret 0.

Definition mkfs (depth : nat) : M Z :=
  _ <- Disk_mkfs depth ;;
  ret 0.

(** ** Directories

    A [DirectoryProxy::Item] is 32 bytes: the 32-bit [file_inode] and the
    28 bytes of [filename]. *)

Definition ITEM_SIZE : Z := 32.

Definition Item := list Z.

Definition item_file_inode (it : Item) : Z :=
  get32 (fun i => nth (Z.to_nat i) it 0) 0.

(** The C string that starts a character array: the bytes before the
    first NUL, if there is one. *)
Fixpoint cstr (l : list Z) : option (list Z) :=
  match l with
  | [] => None
  | c :: l' => if c =? 0 then Some []
               else match cstr l' with
                    | Some r => Some (c :: r)
                    | None => None
                    end
  end.

Definition item_filename (it : Item) : option (list Z) := cstr (skipn 4 it).

(** The bytes of a 32-bit value, least significant first. *)
Definition le32_bytes (v : Z) : list Z :=
  [v mod 256; (v / 256) mod 256; (v / 65536) mod 256; (v / 16777216) mod 256].

(** An [Item] declared without initialiser, after
    [strcpy(item.filename, name)] and [item.file_inode = ino]: the bytes
    behind the terminating NUL keep whatever the stack held. *)
Definition make_item (jk : Z -> Z) (ino : Z) (name : list Z) : Item :=
  let used := 4 + Z.of_nat (length name) + 1 in
  le32_bytes (u32 ino) ++ name ++ [0] ++
  map (fun k => jk (used + Z.of_nat k) mod 256)
      (seq 0 (Z.to_nat (ITEM_SIZE - used))).

(** [strcpy(path.filename, name)] on an existing item. *)
Definition rename_item (it : Item) (name : list Z) : Item :=
  let used := (4 + length name + 1)%nat in
  firstn 4 it ++ name ++ [0] ++ skipn used it.

Definition list_eqb (a b : list Z) : bool :=
  (length a =? length b)%nat && forallb (fun p => fst p =? snd p) (combine a b).

(** [item.filename == name], comparing against a [std::string]. *)
Definition filename_eq (it : Item) (name : list Z) : M bool :=
  match item_filename it with
  | Some n => ret (list_eqb n name)
  | None => fault
  end.

Definition dir_length (inodeno : Z) : M Z :=
  inode <- INodeProxy inodeno ;;
  ret (s32 (filesize inode / ITEM_SIZE)).

Definition dir_set (inodeno index : Z) (item : Item) : M unit :=
  len <- dir_length inodeno ;;
  assert (index <? len) ;;;
  _ <- write inodeno (u64 (index * ITEM_SIZE)) ITEM_SIZE item ;;
  ret tt.

Definition dir_get (inodeno index : Z) : M Item :=
  len <- dir_length inodeno ;;
  assert (index <? len) ;;;
  r <- read inodeno (u64 (index * ITEM_SIZE)) ITEM_SIZE ;;
  s <- get_state ;;
  let got := snd r in
  ret (got ++ map (fun k => junk s (Z.of_nat k) mod 256)
                  (seq (length got) (Z.to_nat ITEM_SIZE - length got))).

Definition dir_push (depth : nat) (inodeno : Z) (item : Item) : M Z :=
  len <- dir_length inodeno ;;
  let file_length := s32 (u64 ((len + 1) * ITEM_SIZE)) in
  err <- resize depth inodeno (u64 file_length) ;;
  if negb (err =? 0) then ret err
  else dir_set inodeno len item ;;; ret 0.

Definition dir_erase (depth : nat) (inodeno index : Z) : M unit :=
  len <- dir_length inodeno ;;
  last <- dir_get inodeno (len - 1) ;;
  dir_set inodeno index last ;;;
  err <- resize depth inodeno (u64 ((len - 1) * ITEM_SIZE)) ;;
  assert (err =? 0).

(** ** Path operations (fs.cpp) *)

(** The loop of [get_file_in_inode] over the entries [i .. i+n). *)
Fixpoint find_entry (n : nat) (inodeno i : Z) (name : list Z) : M Z :=
  match n with
  | O => ret (-1)
  | S n' =>
      file <- dir_get inodeno i ;;
      e <- filename_eq file name ;;
      if e then ret (s32 (item_file_inode file))
      else find_entry n' inodeno (i + 1) name
  end.

Definition get_file_in_inode (inodeno : Z) (name : list Z) : M Z :=
  len <- dir_length inodeno ;;
  find_entry (Z.to_nat len) inodeno 0 name.

Definition SLASH : Z := 47.

(** [std::string::find(c, pos)] as the [int] it is stored in: the index
    of the first [c] at or after [pos], [-1] for [npos].  [i] is the
    index of the head of [l]. *)
Fixpoint find_from (c : Z) (l : list Z) (i pos : Z) : Z :=
  match l with
  | [] => -1
  | x :: l' => if (pos <=? i) && (x =? c) then i else find_from c l' (i + 1) pos
  end.

Definition str_find (str : list Z) (c pos : Z) : Z :=
  if pos <? 0 then -1 else find_from c str 0 pos.

(** [find_first_not_of(c)]. *)
Fixpoint first_not_of (c : Z) (l : list Z) (i : Z) : Z :=
  match l with
  | [] => -1
  | x :: l' => if x =? c then first_not_of c l' (i + 1) else i
  end.

(** [find_last_of(c)]; [None] stands for [npos]. *)
Fixpoint last_of (c : Z) (l : list Z) (i : Z) (found : option Z) : option Z :=
  match l with
  | [] => found
  | x :: l' => last_of c l' (i + 1) (if x =? c then Some i else found)
  end.

Definition substr (str : list Z) (pos n : Z) : list Z :=
  firstn (Z.to_nat n) (skipn (Z.to_nat pos) str).

(** The [while (end != npos)] loop of [split_path]. *)
Fixpoint split_loop (n : nat) (str : list Z) (start stop : Z) : list (list Z) :=
  if stop =? -1 then
    if (0 <=? start) && (start <? Z.of_nat (length str))
    then [skipn (Z.to_nat start) str] else []
  else
    match n with
    | O => []
    | S n' =>
        substr str start (stop - start)
          :: split_loop n' str (stop + 1) (str_find str SLASH (stop + 1))
    end.

Definition split_path (str : list Z) : list (list Z) :=
  let start := first_not_of SLASH str 0 in
  let stop := str_find str SLASH start in
  split_loop (S (length str)) str start stop.

(** The loop of [get_inode_from_path] over the remaining components. *)
Fixpoint walk (names : list (list Z)) (now_inode : Z) : M Z :=
  match names with
  | [] => ret now_inode
  | name :: rest =>
      n <- get_file_in_inode now_inode name ;;
      if n =? -1 then ret (-1) else walk rest n
  end.

Definition get_inode_from_path (path : list Z) : M Z :=
  walk (split_path path) 0.

(** [strpath.substr(0, strpath.find_last_of('/'))]. *)
Definition path_dirname (path : list Z) : list Z :=
  match last_of SLASH path 0 None with
  | Some i => firstn (Z.to_nat i) path
  | None => path
  end.

(** [strpath.substr(strpath.find_last_of('/') + 1)]. *)
Definition path_filename (path : list Z) : list Z :=
  match last_of SLASH path 0 None with
  | Some i => skipn (Z.to_nat (i + 1)) path
  | None => path
  end.

Definition zero_inode : INode := mkINode 0 0 0 0 0 0 0 0.

Definition make_node (depth : nat) (path : list Z) (mode : Z) : M Z :=
  let dirname := path_dirname path in
  let name := path_filename path in
  dirnode <- get_inode_from_path dirname ;;
  if dirnode =? -1 then ret (- ENOENT)
  else
    filenode <- get_file_in_inode dirnode name ;;
    if filenode =? -1 then
      if 24 <? Z.of_nat (length name) then ret (- ENOSPC)
      else
        n <- alloc_inode ;;
        s <- get_state ;;
        let item := make_item (junk s) n name in
        if u32 n =? u32 (-1) then ret (- ENOSPC)
        else
          let ino := s32 (u32 n) in
          _ <- INodeProxy ino ;;
          now <- time ;;
          let inode := set_mtime zero_inode now in
          let inode := set_atime inode (mtime inode) in
          let inode := set_ctime inode (atime inode) in
          let inode := set_type inode mode in
          INodeProxy_commit ino inode ;;;
          err <- dir_push depth dirnode item ;;
          if negb (err =? 0) then
            free_inode ino ;;;
            ret (- err)
          else ret 0
    else ret 0.

(** The loop of [delete_node] over the entries [i .. i+n). *)
Fixpoint delete_loop (depth : nat) (n : nat) (dirnode filenode i : Z)
                     (name : list Z) : M Z :=
  match n with
  | O => abort
  | S n' =>
      file <- dir_get dirnode i ;;
      e <- filename_eq file name ;;
      if e then
        dir_erase depth dirnode i ;;;
        free_inode filenode ;;;
        ret 0
      else delete_loop depth n' dirnode filenode (i + 1) name
  end.

Definition delete_node (depth : nat) (path : list Z) : M Z :=
  let dirname := path_dirname path in
  let name := path_filename path in
  dirnode <- get_inode_from_path dirname ;;
  if dirnode =? -1 then ret (- ENOENT)
  else
    filenode <- get_file_in_inode dirnode name ;;
    if filenode =? -1 then ret (- ENOENT)
    else
      _ <- resize depth filenode 0 ;;
      len <- dir_length dirnode ;;
      delete_loop depth (Z.to_nat len) dirnode filenode 0 name.

Definition fs_mknod (depth : nat) (path : list Z) : M Z :=
  make_node depth path TYPE_FILE.
Definition fs_mkdir (depth : nat) (path : list Z) : M Z :=
  make_node depth path TYPE_DIRECTORY.
Definition fs_rmdir (depth : nat) (path : list Z) : M Z :=
  delete_node depth path.
Definition fs_unlink (depth : nat) (path : list Z) : M Z :=
  delete_node depth path.

(** [fs_open]: the file handle, or [None] with the returned [-ENOENT]. *)
Definition fs_open (path : list Z) : M (Z * option Z) :=
  n <- walk (split_path path) 0 ;;
  if n =? -1 then ret (- ENOENT, None) else ret (0, Some n).

(** [fs_read]: the [int] returned and the bytes stored in the buffer. *)
Definition fs_read (fh size offset : Z) : M (Z * list Z) :=
  r <- read fh (u64 offset) size ;;
  ret (s32 (fst r), snd r).

Definition fs_write (depth : nat) (fh : Z) (buffer : list Z) (size offset : Z)
  : M Z :=
  inode <- INodeProxy fh ;;
  err <- (if filesize inode <? u64 (size + offset)
          then resize depth fh (u64 (size + offset)) else ret 0) ;;
  if negb (err =? 0) then ret (- err)
  else
    n <- write fh (u64 offset) size buffer ;;
    ret (s32 n).

Definition fs_truncate (depth : nat) (path : list Z) (size : Z) : M Z :=
  now_inode <- get_inode_from_path path ;;
  if now_inode =? -1 then ret (- ENOENT)
  else
    r <- resize depth now_inode (u64 size) ;;
    ret (- r).

End FS.

(** Character codes of a string literal. *)
Fixpoint bytes_of_string (s : string) : list Z :=
  match s with
  | EmptyString => []
  | String c s' => Z.of_N (N_of_ascii c) :: bytes_of_string s'
  end.

(** * Views of the device and invariants *)

(** The integers [0, n). *)
Definition zrange (n : Z) : list Z := map Z.of_nat (seq 0 (Z.to_nat n)).

Section Views.

Context {G : Geometry}.

(** What the code assumes of disk.h: blocks hold whole inode records,
    bitmap words and pointers, and bit positions fit an [int]. *)
Definition geometry_ok : bool :=
  (64 <=? BLOCK_SIZE) && (BLOCK_SIZE mod 32 =? 0) && (BLOCK_SIZE * 8 <? 2 ^ 31).

(** Bit [p] of the bitmap whose first block is [start]. *)
Definition bitmap_bit (d : Z -> block) (start p : Z) : bool :=
  bb_get (d (start + p / siz)) (p mod siz).

Definition inode_bit (d : Z -> block) (p : Z) : bool :=
  bitmap_bit d (inode_bitmap_offset (d 0)) p.

Definition data_bit (d : Z -> block) (p : Z) : bool :=
  bitmap_bit d (data_block_bitmap_offset (d 0)) p.

(** Number of bits the blocks of each bitmap hold. *)
Definition inode_bits (h : block) : Z :=
  (data_block_bitmap_offset h - inode_bitmap_offset h) * siz.

Definition data_bits (h : block) : Z :=
  (inode_block_offset h - data_block_bitmap_offset h) * siz.

(** Number of set bits among the first [nbits] positions. *)
Definition popcount (d : Z -> block) (start nbits : Z) : Z :=
  Z.of_nat (length (filter (bitmap_bit d start) (zrange nbits))).

(** The superblock lays the regions out in order, after block 0, and
    every data block number fits an [int]. *)
Definition hdr_ok (h : block) : bool :=
  (1 <=? inode_bitmap_offset h) &&
  (inode_bitmap_offset h <=? data_block_bitmap_offset h) &&
  (data_block_bitmap_offset h <=? inode_block_offset h) &&
  (inode_block_offset h <=? data_block_offset h) &&
  (data_block_offset h <=? BLOCK_NUM) &&
  (data_block_offset h + data_bits h <? 2 ^ 31) &&
  (inode_bits h <? 2 ^ 31).

(** The superblock fields that no operation after [mkfs] changes. *)
Definition same_geometry (h h' : block) : Prop :=
  inode_num_tot h' = inode_num_tot h /\
  inode_bitmap_offset h' = inode_bitmap_offset h /\
  inode_block_offset h' = inode_block_offset h /\
  data_block_num_tot h' = data_block_num_tot h /\
  data_block_bitmap_offset h' = data_block_bitmap_offset h /\
  data_block_offset h' = data_block_offset h.

(** Invariants 1 and 2 of the data model: each free count is the total
    minus the number of set bits of its bitmap. *)
Definition counts_ok (d : Z -> block) : bool :=
  let h := d 0 in
  (inode_num_free h =? inode_num_tot h - popcount d (inode_bitmap_offset h) (inode_bits h)) &&
  (data_block_num_free h =? data_block_num_tot h - popcount d (data_block_bitmap_offset h) (data_bits h)).

Definition inode_used (d : Z -> block) : Z :=
  popcount d (inode_bitmap_offset (d 0)) (inode_bits (d 0)).

Definition data_used (d : Z -> block) : Z :=
  popcount d (data_block_bitmap_offset (d 0)) (data_bits (d 0)).

(** Both hints are positions an [int] holds. *)
Definition hints_in_range (s : state) : bool :=
  (0 <=? data_bitmap_min_pos s) && (data_bitmap_min_pos s <? 2 ^ 31) &&
  (0 <=? inode_bitmap_min_pos s) && (inode_bitmap_min_pos s <? 2 ^ 31).

(** The allocator's invariant: a laid-out superblock whose free counts
    agree with the bitmaps. *)
Definition alloc_inv (s : state) : bool :=
  hdr_ok (disk s 0) && counts_ok (disk s) && hints_in_range s.

(** The hint discipline: every position below the hint is allocated. *)
Definition hint_ok (d : Z -> block) (start nbits hint : Z) : bool :=
  (0 <=? hint) && (hint <=? nbits) && forallb (bitmap_bit d start) (zrange hint).

Definition hints_ok (s : state) : bool :=
  let h := disk s 0 in
  hdr_ok h &&
  hint_ok (disk s) (inode_bitmap_offset h) (inode_bits h) (inode_bitmap_min_pos s) &&
  hint_ok (disk s) (data_block_bitmap_offset h) (data_bits h) (data_bitmap_min_pos s).

(** ** Sequences of allocator calls *)

Inductive alloc_op : Type :=
| OpAllocInode
| OpFreeInode (inodeno : Z)
| OpAllocData
| OpFreeData (datano : Z).

Definition run_op (o : alloc_op) : M Z :=
  match o with
  | OpAllocInode => alloc_inode
  | OpFreeInode n => free_inode n ;;; ret 0
  | OpAllocData => alloc_data
  | OpFreeData b => free_data b ;;; ret 0
  end.

Fixpoint run_ops (l : list alloc_op) : M unit :=
  match l with
  | [] => ret tt
  | o :: l' => _ <- run_op o ;; run_ops l'
  end.

(** A free names an inode number, or a data block number, of this file
    system: a position inside the bitmap concerned. *)
Definition op_in_range (h : block) (o : alloc_op) : bool :=
  match o with
  | OpFreeInode n => (0 <=? n) && (n <? inode_bits h)
  | OpFreeData b =>
      (data_block_offset h <=? b) && (b - data_block_offset h <? data_bits h)
  | _ => true
  end.

(** What one allocator call did to the free count and to the number of
    set bits of its bitmap: nothing at all when an allocation reports no
    space, and both together otherwise; the other bitmap and count stay. *)
Definition op_effect (o : alloc_op) (s : state) (r : Z) (s' : state) : Prop :=
  let d := disk s in
  let d' := disk s' in
  match o with
  | OpAllocInode =>
      (r = -1 /\ s' = s) \/
      (r <> -1 /\
       inode_num_free (d' 0) = inode_num_free (d 0) - 1 /\
       inode_used d' = inode_used d + 1 /\
       data_block_num_free (d' 0) = data_block_num_free (d 0) /\
       data_used d' = data_used d)
  | OpFreeInode _ =>
      inode_num_free (d' 0) = inode_num_free (d 0) + 1 /\
      inode_used d' = inode_used d - 1 /\
      data_block_num_free (d' 0) = data_block_num_free (d 0) /\
      data_used d' = data_used d
  | OpAllocData =>
      (r = -1 /\ s' = s) \/
      (r <> -1 /\
       data_block_num_free (d' 0) = data_block_num_free (d 0) - 1 /\
       data_used d' = data_used d + 1 /\
       inode_num_free (d' 0) = inode_num_free (d 0) /\
       inode_used d' = inode_used d)
  | OpFreeData _ =>
      data_block_num_free (d' 0) = data_block_num_free (d 0) + 1 /\
      data_used d' = data_used d - 1 /\
      inode_num_free (d' 0) = inode_num_free (d 0) /\
      inode_used d' = inode_used d
  end.

(** The lowest clear position among the first [n] of a bitmap, [-1] when
    all are set: a scan that starts from position 0. *)
Definition lowest_clear (d : Z -> block) (start nbits : Z) : Z :=
  match filter (fun p => negb (bitmap_bit d start p)) (zrange nbits) with
  | [] => -1
  | p :: _ => p
  end.

End Views.

(** * The extent of one inode *)

(** The integers [a, b). *)
Definition zrange_from (a b : Z) : list Z := map (fun k => a + k) (zrange (b - a)).

(** No element occurs twice. *)
Fixpoint nodupb (l : list Z) : bool :=
  match l with
  | [] => true
  | x :: t => negb (existsb (Z.eqb x) t) && nodupb t
  end.

Section Extent.

Context {G : Geometry}.

(** The inode record [inodeno] as it stands on the device. *)
Definition inode_at (d : Z -> block) (inodeno : Z) : INode :=
  load_inode (d (inode_block_offset (d 0) + inodeno / INODE_IN_BLOCK))
             (inodeno mod INODE_IN_BLOCK).

(** [inodeno] names a record of the inode table. *)
Definition inode_ok (h : block) (inodeno : Z) : bool :=
  (0 <=? inodeno) && (inodeno <? 2 ^ 31) &&
  (inode_block_offset h + inodeno / INODE_IN_BLOCK <? data_block_offset h).

(** Blocks a file of three full tiers holds, and the largest count for
    which the last inner pointer block is still unused. *)
Definition CAP : Z := 1 + POINTER_PER_BLOCK + POINTER_PER_BLOCK * POINTER_PER_BLOCK.
Definition TOP : Z := 1 + POINTER_PER_BLOCK + (POINTER_PER_BLOCK - 1) * POINTER_PER_BLOCK.

(** [ceil(size / BLOCK_SIZE)]. *)
Definition blocks_for (size : Z) : Z := (size + BLOCK_SIZE - 1) / BLOCK_SIZE.

Definition ind_slot (d : Z -> block) (ino : INode) (j : Z) : Z :=
  get_pointer (d (indirect_pointer ino)) j.

Definition outer_slot (d : Z -> block) (ino : INode) (i : Z) : Z :=
  get_pointer (d (iindirect_pointer ino)) i.

Definition inner_slot (d : Z -> block) (ino : INode) (i j : Z) : Z :=
  get_pointer (d (outer_slot d ino i)) j.

(** The mapping L2P of the specification, read off the device. *)
Definition l2p (d : Z -> block) (ino : INode) (k : Z) : Z :=
  if k =? 0 then direct_pointer ino
  else if k <? 1 + POINTER_PER_BLOCK then ind_slot d ino (k - 1)
  else
    let o := k - (1 + POINTER_PER_BLOCK) in
    inner_slot d ino (o / POINTER_PER_BLOCK) (o mod POINTER_PER_BLOCK).

(** Number of inner pointer blocks a file of [n] blocks uses. *)
Definition n_inner (n : Z) : Z :=
  if n <=? 1 + POINTER_PER_BLOCK then 0
  else (n - (2 + POINTER_PER_BLOCK)) / POINTER_PER_BLOCK + 1.

(** The pointer blocks and data blocks of a file of [n] blocks. *)
Definition ptr_blocks (d : Z -> block) (ino : INode) (n : Z) : list Z :=
  (if 2 <=? n then [indirect_pointer ino] else []) ++
  (if 1 + POINTER_PER_BLOCK <? n
   then iindirect_pointer ino :: map (outer_slot d ino) (zrange (n_inner n))
   else []).

Definition data_blocks (d : Z -> block) (ino : INode) (n : Z) : list Z :=
  map (l2p d ino) (zrange n).

(** The pointer blocks that the step from [n] to [n + 1] blocks adds. *)
Definition new_ptrs (d : Z -> block) (ino : INode) (n : Z) : list Z :=
  (if n =? 1 then [indirect_pointer ino] else []) ++
  (if n =? 1 + POINTER_PER_BLOCK then [iindirect_pointer ino] else []) ++
  (if (1 + POINTER_PER_BLOCK <=? n) &&
      ((n - (1 + POINTER_PER_BLOCK)) mod POINTER_PER_BLOCK =? 0)
   then [outer_slot d ino ((n - (1 + POINTER_PER_BLOCK)) / POINTER_PER_BLOCK)]
   else []).

(** Number of blocks, pointer blocks included, of a file of [n] blocks. *)
Definition nblocks (n : Z) : Z :=
  n + (if 2 <=? n then 1 else 0) +
  (if 1 + POINTER_PER_BLOCK <? n then 1 + n_inner n else 0).

Definition owned (d : Z -> block) (ino : INode) (n : Z) : list Z :=
  ptr_blocks d ino n ++ data_blocks d ino n.

(** [b] is a block of the data region whose bitmap bit is set
    (invariant 3 of the data model). *)
Definition valid_block (d : Z -> block) (b : Z) : bool :=
  (data_block_offset (d 0) <=? b) &&
  (b - data_block_offset (d 0) <? data_bits (d 0)) &&
  data_bit d (b - data_block_offset (d 0)).

Definition valid_ptr_block (d : Z -> block) (b : Z) : bool :=
  valid_block d b && (b <? BLOCK_NUM).

(** Invariant 5: every slot behind the last one in use is zero. *)
Definition zeros_ok (d : Z -> block) (ino : INode) (n : Z) : bool :=
  (if n =? 0 then direct_pointer ino =? 0 else true) &&
  (if n <=? 1 then indirect_pointer ino =? 0
   else forallb (fun j => ind_slot d ino j =? 0)
                (zrange_from (n - 1) POINTER_PER_BLOCK)) &&
  (if n <=? 1 + POINTER_PER_BLOCK then iindirect_pointer ino =? 0
   else
     forallb (fun i => outer_slot d ino i =? 0)
             (zrange_from (n_inner n) POINTER_PER_BLOCK) &&
     (let o := n - (1 + POINTER_PER_BLOCK) in
      if o mod POINTER_PER_BLOCK =? 0 then true
      else forallb (fun j => inner_slot d ino (o / POINTER_PER_BLOCK) j =? 0)
                   (zrange_from (o mod POINTER_PER_BLOCK) POINTER_PER_BLOCK))).

(** The pointer fields are 32-bit values. *)
Definition inode_norm (ino : INode) : bool :=
  (0 <=? filesize ino) && (filesize ino <? 2 ^ 32) &&
  (0 <=? direct_pointer ino) && (direct_pointer ino <? 2 ^ 32) &&
  (0 <=? indirect_pointer ino) && (indirect_pointer ino <? 2 ^ 32) &&
  (0 <=? iindirect_pointer ino) && (iindirect_pointer ino <? 2 ^ 32).

(** The in-memory inode [ino] describes, over device [d], a file of
    exactly [n] blocks: its blocks are allocated and pairwise distinct,
    and the tiers are filled from the lowest index upward. *)
Definition wf_mem (d : Z -> block) (ino : INode) (n : Z) : bool :=
  (0 <=? n) && (n <=? CAP) && inode_norm ino &&
  forallb (valid_ptr_block d) (ptr_blocks d ino n) &&
  forallb (valid_block d) (data_blocks d ino n) &&
  nodupb (owned d ino n) &&
  zeros_ok d ino n.

(** The file [inodeno] is well formed on the device of [s]: invariants
    3, 4 and 5 of the data model for this inode. *)
Definition fs_wf (s : state) (inodeno : Z) : bool :=
  let d := disk s in
  hdr_ok (d 0) && inode_ok (d 0) inodeno &&
  (0 <=? data_bitmap_min_pos s) && (data_bitmap_min_pos s <? 2 ^ 31) &&
  wf_mem d (inode_at d inodeno) (blocks_for (filesize (inode_at d inodeno))) &&
  (blocks_for (filesize (inode_at d inodeno)) <=? TOP).

(** A size the 32-bit [filesize] field holds, small enough for the last
    inner pointer block to stay unused. *)
Definition size_ok (size : Z) : bool :=
  (0 <=? size) && (size <? 2 ^ 32) && (blocks_for size <=? TOP).

(** A run of [resize] calls on one inode, each returning 0. *)
Inductive resize_chain (depth : nat) (inodeno : Z)
  : state -> list Z -> state -> Prop :=
| chain_nil s : resize_chain depth inodeno s [] s
| chain_cons s size s1 rest s2 :
    resize depth inodeno size s = Ok 0 s1 ->
    resize_chain depth inodeno s1 rest s2 ->
    resize_chain depth inodeno s (size :: rest) s2.

End Extent.

(** * Machine integers, bytes and bits *)

Lemma u32_small x : 0 <= x < 2 ^ 32 -> u32 x = x.
Proof. intros H. unfold u32. apply Z.mod_small; lia. Qed.

Lemma u32_range x : 0 <= u32 x < 2 ^ 32.
Proof. unfold u32. apply Z.mod_pos_bound. lia. Qed.

Lemma u64_small x : 0 <= x < 2 ^ 64 -> u64 x = x.
Proof. intros H. unfold u64. apply Z.mod_small; lia. Qed.

Lemma u64_range x : 0 <= u64 x < 2 ^ 64.
Proof. unfold u64. apply Z.mod_pos_bound. lia. Qed.

Lemma s32_small x : 0 <= x < 2 ^ 31 -> s32 x = x.
Proof. intros H. unfold s32. rewrite Z.mod_small; lia. Qed.

Lemma s32_range x : - 2 ^ 31 <= s32 x < 2 ^ 31.
Proof.
  unfold s32. pose proof (Z.mod_pos_bound (x + 2 ^ 31) (2 ^ 32)). lia.
Qed.

(** A non-negative [int] obtained from a 32-bit value is that value. *)
Lemma s32_nonneg_inv x : 0 <= x < 2 ^ 32 -> 0 <= s32 x -> s32 x = x.
Proof.
  intros H H0. unfold s32 in *.
  destruct (Z_lt_le_dec x (2 ^ 31)).
  - rewrite Z.mod_small; lia.
  - replace (x + 2 ^ 31) with (x - 2 ^ 31 + 1 * 2 ^ 32) in H0 by lia.
    rewrite Z.mod_add in H0 by lia. rewrite Z.mod_small in H0; lia.
Qed.

Lemma s32_u32_neg x : - 2 ^ 31 <= x < 0 -> s32 (u32 x) = x.
Proof.
  intros H. unfold s32, u32.
  replace x with (x + 2 ^ 32 + (-1) * 2 ^ 32) at 1 by lia.
  rewrite Z.mod_add by lia. rewrite (Z.mod_small (x + 2 ^ 32)) by lia.
  replace (x + 2 ^ 32 + 2 ^ 31) with (x + 2 ^ 31 + 1 * 2 ^ 32) by lia.
  rewrite Z.mod_add by lia. rewrite Z.mod_small; lia.
Qed.

Lemma byte_at_range b i : 0 <= byte_at b i < 256.
Proof. unfold byte_at. apply Z.mod_pos_bound. lia. Qed.

Lemma get_le_range n b off : 0 <= get_le n b off < 256 ^ Z.of_nat n.
Proof.
  revert off. induction n as [|n IH]; intros off.
  - simpl. lia.
  - cbn [get_le]. pose proof (byte_at_range b off). specialize (IH (off + 1)).
    rewrite Nat2Z.inj_succ, Z.pow_succ_r by lia. lia.
Qed.

Lemma get32_range b off : 0 <= get32 b off < 2 ^ 32.
Proof. unfold get32. pose proof (get_le_range 4 b off). simpl in *. lia. Qed.

Lemma get64_range b off : 0 <= get64 b off < 2 ^ 64.
Proof. unfold get64. pose proof (get_le_range 8 b off). simpl in *. lia. Qed.

Lemma get_le_ext n b b' off :
  (forall i, off <= i < off + Z.of_nat n -> b i = b' i) ->
  get_le n b off = get_le n b' off.
Proof.
  revert off. induction n as [|n IH]; intros off H; [reflexivity|].
  cbn [get_le]. unfold byte_at. rewrite (H off) by lia.
  rewrite (IH (off + 1)); [reflexivity|]. intros i Hi. apply H. lia.
Qed.

Lemma get_le_set_le_other n m b off off' v :
  off' + Z.of_nat m <= off \/ off + Z.of_nat n <= off' ->
  get_le m (set_le n b off v) off' = get_le m b off'.
Proof.
  intros H. apply get_le_ext. intros i Hi. unfold set_le.
  destruct (off <=? i) eqn:E1; destruct (i <? off + Z.of_nat n) eqn:E2;
    simpl; try reflexivity. lia.
Qed.

Lemma get_le_shift n b b' off off' :
  (forall k, 0 <= k < Z.of_nat n -> b (off + k) mod 256 = b' (off' + k) mod 256) ->
  get_le n b off = get_le n b' off'.
Proof.
  revert off off'. induction n as [|n IH]; intros off off' H; [reflexivity|].
  cbn [get_le]. unfold byte_at.
  specialize (H 0 ltac:(lia)) as H0. rewrite !Z.add_0_r in H0. rewrite H0.
  rewrite (IH (off + 1) (off' + 1)); [reflexivity|].
  intros k Hk. rewrite <- !Z.add_assoc. apply H. lia.
Qed.

Lemma get_le_digits n v :
  get_le n (fun k => v / 256 ^ k) 0 = v mod 256 ^ Z.of_nat n.
Proof.
  revert v. induction n as [|n IH]; intros v.
  - simpl. now rewrite Z.mod_1_r.
  - cbn [get_le]. unfold byte_at.
    rewrite (get_le_shift n _ (fun k => (v / 256) / 256 ^ k) (0 + 1) 0).
    + rewrite IH. simpl (256 ^ 0). rewrite Z.div_1_r.
      rewrite Nat2Z.inj_succ, Z.pow_succ_r by lia.
      rewrite (Z.rem_mul_r v 256 (256 ^ Z.of_nat n)) by lia. reflexivity.
    + intros k Hk. cbv beta. rewrite Z.div_div by lia.
      rewrite <- Z.pow_succ_r by lia. do 3 f_equal. lia.
Qed.

Lemma get_le_set_le_same n b off v :
  get_le n (set_le n b off v) off = v mod 256 ^ Z.of_nat n.
Proof.
  rewrite (get_le_shift n _ (fun k => v / 256 ^ k) off 0).
  - apply get_le_digits.
  - intros k Hk. unfold set_le.
    replace (off <=? off + k) with true by (symmetry; apply Z.leb_le; lia).
    replace (off + k <? off + Z.of_nat n) with true
      by (symmetry; apply Z.ltb_lt; lia).
    simpl. rewrite Z.mod_mod by lia. do 3 f_equal. lia.
Qed.

Lemma get32_set32_same b off v : get32 (set32 b off v) off = u32 v.
Proof. unfold get32, set32. rewrite get_le_set_le_same. reflexivity. Qed.

Lemma get32_set32_other b off off' v :
  off' + 4 <= off \/ off + 4 <= off' ->
  get32 (set32 b off v) off' = get32 b off'.
Proof. intros H. apply get_le_set_le_other. simpl. lia. Qed.

Lemma get64_set64_same b off v : get64 (set64 b off v) off = u64 v.
Proof. unfold get64, set64. rewrite get_le_set_le_same. reflexivity. Qed.

Lemma get64_set64_other b off off' v :
  off' + 8 <= off \/ off + 8 <= off' ->
  get64 (set64 b off v) off' = get64 b off'.
Proof. intros H. apply get_le_set_le_other. simpl. lia. Qed.

Lemma get32_zero_block off : get32 zero_block off = 0.
Proof. reflexivity. Qed.

Lemma get_pointer_range b i : 0 <= get_pointer b i < 2 ^ 32.
Proof. apply get32_range. Qed.

Lemma get_pointer_set_same b i v : get_pointer (set_pointer b i v) i = u32 v.
Proof. apply get32_set32_same. Qed.

Lemma get_pointer_set_other b i j v :
  i <> j -> get_pointer (set_pointer b i v) j = get_pointer b j.
Proof. intros H. apply get32_set32_other. lia. Qed.

Lemma get_pointer_zero i : get_pointer zero_block i = 0.
Proof. reflexivity. Qed.

Lemma upd_same d k v : upd d k v k = v.
Proof. unfold upd. now rewrite Z.eqb_refl. Qed.

Lemma upd_other d k v k' : k' <> k -> upd d k v k' = d k'.
Proof. intros H. unfold upd. destruct (Z.eqb_spec k' k); congruence. Qed.

(** ** Bits of 64-bit words *)

Lemma land_bit_zero x o :
  0 <= o -> (Z.land x (Z.shiftl 1 o) =? 0) = negb (Z.testbit x o).
Proof.
  intros Ho. destruct (Z.testbit x o) eqn:E; simpl.
  - apply Z.eqb_neq. intros H.
    assert (Z.testbit (Z.land x (Z.shiftl 1 o)) o = false)
      by (rewrite H; apply Z.bits_0).
    rewrite Z.land_spec, E, Z.shiftl_spec, Z.sub_diag in H0 by lia.
    discriminate.
  - apply Z.eqb_eq. apply Z.bits_inj'. intros n Hn.
    rewrite Z.land_spec, Z.bits_0, Z.shiftl_spec by lia.
    destruct (Z.eq_dec n o) as [->|Hne].
    + now rewrite E.
    + rewrite andb_false_iff. right.
      destruct (Z_lt_le_dec n o).
      * apply Z.testbit_neg_r. lia.
      * change 1 with (2 ^ 0). rewrite Z.pow2_bits_eqb by lia.
        apply Z.eqb_neq. lia.
Qed.

Lemma testbit_u64 x o : 0 <= o < 64 -> Z.testbit (u64 x) o = Z.testbit x o.
Proof. intros H. unfold u64. apply Z.mod_pow2_bits_low. lia. Qed.

Lemma testbit_shiftl_1 o n :
  0 <= o -> 0 <= n -> Z.testbit (Z.shiftl 1 o) n = (n =? o).
Proof.
  intros Ho Hn. rewrite Z.shiftl_spec by lia.
  destruct (Z.eqb_spec n o) as [->|Hne].
  - now rewrite Z.sub_diag.
  - destruct (Z_lt_le_dec n o).
    + apply Z.testbit_neg_r. lia.
    + change 1 with (2 ^ 0). rewrite Z.pow2_bits_eqb by lia.
      apply Z.eqb_neq. lia.
Qed.

Lemma lnot64_lnot x : 0 <= x < 2 ^ 64 -> lnot64 x = (Z.lnot x) mod 2 ^ 64.
Proof.
  intros H. unfold lnot64, Z.lnot.
  replace (Z.pred (- x)) with (2 ^ 64 - 1 - x + (-1) * 2 ^ 64) by lia.
  rewrite Z.mod_add by lia. rewrite Z.mod_small; lia.
Qed.

Lemma lnot64_range x : 0 <= x < 2 ^ 64 -> 0 <= lnot64 x < 2 ^ 64.
Proof. unfold lnot64. lia. Qed.

Lemma testbit_lnot64 x o :
  0 <= x < 2 ^ 64 -> 0 <= o < 64 ->
  Z.testbit (lnot64 x) o = negb (Z.testbit x o).
Proof.
  intros Hx Ho. rewrite lnot64_lnot by assumption.
  rewrite Z.mod_pow2_bits_low by lia. apply Z.lnot_spec. lia.
Qed.

Lemma lowest_set_from_spec n x i :
  0 <= i ->
  (exists k, i <= k < i + Z.of_nat n /\ Z.testbit x k = true) ->
  let r := lowest_set_from n x i in
  i <= r < i + Z.of_nat n /\ Z.testbit x r = true /\
  forall j, i <= j < r -> Z.testbit x j = false.
Proof.
  revert i. induction n as [|n IH]; intros i Hi [k [Hk Hb]]; [lia|].
  cbn [lowest_set_from]. destruct (Z.testbit x i) eqn:E.
  - cbv zeta. repeat split; try lia. assumption.
  - assert (Hk' : i + 1 <= k < i + 1 + Z.of_nat n).
    { destruct (Z.eq_dec k i) as [->|]; [congruence|lia]. }
    destruct (IH (i + 1) ltac:(lia) (ex_intro _ k (conj Hk' Hb)))
      as [H1 [H2 H3]].
    cbv zeta. repeat split; try lia; try assumption.
    intros j Hj. destruct (Z.eq_dec j i) as [->|]; [assumption|].
    apply H3. lia.
Qed.

Lemma nonzero_has_bit x :
  0 <= x < 2 ^ 64 -> x <> 0 -> exists k, 0 <= k < 64 /\ Z.testbit x k = true.
Proof.
  intros Hx Hne. exists (Z.log2 x). split.
  - split; [apply Z.log2_nonneg|]. apply Z.log2_lt_pow2; lia.
  - apply Z.bit_log2. lia.
Qed.

(** [ffsll y - 1] is the index of the lowest set bit of a nonzero word. *)
Lemma ffsll_spec y :
  0 <= y < 2 ^ 64 -> y <> 0 ->
  let k := ffsll y - 1 in
  0 <= k < 64 /\ Z.testbit y k = true /\
  forall j, 0 <= j < k -> Z.testbit y j = false.
Proof.
  intros Hy Hne. unfold ffsll.
  destruct (Z.eqb_spec y 0); [contradiction|].
  replace (1 + lowest_set_from 64 y 0 - 1) with (lowest_set_from 64 y 0) by lia.
  apply (lowest_set_from_spec 64 y 0); [lia|].
  destruct (nonzero_has_bit y Hy Hne) as [k [Hk Hb]].
  exists k. split; [simpl; lia|assumption].
Qed.

(** * The monad, bitmap blocks and bitmaps *)

(** Turns boolean comparisons in hypotheses and goal into propositions. *)
Ltac b2p :=
  repeat match goal with
  | H : _ && _ = true |- _ => apply andb_true_iff in H; destruct H
  | H : (_ <=? _) = true |- _ => apply Z.leb_le in H
  | H : (_ <? _) = true |- _ => apply Z.ltb_lt in H
  | H : (_ =? _) = true |- _ => apply Z.eqb_eq in H
  | H : (_ <=? _) = false |- _ => apply Z.leb_gt in H
  | H : (_ <? _) = false |- _ => apply Z.ltb_ge in H
  | H : (_ =? _) = false |- _ => apply Z.eqb_neq in H
  | H : negb _ = true |- _ => apply negb_true_iff in H
  | H : negb _ = false |- _ => apply negb_false_iff in H
  | |- _ && _ = true => apply andb_true_iff; split
  | |- (_ <=? _) = true => apply Z.leb_le
  | |- (_ <? _) = true => apply Z.ltb_lt
  | |- (_ =? _) = true => apply Z.eqb_eq
  | |- (_ <=? _) = false => apply Z.leb_gt
  | |- (_ <? _) = false => apply Z.ltb_ge
  | |- (_ =? _) = false => apply Z.eqb_neq
  end.

Lemma bind_Ok {A B} (m : M A) (f : A -> M B) s b s' :
  bind m f s = Ok b s' -> exists a s1, m s = Ok a s1 /\ f a s1 = Ok b s'.
Proof.
  unfold bind. destruct (m s) as [a s1| | |]; try discriminate. eauto.
Qed.

Lemma ret_Ok {A} (a b : A) s s' : ret a s = Ok b s' -> a = b /\ s = s'.
Proof. unfold ret. intros H. inversion H. auto. Qed.

Lemma assert_Ok c s u s' : assert c s = Ok u s' -> c = true /\ s' = s.
Proof.
  unfold assert. destruct c; unfold ret, abort; intros H; inversion H; auto.
Qed.

Lemma get_state_Ok s a s' : get_state s = Ok a s' -> a = s /\ s' = s.
Proof. unfold get_state. intros H. inversion H. auto. Qed.

Lemma put_state_Ok x s u s' : put_state x s = Ok u s' -> s' = x.
Proof. unfold put_state. intros H. inversion H. auto. Qed.

(** Decomposes a hypothesis [m s = Ok a s'] along the binds of [m]. *)
Ltac minv H :=
  match type of H with
  | bind _ _ _ = Ok _ _ =>
      let a := fresh "a" in let s1 := fresh "s" in
      let H1 := fresh "H" in let H2 := fresh "H" in
      apply bind_Ok in H; destruct H as [a [s1 [H1 H2]]];
      minv H1; minv H2
  | ret _ _ = Ok _ _ =>
      apply ret_Ok in H; destruct H; subst
  | assert _ _ = Ok _ _ =>
      apply assert_Ok in H; destruct H; subst
  | get_state _ = Ok _ _ =>
      apply get_state_Ok in H; destruct H; subst
  | put_state _ _ = Ok _ _ =>
      apply put_state_Ok in H; subst
  | abort _ = Ok _ _ => discriminate H
  | fault _ = Ok _ _ => discriminate H
  | no_fuel _ = Ok _ _ => discriminate H
  | _ => idtac
  end.

(** One step along a bind: names the value and state in between. *)
Tactic Notation "mstep" hyp(H) "as" ident(a) ident(s1) ident(H1) :=
  apply bind_Ok in H; destruct H as [a [s1 [H1 H]]].

Section BitmapLemmas.

Context {G : Geometry}.
Hypothesis Hgeo : geometry_ok = true.

Lemma geo_block_size : 64 <= BLOCK_SIZE /\ BLOCK_SIZE mod 32 = 0 /\ BLOCK_SIZE * 8 < 2 ^ 31.
Proof. unfold geometry_ok in Hgeo. b2p. auto. Qed.

Lemma geo_siz : siz = 64 * BITMAP_WORDS /\ 0 < BITMAP_WORDS /\ 0 < siz < 2 ^ 31.
Proof.
  destruct geo_block_size as [H1 [H2 H3]]. unfold siz, BITMAP_WORDS.
  pose proof (Z.div_mod BLOCK_SIZE 8 ltac:(lia)).
  assert (BLOCK_SIZE mod 8 = 0).
  { pose proof (Z.div_mod BLOCK_SIZE 32 ltac:(lia)).
    rewrite H2 in H0. rewrite H0, Z.add_0_r.
    replace (32 * (BLOCK_SIZE / 32)) with ((4 * (BLOCK_SIZE / 32)) * 8) by lia.
    apply Z.mod_mul. lia. }
  lia.
Qed.

Lemma geo_pointers : BLOCK_SIZE = 4 * POINTER_PER_BLOCK /\ 16 <= POINTER_PER_BLOCK.
Proof.
  destruct geo_block_size as [H1 [H2 H3]]. unfold POINTER_PER_BLOCK.
  pose proof (Z.div_mod BLOCK_SIZE 4 ltac:(lia)).
  assert (BLOCK_SIZE mod 4 = 0).
  { pose proof (Z.div_mod BLOCK_SIZE 32 ltac:(lia)).
    rewrite H2 in H0. rewrite H0, Z.add_0_r.
    replace (32 * (BLOCK_SIZE / 32)) with ((8 * (BLOCK_SIZE / 32)) * 4) by lia.
    apply Z.mod_mul. lia. }
  lia.
Qed.

Lemma geo_inodes : BLOCK_SIZE = 32 * INODE_IN_BLOCK /\ 2 <= INODE_IN_BLOCK.
Proof.
  destruct geo_block_size as [H1 [H2 H3]]. unfold INODE_IN_BLOCK, INODE_SIZE.
  pose proof (Z.div_mod BLOCK_SIZE 32 ltac:(lia)). lia.
Qed.

(** ** One bitmap block *)

Lemma bb_word_range b w : 0 <= bb_word b w < 2 ^ 64.
Proof. apply get64_range. Qed.

Lemma bb_get_testbit b pos :
  bb_get b pos = Z.testbit (bb_word b (pos / 64)) (pos mod 64).
Proof.
  unfold bb_get. cbv zeta. rewrite land_bit_zero.
  - apply negb_involutive.
  - apply Z.mod_pos_bound. lia.
Qed.

Lemma bb_word_set64 b w w' v :
  bb_word (set64 b (8 * w) v) w' = if w' =? w then u64 v else bb_word b w'.
Proof.
  unfold bb_word. destruct (Z.eqb_spec w' w) as [->|Hne].
  - apply get64_set64_same.
  - apply get64_set64_other. lia.
Qed.

Lemma same_word_same_pos p q :
  p / 64 = q / 64 -> p mod 64 = q mod 64 -> p = q.
Proof.
  intros H1 H2. rewrite (Z.div_mod p 64), (Z.div_mod q 64) by lia. lia.
Qed.

Lemma bb_get_set b p q :
  bb_get (bb_set b p) q = (q =? p) || bb_get b q.
Proof.
  rewrite !bb_get_testbit. unfold bb_set. cbv zeta. rewrite bb_word_set64.
  pose proof (Z.mod_pos_bound p 64 ltac:(lia)).
  pose proof (Z.mod_pos_bound q 64 ltac:(lia)).
  destruct (Z.eqb_spec (q / 64) (p / 64)) as [E|E].
  - rewrite testbit_u64, Z.lor_spec, testbit_shiftl_1 by lia.
    rewrite E, orb_comm. f_equal.
    destruct (Z.eqb_spec (q mod 64) (p mod 64)) as [E2|E2];
      destruct (Z.eqb_spec q p) as [E3|E3]; try reflexivity.
    + exfalso. apply E3. now apply same_word_same_pos.
    + subst. contradiction.
  - destruct (Z.eqb_spec q p) as [->|]; [contradiction|reflexivity].
Qed.

Lemma bb_get_clear b p q :
  bb_get (bb_clear b p) q = negb (q =? p) && bb_get b q.
Proof.
  rewrite !bb_get_testbit. unfold bb_clear. cbv zeta. rewrite bb_word_set64.
  pose proof (Z.mod_pos_bound p 64 ltac:(lia)).
  pose proof (Z.mod_pos_bound q 64 ltac:(lia)).
  destruct (Z.eqb_spec (q / 64) (p / 64)) as [E|E].
  - rewrite testbit_u64, Z.land_spec by lia.
    rewrite testbit_lnot64, testbit_shiftl_1; try lia.
    + rewrite E, andb_comm. f_equal. f_equal.
      destruct (Z.eqb_spec (q mod 64) (p mod 64)) as [E2|E2];
        destruct (Z.eqb_spec q p) as [E3|E3]; try reflexivity.
      * exfalso. apply E3. now apply same_word_same_pos.
      * subst. contradiction.
    + rewrite Z.shiftl_1_l. split; [apply Z.pow_nonneg; lia|].
      apply Z.pow_lt_mono_r; lia.
  - destruct (Z.eqb_spec q p) as [->|]; [contradiction|reflexivity].
Qed.

Lemma word_full b w :
  lnot64 (bb_word b w) = 0 ->
  forall q, q / 64 = w -> bb_get b q = true.
Proof.
  intros H q Hq. rewrite bb_get_testbit, Hq.
  pose proof (bb_word_range b w).
  pose proof (Z.mod_pos_bound q 64 ltac:(lia)).
  pose proof (testbit_lnot64 (bb_word b w) (q mod 64) H0 H1) as T.
  rewrite H, Z.bits_0 in T. symmetry in T. now apply negb_false_iff in T.
Qed.

Lemma word_lowest_zero b w :
  lnot64 (bb_word b w) <> 0 ->
  let k := ffsll (lnot64 (bb_word b w)) - 1 in
  0 <= k < 64 /\ bb_get b (w * 64 + k) = false /\
  forall j, 0 <= j < k -> bb_get b (w * 64 + j) = true.
Proof.
  intros H. pose proof (bb_word_range b w) as Hr.
  destruct (ffsll_spec _ (lnot64_range _ Hr) H) as [H1 [H2 H3]].
  cbv zeta. split; [assumption|]. split.
  - rewrite bb_get_testbit.
    replace ((w * 64 + (ffsll (lnot64 (bb_word b w)) - 1)) / 64) with w
      by (rewrite Z.div_add_l, Z.div_small; lia).
    replace ((w * 64 + (ffsll (lnot64 (bb_word b w)) - 1)) mod 64)
      with (ffsll (lnot64 (bb_word b w)) - 1)
      by (rewrite Z.add_comm, Z.mod_add, Z.mod_small; lia).
    rewrite testbit_lnot64 in H2 by assumption.
    now apply negb_true_iff in H2.
  - intros j Hj. rewrite bb_get_testbit.
    replace ((w * 64 + j) / 64) with w
      by (rewrite Z.div_add_l, Z.div_small; lia).
    replace ((w * 64 + j) mod 64) with j
      by (rewrite Z.add_comm, Z.mod_add, Z.mod_small; lia).
    specialize (H3 j Hj). rewrite testbit_lnot64 in H3 by (auto; lia).
    now apply negb_false_iff in H3.
Qed.

(** The word loop returns the lowest clear position of the words it
    visits, or [-1] when they are full. *)
Lemma bb_scan_spec n b w :
  0 <= w ->
  let r := bb_scan n b w in
  (r = -1 /\ forall q, 64 * w <= q < 64 * (w + Z.of_nat n) -> bb_get b q = true)
  \/ (64 * w <= r < 64 * (w + Z.of_nat n) /\ bb_get b r = false /\
      forall q, 64 * w <= q < r -> bb_get b q = true).
Proof.
  revert w. induction n as [|n IH]; intros w Hw.
  - left. split; [reflexivity|]. intros q Hq. lia.
  - cbn [bb_scan]. cbv zeta.
    destruct (Z.eqb_spec (lnot64 (bb_word b w)) 0) as [E|E].
    + destruct (IH (w + 1) ltac:(lia)) as [[H1 H2]|[H1 [H2 H3]]].
      * left. split; [assumption|]. intros q Hq.
        destruct (Z_lt_le_dec q (64 * (w + 1))).
        -- apply (word_full b w E).
           symmetry; apply Z.div_unique with (r := q - 64 * w); lia.
        -- apply H2. lia.
      * right. split; [lia|]. split; [assumption|]. intros q Hq.
        destruct (Z_lt_le_dec q (64 * (w + 1))).
        -- apply (word_full b w E).
           symmetry; apply Z.div_unique with (r := q - 64 * w); lia.
        -- apply H3. lia.
    + destruct (word_lowest_zero b w E) as [H1 [H2 H3]].
      right. split; [lia|]. split; [assumption|]. intros q Hq.
      replace q with (w * 64 + (q - w * 64)) by lia. apply H3. lia.
Qed.

Lemma bb_get_first_zero_spec b pos :
  0 <= pos < siz ->
  let r := bb_get_first_zero b pos in
  let lo := 64 * (pos / 64) in
  (r = -1 /\ forall q, lo <= q < siz -> bb_get b q = true)
  \/ (lo <= r < siz /\ bb_get b r = false /\
      forall q, lo <= q < r -> bb_get b q = true).
Proof.
  intros Hpos. destruct geo_siz as [Hs [Hw Hz]].
  unfold bb_get_first_zero. cbv zeta.
  assert (0 <= pos / 64 < BITMAP_WORDS).
  { split; [apply Z.div_pos; lia|]. apply Z.div_lt_upper_bound; lia. }
  pose proof (bb_scan_spec (Z.to_nat (BITMAP_WORDS - pos / 64)) b (pos / 64)
                ltac:(lia)) as S.
  cbv zeta in S. rewrite Z2Nat.id in S by lia.
  replace (64 * (pos / 64 + (BITMAP_WORDS - pos / 64))) with siz in S by lia.
  exact S.
Qed.

End BitmapLemmas.

(** * Bitmaps on the device *)

Lemma zrange_In n x : In x (zrange n) <-> 0 <= x < n.
Proof.
  unfold zrange. rewrite in_map_iff. split.
  - intros [k [Hk Hin]]. apply in_seq in Hin. lia.
  - intros H. exists (Z.to_nat x). split; [lia|]. apply in_seq. lia.
Qed.

Lemma zrange_succ n : 0 <= n -> zrange (n + 1) = zrange n ++ [n].
Proof.
  intros H. unfold zrange.
  replace (Z.to_nat (n + 1)) with (S (Z.to_nat n)) by lia.
  rewrite seq_S, map_app. simpl. f_equal. f_equal. lia.
Qed.

Lemma zrange_nonpos n : n <= 0 -> zrange n = [].
Proof. intros H. unfold zrange. replace (Z.to_nat n) with O by lia. reflexivity. Qed.

Lemma zrange_length n : 0 <= n -> Z.of_nat (length (zrange n)) = n.
Proof. intros H. unfold zrange. rewrite length_map, length_seq. lia. Qed.

Lemma zrange_NoDup n : NoDup (zrange n).
Proof.
  unfold zrange. generalize (seq_NoDup (Z.to_nat n) 0).
  generalize (seq 0 (Z.to_nat n)). intros l H.
  induction H as [|x l Hx Hl IH]; simpl; constructor; [|assumption].
  rewrite in_map_iff. intros [y [Hy Hin]].
  apply Nat2Z.inj in Hy. subst. contradiction.
Qed.

Section Bitmaps.

Context {G : Geometry}.
Hypothesis Hgeo : geometry_ok = true.

Lemma bm_unpack_small p :
  0 <= p < 2 ^ 31 -> bm_unpack p = (p / siz, p mod siz).
Proof.
  intros Hp. destruct (geo_siz Hgeo) as [_ [_ Hs]]. unfold bm_unpack.
  rewrite u32_small by lia.
  assert (0 <= p / siz < 2 ^ 31).
  { split; [apply Z.div_pos; lia|].
    apply Z.div_lt_upper_bound; [lia|].
    apply Z.lt_le_trans with (1 * 2 ^ 31); [lia|].
    apply Z.mul_le_mono_nonneg_r; lia. }
  assert (Hz : 0 < siz) by lia.
  pose proof (Z.mod_pos_bound p siz Hz).
  rewrite !s32_small by lia. reflexivity.
Qed.

Lemma pos_split p q :
  p / siz = q / siz -> p mod siz = q mod siz -> p = q.
Proof.
  destruct (geo_siz Hgeo) as [_ [_ Hs]]. intros H1 H2.
  rewrite (Z.div_mod p siz), (Z.div_mod q siz) by lia. lia.
Qed.

Lemma bitmap_bit_set d start p q :
  bitmap_bit (upd d (start + p / siz) (bb_set (d (start + p / siz)) (p mod siz)))
             start q
  = (q =? p) || bitmap_bit d start q.
Proof.
  unfold bitmap_bit. destruct (Z.eq_dec (q / siz) (p / siz)) as [E|E].
  - rewrite E, upd_same, bb_get_set. f_equal.
    destruct (Z.eqb_spec (q mod siz) (p mod siz)) as [E2|E2];
      destruct (Z.eqb_spec q p) as [E3|E3]; try reflexivity.
    + exfalso. apply E3. now apply pos_split.
    + subst. contradiction.
  - rewrite upd_other by lia.
    destruct (Z.eqb_spec q p) as [->|]; [contradiction|reflexivity].
Qed.

Lemma bitmap_bit_clear d start p q :
  bitmap_bit (upd d (start + p / siz) (bb_clear (d (start + p / siz)) (p mod siz)))
             start q
  = negb (q =? p) && bitmap_bit d start q.
Proof.
  unfold bitmap_bit. destruct (Z.eq_dec (q / siz) (p / siz)) as [E|E].
  - rewrite E, upd_same, bb_get_clear. f_equal. f_equal.
    destruct (Z.eqb_spec (q mod siz) (p mod siz)) as [E2|E2];
      destruct (Z.eqb_spec q p) as [E3|E3]; try reflexivity.
    + exfalso. apply E3. now apply pos_split.
    + subst. contradiction.
  - rewrite upd_other by lia.
    destruct (Z.eqb_spec q p) as [->|]; [contradiction|reflexivity].
Qed.

Lemma bitmap_bit_upd_other d blk v start q :
  start + q / siz <> blk ->
  bitmap_bit (upd d blk v) start q = bitmap_bit d start q.
Proof. intros H. unfold bitmap_bit. now rewrite upd_other. Qed.

Lemma bitmap_bit_ext d d' start q :
  d' (start + q / siz) = d (start + q / siz) ->
  bitmap_bit d' start q = bitmap_bit d start q.
Proof. intros H. unfold bitmap_bit. now rewrite H. Qed.

Lemma from_blockno_Ok blockno s b s' :
  from_blockno blockno s = Ok b s' ->
  s' = s /\ b = disk s blockno /\ 0 <= blockno < BLOCK_NUM.
Proof.
  unfold from_blockno.
  destruct ((0 <=? blockno) && (blockno <? BLOCK_NUM)) eqn:E; [|discriminate].
  intros H. inversion H. b2p. auto.
Qed.

Lemma from_blockno_total blockno s :
  0 <= blockno < BLOCK_NUM -> from_blockno blockno s = Ok (disk s blockno) s.
Proof.
  intros H. unfold from_blockno.
  replace ((0 <=? blockno) && (blockno <? BLOCK_NUM)) with true; [reflexivity|].
  symmetry. b2p; lia.
Qed.

(** The block loop returns the lowest clear position of the blocks it
    visits, counted from the word that holds the starting offset. *)
Lemma bm_scan_spec start n :
  forall pos blockno off s r s',
  bm_scan n pos blockno off s = Ok r s' ->
  0 <= off < siz -> 0 <= blockno -> pos = start + blockno ->
  s' = s /\
  let d := disk s in
  let lo := blockno * siz + 64 * (off / 64) in
  let hi := (blockno + Z.of_nat n) * siz in
  ((r = -1 /\ forall p, lo <= p < hi -> bitmap_bit d start p = true)
   \/ (lo <= r < hi /\ bitmap_bit d start r = false /\
       forall p, lo <= p < r -> bitmap_bit d start p = true)).
Proof.
  destruct (geo_siz Hgeo) as [Hsw [Hw Hs]].
  induction n as [|n IH]; intros pos blockno off s r s' H Hoff Hb Hpos.
  - cbn [bm_scan] in H. minv H. split; [reflexivity|]. cbv zeta.
    left. split; [reflexivity|]. intros p Hp.
    assert (0 <= 64 * (off / 64)) by (pose proof (Z.div_pos off 64); lia).
    lia.
  - cbn [bm_scan] in H. apply bind_Ok in H. destruct H as [b [s1 [H1 H2]]].
    apply from_blockno_Ok in H1. destruct H1 as [-> [-> Hr]].
    assert (Hin : forall q, 0 <= q < siz ->
              bitmap_bit (disk s) start (blockno * siz + q)
              = bb_get (disk s pos) q).
    { intros q Hq. unfold bitmap_bit.
      replace ((blockno * siz + q) / siz) with blockno
        by (rewrite Z.div_add_l, Z.div_small; lia).
      replace ((blockno * siz + q) mod siz) with q
        by (rewrite Z.add_comm, Z.mod_add, Z.mod_small; lia).
      now rewrite Hpos. }
    assert (Hlo : 0 <= 64 * (off / 64) <= off).
    { pose proof (Z.div_mod off 64 ltac:(lia)).
      pose proof (Z.mod_pos_bound off 64 ltac:(lia)).
      pose proof (Z.div_pos off 64). lia. }
    destruct (bb_get_first_zero_spec Hgeo (disk s pos) off Hoff)
      as [[E F]|[R [C F]]]; cbv zeta in *.
    + rewrite E in H2. simpl in H2.
      apply IH in H2; try lia. destruct H2 as [-> H2]. split; [reflexivity|].
      cbv zeta in H2. replace (64 * (0 / 64)) with 0 in H2 by reflexivity.
      assert (Hfull : forall p, blockno * siz + 64 * (off / 64) <= p
                                < (blockno + 1) * siz ->
                bitmap_bit (disk s) start p = true).
      { intros p Hp. replace p with (blockno * siz + (p - blockno * siz)) by lia.
        rewrite Hin by lia. apply F. lia. }
      destruct H2 as [[E2 F2]|[R2 [C2 F2]]].
      * left. split; [assumption|]. intros p Hp.
        destruct (Z_lt_le_dec p ((blockno + 1) * siz)).
        -- apply Hfull. lia.
        -- apply F2. lia.
      * right. split; [lia|]. split; [assumption|]. intros p Hp.
        destruct (Z_lt_le_dec p ((blockno + 1) * siz)).
        -- apply Hfull. lia.
        -- apply F2. lia.
    + destruct (Z.eqb_spec (bb_get_first_zero (disk s pos) off) (-1)); [lia|].
      minv H2. split; [reflexivity|]. right.
      split; [nia|]. split.
      * rewrite Z.add_comm, Hin by lia. assumption.
      * intros p Hp. replace p with (blockno * siz + (p - blockno * siz)) by lia.
        rewrite Hin by lia. apply F. lia.
Qed.

Lemma bm_scan_total n :
  forall pos blockno off s,
  0 <= pos -> (n <> O -> pos + Z.of_nat n <= BLOCK_NUM) ->
  exists r, bm_scan n pos blockno off s = Ok r s.
Proof.
  induction n as [|n IH]; intros pos blockno off s H0 H1.
  - eexists. reflexivity.
  - specialize (H1 ltac:(discriminate)).
    cbn [bm_scan]. unfold bind. rewrite from_blockno_total by lia.
    destruct (bb_get_first_zero (disk s pos) off =? -1).
    + apply IH; lia.
    + eexists. reflexivity.
Qed.

Lemma word_floor p : 0 <= p -> 64 * (p / 64) = (p / siz) * siz + 64 * ((p mod siz) / 64).
Proof.
  intros Hp. destruct (geo_siz Hgeo) as [Hsw [Hw Hs]].
  assert (Hnz : siz <> 0) by lia. assert (Hpz : 0 < siz) by lia.
  pose proof (Z.div_mod p siz Hnz).
  pose proof (Z.mod_pos_bound p siz Hpz).
  rewrite H at 1. rewrite Hsw at 1.
  replace (64 * BITMAP_WORDS * (p / siz) + p mod siz)
    with (p mod siz + (BITMAP_WORDS * (p / siz)) * 64) by lia.
  rewrite Z.div_add by lia. lia.
Qed.

(** [BitMap::get_first_zero]: no effect on the state, and the position
    returned is the lowest clear one at or after the word of the hint. *)
Lemma BitMap_get_first_zero_spec bm s r s' :
  BitMap_get_first_zero bm s = Ok r s' ->
  0 <= bm_minpos bm < 2 ^ 31 -> 0 <= bm_end bm - bm_start bm ->
  s' = s /\
  let d := disk s in
  let lo := 64 * (bm_minpos bm / 64) in
  let hi := (bm_end bm - bm_start bm) * siz in
  ((r = -1 /\ forall p, lo <= p < hi -> bitmap_bit d (bm_start bm) p = true)
   \/ (lo <= r < hi /\ bitmap_bit d (bm_start bm) r = false /\
       forall p, lo <= p < r -> bitmap_bit d (bm_start bm) p = true)).
Proof.
  intros H Hm He. destruct (geo_siz Hgeo) as [Hsw [Hw Hs]].
  unfold BitMap_get_first_zero in H. rewrite bm_unpack_small in H by assumption.
  assert (Hpz : 0 < siz) by lia.
  pose proof (Z.mod_pos_bound (bm_minpos bm) siz Hpz) as Hoff.
  assert (Hq : 0 <= bm_minpos bm / siz) by (apply Z.div_pos; lia).
  apply (bm_scan_spec (bm_start bm)) in H; try lia.
  destruct H as [-> H]. split; [reflexivity|]. cbv zeta in *.
  rewrite <- word_floor in H by lia.
  destruct (Z_le_gt_dec (bm_minpos bm / siz) (bm_end bm - bm_start bm)).
  - rewrite Z2Nat.id in H by lia.
    replace (bm_minpos bm / siz + (bm_end bm - (bm_start bm + bm_minpos bm / siz)))
      with (bm_end bm - bm_start bm) in H by lia.
    exact H.
  - replace (Z.to_nat (bm_end bm - (bm_start bm + bm_minpos bm / siz))) with O in H by lia.
    pose proof (word_floor (bm_minpos bm) (proj1 Hm)) as WF.
    assert (0 <= 64 * (bm_minpos bm mod siz / 64))
      by (pose proof (Z.div_pos (bm_minpos bm mod siz) 64); lia).
    assert ((bm_end bm - bm_start bm) * siz <= bm_minpos bm / siz * siz)
      by (apply Z.mul_le_mono_nonneg_r; lia).
    destruct H as [[E F]|[R _]].
    + left. split; [assumption|]. intros p Hp. lia.
    + change (Z.of_nat 0) with 0 in R. lia.
Qed.

Lemma BitMap_get_first_zero_total bm s :
  0 <= bm_minpos bm < 2 ^ 31 -> 0 <= bm_start bm -> bm_end bm <= BLOCK_NUM ->
  exists r, BitMap_get_first_zero bm s = Ok r s.
Proof.
  intros Hm Hs He. destruct (geo_siz Hgeo) as [Hsw [Hw Hz]].
  unfold BitMap_get_first_zero. rewrite bm_unpack_small by assumption.
  assert (0 <= bm_minpos bm / siz) by (apply Z.div_pos; lia).
  apply bm_scan_total; lia.
Qed.

End Bitmaps.

(** * The allocator *)

Lemma same_geometry_refl h : same_geometry h h.
Proof. unfold same_geometry. auto 10. Qed.

Lemma same_geometry_trans h1 h2 h3 :
  same_geometry h1 h2 -> same_geometry h2 h3 -> same_geometry h1 h3.
Proof. unfold same_geometry. intuition congruence. Qed.

Lemma same_geometry_set_inode_free h v :
  same_geometry h (set32 h OFF_inode_num_free v).
Proof.
  unfold same_geometry, inode_num_tot, inode_bitmap_offset, inode_block_offset,
    data_block_num_tot, data_block_bitmap_offset, data_block_offset.
  repeat split; apply get32_set32_other; cbv; intuition discriminate.
Qed.

Lemma same_geometry_set_data_free h v :
  same_geometry h (set32 h OFF_data_block_num_free v).
Proof.
  unfold same_geometry, inode_num_tot, inode_bitmap_offset, inode_block_offset,
    data_block_num_tot, data_block_bitmap_offset, data_block_offset.
  repeat split; apply get32_set32_other; cbv; intuition discriminate.
Qed.

Lemma inode_free_set_data_free h v :
  inode_num_free (set32 h OFF_data_block_num_free v) = inode_num_free h.
Proof. apply get32_set32_other. cbv; intuition discriminate. Qed.

Lemma data_free_set_inode_free h v :
  data_block_num_free (set32 h OFF_inode_num_free v) = data_block_num_free h.
Proof. apply get32_set32_other. cbv; intuition discriminate. Qed.

Lemma inode_free_set h v :
  inode_num_free (set32 h OFF_inode_num_free v) = u32 v.
Proof. apply get32_set32_same. Qed.

Lemma data_free_set h v :
  data_block_num_free (set32 h OFF_data_block_num_free v) = u32 v.
Proof. apply get32_set32_same. Qed.

(** ** Counting set bits *)

Definition count_true (f : Z -> bool) (n : Z) : Z :=
  Z.of_nat (length (filter f (zrange n))).

Lemma count_true_succ f n :
  0 <= n -> count_true f (n + 1) = count_true f n + (if f n then 1 else 0).
Proof.
  intros H. unfold count_true. rewrite zrange_succ by assumption.
  rewrite filter_app, length_app. simpl. destruct (f n); simpl; lia.
Qed.

Lemma count_true_0 f : count_true f 0 = 0.
Proof. reflexivity. Qed.

Lemma count_true_range f n : 0 <= n -> 0 <= count_true f n <= n.
Proof.
  intros H. pattern n. apply natlike_ind; [rewrite count_true_0; lia| |assumption].
  intros x Hx IH. unfold Z.succ. rewrite count_true_succ by assumption.
  destruct (f x); lia.
Qed.

Lemma count_true_ext f g n :
  (forall q, 0 <= q < n -> f q = g q) -> count_true f n = count_true g n.
Proof.
  intros H. unfold count_true. f_equal. f_equal.
  apply filter_ext_in. intros q Hq. apply zrange_In in Hq. auto.
Qed.

Lemma count_true_set f g p n :
  0 <= n ->
  (forall q, 0 <= q < n -> g q = (q =? p) || f q) ->
  f p = false ->
  count_true g n = count_true f n + (if (0 <=? p) && (p <? n) then 1 else 0).
Proof.
  intros Hn. revert n Hn.
  apply (natlike_ind (fun n =>
    (forall q, 0 <= q < n -> g q = (q =? p) || f q) -> f p = false ->
    count_true g n = count_true f n + (if (0 <=? p) && (p <? n) then 1 else 0))).
  - intros _ _. rewrite !count_true_0.
    destruct (0 <=? p) eqn:E1; destruct (p <? 0) eqn:E2; simpl; b2p; lia.
  - intros x Hx IH Hg Hf. unfold Z.succ. rewrite !count_true_succ by assumption.
    rewrite IH by (auto; intros; apply Hg; lia).
    rewrite (Hg x) by lia.
    destruct (Z.eqb_spec x p) as [->|Hne].
    + rewrite Hf. simpl.
      destruct (0 <=? p) eqn:E1; destruct (p <? p) eqn:E2;
        destruct (p <? p + 1) eqn:E3; simpl; b2p; lia.
    + simpl.
      destruct (0 <=? p) eqn:E1; destruct (p <? x) eqn:E2;
        destruct (p <? x + 1) eqn:E3; destruct (f x); simpl; b2p; lia.
Qed.

Lemma count_true_clear f g p n :
  0 <= n ->
  (forall q, 0 <= q < n -> g q = negb (q =? p) && f q) ->
  f p = true ->
  count_true g n = count_true f n - (if (0 <=? p) && (p <? n) then 1 else 0).
Proof.
  intros Hn. revert n Hn.
  apply (natlike_ind (fun n =>
    (forall q, 0 <= q < n -> g q = negb (q =? p) && f q) -> f p = true ->
    count_true g n = count_true f n - (if (0 <=? p) && (p <? n) then 1 else 0))).
  - intros _ _. rewrite !count_true_0.
    destruct (0 <=? p) eqn:E1; destruct (p <? 0) eqn:E2; simpl; b2p; lia.
  - intros x Hx IH Hg Hf. unfold Z.succ. rewrite !count_true_succ by assumption.
    rewrite IH by (auto; intros; apply Hg; lia).
    rewrite (Hg x) by lia.
    destruct (Z.eqb_spec x p) as [->|Hne].
    + rewrite Hf. simpl.
      destruct (0 <=? p) eqn:E1; destruct (p <? p) eqn:E2;
        destruct (p <? p + 1) eqn:E3; simpl; b2p; lia.
    + simpl.
      destruct (0 <=? p) eqn:E1; destruct (p <? x) eqn:E2;
        destruct (p <? x + 1) eqn:E3; destruct (f x); simpl; b2p; lia.
Qed.

Section Allocator.

Context {G : Geometry}.
Hypothesis Hgeo : geometry_ok = true.

Lemma popcount_count d start n : popcount d start n = count_true (bitmap_bit d start) n.
Proof. reflexivity. Qed.

Lemma hdr_ok_facts h :
  hdr_ok h = true ->
  1 <= inode_bitmap_offset h <= data_block_bitmap_offset h /\
  data_block_bitmap_offset h <= inode_block_offset h /\
  inode_block_offset h <= data_block_offset h /\
  data_block_offset h <= BLOCK_NUM /\
  data_block_offset h + data_bits h < 2 ^ 31 /\
  0 <= inode_bits h < 2 ^ 31 /\ 0 <= data_bits h.
Proof.
  intros H. unfold hdr_ok in H. b2p.
  destruct (geo_siz Hgeo) as [_ [_ Hs]].
  unfold inode_bits, data_bits in *. repeat split; try lia; apply Z.mul_nonneg_nonneg; lia.
Qed.

Lemma hdr_ok_same_geometry h h' :
  same_geometry h h' -> hdr_ok h = true -> hdr_ok h' = true.
Proof.
  unfold same_geometry, hdr_ok, inode_bits, data_bits.
  intros [H1 [H2 [H3 [H4 [H5 H6]]]]] H. rewrite H2, H3, H5, H6. exact H.
Qed.

(** Positions of a bitmap stay inside its blocks. *)
Lemma pos_block p n :
  0 <= p < n * siz -> 0 <= p / siz < n.
Proof.
  intros H. destruct (geo_siz Hgeo) as [_ [_ Hs]].
  split; [apply Z.div_pos; lia|]. apply Z.div_lt_upper_bound; lia.
Qed.

(** What a successful [alloc_data] did. *)
Definition alloc_data_post (s : state) (r : Z) (s' : state) : Prop :=
  let d := disk s in
  let d' := disk s' in
  let h := d 0 in
  exists p,
    r = data_block_offset h + p /\ 0 <= p < data_bits h /\
    64 * (data_bitmap_min_pos s / 64) <= p /\
    data_bit d p = false /\
    (forall q, 64 * (data_bitmap_min_pos s / 64) <= q < p -> data_bit d q = true) /\
    data_block_num_free h <> 0 /\
    data_block_num_free (d' 0) = data_block_num_free h - 1 /\
    inode_num_free (d' 0) = inode_num_free h /\
    same_geometry h (d' 0) /\
    (forall q, 0 <= q -> data_bit d' q = (q =? p) || data_bit d q) /\
    (forall b, b <> 0 ->
       ~ (data_block_bitmap_offset h <= b < inode_block_offset h) ->
       d' b = d b) /\
    data_bitmap_min_pos s' = Z.max (data_bitmap_min_pos s) p /\
    inode_bitmap_min_pos s' = inode_bitmap_min_pos s /\
    clock s' = clock s /\ junk s' = junk s.

Lemma commit_Ok blockno b s u s' :
  commit blockno b s = Ok u s' ->
  s' = set_disk s (upd (disk s) blockno b) ((blockno, b) :: writes s).
Proof. unfold commit. intros H. inversion H. reflexivity. Qed.

Lemma BitMap_set_Ok bm p s u s' :
  BitMap_set bm p s = Ok u s' -> 0 <= p < 2 ^ 31 ->
  let blk := p / siz + bm_start bm in
  0 <= blk < BLOCK_NUM /\
  s' = set_disk s (upd (disk s) blk (bb_set (disk s blk) (p mod siz)))
                ((blk, bb_set (disk s blk) (p mod siz)) :: writes s).
Proof.
  intros H Hp. unfold BitMap_set in H. rewrite bm_unpack_small in H by assumption.
  mstep H as b s1 H1. apply from_blockno_Ok in H1. destruct H1 as [-> [-> Hr]].
  apply commit_Ok in H. auto.
Qed.

Lemma BitMap_clear_Ok bm p s u s' :
  BitMap_clear bm p s = Ok u s' -> 0 <= p < 2 ^ 31 ->
  let blk := p / siz + bm_start bm in
  0 <= blk < BLOCK_NUM /\
  s' = set_disk s (upd (disk s) blk (bb_clear (disk s blk) (p mod siz)))
                ((blk, bb_clear (disk s blk) (p mod siz)) :: writes s).
Proof.
  intros H Hp. unfold BitMap_clear in H. rewrite bm_unpack_small in H by assumption.
  mstep H as b s1 H1. apply from_blockno_Ok in H1. destruct H1 as [-> [-> Hr]].
  apply commit_Ok in H. auto.
Qed.

Lemma BitMap_get_Ok bm p s g s' :
  BitMap_get bm p s = Ok g s' -> 0 <= p < 2 ^ 31 ->
  s' = s /\ g = bitmap_bit (disk s) (bm_start bm) p /\
  0 <= p / siz + bm_start bm < BLOCK_NUM.
Proof.
  intros H Hp. unfold BitMap_get in H. rewrite bm_unpack_small in H by assumption.
  mstep H as b s1 H1. apply from_blockno_Ok in H1. destruct H1 as [-> [-> Hr]].
  apply ret_Ok in H. destruct H as [<- <-]. unfold bitmap_bit.
  rewrite (Z.add_comm (bm_start bm)). auto.
Qed.

Lemma alloc_data_spec s r s' :
  alloc_data s = Ok r s' ->
  hdr_ok (disk s 0) = true ->
  0 <= data_bitmap_min_pos s < 2 ^ 31 ->
  (r = -1 /\ s' = s /\ data_block_num_free (disk s 0) = 0)
  \/ alloc_data_post s r s'.
Proof.
  intros H Hh Hm. destruct (hdr_ok_facts _ Hh) as [F1 [F2 [F3 [F4 [F5 [F6 F7]]]]]].
  unfold alloc_data in H. mstep H as h s1 H1.
  apply from_blockno_Ok in H1. destruct H1 as [-> [-> Hr]].
  destruct (Z.eqb_spec (data_block_num_free (disk s 0)) 0) as [E|E].
  { apply ret_Ok in H. destruct H as [<- <-]. left. auto. }
  right.
  mstep H as s0 s1 H1. apply get_state_Ok in H1. destruct H1 as [-> ->].
  mstep H as p s1 H1.
  unfold data_bitmap in *. rewrite !s32_small in * by lia.
  apply BitMap_get_first_zero_spec in H1; try assumption;
    cbn [bm_minpos bm_start bm_end] in *; try lia.
  destruct H1 as [-> H1]. cbv zeta in H1.
  mstep H as u s1 H2. apply assert_Ok in H2. destruct H2 as [H2 ->].
  destruct H1 as [[E1 _]|[R [C F]]]; [subst; discriminate|].
  fold (data_bits (disk s 0)) in R.
  assert (A0 : 0 <= p).
  { pose proof (Z.div_pos (data_bitmap_min_pos s) 64). lia. }
  mstep H as u1 s1 H3. apply put_state_Ok in H3. subst s1.
  mstep H as u2 s1 H4. apply BitMap_set_Ok in H4; [|lia].
  cbn [bm_start] in H4. destruct H4 as [Hr2 ->].
  mstep H as u3 s1 H5. apply commit_Ok in H5. subst s1.
  apply ret_Ok in H. destruct H as [<- <-].
  cbn [disk set_disk set_data_hint data_bitmap_min_pos inode_bitmap_min_pos clock junk writes] in *.
  pose proof (pos_block p _ (conj A0 (proj2 R))) as Hb.
  exists p. unfold alloc_data_post.
  cbn [disk set_disk set_data_hint data_bitmap_min_pos inode_bitmap_min_pos clock junk writes].
  rewrite upd_same.
  pose proof (same_geometry_set_data_free (disk s 0) (data_block_num_free (disk s 0) - 1)) as SG.
  pose proof (get32_range (disk s 0) OFF_data_block_num_free) as FR.
  fold (data_block_num_free (disk s 0)) in FR.
  split. { rewrite Z.add_comm. rewrite u32_small by lia. rewrite s32_small by lia. lia. }
  split; [lia|]. split; [lia|].
  split; [exact C|]. split; [exact F|]. split; [exact E|].
  split. { rewrite data_free_set. apply u32_small. lia. }
  split. { apply inode_free_set_data_free. }
  split; [exact SG|].
  split.
  { intros q Hq. unfold data_bit. rewrite upd_same.
    destruct SG as [_ [_ [_ [_ [SG5 _]]]]]. rewrite SG5.
    assert (0 <= q / siz).
    { destruct (geo_siz Hgeo) as [_ [_ Hs]]. apply Z.div_pos; lia. }
    rewrite bitmap_bit_upd_other by lia.
    rewrite (Z.add_comm (p / siz)).
    apply bitmap_bit_set. exact Hgeo. }
  split.
  { intros b Hb0 Hb1. rewrite upd_other by assumption.
    rewrite upd_other by lia. reflexivity. }
  auto.
Qed.

(** What a successful [free_data datano] did. *)
Definition free_data_post (s : state) (datano : Z) (s' : state) : Prop :=
  let d := disk s in
  let d' := disk s' in
  let h := d 0 in
  let p := datano - data_block_offset h in
  data_bit d p = true /\
  data_block_num_free (d' 0) = u32 (data_block_num_free h + 1) /\
  inode_num_free (d' 0) = inode_num_free h /\
  same_geometry h (d' 0) /\
  (forall q, 0 <= q -> data_bit d' q = negb (q =? p) && data_bit d q) /\
  (forall b, b <> 0 ->
     ~ (data_block_bitmap_offset h <= b < inode_block_offset h) ->
     d' b = d b) /\
  data_bitmap_min_pos s' = Z.min (data_bitmap_min_pos s) p /\
  inode_bitmap_min_pos s' = inode_bitmap_min_pos s /\
  clock s' = clock s /\ junk s' = junk s.

Lemma free_data_spec s datano u s' :
  free_data datano s = Ok u s' ->
  hdr_ok (disk s 0) = true ->
  data_block_offset (disk s 0) <= datano ->
  datano - data_block_offset (disk s 0) < data_bits (disk s 0) ->
  free_data_post s datano s'.
Proof.
  intros H Hh Hlo Hhi.
  destruct (hdr_ok_facts _ Hh) as [F1 [F2 [F3 [F4 [F5 [F6 F7]]]]]].
  unfold free_data in H. mstep H as h s1 H1.
  apply from_blockno_Ok in H1. destruct H1 as [-> [-> Hr]].
  rewrite u32_small in H by lia. rewrite s32_small in H by lia.
  set (p := datano - data_block_offset (disk s 0)) in *.
  mstep H as u1 s1 H1. apply assert_Ok in H1. destruct H1 as [_ ->].
  unfold data_bitmap in *. rewrite !s32_small in * by lia.
  mstep H as g s1 H1. apply BitMap_get_Ok in H1; [|lia].
  cbn [bm_start] in H1. destruct H1 as [-> [-> Hr1]].
  mstep H as u2 s1 H2. apply assert_Ok in H2. destruct H2 as [Hbit ->].
  mstep H as u3 s1 H3. apply BitMap_clear_Ok in H3; [|lia].
  cbn [bm_start] in H3. destruct H3 as [Hr2 ->].
  mstep H as u4 s1 H4. apply commit_Ok in H4. subst s1.
  mstep H as s0 s1 H5. apply get_state_Ok in H5. destruct H5 as [-> ->].
  apply put_state_Ok in H. subst s'.
  unfold free_data_post.
  cbn [disk set_disk set_data_hint data_bitmap_min_pos inode_bitmap_min_pos clock junk writes].
  fold p. rewrite upd_same.
  pose proof (same_geometry_set_data_free (disk s 0) (data_block_num_free (disk s 0) + 1)) as SG.
  assert (Hp0 : 0 <= p) by (unfold p; lia).
  pose proof (pos_block p _ (conj Hp0 Hhi)) as Hb.
  split; [exact Hbit|].
  split. { apply data_free_set. }
  split. { apply inode_free_set_data_free. }
  split; [exact SG|].
  split.
  { intros q Hq. unfold data_bit. rewrite upd_same.
    destruct SG as [_ [_ [_ [_ [SG5 _]]]]]. rewrite SG5.
    assert (0 <= q / siz).
    { destruct (geo_siz Hgeo) as [_ [_ Hs]]. apply Z.div_pos; lia. }
    rewrite bitmap_bit_upd_other by lia.
    rewrite (Z.add_comm (p / siz)).
    apply bitmap_bit_clear. exact Hgeo. }
  split.
  { intros b Hb0 Hb1. rewrite upd_other by assumption.
    rewrite upd_other by lia. reflexivity. }
  auto.
Qed.

(** What a successful [alloc_inode] did. *)
Definition alloc_inode_post (s : state) (r : Z) (s' : state) : Prop :=
  let d := disk s in
  let d' := disk s' in
  let h := d 0 in
  0 <= r < inode_bits h /\
  64 * (inode_bitmap_min_pos s / 64) <= r /\
  inode_bit d r = false /\
  (forall q, 64 * (inode_bitmap_min_pos s / 64) <= q < r -> inode_bit d q = true) /\
  inode_num_free h <> 0 /\
  inode_num_free (d' 0) = inode_num_free h - 1 /\
  data_block_num_free (d' 0) = data_block_num_free h /\
  same_geometry h (d' 0) /\
  (forall q, 0 <= q -> inode_bit d' q = (q =? r) || inode_bit d q) /\
  (forall b, b <> 0 ->
     ~ (inode_bitmap_offset h <= b < data_block_bitmap_offset h) ->
     d' b = d b) /\
  inode_bitmap_min_pos s' = Z.max (inode_bitmap_min_pos s) r /\
  data_bitmap_min_pos s' = data_bitmap_min_pos s /\
  clock s' = clock s /\ junk s' = junk s.

Lemma alloc_inode_spec s r s' :
  alloc_inode s = Ok r s' ->
  hdr_ok (disk s 0) = true ->
  0 <= inode_bitmap_min_pos s < 2 ^ 31 ->
  (r = -1 /\ s' = s /\ inode_num_free (disk s 0) = 0)
  \/ alloc_inode_post s r s'.
Proof.
  intros H Hh Hm. destruct (hdr_ok_facts _ Hh) as [F1 [F2 [F3 [F4 [F5 [F6 F7]]]]]].
  unfold alloc_inode in H. mstep H as h s1 H1.
  apply from_blockno_Ok in H1. destruct H1 as [-> [-> Hr]].
  destruct (Z.eqb_spec (inode_num_free (disk s 0)) 0) as [E|E].
  { apply ret_Ok in H. destruct H as [<- <-]. left. auto. }
  right.
  mstep H as s0 s1 H1. apply get_state_Ok in H1. destruct H1 as [-> ->].
  mstep H as p s1 H1.
  unfold inode_bitmap in *. rewrite !s32_small in * by lia.
  apply BitMap_get_first_zero_spec in H1; try assumption;
    cbn [bm_minpos bm_start bm_end] in *; try lia.
  destruct H1 as [-> H1]. cbv zeta in H1.
  mstep H as u s1 H2. apply assert_Ok in H2. destruct H2 as [H2 ->].
  destruct H1 as [[E1 _]|[R [C F]]]; [subst; discriminate|].
  fold (inode_bits (disk s 0)) in R.
  assert (A0 : 0 <= p).
  { pose proof (Z.div_pos (inode_bitmap_min_pos s) 64). lia. }
  mstep H as u2 s1 H4. apply BitMap_set_Ok in H4; [|lia].
  cbn [bm_start] in H4. destruct H4 as [Hr2 ->].
  mstep H as u3 s1 H5. apply commit_Ok in H5. subst s1.
  mstep H as s0 s1 H6. apply get_state_Ok in H6. destruct H6 as [-> ->].
  mstep H as u4 s1 H7. apply put_state_Ok in H7. subst s1.
  apply ret_Ok in H. destruct H as [<- <-].
  unfold alloc_inode_post.
  cbn [disk set_disk set_inode_hint data_bitmap_min_pos inode_bitmap_min_pos clock junk writes] in *.
  pose proof (pos_block p _ (conj A0 (proj2 R))) as Hb.
  rewrite upd_same.
  pose proof (same_geometry_set_inode_free (disk s 0) (inode_num_free (disk s 0) - 1)) as SG.
  pose proof (get32_range (disk s 0) OFF_inode_num_free) as FR.
  fold (inode_num_free (disk s 0)) in FR.
  split; [lia|]. split; [lia|].
  split; [exact C|]. split; [exact F|]. split; [exact E|].
  split. { rewrite inode_free_set. apply u32_small. lia. }
  split. { apply data_free_set_inode_free. }
  split; [exact SG|].
  split.
  { intros q Hq. unfold inode_bit. rewrite upd_same.
    destruct SG as [_ [SG2 _]]. rewrite SG2.
    assert (0 <= q / siz).
    { destruct (geo_siz Hgeo) as [_ [_ Hs]]. apply Z.div_pos; lia. }
    rewrite bitmap_bit_upd_other by lia.
    rewrite (Z.add_comm (p / siz)).
    apply bitmap_bit_set. exact Hgeo. }
  split.
  { intros b Hb0 Hb1. rewrite upd_other by assumption.
    rewrite upd_other by lia. reflexivity. }
  auto.
Qed.

(** What a successful [free_inode inodeno] did. *)
Definition free_inode_post (s : state) (inodeno : Z) (s' : state) : Prop :=
  let d := disk s in
  let d' := disk s' in
  let h := d 0 in
  inode_bit d inodeno = true /\
  inode_num_free (d' 0) = u32 (inode_num_free h + 1) /\
  data_block_num_free (d' 0) = data_block_num_free h /\
  same_geometry h (d' 0) /\
  (forall q, 0 <= q -> inode_bit d' q = negb (q =? inodeno) && inode_bit d q) /\
  (forall b, b <> 0 ->
     ~ (inode_bitmap_offset h <= b < data_block_bitmap_offset h) ->
     d' b = d b) /\
  inode_bitmap_min_pos s' = Z.min (inode_bitmap_min_pos s) inodeno /\
  data_bitmap_min_pos s' = data_bitmap_min_pos s /\
  clock s' = clock s /\ junk s' = junk s.

Lemma free_inode_spec s inodeno u s' :
  free_inode inodeno s = Ok u s' ->
  hdr_ok (disk s 0) = true ->
  0 <= inodeno < inode_bits (disk s 0) ->
  free_inode_post s inodeno s'.
Proof.
  intros H Hh Hin.
  destruct (hdr_ok_facts _ Hh) as [F1 [F2 [F3 [F4 [F5 [F6 F7]]]]]].
  unfold free_inode in H. mstep H as h s1 H1.
  apply from_blockno_Ok in H1. destruct H1 as [-> [-> Hr]].
  unfold inode_bitmap in *. rewrite !s32_small in * by lia.
  mstep H as g s1 H1. apply BitMap_get_Ok in H1; [|lia].
  cbn [bm_start] in H1. destruct H1 as [-> [-> Hr1]].
  mstep H as u2 s1 H2. apply assert_Ok in H2. destruct H2 as [Hbit ->].
  mstep H as u3 s1 H3. apply BitMap_clear_Ok in H3; [|lia].
  cbn [bm_start] in H3. destruct H3 as [Hr2 ->].
  mstep H as u4 s1 H4. apply commit_Ok in H4. subst s1.
  mstep H as s0 s1 H5. apply get_state_Ok in H5. destruct H5 as [-> ->].
  apply put_state_Ok in H. subst s'.
  unfold free_inode_post.
  cbn [disk set_disk set_inode_hint data_bitmap_min_pos inode_bitmap_min_pos clock junk writes].
  rewrite upd_same.
  pose proof (same_geometry_set_inode_free (disk s 0) (inode_num_free (disk s 0) + 1)) as SG.
  pose proof (pos_block inodeno _ Hin) as Hb.
  split; [exact Hbit|].
  split. { apply inode_free_set. }
  split. { apply data_free_set_inode_free. }
  split; [exact SG|].
  split.
  { intros q Hq. unfold inode_bit. rewrite upd_same.
    destruct SG as [_ [SG2 _]]. rewrite SG2.
    assert (0 <= q / siz).
    { destruct (geo_siz Hgeo) as [_ [_ Hs]]. apply Z.div_pos; lia. }
    rewrite bitmap_bit_upd_other by lia.
    rewrite (Z.add_comm (inodeno / siz)).
    apply bitmap_bit_clear. exact Hgeo. }
  split.
  { intros b Hb0 Hb1. rewrite upd_other by assumption.
    rewrite upd_other by lia. reflexivity. }
  auto.
Qed.

(** Bits of one bitmap are untouched by writes outside its blocks. *)
Lemma inode_bit_frame d d' q :
  same_geometry (d 0) (d' 0) ->
  (forall b, inode_bitmap_offset (d 0) <= b < data_block_bitmap_offset (d 0) ->
             d' b = d b) ->
  0 <= q < inode_bits (d 0) ->
  inode_bit d' q = inode_bit d q.
Proof.
  intros [_ [SG2 _]] Hf Hq. unfold inode_bit. rewrite SG2.
  apply bitmap_bit_ext. apply Hf.
  pose proof (pos_block q _ Hq). lia.
Qed.

Lemma data_bit_frame d d' q :
  same_geometry (d 0) (d' 0) ->
  (forall b, data_block_bitmap_offset (d 0) <= b < inode_block_offset (d 0) ->
             d' b = d b) ->
  0 <= q < data_bits (d 0) ->
  data_bit d' q = data_bit d q.
Proof.
  intros [_ [_ [_ [_ [SG5 _]]]]] Hf Hq. unfold data_bit. rewrite SG5.
  apply bitmap_bit_ext. apply Hf.
  pose proof (pos_block q _ Hq). lia.
Qed.

End Allocator.

(** * The free counts agree with the bitmaps *)

Lemma forallb_eq {A} (f g : A -> bool) l :
  (forall x, f x = g x) -> forallb f l = forallb g l.
Proof. intros H. induction l; simpl; [reflexivity|]. now rewrite H, IHl. Qed.

Section Counts.

Context {G : Geometry}.
Hypothesis Hgeo : geometry_ok = true.

Lemma same_geometry_bits h h' :
  same_geometry h h' ->
  inode_bits h' = inode_bits h /\ data_bits h' = data_bits h.
Proof.
  unfold same_geometry, inode_bits, data_bits.
  intros [H1 [H2 [H3 [H4 [H5 H6]]]]]. rewrite H2, H3, H5. auto.
Qed.

Lemma op_in_range_same_geometry h h' o :
  same_geometry h h' -> op_in_range h' o = op_in_range h o.
Proof.
  intros SG. destruct (same_geometry_bits _ _ SG) as [B1 B2].
  destruct SG as [H1 [H2 [H3 [H4 [H5 H6]]]]].
  destruct o; simpl; rewrite ?B1, ?B2, ?H6; reflexivity.
Qed.

Lemma inode_used_count d :
  inode_used d = count_true (inode_bit d) (inode_bits (d 0)).
Proof. reflexivity. Qed.

Lemma data_used_count d :
  data_used d = count_true (data_bit d) (data_bits (d 0)).
Proof. reflexivity. Qed.

Lemma inode_used_eq d d' :
  same_geometry (d 0) (d' 0) ->
  (forall q, 0 <= q < inode_bits (d 0) -> inode_bit d' q = inode_bit d q) ->
  inode_used d' = inode_used d.
Proof.
  intros SG H. destruct (same_geometry_bits _ _ SG) as [B1 B2].
  rewrite !inode_used_count, B1.
  apply count_true_ext. intros q Hq. apply (H q Hq).
Qed.

Lemma data_used_eq d d' :
  same_geometry (d 0) (d' 0) ->
  (forall q, 0 <= q < data_bits (d 0) -> data_bit d' q = data_bit d q) ->
  data_used d' = data_used d.
Proof.
  intros SG H. destruct (same_geometry_bits _ _ SG) as [B1 B2].
  rewrite !data_used_count, B2.
  apply count_true_ext. intros q Hq. apply (H q Hq).
Qed.

Lemma inode_used_set d d' p :
  same_geometry (d 0) (d' 0) -> 0 <= inode_bits (d 0) ->
  (forall q, 0 <= q -> inode_bit d' q = (q =? p) || inode_bit d q) ->
  0 <= p < inode_bits (d 0) -> inode_bit d p = false ->
  inode_used d' = inode_used d + 1.
Proof.
  intros SG Hn H Hp Hb. destruct (same_geometry_bits _ _ SG) as [B1 B2].
  rewrite !inode_used_count, B1.
  rewrite (count_true_set (inode_bit d) (inode_bit d') p); auto.
  - replace ((0 <=? p) && (p <? inode_bits (d 0))) with true; [reflexivity|].
    symmetry. b2p; lia.
  - intros q Hq. apply H. lia.
Qed.

Lemma inode_used_clear d d' p :
  same_geometry (d 0) (d' 0) -> 0 <= inode_bits (d 0) ->
  (forall q, 0 <= q -> inode_bit d' q = negb (q =? p) && inode_bit d q) ->
  0 <= p < inode_bits (d 0) -> inode_bit d p = true ->
  inode_used d' = inode_used d - 1.
Proof.
  intros SG Hn H Hp Hb. destruct (same_geometry_bits _ _ SG) as [B1 B2].
  rewrite !inode_used_count, B1.
  rewrite (count_true_clear (inode_bit d) (inode_bit d') p); auto.
  - replace ((0 <=? p) && (p <? inode_bits (d 0))) with true; [reflexivity|].
    symmetry. b2p; lia.
  - intros q Hq. apply H. lia.
Qed.

Lemma data_used_set d d' p :
  same_geometry (d 0) (d' 0) -> 0 <= data_bits (d 0) ->
  (forall q, 0 <= q -> data_bit d' q = (q =? p) || data_bit d q) ->
  0 <= p < data_bits (d 0) -> data_bit d p = false ->
  data_used d' = data_used d + 1.
Proof.
  intros SG Hn H Hp Hb. destruct (same_geometry_bits _ _ SG) as [B1 B2].
  rewrite !data_used_count, B2.
  rewrite (count_true_set (data_bit d) (data_bit d') p); auto.
  - replace ((0 <=? p) && (p <? data_bits (d 0))) with true; [reflexivity|].
    symmetry. b2p; lia.
  - intros q Hq. apply H. lia.
Qed.

Lemma data_used_clear d d' p :
  same_geometry (d 0) (d' 0) -> 0 <= data_bits (d 0) ->
  (forall q, 0 <= q -> data_bit d' q = negb (q =? p) && data_bit d q) ->
  0 <= p < data_bits (d 0) -> data_bit d p = true ->
  data_used d' = data_used d - 1.
Proof.
  intros SG Hn H Hp Hb. destruct (same_geometry_bits _ _ SG) as [B1 B2].
  rewrite !data_used_count, B2.
  rewrite (count_true_clear (data_bit d) (data_bit d') p); auto.
  - replace ((0 <=? p) && (p <? data_bits (d 0))) with true; [reflexivity|].
    symmetry. b2p; lia.
  - intros q Hq. apply H. lia.
Qed.

Lemma inode_used_range d : 0 <= inode_bits (d 0) -> 0 <= inode_used d <= inode_bits (d 0).
Proof. intros H. rewrite inode_used_count. now apply count_true_range. Qed.

Lemma data_used_range d : 0 <= data_bits (d 0) -> 0 <= data_used d <= data_bits (d 0).
Proof. intros H. rewrite data_used_count. now apply count_true_range. Qed.

Lemma alloc_inv_facts s :
  alloc_inv s = true ->
  hdr_ok (disk s 0) = true /\
  inode_num_free (disk s 0) = inode_num_tot (disk s 0) - inode_used (disk s) /\
  data_block_num_free (disk s 0) = data_block_num_tot (disk s 0) - data_used (disk s) /\
  0 <= data_bitmap_min_pos s < 2 ^ 31 /\ 0 <= inode_bitmap_min_pos s < 2 ^ 31.
Proof.
  unfold alloc_inv, counts_ok, hints_in_range. intros H. b2p.
  unfold inode_used, data_used. auto 10.
Qed.

Lemma alloc_inv_intro s :
  hdr_ok (disk s 0) = true ->
  inode_num_free (disk s 0) = inode_num_tot (disk s 0) - inode_used (disk s) ->
  data_block_num_free (disk s 0) = data_block_num_tot (disk s 0) - data_used (disk s) ->
  0 <= data_bitmap_min_pos s < 2 ^ 31 -> 0 <= inode_bitmap_min_pos s < 2 ^ 31 ->
  alloc_inv s = true.
Proof.
  intros H1 H2 H3 H4 H5. unfold alloc_inv, counts_ok, hints_in_range.
  unfold inode_used, data_used in *. rewrite H1. b2p; try lia; reflexivity.
Qed.

(** One allocator call keeps the invariant and changes a count only
    together with its bitmap. *)
Lemma run_op_step o s r s' :
  alloc_inv s = true ->
  op_in_range (disk s 0) o = true ->
  run_op o s = Ok r s' ->
  alloc_inv s' = true /\ op_effect o s r s' /\
  same_geometry (disk s 0) (disk s' 0).
Proof.
  intros Hinv Hrange H.
  destruct (alloc_inv_facts _ Hinv) as [Hh [Ci [Cd [Hd Hi]]]].
  destruct (hdr_ok_facts Hgeo _ Hh) as [F1 [F2 [F3 [F4 [F5 [F6 F7]]]]]].
  pose proof (get32_range (disk s 0) OFF_inode_num_tot) as Ti.
  fold (inode_num_tot (disk s 0)) in Ti.
  pose proof (get32_range (disk s 0) OFF_data_block_num_tot) as Td.
  fold (data_block_num_tot (disk s 0)) in Td.
  pose proof (get32_range (disk s 0) OFF_inode_num_free) as Ri.
  fold (inode_num_free (disk s 0)) in Ri.
  pose proof (get32_range (disk s 0) OFF_data_block_num_free) as Rd.
  fold (data_block_num_free (disk s 0)) in Rd.
  pose proof (inode_used_range (disk s) (proj1 F6)) as Ui.
  pose proof (data_used_range (disk s) F7) as Ud.
  destruct o as [|n| |b]; cbn [run_op op_in_range op_effect] in *.
  - (* alloc_inode *)
    destruct (alloc_inode_spec Hgeo _ _ _ H Hh Hi) as [[-> [-> _]]|P].
    { split; [assumption|]. split; [left; auto|apply same_geometry_refl]. }
    destruct P as [R [Lo [C [F [E [Fr [Fd [SG [Bits [Frame [Hint [Hint2 _]]]]]]]]]]]].
    assert (Ui' : inode_used (disk s') = inode_used (disk s) + 1)
      by (apply (inode_used_set _ _ r); auto; lia).
    assert (Ud' : data_used (disk s') = data_used (disk s)).
    { apply data_used_eq; [assumption|]. intros q Hq.
      apply data_bit_frame; auto. intros b Hb. apply Frame; lia. }
    split; [|split; [right; repeat split; auto; lia|assumption]].
    destruct SG as [S1 [S2 [S3 [S4 [S5 S6]]]]].
    apply alloc_inv_intro; try lia.
    + eapply hdr_ok_same_geometry; [|exact Hh]. unfold same_geometry. auto 10.
  - (* free_inode *)
    mstep H as u s1 H1. apply ret_Ok in H. destruct H as [<- <-]. b2p.
    apply (free_inode_spec Hgeo) in H1; [|assumption|lia].
    destruct H1 as [C [Fr [Fd [SG [Bits [Frame [Hint [Hint2 _]]]]]]]].
    assert (Ui' : inode_used (disk s1) = inode_used (disk s) - 1)
      by (apply (inode_used_clear _ _ n); auto; lia).
    assert (Ud' : data_used (disk s1) = data_used (disk s)).
    { apply data_used_eq; [assumption|]. intros q Hq.
      apply data_bit_frame; auto. intros b Hb. apply Frame; lia. }
    pose proof (inode_used_range (disk s1)) as Ui1.
    destruct (same_geometry_bits _ _ SG) as [B1 B2]. rewrite B1 in Ui1.
    specialize (Ui1 (proj1 F6)).
    rewrite u32_small in Fr by lia.
    split; [|split; [repeat split; auto; lia|assumption]].
    destruct SG as [S1 [S2 [S3 [S4 [S5 S6]]]]].
    apply alloc_inv_intro; try lia.
    + eapply hdr_ok_same_geometry; [|exact Hh]. unfold same_geometry. auto 10.
  - (* alloc_data *)
    destruct (alloc_data_spec Hgeo _ _ _ H Hh Hd) as [[-> [-> _]]|P].
    { split; [assumption|]. split; [left; auto|apply same_geometry_refl]. }
    destruct P as [p [-> [R [Lo [C [F [E [Fr [Fi [SG [Bits [Frame [Hint [Hint2 _]]]]]]]]]]]]]].
    assert (Ud' : data_used (disk s') = data_used (disk s) + 1)
      by (apply (data_used_set _ _ p); auto; lia).
    assert (Ui' : inode_used (disk s') = inode_used (disk s)).
    { apply inode_used_eq; [assumption|]. intros q Hq.
      apply inode_bit_frame; auto. intros b Hb. apply Frame; lia. }
    split; [|split; [right; repeat split; auto; lia|assumption]].
    destruct SG as [S1 [S2 [S3 [S4 [S5 S6]]]]].
    apply alloc_inv_intro; try lia.
    + eapply hdr_ok_same_geometry; [|exact Hh]. unfold same_geometry. auto 10.
  - (* free_data *)
    mstep H as u s1 H1. apply ret_Ok in H. destruct H as [<- <-]. b2p.
    apply (free_data_spec Hgeo) in H1; [|assumption|lia|lia].
    destruct H1 as [C [Fr [Fi [SG [Bits [Frame [Hint [Hint2 _]]]]]]]].
    assert (Ud' : data_used (disk s1) = data_used (disk s) - 1)
      by (apply (data_used_clear _ _ (b - data_block_offset (disk s 0))); auto; lia).
    assert (Ui' : inode_used (disk s1) = inode_used (disk s)).
    { apply inode_used_eq; [assumption|]. intros q Hq.
      apply inode_bit_frame; auto. intros b' Hb. apply Frame; lia. }
    pose proof (data_used_range (disk s1)) as Ud1.
    destruct (same_geometry_bits _ _ SG) as [B1 B2]. rewrite B2 in Ud1.
    specialize (Ud1 F7).
    rewrite u32_small in Fr by lia.
    split; [|split; [repeat split; auto; lia|assumption]].
    destruct SG as [S1 [S2 [S3 [S4 [S5 S6]]]]].
    apply alloc_inv_intro; try lia.
    + eapply hdr_ok_same_geometry; [|exact Hh]. unfold same_geometry. auto 10.
Qed.

Lemma run_ops_inv ops :
  forall s s' u,
  alloc_inv s = true ->
  forallb (op_in_range (disk s 0)) ops = true ->
  run_ops ops s = Ok u s' ->
  alloc_inv s' = true /\ same_geometry (disk s 0) (disk s' 0).
Proof.
  induction ops as [|o ops IH]; intros s s' u Hinv Hr H.
  - apply ret_Ok in H. destruct H as [_ <-]. split; [assumption|apply same_geometry_refl].
  - cbn [run_ops forallb] in *. apply andb_true_iff in Hr. destruct Hr as [Hr1 Hr2].
    mstep H as r s1 H1.
    destruct (run_op_step _ _ _ _ Hinv Hr1 H1) as [Hinv1 [_ SG]].
    apply IH in H; auto.
    + destruct H as [Hinv' SG']. split; [assumption|].
      eapply same_geometry_trans; eassumption.
    + rewrite <- Hr2. apply forallb_eq. intros o'.
      now apply op_in_range_same_geometry.
Qed.

(** C5 (amended). Allocator counter invariant: from a state whose free
    counts agree with its bitmaps, after any sequence of [alloc_inode],
    [free_inode], [alloc_data] and [free_data] calls in which every free
    names a position of its own bitmap ([op_in_range]; a free beyond the
    bitmap clears a bit of the region behind it and breaks the counts)
    [inode_num_free] is the inode total minus the number of set
    bits of the inode bitmap and [data_block_num_free] the data total
    minus the number of set bits of the data bitmap; and each single call
    changes a bitmap and its count together, or returns [-1] having
    changed nothing. *)
Theorem allocator_counts_agree (ops : list alloc_op) (s s' : state) :
  alloc_inv s = true ->
  forallb (op_in_range (disk s 0)) ops = true ->
  run_ops ops s = Ok tt s' ->
  (inode_num_free (disk s' 0)
     = inode_num_tot (disk s' 0) - inode_used (disk s') /\
   data_block_num_free (disk s' 0)
     = data_block_num_tot (disk s' 0) - data_used (disk s')) /\
  (forall o r s'',
     op_in_range (disk s' 0) o = true ->
     run_op o s' = Ok r s'' -> op_effect o s' r s'').
Proof.
  intros Hinv Hr H.
  destruct (run_ops_inv _ _ _ _ Hinv Hr H) as [Hinv' SG].
  destruct (alloc_inv_facts _ Hinv') as [Hh [Ci [Cd _]]].
  split; [auto|]. intros o r s'' Ho Hrun.
  destruct (run_op_step _ _ _ _ Hinv' Ho Hrun) as [_ [E _]]. exact E.
Qed.

End Counts.

(** * The first-zero hint *)

Lemma first_clear_succ (f : Z -> bool) n :
  0 <= n ->
  match filter f (zrange (n + 1)) with [] => -1 | p :: _ => p end
  = match filter f (zrange n) with
    | [] => if f n then n else -1
    | p :: _ => p
    end.
Proof.
  intros H. rewrite zrange_succ, filter_app by assumption.
  destruct (filter f (zrange n)); simpl; [|reflexivity].
  destruct (f n); reflexivity.
Qed.

Lemma first_clear_spec (f : Z -> bool) n :
  0 <= n ->
  let r := match filter f (zrange n) with [] => -1 | p :: _ => p end in
  (r = -1 /\ forall q, 0 <= q < n -> f q = false)
  \/ (0 <= r < n /\ f r = true /\ forall q, 0 <= q < r -> f q = false).
Proof.
  intros Hn. revert n Hn.
  apply (natlike_ind (fun n =>
    let r := match filter f (zrange n) with [] => -1 | p :: _ => p end in
    (r = -1 /\ forall q, 0 <= q < n -> f q = false)
    \/ (0 <= r < n /\ f r = true /\ forall q, 0 <= q < r -> f q = false))).
  - left. split; [reflexivity|]. intros q Hq. lia.
  - intros x Hx IH. cbv zeta in *. unfold Z.succ.
    rewrite first_clear_succ by assumption.
    destruct (filter f (zrange x)) as [|p t] eqn:E.
    + destruct IH as [[_ IH]|[IH _]]; [|lia].
      destruct (f x) eqn:Ex.
      * right. split; [lia|]. split; [assumption|]. assumption.
      * left. split; [reflexivity|]. intros q Hq.
        destruct (Z.eq_dec q x) as [->|]; [assumption|apply IH; lia].
    + assert (I : In p (filter f (zrange x))) by (rewrite E; left; reflexivity).
      apply filter_In in I. destruct I as [I _]. apply zrange_In in I.
      destruct IH as [[IH _]|[IH1 [IH2 IH3]]]; [lia|].
      right. split; [lia|]. auto.
Qed.

Section Hints.

Context {G : Geometry}.
Hypothesis Hgeo : geometry_ok = true.

Lemma lowest_clear_spec d start n :
  0 <= n ->
  let r := lowest_clear d start n in
  (r = -1 /\ forall q, 0 <= q < n -> bitmap_bit d start q = true)
  \/ (0 <= r < n /\ bitmap_bit d start r = false /\
      forall q, 0 <= q < r -> bitmap_bit d start q = true).
Proof.
  intros Hn. unfold lowest_clear.
  destruct (first_clear_spec (fun p => negb (bitmap_bit d start p)) n Hn)
    as [[E F]|[R [C F]]]; cbv zeta in *.
  - left. split; [assumption|]. intros q Hq. specialize (F q Hq).
    now apply negb_false_iff in F.
  - right. split; [assumption|]. split; [now apply negb_true_iff in C|].
    intros q Hq. specialize (F q Hq). now apply negb_false_iff in F.
Qed.

Lemma lowest_clear_unique d start n r :
  0 <= n ->
  (r = -1 /\ forall q, 0 <= q < n -> bitmap_bit d start q = true)
  \/ (0 <= r < n /\ bitmap_bit d start r = false /\
      forall q, 0 <= q < r -> bitmap_bit d start q = true) ->
  r = lowest_clear d start n.
Proof.
  intros Hn H. destruct (lowest_clear_spec d start n Hn) as [[E F]|[R [C F]]];
    cbv zeta in *; destruct H as [[E' F']|[R' [C' F']]].
  - congruence.
  - rewrite F in C' by lia. discriminate.
  - rewrite F' in C by lia. discriminate.
  - destruct (Z.lt_trichotomy r (lowest_clear d start n)) as [L|[L|L]]; [|assumption|].
    + rewrite F in C' by lia. discriminate.
    + rewrite F' in C by lia. discriminate.
Qed.

Lemma hint_ok_facts d start n hint :
  hint_ok d start n hint = true <->
  0 <= hint <= n /\ forall q, 0 <= q < hint -> bitmap_bit d start q = true.
Proof.
  unfold hint_ok. rewrite !andb_true_iff, forallb_forall, Z.leb_le, Z.leb_le.
  split.
  - intros [[H1 H2] H3]. split; [lia|]. intros q Hq. apply H3. now apply zrange_In.
  - intros [H1 H2]. split; [lia|]. intros q Hq. apply H2. now apply zrange_In.
Qed.

(** With every position below the hint allocated, the hinted search finds
    what a search from position 0 finds. *)
Lemma first_zero_lowest bm s :
  0 <= bm_start bm <= bm_end bm -> bm_end bm <= BLOCK_NUM ->
  (bm_end bm - bm_start bm) * siz < 2 ^ 31 ->
  hint_ok (disk s) (bm_start bm) ((bm_end bm - bm_start bm) * siz) (bm_minpos bm) = true ->
  BitMap_get_first_zero bm s
  = Ok (lowest_clear (disk s) (bm_start bm) ((bm_end bm - bm_start bm) * siz)) s.
Proof.
  intros Hs He Hn Hh. apply hint_ok_facts in Hh. destruct Hh as [Hr Hall].
  assert (Hm : 0 <= bm_minpos bm < 2 ^ 31) by lia.
  destruct (BitMap_get_first_zero_total Hgeo bm s Hm (proj1 Hs) He) as [r Hrun].
  rewrite Hrun. f_equal.
  destruct (BitMap_get_first_zero_spec Hgeo _ _ _ _ Hrun Hm ltac:(lia)) as [_ S].
  cbv zeta in S. apply lowest_clear_unique; [lia|].
  assert (Hlo : 0 <= 64 * (bm_minpos bm / 64) <= bm_minpos bm).
  { pose proof (Z.div_mod (bm_minpos bm) 64 ltac:(lia)).
    pose proof (Z.mod_pos_bound (bm_minpos bm) 64 ltac:(lia)).
    pose proof (Z.div_pos (bm_minpos bm) 64). lia. }
  destruct S as [[E F]|[R [C F]]].
  - left. split; [assumption|]. intros q Hq.
    destruct (Z_lt_le_dec q (bm_minpos bm)); [apply Hall; lia|apply F; lia].
  - right. split; [lia|]. split; [assumption|]. intros q Hq.
    destruct (Z_lt_le_dec q (bm_minpos bm)); [apply Hall; lia|apply F; lia].
Qed.

Lemma hint_ok_zero d start n : 0 <= n -> hint_ok d start n 0 = true.
Proof. intros H. apply hint_ok_facts. split; [lia|]. intros q Hq. lia. Qed.

Lemma hints_ok_facts s :
  hints_ok s = true ->
  let h := disk s 0 in
  hdr_ok h = true /\
  hint_ok (disk s) (inode_bitmap_offset h) (inode_bits h) (inode_bitmap_min_pos s) = true /\
  hint_ok (disk s) (data_block_bitmap_offset h) (data_bits h) (data_bitmap_min_pos s) = true.
Proof. unfold hints_ok. intros H. cbv zeta in *. b2p. auto. Qed.

(** One allocator call keeps the hint discipline. *)
Lemma run_op_hints o s r s' :
  hints_ok s = true ->
  op_in_range (disk s 0) o = true ->
  run_op o s = Ok r s' ->
  hints_ok s' = true /\ same_geometry (disk s 0) (disk s' 0).
Proof.
  intros Hinv Hrange H.
  destruct (hints_ok_facts _ Hinv) as [Hh [Hi Hd]]. cbv zeta in *.
  destruct (hdr_ok_facts Hgeo _ Hh) as [F1 [F2 [F3 [F4 [F5 [F6 F7]]]]]].
  apply hint_ok_facts in Hi, Hd. destruct Hi as [Hi1 Hi2]. destruct Hd as [Hd1 Hd2].
  change (forall q, 0 <= q < inode_bitmap_min_pos s -> inode_bit (disk s) q = true) in Hi2.
  change (forall q, 0 <= q < data_bitmap_min_pos s -> data_bit (disk s) q = true) in Hd2.
  assert (Goal : forall s', same_geometry (disk s 0) (disk s' 0) ->
            (0 <= inode_bitmap_min_pos s' <= inode_bits (disk s 0) /\
             forall q, 0 <= q < inode_bitmap_min_pos s' -> inode_bit (disk s') q = true) ->
            (0 <= data_bitmap_min_pos s' <= data_bits (disk s 0) /\
             forall q, 0 <= q < data_bitmap_min_pos s' -> data_bit (disk s') q = true) ->
            hints_ok s' = true /\ same_geometry (disk s 0) (disk s' 0)).
  { intros t SG Ti Td. split; [|assumption]. unfold hints_ok.
    destruct (same_geometry_bits _ _ SG) as [B1 B2].
    rewrite (hdr_ok_same_geometry _ _ SG Hh). simpl.
    apply andb_true_iff. split; apply hint_ok_facts; rewrite ?B1, ?B2.
    - exact Ti.
    - exact Td. }
  destruct o as [|n| |b]; cbn [run_op op_in_range] in *.
  - (* alloc_inode *)
    destruct (alloc_inode_spec Hgeo _ _ _ H Hh ltac:(lia)) as [[-> [-> _]]|P].
    { split; [assumption|apply same_geometry_refl]. }
    destruct P as [R [Lo [C [F [E [Fr [Fd [SG [Bits [Frame [Hint [Hint2 _]]]]]]]]]]]].
    apply Goal; [assumption| |].
    + rewrite Hint. split; [lia|]. intros q Hq. rewrite Bits by lia.
      destruct (Z_lt_le_dec q (inode_bitmap_min_pos s)).
      * rewrite (Hi2 q) by lia. apply orb_true_r.
      * assert (Hlo : 64 * (inode_bitmap_min_pos s / 64) <= inode_bitmap_min_pos s).
        { pose proof (Z.div_mod (inode_bitmap_min_pos s) 64 ltac:(lia)).
          pose proof (Z.mod_pos_bound (inode_bitmap_min_pos s) 64 ltac:(lia)). lia. }
        rewrite (F q) by lia. apply orb_true_r.
    + rewrite Hint2. split; [lia|]. intros q Hq.
      rewrite (data_bit_frame Hgeo (disk s)); auto; [|lia]. intros b Hb. apply Frame; lia.
  - (* free_inode *)
    mstep H as u s1 H1. apply ret_Ok in H. destruct H as [<- <-]. b2p.
    apply (free_inode_spec Hgeo) in H1; [|assumption|lia].
    destruct H1 as [C [Fr [Fd [SG [Bits [Frame [Hint [Hint2 _]]]]]]]].
    apply Goal; [assumption| |].
    + rewrite Hint. split; [lia|]. intros q Hq. rewrite Bits by lia.
      rewrite (Hi2 q) by lia.
      destruct (Z.eqb_spec q n); [lia|reflexivity].
    + rewrite Hint2. split; [lia|]. intros q Hq.
      rewrite (data_bit_frame Hgeo (disk s)); auto; [|lia]. intros b Hb. apply Frame; lia.
  - (* alloc_data *)
    destruct (alloc_data_spec Hgeo _ _ _ H Hh ltac:(lia)) as [[-> [-> _]]|P].
    { split; [assumption|apply same_geometry_refl]. }
    destruct P as [p [-> [R [Lo [C [F [E [Fr [Fi [SG [Bits [Frame [Hint [Hint2 _]]]]]]]]]]]]]].
    apply Goal; [assumption| |].
    + rewrite Hint2. split; [lia|]. intros q Hq.
      rewrite (inode_bit_frame Hgeo (disk s)); auto; [|lia]. intros b Hb. apply Frame; lia.
    + rewrite Hint. split; [lia|]. intros q Hq. rewrite Bits by lia.
      destruct (Z_lt_le_dec q (data_bitmap_min_pos s)).
      * rewrite (Hd2 q) by lia. apply orb_true_r.
      * assert (Hlo : 64 * (data_bitmap_min_pos s / 64) <= data_bitmap_min_pos s).
        { pose proof (Z.div_mod (data_bitmap_min_pos s) 64 ltac:(lia)).
          pose proof (Z.mod_pos_bound (data_bitmap_min_pos s) 64 ltac:(lia)). lia. }
        rewrite (F q) by lia. apply orb_true_r.
  - (* free_data *)
    mstep H as u s1 H1. apply ret_Ok in H. destruct H as [<- <-]. b2p.
    apply (free_data_spec Hgeo) in H1; [|assumption|lia|lia].
    destruct H1 as [C [Fr [Fi [SG [Bits [Frame [Hint [Hint2 _]]]]]]]].
    apply Goal; [assumption| |].
    + rewrite Hint2. split; [lia|]. intros q Hq.
      rewrite (inode_bit_frame Hgeo (disk s)); auto; [|lia]. intros b' Hb. apply Frame; lia.
    + rewrite Hint. split; [lia|]. intros q Hq. rewrite Bits by lia.
      rewrite (Hd2 q) by lia.
      destruct (Z.eqb_spec q (b - data_block_offset (disk s 0))); [lia|reflexivity].
Qed.

Lemma run_ops_hints ops :
  forall s s' u,
  hints_ok s = true ->
  forallb (op_in_range (disk s 0)) ops = true ->
  run_ops ops s = Ok u s' ->
  hints_ok s' = true.
Proof.
  induction ops as [|o ops IH]; intros s s' u Hinv Hr H.
  - apply ret_Ok in H. destruct H as [_ <-]. assumption.
  - cbn [run_ops forallb] in *. apply andb_true_iff in Hr. destruct Hr as [Hr1 Hr2].
    mstep H as r s1 H1.
    destruct (run_op_hints _ _ _ _ Hinv Hr1 H1) as [Hinv1 SG].
    apply IH in H; auto.
    rewrite <- Hr2. apply forallb_eq. intros o'.
    now apply op_in_range_same_geometry.
Qed.

(** C8 (amended). Hint-independence of the first-zero search: in every
    state reached from one that obeys the hint discipline (the hints are 0
    when the program starts) by any sequence of allocator calls in which
    every free names a position of its own bitmap ([op_in_range]; a free
    beyond the inode bitmap clears a bit of the data bitmap below the data
    hint, and the search then depends on the hint),
    [BitMap::get_first_zero] started at
    the hint returns what it returns started at position 0, namely the
    lowest clear position of the bitmap ([-1] when there is none); hence
    [alloc_inode] and [alloc_data], when they allocate, allocate the
    lowest free index. *)
Theorem first_zero_hint_independent (ops : list alloc_op) (s s' : state) :
  hints_ok s = true ->
  forallb (op_in_range (disk s 0)) ops = true ->
  run_ops ops s = Ok tt s' ->
  let h := disk s' 0 in
  let ilow := lowest_clear (disk s') (inode_bitmap_offset h) (inode_bits h) in
  let dlow := lowest_clear (disk s') (data_block_bitmap_offset h) (data_bits h) in
  (BitMap_get_first_zero (inode_bitmap h (inode_bitmap_min_pos s')) s'
     = BitMap_get_first_zero (inode_bitmap h 0) s' /\
   BitMap_get_first_zero (inode_bitmap h 0) s' = Ok ilow s') /\
  (BitMap_get_first_zero (data_bitmap h (data_bitmap_min_pos s')) s'
     = BitMap_get_first_zero (data_bitmap h 0) s' /\
   BitMap_get_first_zero (data_bitmap h 0) s' = Ok dlow s') /\
  (forall r s'', alloc_inode s' = Ok r s'' -> r <> -1 -> r = ilow) /\
  (forall r s'', alloc_data s' = Ok r s'' -> r <> -1 ->
                 r = data_block_offset h + dlow).
Proof.
  intros Hinv Hr H. pose proof (run_ops_hints _ _ _ _ Hinv Hr H) as Hinv'.
  destruct (hints_ok_facts _ Hinv') as [Hh [Hi Hd]]. cbv zeta in *.
  destruct (hdr_ok_facts Hgeo _ Hh) as [F1 [F2 [F3 [F4 [F5 [F6 F7]]]]]].
  assert (Ei : forall m,
    hint_ok (disk s') (inode_bitmap_offset (disk s' 0)) (inode_bits (disk s' 0)) m = true ->
    BitMap_get_first_zero (inode_bitmap (disk s' 0) m) s'
    = Ok (lowest_clear (disk s') (inode_bitmap_offset (disk s' 0))
                       (inode_bits (disk s' 0))) s').
  { intros m Hm. unfold inode_bitmap. rewrite !s32_small by lia.
    apply (first_zero_lowest (mkBitMap _ _ m) s'); cbn [bm_start bm_end bm_minpos];
      [lia|lia|exact (proj2 F6)|exact Hm]. }
  assert (Ed : forall m,
    hint_ok (disk s') (data_block_bitmap_offset (disk s' 0)) (data_bits (disk s' 0)) m = true ->
    BitMap_get_first_zero (data_bitmap (disk s' 0) m) s'
    = Ok (lowest_clear (disk s') (data_block_bitmap_offset (disk s' 0))
                       (data_bits (disk s' 0))) s').
  { intros m Hm. unfold data_bitmap. rewrite !s32_small by lia.
    assert (data_bits (disk s' 0) < 2 ^ 31) as Hlt by lia.
    apply (first_zero_lowest (mkBitMap _ _ m) s'); cbn [bm_start bm_end bm_minpos];
      [lia|lia|exact Hlt|exact Hm]. }
  split; [|split; [|split]].
  - rewrite (Ei _ Hi), (Ei 0 (hint_ok_zero _ _ _ (proj1 F6))). auto.
  - rewrite (Ed _ Hd), (Ed 0 (hint_ok_zero _ _ _ F7)). auto.
  - intros r s'' Ha Hne.
    apply hint_ok_facts in Hi. destruct Hi as [Hi1 Hi2].
    destruct (alloc_inode_spec Hgeo _ _ _ Ha Hh ltac:(lia)) as [[-> _]|P]; [congruence|].
    destruct P as [R [Lo [C [F _]]]].
    apply lowest_clear_unique; [lia|]. right. split; [assumption|].
    split; [exact C|]. intros q Hq.
    assert (Hlo : 64 * (inode_bitmap_min_pos s' / 64) <= inode_bitmap_min_pos s').
    { pose proof (Z.div_mod (inode_bitmap_min_pos s') 64 ltac:(lia)).
      pose proof (Z.mod_pos_bound (inode_bitmap_min_pos s') 64 ltac:(lia)). lia. }
    destruct (Z_lt_le_dec q (inode_bitmap_min_pos s')); [apply Hi2; lia|apply F; lia].
  - intros r s'' Ha Hne.
    apply hint_ok_facts in Hd. destruct Hd as [Hd1 Hd2].
    destruct (alloc_data_spec Hgeo _ _ _ Ha Hh ltac:(lia)) as [[-> _]|P]; [congruence|].
    destruct P as [p [-> [R [Lo [C [F _]]]]]]. f_equal.
    apply lowest_clear_unique; [lia|]. right. split; [assumption|].
    split; [exact C|]. intros q Hq.
    assert (Hlo : 64 * (data_bitmap_min_pos s' / 64) <= data_bitmap_min_pos s').
    { pose proof (Z.div_mod (data_bitmap_min_pos s') 64 ltac:(lia)).
      pose proof (Z.mod_pos_bound (data_bitmap_min_pos s') 64 ltac:(lia)). lia. }
    destruct (Z_lt_le_dec q (data_bitmap_min_pos s')); [apply Hd2; lia|apply F; lia].
Qed.

End Hints.

(** * Well-formed extents *)

Lemma nodupb_NoDup l : nodupb l = true <-> NoDup l.
Proof.
  induction l as [|x t IH]; simpl.
  - split; [constructor|reflexivity].
  - rewrite andb_true_iff, negb_true_iff, IH. split.
    + intros [H1 H2]. constructor; [|assumption]. intros Hin.
      assert (existsb (Z.eqb x) t = true) as E.
      { apply existsb_exists. exists x. split; [assumption|apply Z.eqb_refl]. }
      congruence.
    + intros H. inversion H; subst. split; [|assumption].
      destruct (existsb (Z.eqb x) t) eqn:E; [|reflexivity].
      apply existsb_exists in E. destruct E as [y [Hy E]].
      apply Z.eqb_eq in E. subst. contradiction.
Qed.

Lemma zrange_from_In a b x : In x (zrange_from a b) <-> a <= x < b.
Proof.
  unfold zrange_from. rewrite in_map_iff. split.
  - intros [k [Hk Hin]]. apply zrange_In in Hin. lia.
  - intros H. exists (x - a). split; [lia|]. apply zrange_In. lia.
Qed.

Lemma NoDup_snoc {A} (l : list A) x : NoDup l -> ~ In x l -> NoDup (l ++ [x]).
Proof.
  intros H Hx. apply NoDup_app; [assumption|repeat constructor; auto|].
  intros a Ha [<-|[]]. contradiction.
Qed.

Lemma NoDup_app_inv {A} (l1 l2 : list A) :
  NoDup (l1 ++ l2) ->
  NoDup l1 /\ NoDup l2 /\ (forall a, In a l1 -> ~ In a l2).
Proof.
  intros H. split; [now apply NoDup_app_remove_r in H|].
  split; [now apply NoDup_app_remove_l in H|].
  induction l1 as [|x l1 IH]; [intros a []|].
  simpl in H. inversion H; subst. intros a [<-|Ha].
  - intros Hin. apply H2. apply in_or_app. now right.
  - now apply IH.
Qed.

Section WellFormed.

Context {G : Geometry}.
Hypothesis Hgeo : geometry_ok = true.

Local Abbreviation P := POINTER_PER_BLOCK.

Lemma P_pos : 16 <= P.
Proof. destruct (geo_pointers Hgeo) as [_ H]. exact H. Qed.

Lemma CAP_TOP : TOP + P = CAP /\ 1 + P <= TOP.
Proof. pose proof P_pos. unfold CAP, TOP. nia. Qed.

(** The propositions behind [valid_block] and [valid_ptr_block]. *)
Lemma valid_block_facts d b :
  valid_block d b = true <->
  data_block_offset (d 0) <= b /\
  b - data_block_offset (d 0) < data_bits (d 0) /\
  data_bit d (b - data_block_offset (d 0)) = true.
Proof.
  unfold valid_block. rewrite !andb_true_iff, Z.leb_le, Z.ltb_lt. tauto.
Qed.

Lemma valid_ptr_block_facts d b :
  valid_ptr_block d b = true <-> valid_block d b = true /\ b < BLOCK_NUM.
Proof. unfold valid_ptr_block. rewrite andb_true_iff, Z.ltb_lt. tauto. Qed.

(** The propositional form of [wf_mem]. *)
Record WF (d : Z -> block) (ino : INode) (n : Z) : Prop := mkWF {
  WF_n : 0 <= n <= CAP;
  WF_norm : inode_norm ino = true;
  WF_ptr : forall b, In b (ptr_blocks d ino n) -> valid_ptr_block d b = true;
  WF_data : forall b, In b (data_blocks d ino n) -> valid_block d b = true;
  WF_nodup : NoDup (owned d ino n);
  WF_zeros : zeros_ok d ino n = true
}.

Lemma wf_mem_WF d ino n : wf_mem d ino n = true <-> WF d ino n.
Proof.
  unfold wf_mem. rewrite !andb_true_iff, !forallb_forall, nodupb_NoDup,
    Z.leb_le, Z.leb_le. split.
  - intros [[[[[[H1 H2] H3] H4] H5] H6] H7]. constructor; auto.
  - intros [H1 H2 H3 H4 H5 H6]. repeat split; auto; lia.
Qed.

(** The propositional form of [zeros_ok]. *)
Lemma zeros_ok_facts d ino n :
  zeros_ok d ino n = true <->
  (n = 0 -> direct_pointer ino = 0) /\
  (n <= 1 -> indirect_pointer ino = 0) /\
  (1 < n -> forall j, n - 1 <= j < P -> ind_slot d ino j = 0) /\
  (n <= 1 + P -> iindirect_pointer ino = 0) /\
  (1 + P < n -> forall i, n_inner n <= i < P -> outer_slot d ino i = 0) /\
  (1 + P < n -> (n - (1 + P)) mod P <> 0 ->
   forall j, (n - (1 + P)) mod P <= j < P ->
             inner_slot d ino ((n - (1 + P)) / P) j = 0).
Proof.
  unfold zeros_ok. rewrite !andb_true_iff. split.
  - intros [[H1 H2] H3]. repeat split.
    + intros ->. simpl in H1. now apply Z.eqb_eq.
    + intros Hn. destruct (Z.leb_spec n 1); [now apply Z.eqb_eq|lia].
    + intros Hn j Hj. destruct (Z.leb_spec n 1); [lia|].
      rewrite forallb_forall in H2. apply Z.eqb_eq. apply H2.
      now apply zrange_from_In.
    + intros Hn. destruct (Z.leb_spec n (1 + P)); [now apply Z.eqb_eq|lia].
    + intros Hn i Hi. destruct (Z.leb_spec n (1 + P)); [lia|].
      apply andb_true_iff in H3. destruct H3 as [H3 _].
      rewrite forallb_forall in H3. apply Z.eqb_eq. apply H3.
      now apply zrange_from_In.
    + intros Hn Hm j Hj. destruct (Z.leb_spec n (1 + P)); [lia|].
      apply andb_true_iff in H3. destruct H3 as [_ H3]. cbv zeta in H3.
      destruct (Z.eqb_spec ((n - (1 + P)) mod P) 0); [contradiction|].
      rewrite forallb_forall in H3. apply Z.eqb_eq. apply H3.
      now apply zrange_from_In.
  - intros [H1 [H2 [H3 [H4 [H5 H6]]]]]. repeat split.
    + destruct (Z.eqb_spec n 0); [|reflexivity]. apply Z.eqb_eq. auto.
    + destruct (Z.leb_spec n 1); [apply Z.eqb_eq; auto|].
      apply forallb_forall. intros j Hj. apply zrange_from_In in Hj.
      apply Z.eqb_eq. apply H3; lia.
    + destruct (Z.leb_spec n (1 + P)); [apply Z.eqb_eq; auto|].
      apply andb_true_iff. split.
      * apply forallb_forall. intros i Hi. apply zrange_from_In in Hi.
        apply Z.eqb_eq. apply H5; lia.
      * cbv zeta. destruct (Z.eqb_spec ((n - (1 + P)) mod P) 0); [reflexivity|].
        apply forallb_forall. intros j Hj. apply zrange_from_In in Hj.
        apply Z.eqb_eq. apply H6; lia.
Qed.

Lemma inode_norm_facts ino :
  inode_norm ino = true <->
  0 <= filesize ino < 2 ^ 32 /\
  0 <= direct_pointer ino < 2 ^ 32 /\
  0 <= indirect_pointer ino < 2 ^ 32 /\
  0 <= iindirect_pointer ino < 2 ^ 32.
Proof.
  unfold inode_norm. rewrite !andb_true_iff, !Z.leb_le, !Z.ltb_lt. tauto.
Qed.

Lemma load_inode_norm b idx : inode_norm (load_inode b idx) = true.
Proof.
  apply inode_norm_facts. unfold load_inode. cbn.
  repeat split; apply get32_range.
Qed.

(** ** Arithmetic of the double-indirect tier *)

Lemma quot_div a : 0 <= a -> Z.quot a P = a / P /\ Z.rem a P = a mod P.
Proof.
  intros H. pose proof P_pos.
  split; [apply Z.quot_div_nonneg|apply Z.rem_mod_nonneg]; lia.
Qed.

Lemma n_inner_small n : n <= 1 + P -> n_inner n = 0.
Proof. intros H. unfold n_inner. destruct (Z.leb_spec n (1 + P)); [reflexivity|lia]. Qed.

Lemma n_inner_succ n :
  1 + P <= n -> n_inner (n + 1) = (n - (1 + P)) / P + 1.
Proof.
  intros H. unfold n_inner. destruct (Z.leb_spec (n + 1) (1 + P)); [lia|].
  do 2 f_equal. lia.
Qed.

Lemma n_inner_step n :
  1 + P < n ->
  n_inner n = if (n - (1 + P)) mod P =? 0 then (n - (1 + P)) / P
              else (n - (1 + P)) / P + 1.
Proof.
  intros H. pose proof P_pos as HP. unfold n_inner.
  destruct (Z.leb_spec n (1 + P)); [lia|].
  set (o := n - (1 + P)). replace (n - (2 + P)) with (o - 1) by (unfold o; lia).
  assert (Ho : 1 <= o) by (unfold o; lia).
  assert (Hnz : P <> 0) by lia. assert (Hpz : 0 < P) by lia.
  pose proof (Z.div_mod o P Hnz) as E.
  pose proof (Z.mod_pos_bound o P Hpz) as B.
  destruct (Z.eqb_spec (o mod P) 0) as [E0|E0].
  - assert (1 <= o / P) by nia.
    replace (o - 1) with ((P - 1) + (o / P - 1) * P) by lia.
    rewrite Z.div_add, Z.div_small by lia. lia.
  - replace (o - 1) with ((o mod P - 1) + (o / P) * P) by lia.
    rewrite Z.div_add, Z.div_small by lia. lia.
Qed.

Lemma n_inner_range n : 0 <= n <= CAP -> 0 <= n_inner n <= P.
Proof.
  intros H. pose proof P_pos as HP. unfold n_inner, CAP in *.
  destruct (Z.leb_spec n (1 + P)); [lia|].
  assert (0 <= (n - (2 + P)) / P) by (apply Z.div_pos; lia).
  assert ((n - (2 + P)) / P < P) by (apply Z.div_lt_upper_bound; nia).
  lia.
Qed.

End WellFormed.

(** * How the extent lists grow and what they depend on *)

Section ExtentLists.

Context {G : Geometry}.
Hypothesis Hgeo : geometry_ok = true.

Local Abbreviation P := POINTER_PER_BLOCK.

Lemma data_blocks_succ d ino n :
  0 <= n -> data_blocks d ino (n + 1) = data_blocks d ino n ++ [l2p d ino n].
Proof.
  intros H. unfold data_blocks. rewrite zrange_succ by assumption.
  now rewrite map_app.
Qed.

Lemma ptr_blocks_succ d ino n :
  0 <= n ->
  ptr_blocks d ino (n + 1) = ptr_blocks d ino n ++ new_ptrs d ino n.
Proof.
  intros Hn. pose proof (P_pos Hgeo) as HP. unfold ptr_blocks, new_ptrs.
  destruct (Z.leb_spec 2 (n + 1)); destruct (Z.leb_spec 2 n);
    destruct (Z.eqb_spec n 1); try lia;
    destruct (Z.ltb_spec (1 + P) (n + 1)); destruct (Z.ltb_spec (1 + P) n);
    destruct (Z.eqb_spec n (1 + P)); try lia;
    destruct (Z.leb_spec (1 + P) n); try lia; cbn [andb app];
    rewrite ?app_nil_r; try reflexivity.
  - (* 1 + P < n *)
    rewrite n_inner_succ by (auto; lia).
    rewrite (n_inner_step Hgeo n) by lia.
    destruct (Z.eqb_spec ((n - (1 + P)) mod P) 0) as [E|E].
    + rewrite zrange_succ by (apply Z.div_pos; lia).
      rewrite map_app. reflexivity.
    + rewrite app_nil_r. reflexivity.
  - (* n = 1 + P *)
    subst n. rewrite n_inner_succ by (auto; lia).
    replace (1 + P - (1 + P)) with 0 by lia.
    rewrite Z.mod_0_l, Z.div_0_l by lia. reflexivity.
Qed.

Lemma owned_succ d ino n :
  0 <= n ->
  Permutation (owned d ino (n + 1))
              (owned d ino n ++ new_ptrs d ino n ++ [l2p d ino n]).
Proof.
  intros H. unfold owned. rewrite ptr_blocks_succ, data_blocks_succ by assumption.
  rewrite <- !app_assoc. apply Permutation_app_head.
  rewrite !app_assoc. apply Permutation_app_tail. apply Permutation_app_comm.
Qed.

Lemma new_ptrs_length d ino n :
  Z.of_nat (length (new_ptrs d ino n))
  = (if n =? 1 then 1 else 0) + (if n =? 1 + P then 1 else 0)
    + (if (1 + P <=? n) && ((n - (1 + P)) mod P =? 0) then 1 else 0).
Proof.
  unfold new_ptrs. rewrite !length_app.
  destruct (n =? 1); destruct (n =? 1 + P);
    destruct ((1 + P <=? n) && ((n - (1 + P)) mod P =? 0)); reflexivity.
Qed.

Lemma nblocks_succ d ino n :
  0 <= n ->
  nblocks (n + 1) = nblocks n + Z.of_nat (length (new_ptrs d ino n)) + 1.
Proof.
  intros Hn. pose proof (P_pos Hgeo) as HP. rewrite new_ptrs_length.
  unfold nblocks.
  destruct (Z.leb_spec 2 (n + 1)); destruct (Z.leb_spec 2 n);
    destruct (Z.eqb_spec n 1); try lia;
    destruct (Z.ltb_spec (1 + P) (n + 1)); destruct (Z.ltb_spec (1 + P) n);
    destruct (Z.eqb_spec n (1 + P)); try lia;
    destruct (Z.leb_spec (1 + P) n); try lia; cbn [andb]; try lia.
  - rewrite n_inner_succ by (auto; lia). rewrite (n_inner_step Hgeo n) by lia.
    destruct (Z.eqb_spec ((n - (1 + P)) mod P) 0); lia.
  - subst n. rewrite n_inner_succ by (auto; lia).
    replace (1 + P - (1 + P)) with 0 by lia.
    rewrite Z.mod_0_l, Z.div_0_l by lia. simpl. lia.
Qed.

Lemma owned_length d ino n :
  0 <= n -> Z.of_nat (length (owned d ino n)) = nblocks n.
Proof.
  intros Hn. pose proof (P_pos Hgeo) as HP. revert n Hn.
  apply natlike_ind.
  - unfold owned, ptr_blocks, data_blocks, nblocks.
    destruct (Z.ltb_spec (1 + P) 0); [lia|]. reflexivity.
  - intros n Hn IH. unfold Z.succ.
    rewrite (Permutation_length (owned_succ d ino n Hn)).
    rewrite (nblocks_succ d ino n Hn), !length_app, !Nat2Z.inj_add, IH.
    simpl. lia.
Qed.

(** ** The lists depend only on the pointer blocks they are read from *)

Lemma in_ptr_blocks_ind d ino n :
  2 <= n -> In (indirect_pointer ino) (ptr_blocks d ino n).
Proof.
  intros H. unfold ptr_blocks. destruct (Z.leb_spec 2 n); [|lia].
  apply in_or_app. left. left. reflexivity.
Qed.

Lemma in_ptr_blocks_iind d ino n :
  1 + P < n -> In (iindirect_pointer ino) (ptr_blocks d ino n).
Proof.
  intros H. unfold ptr_blocks. destruct (Z.ltb_spec (1 + P) n); [|lia].
  apply in_or_app. right. left. reflexivity.
Qed.

Lemma in_ptr_blocks_inner d ino n i :
  1 + P < n -> 0 <= i < n_inner n ->
  In (outer_slot d ino i) (ptr_blocks d ino n).
Proof.
  intros H Hi. unfold ptr_blocks. destruct (Z.ltb_spec (1 + P) n); [|lia].
  apply in_or_app. right. right. apply in_map. now apply zrange_In.
Qed.

Lemma in_data_blocks d ino n k :
  0 <= k < n -> In (l2p d ino k) (data_blocks d ino n).
Proof. intros H. unfold data_blocks. apply in_map. now apply zrange_In. Qed.

(** The inner block of logical block [k] is one of the first
    [n_inner n] when [k < n]. *)
Lemma inner_index_bound n k :
  1 + P <= k < n -> 0 <= (k - (1 + P)) / P < n_inner n.
Proof.
  intros H. pose proof (P_pos Hgeo) as HP. unfold n_inner.
  destruct (Z.leb_spec n (1 + P)); [lia|].
  split; [apply Z.div_pos; lia|].
  assert ((k - (1 + P)) / P <= (n - (2 + P)) / P)
    by (apply Z.div_le_mono; lia).
  lia.
Qed.

(** The slots of block [b] read the same on both devices. *)
Definition same_slots (d d' : Z -> block) (b : Z) : Prop :=
  forall j, get_pointer (d' b) j = get_pointer (d b) j.

Lemma l2p_agree d d' ino n k :
  (forall b, In b (ptr_blocks d ino n) -> same_slots d d' b) ->
  0 <= k < n -> l2p d' ino k = l2p d ino k.
Proof.
  intros A Hk. pose proof (P_pos Hgeo) as HP. unfold l2p.
  destruct (Z.eqb_spec k 0); [reflexivity|].
  destruct (Z.ltb_spec k (1 + P)).
  - unfold ind_slot. apply A. apply in_ptr_blocks_ind. lia.
  - cbv zeta. unfold inner_slot, outer_slot.
    rewrite (A (iindirect_pointer ino)) by (apply in_ptr_blocks_iind; lia).
    apply A.
    apply (in_ptr_blocks_inner d ino n); [lia|]. apply inner_index_bound. lia.
Qed.

Lemma data_blocks_agree d d' ino n :
  (forall b, In b (ptr_blocks d ino n) -> same_slots d d' b) ->
  data_blocks d' ino n = data_blocks d ino n.
Proof.
  intros A. unfold data_blocks. apply map_ext_in. intros k Hk.
  apply zrange_In in Hk. now apply (l2p_agree d d' ino n).
Qed.

Lemma ptr_blocks_agree d d' ino n :
  (forall b, In b (ptr_blocks d ino n) -> same_slots d d' b) ->
  ptr_blocks d' ino n = ptr_blocks d ino n.
Proof.
  intros A. unfold ptr_blocks. f_equal.
  destruct (Z.ltb_spec (1 + P) n); [|reflexivity]. f_equal.
  apply map_ext. intros i. unfold outer_slot.
  apply A. now apply in_ptr_blocks_iind.
Qed.

Lemma zeros_ok_agree d d' ino n :
  0 <= n <= CAP ->
  (forall b, In b (ptr_blocks d ino n) -> same_slots d d' b) ->
  zeros_ok d ino n = true -> zeros_ok d' ino n = true.
Proof.
  intros Hn A Zr. pose proof (P_pos Hgeo) as HP.
  apply zeros_ok_facts in Zr. apply zeros_ok_facts.
  destruct Zr as [Z1 [Z2 [Z3 [Z4 [Z5 Z6]]]]]. repeat split; auto.
  - intros H j Hj. unfold ind_slot. rewrite A by (apply in_ptr_blocks_ind; lia).
    now apply Z3.
  - intros H i Hi. unfold outer_slot. rewrite A by (apply in_ptr_blocks_iind; lia).
    now apply Z5.
  - intros H Hm j Hj. unfold inner_slot, outer_slot.
    rewrite (A (iindirect_pointer ino)) by (apply in_ptr_blocks_iind; lia).
    rewrite A; [now apply Z6|].
    apply (in_ptr_blocks_inner d ino n); [lia|].
    rewrite (n_inner_step Hgeo n) by lia.
    destruct (Z.eqb_spec ((n - (1 + P)) mod P) 0); [contradiction|].
    split; [apply Z.div_pos; lia|lia].
Qed.

(** Writes that leave the slots of the pointer blocks of a file as they
    read, and its blocks allocated, leave the file well formed. *)
Lemma WF_slots d d' ino n :
  WF d ino n ->
  (forall b, In b (ptr_blocks d ino n) -> same_slots d d' b) ->
  (forall b, In b (owned d ino n) -> valid_block d' b = true) ->
  WF d' ino n /\ ptr_blocks d' ino n = ptr_blocks d ino n /\
  data_blocks d' ino n = data_blocks d ino n.
Proof.
  intros [W1 W2 W3 W4 W5 W6] A V.
  pose proof (ptr_blocks_agree d d' ino n A) as EP.
  pose proof (data_blocks_agree d d' ino n A) as ED.
  split; [|auto]. constructor; auto.
  - rewrite EP. intros b Hb. apply valid_ptr_block_facts.
    specialize (W3 b Hb). apply valid_ptr_block_facts in W3. split; [|tauto].
    apply V. unfold owned. apply in_or_app. now left.
  - rewrite ED. intros b Hb. apply V. unfold owned. apply in_or_app. now right.
  - unfold owned. rewrite EP, ED. exact W5.
  - now apply (zeros_ok_agree d d' ino n).
Qed.

Lemma WF_frame d d' ino n :
  WF d ino n ->
  (forall b, In b (ptr_blocks d ino n) -> d' b = d b) ->
  (forall b, In b (owned d ino n) -> valid_block d' b = true) ->
  WF d' ino n.
Proof.
  intros W A V. apply (WF_slots d d' ino n W); auto.
  intros b Hb j. now rewrite A.
Qed.

End ExtentLists.

(** * One block more, one block less *)

Section GrowShrink.

Context {G : Geometry}.
Hypothesis Hgeo : geometry_ok = true.

Local Abbreviation P := POINTER_PER_BLOCK.

(** Two inodes over two devices map their first [n] blocks alike when
    the pointers and slots in use agree. *)
Lemma lists_same d d' ino ino' n :
  0 <= n ->
  (1 <= n -> direct_pointer ino' = direct_pointer ino) ->
  (2 <= n -> indirect_pointer ino' = indirect_pointer ino /\
             forall j, 0 <= j < n - 1 -> j < P ->
                       ind_slot d' ino' j = ind_slot d ino j) ->
  (1 + P < n ->
     iindirect_pointer ino' = iindirect_pointer ino /\
     (forall i, 0 <= i < n_inner n ->
                outer_slot d' ino' i = outer_slot d ino i) /\
     (forall k, 1 + P <= k < n ->
                inner_slot d' ino' ((k - (1 + P)) / P) ((k - (1 + P)) mod P)
                = inner_slot d ino ((k - (1 + P)) / P) ((k - (1 + P)) mod P))) ->
  ptr_blocks d' ino' n = ptr_blocks d ino n /\
  data_blocks d' ino' n = data_blocks d ino n.
Proof.
  intros Hn H1 H2 H3. pose proof (P_pos Hgeo) as HP. split.
  - unfold ptr_blocks. f_equal.
    + destruct (Z.leb_spec 2 n); [|reflexivity]. now rewrite (proj1 (H2 H)).
    + destruct (Z.ltb_spec (1 + P) n); [|reflexivity].
      destruct (H3 H) as [E1 [E2 _]]. rewrite E1. f_equal.
      apply map_ext_in. intros i Hi. apply zrange_In in Hi. now apply E2.
  - unfold data_blocks. apply map_ext_in. intros k Hk. apply zrange_In in Hk.
    unfold l2p. destruct (Z.eqb_spec k 0); [apply H1; lia|].
    destruct (Z.ltb_spec k (1 + P)).
    + apply H2; lia.
    + cbv zeta. apply H3; lia.
Qed.

Lemma WF_grow d d' ino ino' n :
  WF d ino n -> n < CAP ->
  inode_norm ino' = true ->
  ptr_blocks d' ino' n = ptr_blocks d ino n ->
  data_blocks d' ino' n = data_blocks d ino n ->
  (forall b, In b (owned d ino n) -> valid_block d' b = true) ->
  (forall b, In b (new_ptrs d' ino' n) -> valid_ptr_block d' b = true) ->
  valid_block d' (l2p d' ino' n) = true ->
  NoDup (new_ptrs d' ino' n ++ [l2p d' ino' n]) ->
  (forall b, In b (new_ptrs d' ino' n ++ [l2p d' ino' n]) ->
             ~ In b (owned d ino n)) ->
  zeros_ok d' ino' (n + 1) = true ->
  WF d' ino' (n + 1).
Proof.
  intros [W1 W2 W3 W4 W5 W6] Hn Hnorm EP ED V VP VD ND Fresh Zr.
  assert (EO : owned d' ino' n = owned d ino n) by (unfold owned; congruence).
  constructor; auto; try lia.
  - rewrite ptr_blocks_succ by (auto; lia). intros b Hb.
    apply in_app_or in Hb. destruct Hb as [Hb|Hb]; [|now apply VP].
    rewrite EP in Hb. apply valid_ptr_block_facts.
    pose proof (W3 b Hb) as X. apply valid_ptr_block_facts in X.
    split; [|tauto]. apply V. unfold owned. apply in_or_app. now left.
  - rewrite data_blocks_succ by lia. intros b Hb.
    apply in_app_or in Hb. destruct Hb as [Hb|[<-|[]]]; [|assumption].
    rewrite ED in Hb. apply V. unfold owned. apply in_or_app. now right.
  - eapply Permutation_NoDup.
    + apply Permutation_sym. apply (owned_succ Hgeo). lia.
    + rewrite EO. apply NoDup_app; [assumption|assumption|].
      intros a Ha Hb. exact (Fresh a Hb Ha).
Qed.

Lemma WF_shrink d d' ino ino' n :
  WF d ino (n + 1) -> 0 <= n ->
  inode_norm ino' = true ->
  ptr_blocks d' ino' n = ptr_blocks d ino n ->
  data_blocks d' ino' n = data_blocks d ino n ->
  (forall b, In b (owned d ino n) -> valid_block d' b = true) ->
  zeros_ok d' ino' n = true ->
  WF d' ino' n.
Proof.
  intros [W1 W2 W3 W4 W5 W6] Hn Hnorm EP ED V Zr.
  assert (EO : owned d' ino' n = owned d ino n) by (unfold owned; congruence).
  constructor; auto; try lia.
  - rewrite EP. intros b Hb. apply valid_ptr_block_facts.
    assert (Hb' : In b (ptr_blocks d ino (n + 1))).
    { rewrite ptr_blocks_succ by (auto; lia). apply in_or_app. now left. }
    pose proof (W3 b Hb') as X. apply valid_ptr_block_facts in X.
    split; [|tauto]. apply V. unfold owned. apply in_or_app. now left.
  - rewrite ED. intros b Hb. apply V. unfold owned. apply in_or_app. now right.
  - rewrite EO.
    pose proof (Permutation_NoDup (owned_succ Hgeo d ino n Hn) W5) as X.
    now apply NoDup_app_remove_r in X.
Qed.

(** The blocks removed by the step from [n + 1] to [n] are owned at
    [n + 1], are pairwise distinct, and are not owned at [n]. *)
Lemma owned_last d ino n :
  WF d ino (n + 1) -> 0 <= n ->
  NoDup (new_ptrs d ino n ++ [l2p d ino n]) /\
  (forall b, In b (new_ptrs d ino n ++ [l2p d ino n]) ->
             In b (owned d ino (n + 1)) /\ ~ In b (owned d ino n)).
Proof.
  intros [W1 W2 W3 W4 W5 W6] Hn.
  pose proof (owned_succ Hgeo d ino n Hn) as Pm.
  pose proof (Permutation_NoDup Pm W5) as X.
  apply NoDup_app_inv in X. destruct X as [X1 [X2 X3]]. split; [assumption|].
  intros b Hb. split.
  - eapply Permutation_in; [apply Permutation_sym; exact Pm|].
    apply in_or_app. now right.
  - intros Hin. exact (X3 b Hin Hb).
Qed.

Lemma owned_mono d ino n b :
  0 <= n -> In b (owned d ino n) -> In b (owned d ino (n + 1)).
Proof.
  intros Hn Hb. eapply Permutation_in.
  - apply Permutation_sym. apply (owned_succ Hgeo). assumption.
  - apply in_or_app. now left.
Qed.

End GrowShrink.

(** * Allocation and release as seen from an extent *)

Section Primitive.

Context {G : Geometry}.
Hypothesis Hgeo : geometry_ok = true.

Local Abbreviation P := POINTER_PER_BLOCK.

Lemma ptr_read_Ok b i s v s' :
  ptr_read b i s = Ok v s' ->
  0 <= i < P /\ v = get_pointer b i /\ s' = s.
Proof.
  unfold ptr_read. destruct ((0 <=? i) && (i <? P)) eqn:E; [|discriminate].
  intros H. apply ret_Ok in H. destruct H. b2p. auto.
Qed.

Lemma ptr_write_Ok b i v s b' s' :
  ptr_write b i v s = Ok b' s' ->
  0 <= i < P /\ b' = set_pointer b i v /\ s' = s.
Proof.
  unfold ptr_write. destruct ((0 <=? i) && (i <? P)) eqn:E; [|discriminate].
  intros H. apply ret_Ok in H. destruct H. b2p. auto.
Qed.

(** A valid block is a 31-bit number of the data region. *)
Lemma valid_block_range d b :
  hdr_ok (d 0) = true -> valid_block d b = true ->
  1 <= data_block_offset (d 0) <= b /\ b < 2 ^ 31 /\
  0 <= b - data_block_offset (d 0) < data_bits (d 0) /\
  inode_block_offset (d 0) <= b.
Proof.
  intros Hh V. apply valid_block_facts in V.
  destruct (hdr_ok_facts Hgeo _ Hh) as [F1 [F2 [F3 [F4 [F5 [F6 F7]]]]]]. lia.
Qed.

(** The metadata blocks (superblock, bitmaps, inode table) of [d'] are
    those of [d]. *)
Definition meta_eq (d d' : Z -> block) : Prop :=
  forall b, b < data_block_offset (d 0) -> d' b = d b.

Lemma meta_eq_upd d x v :
  data_block_offset (d 0) <= x -> meta_eq d (upd d x v).
Proof. intros H b Hb. apply upd_other. lia. Qed.

Lemma meta_eq_geometry d d' :
  hdr_ok (d 0) = true -> meta_eq d d' -> d' 0 = d 0.
Proof.
  intros Hh M. apply M.
  destruct (hdr_ok_facts Hgeo _ Hh) as [F1 [F2 [F3 [F4 [F5 [F6 F7]]]]]]. lia.
Qed.

Lemma meta_eq_data_bit d d' q :
  hdr_ok (d 0) = true -> meta_eq d d' -> 0 <= q < data_bits (d 0) ->
  data_bit d' q = data_bit d q.
Proof.
  intros Hh M Hq. unfold data_bit. rewrite (meta_eq_geometry d d' Hh M).
  apply bitmap_bit_ext. apply M.
  destruct (hdr_ok_facts Hgeo _ Hh) as [F1 [F2 [F3 [F4 [F5 [F6 F7]]]]]].
  pose proof (pos_block Hgeo q _ Hq). lia.
Qed.

Lemma meta_eq_valid d d' b :
  hdr_ok (d 0) = true -> meta_eq d d' ->
  valid_block d' b = valid_block d b.
Proof.
  intros Hh M. unfold valid_block. rewrite (meta_eq_geometry d d' Hh M).
  destruct (data_block_offset (d 0) <=? b) eqn:E1; [|reflexivity].
  destruct (b - data_block_offset (d 0) <? data_bits (d 0)) eqn:E2; [|reflexivity].
  b2p. cbn [andb]. apply meta_eq_data_bit; auto. lia.
Qed.

Lemma meta_eq_valid_ptr d d' b :
  hdr_ok (d 0) = true -> meta_eq d d' ->
  valid_ptr_block d' b = valid_ptr_block d b.
Proof.
  intros Hh M. unfold valid_ptr_block. now rewrite (meta_eq_valid d d' b Hh M).
Qed.

(** [d'] is [d] after the allocation of block [x]: the bit of [x] was
    clear and is set, the free count went down by one, and nothing else
    changed outside the superblock and the data bitmap. *)
Record allocated (d d' : Z -> block) (x : Z) : Prop := mkAllocated {
  al_range : data_block_offset (d 0) <= x /\
             x - data_block_offset (d 0) < data_bits (d 0);
  al_fresh : valid_block d x = false;
  al_free : data_block_num_free (d' 0) = u32 (data_block_num_free (d 0) - 1);
  al_ifree : inode_num_free (d' 0) = inode_num_free (d 0);
  al_geom : same_geometry (d 0) (d' 0);
  al_valid : forall b, valid_block d' b = (b =? x) || valid_block d b;
  al_frame : forall b, b <> 0 ->
     ~ (data_block_bitmap_offset (d 0) <= b < inode_block_offset (d 0)) ->
     d' b = d b
}.

(** [d'] is [d] after the release of block [x]. *)
Record released (d d' : Z -> block) (x : Z) : Prop := mkReleased {
  re_was : valid_block d x = true;
  re_free : data_block_num_free (d' 0) = u32 (data_block_num_free (d 0) + 1);
  re_ifree : inode_num_free (d' 0) = inode_num_free (d 0);
  re_geom : same_geometry (d 0) (d' 0);
  re_valid : forall b, valid_block d' b = negb (b =? x) && valid_block d b;
  re_frame : forall b, b <> 0 ->
     ~ (data_block_bitmap_offset (d 0) <= b < inode_block_offset (d 0)) ->
     d' b = d b
}.

Lemma hdr_ok_allocated d d' x :
  allocated d d' x -> hdr_ok (d 0) = true -> hdr_ok (d' 0) = true.
Proof. intros A. apply hdr_ok_same_geometry. apply A. Qed.

Lemma hdr_ok_released d d' x :
  released d d' x -> hdr_ok (d 0) = true -> hdr_ok (d' 0) = true.
Proof. intros A. apply hdr_ok_same_geometry. apply A. Qed.

Lemma alloc_data_allocated s r s' :
  alloc_data s = Ok r s' ->
  hdr_ok (disk s 0) = true ->
  0 <= data_bitmap_min_pos s < 2 ^ 31 ->
  (r = -1 /\ s' = s) \/
  (r <> -1 /\ allocated (disk s) (disk s') r /\
   0 <= data_bitmap_min_pos s' < 2 ^ 31 /\
   inode_bitmap_min_pos s' = inode_bitmap_min_pos s /\
   clock s' = clock s /\ junk s' = junk s).
Proof.
  intros H Hh Hm.
  destruct (hdr_ok_facts Hgeo _ Hh) as [F1 [F2 [F3 [F4 [F5 [F6 F7]]]]]].
  destruct (alloc_data_spec Hgeo _ _ _ H Hh Hm) as [[-> [-> _]]|Post]; [left; auto|].
  right. destruct Post as [p [-> [R [Lo [C [F [E [Fr [Fi [SG [Bits [Frame [Hint [Hint2 [Hc Hj]]]]]]]]]]]]]]].
  split; [lia|]. split; [|rewrite Hint; repeat split; auto; lia].
  pose proof (get32_range (disk s 0) OFF_data_block_num_free) as FR.
  fold (data_block_num_free (disk s 0)) in FR.
  constructor; auto.
  - lia.
  - unfold valid_block.
    replace (data_block_offset (disk s 0) + p - data_block_offset (disk s 0)) with p by lia.
    rewrite C. apply andb_false_r.
  - rewrite Fr. symmetry. apply u32_small. lia.
  - intros b. destruct (same_geometry_bits _ _ SG) as [_ B2].
    destruct SG as [_ [_ [_ [_ [_ S6]]]]].
    unfold valid_block. rewrite S6, B2.
    destruct (Z.leb_spec (data_block_offset (disk s 0)) b) as [L|L].
    + rewrite Bits by lia. cbn [andb].
      destruct (Z.ltb_spec (b - data_block_offset (disk s 0)) (data_bits (disk s 0))) as [L2|L2].
      * cbn [andb]. f_equal.
        destruct (Z.eqb_spec (b - data_block_offset (disk s 0)) p);
          destruct (Z.eqb_spec b (data_block_offset (disk s 0) + p)); try reflexivity; lia.
      * cbn [andb]. destruct (Z.eqb_spec b (data_block_offset (disk s 0) + p)); [lia|reflexivity].
    + cbn [andb]. destruct (Z.eqb_spec b (data_block_offset (disk s 0) + p)); [lia|reflexivity].
Qed.

Lemma free_data_released s x u s' :
  free_data x s = Ok u s' ->
  hdr_ok (disk s 0) = true ->
  0 <= data_bitmap_min_pos s < 2 ^ 31 ->
  data_block_offset (disk s 0) <= x ->
  x - data_block_offset (disk s 0) < data_bits (disk s 0) ->
  released (disk s) (disk s') x /\
  0 <= data_bitmap_min_pos s' < 2 ^ 31 /\
  inode_bitmap_min_pos s' = inode_bitmap_min_pos s /\
  clock s' = clock s /\ junk s' = junk s.
Proof.
  intros H Hh Hm Hlo Hhi.
  destruct (hdr_ok_facts Hgeo _ Hh) as [F1 [F2 [F3 [F4 [F5 [F6 F7]]]]]].
  destruct (free_data_spec Hgeo _ _ _ _ H Hh Hlo Hhi)
    as [C [Fr [Fi [SG [Bits [Frame [Hint [Hint2 [Hc Hj]]]]]]]]].
  split; [|rewrite Hint; repeat split; auto; lia].
  constructor; auto.
  - unfold valid_block. rewrite C.
    destruct (Z.leb_spec (data_block_offset (disk s 0)) x); [|lia].
    destruct (Z.ltb_spec (x - data_block_offset (disk s 0)) (data_bits (disk s 0))); [|lia].
    reflexivity.
  - intros b. destruct (same_geometry_bits _ _ SG) as [_ B2].
    destruct SG as [_ [_ [_ [_ [_ S6]]]]].
    unfold valid_block. rewrite S6, B2.
    destruct (Z.leb_spec (data_block_offset (disk s 0)) b) as [L|L].
    + rewrite Bits by lia. cbn [andb].
      destruct (Z.ltb_spec (b - data_block_offset (disk s 0)) (data_bits (disk s 0))) as [L2|L2].
      * cbn [andb]. f_equal. f_equal.
        destruct (Z.eqb_spec (b - data_block_offset (disk s 0)) (x - data_block_offset (disk s 0)));
          destruct (Z.eqb_spec b x); try reflexivity; lia.
      * cbn [andb]. now rewrite andb_false_r.
    + cbn [andb]. now rewrite andb_false_r.
Qed.

(** Pointer blocks of a well-formed extent lie in the data region. *)
Lemma WF_ptr_range d ino n b :
  hdr_ok (d 0) = true -> WF d ino n -> In b (ptr_blocks d ino n) ->
  valid_block d b = true /\ 1 <= data_block_offset (d 0) <= b /\
  b < 2 ^ 31 /\ b < BLOCK_NUM /\ inode_block_offset (d 0) <= b.
Proof.
  intros Hh W Hb. pose proof (WF_ptr _ _ _ W b Hb) as V.
  apply valid_ptr_block_facts in V. destruct V as [V B].
  pose proof (valid_block_range d b Hh V). tauto.
Qed.

Lemma WF_owned_valid d ino n b :
  WF d ino n -> In b (owned d ino n) -> valid_block d b = true.
Proof.
  intros W Hb. unfold owned in Hb. apply in_app_or in Hb. destruct Hb as [Hb|Hb].
  - pose proof (WF_ptr _ _ _ W b Hb) as V. apply valid_ptr_block_facts in V. tauto.
  - now apply (WF_data _ _ _ W).
Qed.

(** An allocation leaves a well-formed extent as it is and hands out a
    block the extent does not hold. *)
Lemma WF_allocated d d' x ino n :
  hdr_ok (d 0) = true -> allocated d d' x -> WF d ino n ->
  WF d' ino n /\ ~ In x (owned d ino n) /\ valid_block d' x = true.
Proof.
  intros Hh A W. split; [|split].
  - apply (WF_frame Hgeo d d' ino n W).
    + intros b Hb. destruct (WF_ptr_range d ino n b Hh W Hb) as [_ R].
      destruct (hdr_ok_facts Hgeo _ Hh) as [F1 [F2 [F3 [F4 [F5 [F6 F7]]]]]].
      apply (al_frame _ _ _ A); lia.
    + intros b Hb. rewrite (al_valid _ _ _ A).
      rewrite (WF_owned_valid d ino n b W Hb). apply orb_true_r.
  - intros Hin. pose proof (WF_owned_valid d ino n x W Hin) as V.
    rewrite (al_fresh _ _ _ A) in V. discriminate.
  - rewrite (al_valid _ _ _ A). now rewrite Z.eqb_refl.
Qed.

(** Releasing a block the extent does not hold leaves it well formed. *)
Lemma WF_released d d' x ino n :
  hdr_ok (d 0) = true -> released d d' x -> WF d ino n ->
  ~ In x (owned d ino n) -> WF d' ino n.
Proof.
  intros Hh A W Hx. apply (WF_frame Hgeo d d' ino n W).
  - intros b Hb. destruct (WF_ptr_range d ino n b Hh W Hb) as [_ R].
    destruct (hdr_ok_facts Hgeo _ Hh) as [F1 [F2 [F3 [F4 [F5 [F6 F7]]]]]].
    apply (re_frame _ _ _ A); lia.
  - intros b Hb. rewrite (re_valid _ _ _ A).
    rewrite (WF_owned_valid d ino n b W Hb).
    destruct (Z.eqb_spec b x); [subst; contradiction|reflexivity].
Qed.

(** A write to a data-region block the extent does not use as a pointer
    block leaves it well formed. *)
Lemma WF_upd d x v ino n :
  hdr_ok (d 0) = true -> WF d ino n ->
  data_block_offset (d 0) <= x -> ~ In x (ptr_blocks d ino n) ->
  WF (upd d x v) ino n.
Proof.
  intros Hh W Hx Hn. apply (WF_frame Hgeo d _ ino n W).
  - intros b Hb. apply upd_other. intros ->. contradiction.
  - intros b Hb. rewrite (meta_eq_valid d _ b Hh (meta_eq_upd d x v Hx)).
    now apply (WF_owned_valid d ino n).
Qed.

End Primitive.

(** * What a resize step may touch *)

Section Evolution.

Context {G : Geometry}.
Hypothesis Hgeo : geometry_ok = true.

Local Abbreviation P := POINTER_PER_BLOCK.

(** [d'] comes from [d] by allocations, releases and writes to blocks of
    the data region, [k] allocations net: the geometry, the inode count,
    the inode bitmap and the inode table are kept; outside [Lw] no
    data-region block changes content, and outside [La] no block changes
    allocation status. *)
Record evolves (d d' : Z -> block) (k : Z) (Lw La : list Z) : Prop := mkEvolves {
  ev_hdr : hdr_ok (d 0) = true;
  ev_geom : same_geometry (d 0) (d' 0);
  ev_ifree : inode_num_free (d' 0) = inode_num_free (d 0);
  ev_free : data_block_num_free (d' 0) = u32 (data_block_num_free (d 0) - k);
  ev_low : forall b,
     0 < b < data_block_bitmap_offset (d 0) \/
     inode_block_offset (d 0) <= b < data_block_offset (d 0) ->
     d' b = d b;
  ev_same : forall b, data_block_offset (d 0) <= b -> ~ In b Lw -> d' b = d b;
  ev_valid : forall b, ~ In b La -> valid_block d' b = valid_block d b
}.

Lemma u32_idem x : u32 (u32 x) = u32 x.
Proof. unfold u32. apply Z.mod_mod. lia. Qed.

Lemma u32_add_l x y : u32 (u32 x + y) = u32 (x + y).
Proof. unfold u32. apply Z.add_mod_idemp_l. lia. Qed.

Lemma evolves_refl d Lw La :
  hdr_ok (d 0) = true -> evolves d d 0 Lw La.
Proof.
  intros Hh. constructor; auto.
  - apply same_geometry_refl.
  - rewrite Z.sub_0_r. symmetry. apply u32_small. apply get32_range.
Qed.

Lemma evolves_hdr d d' k Lw La : evolves d d' k Lw La -> hdr_ok (d' 0) = true.
Proof.
  intros E. eapply hdr_ok_same_geometry; [apply (ev_geom _ _ _ _ _ E)|apply (ev_hdr _ _ _ _ _ E)].
Qed.

Lemma evolves_trans d d1 d2 k1 k2 Lw La :
  evolves d d1 k1 Lw La -> evolves d1 d2 k2 Lw La ->
  evolves d d2 (k1 + k2) Lw La.
Proof.
  intros E1 E2. pose proof (ev_geom _ _ _ _ _ E1) as SG.
  destruct SG as [S1 [S2 [S3 [S4 [S5 S6]]]]].
  constructor.
  - apply (ev_hdr _ _ _ _ _ E1).
  - eapply same_geometry_trans; [apply (ev_geom _ _ _ _ _ E1)|apply (ev_geom _ _ _ _ _ E2)].
  - rewrite (ev_ifree _ _ _ _ _ E2). apply (ev_ifree _ _ _ _ _ E1).
  - rewrite (ev_free _ _ _ _ _ E2), (ev_free _ _ _ _ _ E1).
    unfold Z.sub. rewrite u32_add_l. f_equal. lia.
  - intros b Hb. rewrite (ev_low _ _ _ _ _ E2) by (rewrite S5, S3, S6; exact Hb).
    now apply (ev_low _ _ _ _ _ E1).
  - intros b Hb Hn. rewrite (ev_same _ _ _ _ _ E2) by (rewrite ?S6; auto).
    now apply (ev_same _ _ _ _ _ E1).
  - intros b Hn. rewrite (ev_valid _ _ _ _ _ E2) by assumption.
    now apply (ev_valid _ _ _ _ _ E1).
Qed.

Lemma evolves_weaken d d' k Lw La Lw' La' :
  (forall b, In b Lw -> In b Lw') -> (forall b, In b La -> In b La') ->
  evolves d d' k Lw La -> evolves d d' k Lw' La'.
Proof.
  intros Sub1 Sub2 E. destruct E. constructor; auto.
Qed.

Lemma evolves_allocated d d' x Lw La :
  hdr_ok (d 0) = true -> allocated d d' x -> In x La -> evolves d d' 1 Lw La.
Proof.
  intros Hh A Hx.
  destruct (hdr_ok_facts Hgeo _ Hh) as [F1 [F2 [F3 [F4 [F5 [F6 F7]]]]]].
  constructor.
  - exact Hh.
  - apply (al_geom _ _ _ A).
  - apply (al_ifree _ _ _ A).
  - apply (al_free _ _ _ A).
  - intros b Hb. apply (al_frame _ _ _ A); lia.
  - intros b Hb Hn. apply (al_frame _ _ _ A); lia.
  - intros b Hn. rewrite (al_valid _ _ _ A).
    destruct (Z.eqb_spec b x); [subst; contradiction|reflexivity].
Qed.

Lemma evolves_released d d' x Lw La :
  hdr_ok (d 0) = true -> released d d' x -> In x La -> evolves d d' (-1) Lw La.
Proof.
  intros Hh A Hx.
  destruct (hdr_ok_facts Hgeo _ Hh) as [F1 [F2 [F3 [F4 [F5 [F6 F7]]]]]].
  constructor.
  - exact Hh.
  - apply (re_geom _ _ _ A).
  - apply (re_ifree _ _ _ A).
  - rewrite (re_free _ _ _ A). f_equal; try lia.
  - intros b Hb. apply (re_frame _ _ _ A); lia.
  - intros b Hb Hn. apply (re_frame _ _ _ A); lia.
  - intros b Hn. rewrite (re_valid _ _ _ A).
    destruct (Z.eqb_spec b x); [subst; contradiction|reflexivity].
Qed.

Lemma evolves_upd d x v Lw La :
  hdr_ok (d 0) = true -> data_block_offset (d 0) <= x -> In x Lw ->
  evolves d (upd d x v) 0 Lw La.
Proof.
  intros Hh Hx Hin.
  destruct (hdr_ok_facts Hgeo _ Hh) as [F1 [F2 [F3 [F4 [F5 [F6 F7]]]]]].
  assert (E0 : upd d x v 0 = d 0) by (apply upd_other; lia).
  constructor; rewrite ?E0.
  - exact Hh.
  - apply same_geometry_refl.
  - reflexivity.
  - rewrite Z.sub_0_r. symmetry. apply u32_small. apply get32_range.
  - intros b Hb. apply upd_other. lia.
  - intros b Hb Hn. apply upd_other. intros ->. contradiction.
  - intros b Hn. apply (meta_eq_valid Hgeo d _ b Hh (meta_eq_upd d x v Hx)).
Qed.

(** Writing a block back as it was read changes nothing. *)
Lemma evolves_upd_same d x Lw La :
  hdr_ok (d 0) = true -> data_block_offset (d 0) <= x ->
  evolves d (upd d x (d x)) 0 Lw La.
Proof.
  intros Hh Hx.
  assert (E : forall b, upd d x (d x) b = d b).
  { intros b. unfold upd. destruct (Z.eqb_spec b x); congruence. }
  destruct (hdr_ok_facts Hgeo _ Hh) as [F1 [F2 [F3 [F4 [F5 [F6 F7]]]]]].
  constructor; rewrite ?E; auto.
  - apply same_geometry_refl.
  - rewrite Z.sub_0_r. symmetry. apply u32_small. apply get32_range.
  - intros b Hn. apply (meta_eq_valid Hgeo d _ b Hh (meta_eq_upd d x _ Hx)).
Qed.

End Evolution.

(** * The allocator always answers *)

Lemma bind_run {A B} (c : M A) (k : A -> M B) s a s1 :
  c s = Ok a s1 -> bind c k s = k a s1.
Proof. unfold bind. intros ->. reflexivity. Qed.

Lemma bind_ret {A B} (a : A) (k : A -> M B) s : bind (ret a) k s = k a s.
Proof. reflexivity. Qed.

Lemma bind_bind {A B C} (c : M A) (k1 : A -> M B) (k2 : B -> M C) s :
  bind (bind c k1) k2 s = bind c (fun a => bind (k1 a) k2) s.
Proof. unfold bind. destruct (c s); reflexivity. Qed.

Lemma count_true_mono f t k :
  0 <= t -> 0 <= k -> count_true f t <= count_true f (t + k).
Proof.
  intros Ht Hk. revert k Hk.
  apply (natlike_ind (fun k => count_true f t <= count_true f (t + k))).
  - rewrite Z.add_0_r. lia.
  - intros x Hx IH. unfold Z.succ. rewrite Z.add_assoc.
    rewrite count_true_succ by lia. destruct (f (t + x)); lia.
Qed.

Lemma count_true_all f t :
  0 <= t -> (forall q, 0 <= q < t -> f q = true) -> count_true f t = t.
Proof.
  intros Ht. revert t Ht.
  apply (natlike_ind (fun t => (forall q, 0 <= q < t -> f q = true) ->
                               count_true f t = t)).
  - intros _. apply count_true_0.
  - intros x Hx IH H. unfold Z.succ. rewrite count_true_succ by assumption.
    rewrite IH by (intros; apply H; lia). rewrite H by lia. reflexivity.
Qed.

Lemma count_true_prefix f t n :
  0 <= t <= n -> (forall q, 0 <= q < t -> f q = true) -> t <= count_true f n.
Proof.
  intros Ht H. rewrite <- (count_true_all f t) at 1 by (auto; lia).
  replace n with (t + (n - t)) by lia. apply count_true_mono; lia.
Qed.

Section Progress.

Context {G : Geometry}.
Hypothesis Hgeo : geometry_ok = true.

(** The data region the superblock announces lies on the device and
    inside the data bitmap. *)
Definition space_ok (h : block) : bool :=
  (data_block_offset h + data_block_num_tot h <=? BLOCK_NUM) &&
  (data_block_num_tot h <=? data_bits h).

(** The state of a mounted file system, as far as the allocator goes:
    counts and bitmaps agree, the hints are sound, the data region fits. *)
Definition live (s : state) : bool :=
  alloc_inv s && hints_ok s && space_ok (disk s 0).

Lemma live_facts s :
  live s = true ->
  alloc_inv s = true /\ hints_ok s = true /\ hdr_ok (disk s 0) = true /\
  0 <= data_bitmap_min_pos s < 2 ^ 31 /\
  data_block_offset (disk s 0) + data_block_num_tot (disk s 0) <= BLOCK_NUM /\
  data_block_num_tot (disk s 0) <= data_bits (disk s 0).
Proof.
  unfold live, space_ok. intros H. b2p.
  destruct (alloc_inv_facts _ H) as [Hh [_ [_ [Hd _]]]]. auto 10.
Qed.

Lemma space_ok_same_geometry h h' :
  same_geometry h h' -> space_ok h = true -> space_ok h' = true.
Proof.
  intros SG. destruct (same_geometry_bits _ _ SG) as [_ B].
  destruct SG as [S1 [S2 [S3 [S4 [S5 S6]]]]].
  unfold space_ok. now rewrite B, S4, S6.
Qed.

Lemma BitMap_set_total bm p s :
  0 <= p < 2 ^ 31 -> 0 <= p / siz + bm_start bm < BLOCK_NUM ->
  exists s', BitMap_set bm p s = Ok tt s'.
Proof.
  intros Hp Hb. unfold BitMap_set. rewrite (bm_unpack_small Hgeo) by assumption.
  rewrite (bind_run _ _ _ _ _ (from_blockno_total _ s Hb)).
  unfold commit. eauto.
Qed.

Lemma BitMap_clear_total bm p s :
  0 <= p < 2 ^ 31 -> 0 <= p / siz + bm_start bm < BLOCK_NUM ->
  exists s', BitMap_clear bm p s = Ok tt s'.
Proof.
  intros Hp Hb. unfold BitMap_clear. rewrite (bm_unpack_small Hgeo) by assumption.
  rewrite (bind_run _ _ _ _ _ (from_blockno_total _ s Hb)).
  unfold commit. eauto.
Qed.

Lemma BitMap_get_total bm p s :
  0 <= p < 2 ^ 31 -> 0 <= p / siz + bm_start bm < BLOCK_NUM ->
  BitMap_get bm p s = Ok (bb_get (disk s (p / siz + bm_start bm)) (p mod siz)) s.
Proof.
  intros Hp Hb. unfold BitMap_get. rewrite (bm_unpack_small Hgeo) by assumption.
  rewrite (bind_run _ _ _ _ _ (from_blockno_total _ s Hb)). reflexivity.
Qed.

(** With free blocks left the lowest clear position of the data bitmap
    exists and names a block of the device. *)
Lemma lowest_clear_data s :
  live s = true -> data_block_num_free (disk s 0) <> 0 ->
  let h := disk s 0 in
  let r := lowest_clear (disk s) (data_block_bitmap_offset h) (data_bits h) in
  0 <= r < data_block_num_tot h.
Proof.
  intros L Hf. destruct (live_facts _ L) as [Ai [Hi [Hh [Hm [S1 S2]]]]].
  destruct (alloc_inv_facts _ Ai) as [_ [_ [Cd _]]].
  destruct (hdr_ok_facts Hgeo _ Hh) as [F1 [F2 [F3 [F4 [F5 [F6 F7]]]]]].
  pose proof (get32_range (disk s 0) OFF_data_block_num_free) as Rd.
  fold (data_block_num_free (disk s 0)) in Rd.
  rewrite data_used_count in Cd. cbv zeta.
  destruct (lowest_clear_spec (disk s) (data_block_bitmap_offset (disk s 0))
              (data_bits (disk s 0)) F7) as [[E A]|[R [C A]]]; cbv zeta in *.
  - assert (X : data_bits (disk s 0) <= count_true (data_bit (disk s)) (data_bits (disk s 0))).
    { apply count_true_prefix; [lia|]. intros q Hq. apply A. assumption. }
    lia.
  - set (r := lowest_clear _ _ _) in *.
    assert (X : r <= count_true (data_bit (disk s)) (data_bits (disk s 0))).
    { apply count_true_prefix; [lia|]. intros q Hq. apply A. assumption. }
    lia.
Qed.

Lemma alloc_data_runs s :
  live s = true -> data_block_num_free (disk s 0) <> 0 ->
  exists r s', alloc_data s = Ok r s' /\
               data_block_offset (disk s 0) <= r < BLOCK_NUM.
Proof.
  intros L Hf. destruct (live_facts _ L) as [Ai [Hi [Hh [Hm [S1 S2]]]]].
  destruct (hdr_ok_facts Hgeo _ Hh) as [F1 [F2 [F3 [F4 [F5 [F6 F7]]]]]].
  destruct (hints_ok_facts _ Hi) as [_ [_ Hd]]. cbv zeta in Hd.
  pose proof (lowest_clear_data s L Hf) as Lo. cbv zeta in Lo.
  assert (H0 : 0 <= 0 < BLOCK_NUM) by lia.
  unfold alloc_data, get_header.
  rewrite (bind_run _ _ _ _ _ (from_blockno_total 0 s H0)).
  destruct (Z.eqb_spec (data_block_num_free (disk s 0)) 0); [contradiction|].
  assert (Eb : data_bitmap (disk s 0) (data_bitmap_min_pos s)
               = mkBitMap (data_block_bitmap_offset (disk s 0))
                          (inode_block_offset (disk s 0)) (data_bitmap_min_pos s)).
  { unfold data_bitmap. rewrite !s32_small by lia. reflexivity. }
  unfold get_state at 1. unfold bind at 1. rewrite Eb.
  set (bm := mkBitMap _ _ _).
  assert (B1 : 0 <= bm_start bm <= bm_end bm) by (unfold bm; cbn [bm_start bm_end]; lia).
  assert (B2 : bm_end bm <= BLOCK_NUM) by (unfold bm; cbn [bm_start bm_end]; lia).
  assert (B3 : (bm_end bm - bm_start bm) * siz < 2 ^ 31).
  { unfold bm; cbn [bm_start bm_end]. fold (data_bits (disk s 0)). lia. }
  rewrite (bind_run _ _ _ _ _ (first_zero_lowest Hgeo bm s B1 B2 B3 Hd)).
  cbn [bm bm_start bm_end]. fold (data_bits (disk s 0)).
  set (r := lowest_clear _ _ _) in *.
  destruct (Z.eqb_spec r (-1)); [lia|]. cbn [negb assert].
  unfold ret at 1. unfold bind at 1. unfold put_state at 1. unfold bind at 1.
  assert (Hblk : 0 <= r / siz + data_block_bitmap_offset (disk s 0) < BLOCK_NUM).
  { assert (Hr : 0 <= r < data_bits (disk s 0)) by lia.
    pose proof (pos_block Hgeo r _ Hr). unfold data_bits in *. lia. }
  assert (Hr31 : 0 <= r < 2 ^ 31) by lia.
  destruct (BitMap_set_total bm r
              (set_data_hint s (Z.max (data_bitmap_min_pos s) r))
              Hr31 Hblk) as [s1 E1].
  rewrite (bind_run _ _ _ _ _ E1).
  unfold commit, bind, ret. do 2 eexists. split; [reflexivity|].
  rewrite u32_small, s32_small by lia. lia.
Qed.

Lemma alloc_data_none s :
  live s = true -> data_block_num_free (disk s 0) = 0 ->
  alloc_data s = Ok (-1) s.
Proof.
  intros L Hf. destruct (live_facts _ L) as [Ai [Hi [Hh [Hm [S1 S2]]]]].
  destruct (hdr_ok_facts Hgeo _ Hh) as [F1 [F2 [F3 [F4 [F5 [F6 F7]]]]]].
  assert (H0 : 0 <= 0 < BLOCK_NUM) by lia.
  unfold alloc_data, get_header.
  rewrite (bind_run _ _ _ _ _ (from_blockno_total 0 s H0)).
  rewrite Hf. reflexivity.
Qed.

Lemma free_data_runs s x :
  live s = true -> valid_block (disk s) x = true ->
  exists s', free_data x s = Ok tt s'.
Proof.
  intros L V. destruct (live_facts _ L) as [Ai [Hi [Hh [Hm [S1 S2]]]]].
  destruct (hdr_ok_facts Hgeo _ Hh) as [F1 [F2 [F3 [F4 [F5 [F6 F7]]]]]].
  apply valid_block_facts in V. destruct V as [V1 [V2 V3]].
  assert (H0 : 0 <= 0 < BLOCK_NUM) by lia.
  unfold free_data, get_header.
  rewrite (bind_run _ _ _ _ _ (from_blockno_total 0 s H0)).
  set (p := x - data_block_offset (disk s 0)) in *.
  assert (Hp : 0 <= p < data_bits (disk s 0)) by (unfold p; lia).
  rewrite u32_small, s32_small by lia.
  destruct (Z.leb_spec 0 p); [|lia]. cbn [assert].
  unfold ret at 1. unfold bind at 1.
  assert (Eb : data_bitmap (disk s 0) 0
               = mkBitMap (data_block_bitmap_offset (disk s 0))
                          (inode_block_offset (disk s 0)) 0).
  { unfold data_bitmap. rewrite !s32_small by lia. reflexivity. }
  rewrite Eb. set (bm := mkBitMap _ _ _).
  assert (Hblk : 0 <= p / siz + bm_start bm < BLOCK_NUM).
  { unfold bm; cbn [bm_start]. unfold data_bits in Hp.
    pose proof (pos_block Hgeo p _ Hp). lia. }
  assert (Hp31 : 0 <= p < 2 ^ 31) by lia.
  rewrite (bind_run _ _ _ _ _ (BitMap_get_total bm p s Hp31 Hblk)).
  assert (Eg : bb_get (disk s (p / siz + bm_start bm)) (p mod siz) = true).
  { unfold bm; cbn [bm_start]. rewrite Z.add_comm. exact V3. }
  rewrite Eg. cbn [assert]. unfold ret at 1. unfold bind at 1.
  destruct (BitMap_clear_total bm p s Hp31 Hblk) as [s1 E1].
  rewrite (bind_run _ _ _ _ _ E1).
  unfold commit, bind, get_state, put_state. eauto.
Qed.

(** ** The allocator calls of [resize], with what they leave behind *)

Lemma alloc_step s :
  live s = true ->
  (data_block_num_free (disk s 0) = 0 /\ alloc_data s = Ok (-1) s) \/
  (data_block_num_free (disk s 0) <> 0 /\
   exists x s', alloc_data s = Ok x s' /\ (x =? -1) = false /\
     0 <= x < BLOCK_NUM /\ allocated (disk s) (disk s') x /\ live s' = true /\
     inode_bitmap_min_pos s' = inode_bitmap_min_pos s /\
     clock s' = clock s /\ junk s' = junk s).
Proof.
  intros L. destruct (live_facts _ L) as [Ai [Hi [Hh [Hm [S1 S2]]]]].
  destruct (hdr_ok_facts Hgeo _ Hh) as [F1 [F2 [F3 [F4 [F5 [F6 F7]]]]]].
  destruct (Z.eq_dec (data_block_num_free (disk s 0)) 0) as [E|E].
  { left. split; [assumption|]. now apply alloc_data_none. }
  right. split; [assumption|].
  destruct (alloc_data_runs s L E) as [x [s' [Run R]]].
  exists x, s'. split; [assumption|].
  destruct (alloc_data_allocated Hgeo _ _ _ Run Hh Hm) as [[N _]|[N [A [Hm' Rest]]]]; [lia|].
  split; [now apply Z.eqb_neq|]. split; [lia|]. split; [assumption|].
  split; [|assumption].
  destruct (run_op_step Hgeo OpAllocData s x s' Ai eq_refl Run) as [Ai' [_ SG]].
  destruct (run_op_hints Hgeo OpAllocData s x s' Hi eq_refl Run) as [Hi' _].
  unfold live. rewrite Ai', Hi'. cbn [andb].
  apply (space_ok_same_geometry _ _ SG). unfold space_ok. b2p; assumption.
Qed.

Lemma free_step s x :
  live s = true -> valid_block (disk s) x = true ->
  exists s', free_data x s = Ok tt s' /\
     released (disk s) (disk s') x /\ live s' = true /\
     inode_bitmap_min_pos s' = inode_bitmap_min_pos s /\
     clock s' = clock s /\ junk s' = junk s.
Proof.
  intros L V. destruct (live_facts _ L) as [Ai [Hi [Hh [Hm [S1 S2]]]]].
  destruct (free_data_runs s x L V) as [s' Run]. exists s'.
  split; [assumption|].
  pose proof V as V'. apply valid_block_facts in V'. destruct V' as [V1 [V2 V3]].
  destruct (free_data_released Hgeo _ _ _ _ Run Hh Hm V1 V2) as [A [Hm' Rest]].
  split; [assumption|]. split; [|assumption].
  assert (Run' : run_op (OpFreeData x) s = Ok 0 s').
  { cbn [run_op]. rewrite (bind_run _ _ _ _ _ Run). reflexivity. }
  assert (Rg : op_in_range (disk s 0) (OpFreeData x) = true).
  { cbn [op_in_range]. b2p; lia. }
  destruct (run_op_step Hgeo _ s 0 s' Ai Rg Run') as [Ai' [_ SG]].
  destruct (run_op_hints Hgeo _ s 0 s' Hi Rg Run') as [Hi' _].
  unfold live. rewrite Ai', Hi'. cbn [andb].
  apply (space_ok_same_geometry _ _ SG). unfold space_ok. b2p; assumption.
Qed.

(** A write to a block of the inode table or of the data region leaves
    the allocator's view of the device as it was. *)
Lemma live_upd s x v w :
  live s = true -> inode_block_offset (disk s 0) <= x ->
  live (set_disk s (upd (disk s) x v) w) = true.
Proof.
  intros L Hx. destruct (live_facts _ L) as [Ai [Hi [Hh [Hm [S1 S2]]]]].
  destruct (hdr_ok_facts Hgeo _ Hh) as [F1 [F2 [F3 [F4 [F5 [F6 F7]]]]]].
  destruct (alloc_inv_facts _ Ai) as [_ [Ci [Cd [_ Him]]]].
  destruct (hints_ok_facts _ Hi) as [_ [Hhi Hhd]]. cbv zeta in *.
  set (d' := upd (disk s) x v).
  assert (E0 : d' 0 = disk s 0) by (apply upd_other; lia).
  assert (SG : same_geometry (disk s 0) (d' 0)) by (rewrite E0; apply same_geometry_refl).
  assert (Bi : forall q, 0 <= q < inode_bits (disk s 0) ->
                         inode_bit d' q = inode_bit (disk s) q).
  { intros q Hq. apply (inode_bit_frame Hgeo (disk s)); auto.
    intros b Hb. apply upd_other. lia. }
  assert (Bd : forall q, 0 <= q < data_bits (disk s 0) ->
                         data_bit d' q = data_bit (disk s) q).
  { intros q Hq. apply (data_bit_frame Hgeo (disk s)); auto.
    intros b Hb. apply upd_other. lia. }
  unfold live. cbn [disk set_disk]. b2p.
  - apply alloc_inv_intro; cbn [disk set_disk data_bitmap_min_pos inode_bitmap_min_pos];
      fold d'; rewrite ?E0; auto.
    + rewrite (inode_used_eq (disk s) d' SG Bi). assumption.
    + rewrite (data_used_eq (disk s) d' SG Bd). assumption.
  - unfold hints_ok. cbn [disk set_disk data_bitmap_min_pos inode_bitmap_min_pos].
    fold d'. rewrite E0, Hh. cbn [andb]. b2p.
    + apply hint_ok_facts in Hhi. apply hint_ok_facts. split; [tauto|].
      intros q Hq. rewrite <- (proj2 Hhi q Hq).
      assert (Hq' : 0 <= q < inode_bits (disk s 0)) by lia.
      specialize (Bi q Hq'). unfold inode_bit in Bi. rewrite E0 in Bi. exact Bi.
    + apply hint_ok_facts in Hhd. apply hint_ok_facts. split; [tauto|].
      intros q Hq. rewrite <- (proj2 Hhd q Hq).
      assert (Hq' : 0 <= q < data_bits (disk s 0)) by lia.
      specialize (Bd q Hq'). unfold data_bit in Bd. rewrite E0 in Bd. exact Bd.
  - fold d'. rewrite E0. unfold space_ok. b2p; assumption.
Qed.

End Progress.

(** * The writes of the allocator *)

(** The device [d] after the writes [ws], newest first, have reached it. *)
Fixpoint replay (ws : list (Z * block)) (d : Z -> block) : Z -> block :=
  match ws with
  | [] => d
  | (k, v) :: ws' => upd (replay ws' d) k v
  end.

Section AllocatorWrites.

Context {G : Geometry}.
Hypothesis Hgeo : geometry_ok = true.

Local Abbreviation P := POINTER_PER_BLOCK.

(** The two writes of [free_data]: the bitmap block, then the superblock. *)
Lemma free_data_trace s x u s' :
  free_data x s = Ok u s' ->
  hdr_ok (disk s 0) = true ->
  data_block_offset (disk s 0) <= x ->
  x - data_block_offset (disk s 0) < data_bits (disk s 0) ->
  let h := disk s 0 in
  let p := x - data_block_offset h in
  let bb := data_block_bitmap_offset h + p / siz in
  let w1 := (bb, bb_clear (disk s bb) (p mod siz)) in
  let w2 := (0, set32 h OFF_data_block_num_free (data_block_num_free h + 1)) in
  writes s' = w2 :: w1 :: writes s /\ disk s' = replay [w2; w1] (disk s).
Proof.
  intros H Hh Hlo Hhi.
  destruct (hdr_ok_facts Hgeo _ Hh) as [F1 [F2 [F3 [F4 [F5 [F6 F7]]]]]].
  unfold free_data in H. mstep H as h s1 H1.
  apply from_blockno_Ok in H1. destruct H1 as [-> [-> Hr]].
  rewrite u32_small in H by lia. rewrite s32_small in H by lia.
  set (p := x - data_block_offset (disk s 0)) in *.
  assert (Hp0 : 0 <= p < 2 ^ 31) by (unfold p in *; lia).
  mstep H as u1 s1 H1. apply assert_Ok in H1. destruct H1 as [_ ->].
  unfold data_bitmap in *. rewrite !s32_small in * by lia.
  mstep H as g s1 H1. apply (BitMap_get_Ok Hgeo) in H1; [|lia].
  cbn [bm_start] in H1. destruct H1 as [-> [-> Hr1]].
  mstep H as u2 s1 H2. apply assert_Ok in H2. destruct H2 as [Hbit ->].
  mstep H as u3 s1 H3. apply (BitMap_clear_Ok Hgeo) in H3; [|lia].
  cbn [bm_start] in H3. destruct H3 as [Hr2 ->].
  mstep H as u4 s1 H4. apply commit_Ok in H4. subst s1.
  mstep H as s0 s1 H5. apply get_state_Ok in H5. destruct H5 as [-> ->].
  apply put_state_Ok in H. subst s'. cbv zeta.
  cbn [disk set_disk set_data_hint writes replay].
  rewrite (Z.add_comm (data_block_bitmap_offset (disk s 0))). auto.
Qed.

(** The two writes of a successful [alloc_data]. *)
Lemma alloc_data_trace s r s' :
  alloc_data s = Ok r s' -> r <> -1 ->
  hdr_ok (disk s 0) = true ->
  0 <= data_bitmap_min_pos s < 2 ^ 31 ->
  let h := disk s 0 in
  let p := r - data_block_offset h in
  let bb := data_block_bitmap_offset h + p / siz in
  let w1 := (bb, bb_set (disk s bb) (p mod siz)) in
  let w2 := (0, set32 h OFF_data_block_num_free (data_block_num_free h - 1)) in
  0 <= p < data_bits h /\
  writes s' = w2 :: w1 :: writes s /\ disk s' = replay [w2; w1] (disk s).
Proof.
  intros H Hr1 Hh Hm. destruct (hdr_ok_facts Hgeo _ Hh) as [F1 [F2 [F3 [F4 [F5 [F6 F7]]]]]].
  unfold alloc_data in H. mstep H as h s1 H1.
  apply from_blockno_Ok in H1. destruct H1 as [-> [-> Hr]].
  destruct (Z.eqb_spec (data_block_num_free (disk s 0)) 0) as [E|E].
  { apply ret_Ok in H. destruct H as [<- <-]. congruence. }
  mstep H as s0 s1 H1. apply get_state_Ok in H1. destruct H1 as [-> ->].
  mstep H as p s1 H1.
  unfold data_bitmap in *. rewrite !s32_small in * by lia.
  apply (BitMap_get_first_zero_spec Hgeo) in H1; try assumption;
    cbn [bm_minpos bm_start bm_end] in *; try lia.
  destruct H1 as [-> H1]. cbv zeta in H1.
  mstep H as u s1 H2. apply assert_Ok in H2. destruct H2 as [H2 ->].
  destruct H1 as [[E1 _]|[R [C F]]]; [subst; discriminate|].
  fold (data_bits (disk s 0)) in R.
  assert (A0 : 0 <= p).
  { pose proof (Z.div_pos (data_bitmap_min_pos s) 64). lia. }
  mstep H as u1 s1 H3. apply put_state_Ok in H3. subst s1.
  mstep H as u2 s1 H4. apply (BitMap_set_Ok Hgeo) in H4; [|lia].
  cbn [bm_start] in H4. destruct H4 as [Hr2 ->].
  mstep H as u3 s1 H5. apply commit_Ok in H5. subst s1.
  apply ret_Ok in H. destruct H as [<- <-].
  cbn [disk set_disk set_data_hint data_bitmap_min_pos inode_bitmap_min_pos clock junk writes] in *.
  cbv zeta. cbn [replay].
  rewrite (Z.add_comm p), u32_small, s32_small by lia.
  replace (data_block_offset (disk s 0) + p - data_block_offset (disk s 0)) with p by lia.
  rewrite (Z.add_comm (data_block_bitmap_offset (disk s 0))).
  split; [lia|]. auto.
Qed.

(** The bit of [x] after the first write of [free_data x], and after the
    first write of the [alloc_data] that returns [x]. *)
Lemma bit_after_clear d x :
  hdr_ok (d 0) = true ->
  data_block_offset (d 0) <= x ->
  let p := x - data_block_offset (d 0) in
  let bb := data_block_bitmap_offset (d 0) + p / siz in
  valid_block (upd d bb (bb_clear (d bb) (p mod siz))) x = false.
Proof.
  intros Hh Hlo. cbv zeta.
  destruct (hdr_ok_facts Hgeo _ Hh) as [F1 [F2 [F3 [F4 [F5 [F6 F7]]]]]].
  set (p := x - data_block_offset (d 0)).
  assert (Hp : 0 <= p / siz).
  { destruct (geo_siz Hgeo) as [_ [_ Hs]]. apply Z.div_pos; unfold p; lia. }
  unfold valid_block, data_bit. rewrite upd_other by lia. fold p.
  rewrite (bitmap_bit_clear Hgeo). rewrite Z.eqb_refl. cbn [negb andb].
  now rewrite !andb_false_r.
Qed.

Lemma bit_after_set d x :
  hdr_ok (d 0) = true ->
  data_block_offset (d 0) <= x ->
  x - data_block_offset (d 0) < data_bits (d 0) ->
  let p := x - data_block_offset (d 0) in
  let bb := data_block_bitmap_offset (d 0) + p / siz in
  valid_block (upd d bb (bb_set (d bb) (p mod siz))) x = true.
Proof.
  intros Hh Hlo Hhi. cbv zeta.
  destruct (hdr_ok_facts Hgeo _ Hh) as [F1 [F2 [F3 [F4 [F5 [F6 F7]]]]]].
  set (p := x - data_block_offset (d 0)) in *.
  assert (Hp : 0 <= p / siz).
  { destruct (geo_siz Hgeo) as [_ [_ Hs]]. apply Z.div_pos; unfold p; lia. }
  unfold valid_block, data_bit. rewrite upd_other by lia. fold p.
  rewrite (bitmap_bit_set Hgeo). rewrite Z.eqb_refl. cbn [orb].
  destruct (Z.leb_spec (data_block_offset (d 0)) x); [|lia].
  destruct (Z.ltb_spec p (data_bits (d 0))); [reflexivity|lia].
Qed.

(** The bitmap blocks lie below the data region. *)
Lemma bitmap_block_low h p :
  hdr_ok h = true -> 0 <= p < data_bits h ->
  1 <= data_block_bitmap_offset h + p / siz < data_block_offset h.
Proof.
  intros Hh Hp. destruct (hdr_ok_facts Hgeo _ Hh) as [F1 [F2 [F3 [F4 [F5 [F6 F7]]]]]].
  unfold data_bits in Hp. pose proof (pos_block Hgeo p _ Hp). lia.
Qed.

End AllocatorWrites.

(** * The device operations of a resize step *)

(** What [resize] does to the device, one call at a time: it allocates
    a block, writes a block of the data region, or releases a block. *)
Inductive eff : Type :=
| EAlloc (x : Z)
| EWrite (x : Z) (v : block)
| EFree (x : Z).

Definition eff_delta (e : eff) : Z :=
  match e with EAlloc _ => 1 | EWrite _ _ => 0 | EFree _ => -1 end.

Definition eff_valid (e : eff) (f : Z -> bool) (b : Z) : bool :=
  match e with
  | EAlloc x => (b =? x) || f b
  | EWrite _ _ => f b
  | EFree x => negb (b =? x) && f b
  end.

Definition eff_disk (e : eff) (d : Z -> block) : Z -> block :=
  match e with
  | EWrite x v => upd d x v
  | _ => d
  end.

Fixpoint effs_delta (es : list eff) : Z :=
  match es with [] => 0 | e :: es' => eff_delta e + effs_delta es' end.

Fixpoint effs_valid (es : list eff) (f : Z -> bool) (b : Z) : bool :=
  match es with [] => f b | e :: es' => effs_valid es' (eff_valid e f) b end.

Fixpoint effs_disk (es : list eff) (d : Z -> block) : Z -> block :=
  match es with [] => d | e :: es' => effs_disk es' (eff_disk e d) end.

Fixpoint effs_written (es : list eff) : list Z :=
  match es with
  | [] => []
  | EWrite x _ :: es' => x :: effs_written es'
  | _ :: es' => effs_written es'
  end.

Fixpoint effs_changed (es : list eff) : list Z :=
  match es with
  | [] => []
  | EAlloc x :: es' | EFree x :: es' => x :: effs_changed es'
  | _ :: es' => effs_changed es'
  end.

Lemma effs_valid_ext es f g b :
  f b = g b -> effs_valid es f b = effs_valid es g b.
Proof.
  revert f g. induction es as [|e es IH]; intros f g H; cbn; [assumption|].
  apply IH. destruct e; cbn; now rewrite H.
Qed.

Lemma effs_disk_ext es d d' b :
  d b = d' b -> effs_disk es d b = effs_disk es d' b.
Proof.
  revert d d'. induction es as [|e es IH]; intros d d' H; cbn; [assumption|].
  apply IH. destruct e; cbn; try assumption.
  unfold upd. destruct (b =? x); auto.
Qed.

Lemma effs_disk_other es d b :
  ~ In b (effs_written es) -> effs_disk es d b = d b.
Proof.
  revert d. induction es as [|e es IH]; intros d H; cbn; [reflexivity|].
  destruct e; cbn in *; try (now apply IH).
  rewrite IH by tauto. apply upd_other. intros ->. tauto.
Qed.

Lemma effs_valid_other es f b :
  ~ In b (effs_changed es) -> effs_valid es f b = f b.
Proof.
  revert f. induction es as [|e es IH]; intros f H; cbn; [reflexivity|].
  destruct e; cbn in *; try (now apply IH); rewrite IH by tauto; cbn.
  - destruct (Z.eqb_spec b x); [subst; tauto|reflexivity].
  - destruct (Z.eqb_spec b x); [subst; tauto|reflexivity].
Qed.

Section Effects.

Context {G : Geometry}.
Hypothesis Hgeo : geometry_ok = true.

Definition eff_pre (e : eff) (d : Z -> block) : Prop :=
  match e with
  | EAlloc x => valid_block d x = false /\ data_block_offset (d 0) <= x < BLOCK_NUM
  | EWrite x _ => data_block_offset (d 0) <= x
  | EFree x => valid_block d x = true
  end.

(** The blocks the call [e] hands to [disk_write], newest first: an
    allocation and a release write the bitmap block, then the
    superblock. *)
Definition eff_writes (e : eff) (d : Z -> block) : list (Z * block) :=
  let h := d 0 in
  match e with
  | EAlloc x =>
      let p := x - data_block_offset h in
      let bb := data_block_bitmap_offset h + p / siz in
      [(0, set32 h OFF_data_block_num_free (data_block_num_free h - 1));
       (bb, bb_set (d bb) (p mod siz))]
  | EWrite x v => [(x, v)]
  | EFree x =>
      let p := x - data_block_offset h in
      let bb := data_block_bitmap_offset h + p / siz in
      [(0, set32 h OFF_data_block_num_free (data_block_num_free h + 1));
       (bb, bb_clear (d bb) (p mod siz))]
  end.

Fixpoint effs_writes (es : list eff) (d : Z -> block) : list (Z * block) :=
  match es with
  | [] => []
  | e :: es' => effs_writes es' (replay (eff_writes e d) d) ++ eff_writes e d
  end.

(** A pointer that a write stores: null, the value the place held, or
    the number of a block whose bitmap bit is set. *)
Definition ptr_fine (d : Z -> block) (old new : Z) : bool :=
  (new =? 0) || (new =? old) || valid_block d new.

Definition inode_ptrs_fine (d : Z -> block) (old new : INode) : bool :=
  ptr_fine d (direct_pointer old) (direct_pointer new) &&
  ptr_fine d (indirect_pointer old) (indirect_pointer new) &&
  ptr_fine d (iindirect_pointer old) (iindirect_pointer new).

(** The write [w] reaches the device [d]: every slot of a block of the
    data region, read as a pointer block, and every pointer field of a
    block of the inode table is fine. *)
Definition write_ok (d : Z -> block) (w : Z * block) : bool :=
  if data_block_offset (d 0) <=? fst w then
    forallb (fun j => ptr_fine d (get_pointer (d (fst w)) j) (get_pointer (snd w) j))
            (zrange POINTER_PER_BLOCK)
  else if inode_block_offset (d 0) <=? fst w then
    forallb (fun k => inode_ptrs_fine d (load_inode (d (fst w)) k) (load_inode (snd w) k))
            (zrange INODE_IN_BLOCK)
  else true.

(** Every write of [ws] (newest first) is fine for the device it
    reaches: [d] after the writes before it. *)
Fixpoint writes_ok (ws : list (Z * block)) (d : Z -> block) : bool :=
  match ws with
  | [] => true
  | w :: ws' => writes_ok ws' d && write_ok (replay ws' d) w
  end.

(** The writes [ws] take the device of [s] to that of [s']. *)
Record traced (s s' : state) (ws : list (Z * block)) : Prop := mkTraced {
  tr_writes : writes s' = ws ++ writes s;
  tr_disk : disk s' = replay ws (disk s);
  tr_ok : writes_ok ws (disk s) = true
}.

(** The pointers a write of a pointer block stores, against the bitmap
    [f] and the device [d] of that moment. *)
Definition eff_safe (e : eff) (f : Z -> bool) (d : Z -> block) : Prop :=
  match e with
  | EWrite x v =>
      forall j, 0 <= j < POINTER_PER_BLOCK ->
        get_pointer v j = 0 \/ get_pointer v j = get_pointer (d x) j \/
        f (get_pointer v j) = true
  | _ => True
  end.

Fixpoint effs_safe (es : list eff) (f : Z -> bool) (d : Z -> block) : Prop :=
  match es with
  | [] => True
  | e :: es' => eff_safe e f d /\ effs_safe es' (eff_valid e f) (eff_disk e d)
  end.

(** The call [e] takes the live state [s] to [s']. *)
Record does (e : eff) (s s' : state) : Prop := mkDoes {
  do_pre : eff_pre e (disk s);
  do_live : live s' = true;
  do_geom : same_geometry (disk s 0) (disk s' 0);
  do_free : data_block_num_free (disk s' 0)
            = u32 (data_block_num_free (disk s 0) - eff_delta e);
  do_ifree : inode_num_free (disk s' 0) = inode_num_free (disk s 0);
  do_valid : forall b, valid_block (disk s') b = eff_valid e (valid_block (disk s)) b;
  do_disk : forall b, data_block_offset (disk s 0) <= b ->
                      disk s' b = eff_disk e (disk s) b;
  do_low : forall b,
     0 < b < data_block_bitmap_offset (disk s 0) \/
     inode_block_offset (disk s 0) <= b < data_block_offset (disk s 0) ->
     disk s' b = disk s b;
  do_clock : clock s' = clock s;
  do_writes : writes s' = eff_writes e (disk s) ++ writes s;
  do_replay : disk s' = replay (eff_writes e (disk s)) (disk s)
}.

Inductive does_all : list eff -> state -> state -> Prop :=
| does_nil s : does_all [] s s
| does_cons e es s s1 s' :
    does e s s1 -> does_all es s1 s' -> does_all (e :: es) s s'.

Lemma does_all_snoc es e s s1 s' :
  does_all es s s1 -> does e s1 s' -> does_all (es ++ [e]) s s'.
Proof.
  induction 1 as [s|e0 es0 s s0 s1 D0 D IH]; intros De; cbn.
  - econstructor; [eassumption|constructor].
  - econstructor; [eassumption|]. now apply IH.
Qed.

(** A sequence of calls, summed up. *)
Record sums (es : list eff) (s s' : state) : Prop := mkSums {
  su_live : live s' = true;
  su_geom : same_geometry (disk s 0) (disk s' 0);
  su_free : data_block_num_free (disk s' 0)
            = u32 (data_block_num_free (disk s 0) - effs_delta es);
  su_ifree : inode_num_free (disk s' 0) = inode_num_free (disk s 0);
  su_valid : forall b, valid_block (disk s') b = effs_valid es (valid_block (disk s)) b;
  su_disk : forall b, data_block_offset (disk s 0) <= b ->
                      disk s' b = effs_disk es (disk s) b;
  su_low : forall b,
     0 < b < data_block_bitmap_offset (disk s 0) \/
     inode_block_offset (disk s 0) <= b < data_block_offset (disk s 0) ->
     disk s' b = disk s b;
  su_clock : clock s' = clock s;
  su_does : does_all es s s'
}.

Lemma does_all_sums es s s' :
  does_all es s s' -> live s = true -> sums es s s'.
Proof.
  induction 1 as [s|e es s s1 s' D DA IH]; intros L.
  - constructor; auto.
    + apply same_geometry_refl.
    + cbn. rewrite Z.sub_0_r. symmetry. apply u32_small. apply get32_range.
    + constructor.
  - specialize (IH (do_live _ _ _ D)). destruct IH as [I1 I2 I3 I4 I5 I6 I7 I8 I9].
    pose proof D as D'.
    destruct D as [D0 D1 D2 D3 D4 D5 D6 D7 D8 D9 D10].
    pose proof D2 as [S1 [S2 [S3 [S4 [S5 S6]]]]].
    constructor; [| | | | | | | |econstructor; eassumption]; auto.
    + eapply same_geometry_trans; eassumption.
    + rewrite I3, D3. cbn [effs_delta]. unfold Z.sub. rewrite u32_add_l.
      f_equal. lia.
    + congruence.
    + intros b. rewrite I5. cbn [effs_valid]. apply effs_valid_ext. apply D5.
    + intros b Hb. rewrite I6 by (rewrite S6; assumption). cbn [effs_disk].
      apply effs_disk_ext. now apply D6.
    + intros b Hb. rewrite I7 by (rewrite S5, S3, S6; assumption). now apply D7.
    + congruence.
Qed.

Lemma sums_evolves es s s' :
  live s = true -> sums es s s' ->
  evolves (disk s) (disk s') (effs_delta es) (effs_written es) (effs_changed es).
Proof.
  intros L [I1 I2 I3 I4 I5 I6 I7 I8 I9].
  destruct (live_facts _ L) as [_ [_ [Hh _]]].
  constructor; auto.
  - intros b Hb Hn. rewrite I6 by assumption. now apply effs_disk_other.
  - intros b Hn. rewrite I5. now apply effs_valid_other.
Qed.

(** ** The three calls *)

Lemma commit_run x v s :
  commit x v s = Ok tt (set_disk s (upd (disk s) x v) ((x, v) :: writes s)).
Proof. reflexivity. Qed.

Lemma valid_block_upd d x v b :
  hdr_ok (d 0) = true -> data_block_offset (d 0) <= x ->
  valid_block (upd d x v) b = valid_block d b.
Proof.
  intros Hh Hx. apply (meta_eq_valid Hgeo d _ b Hh (meta_eq_upd d x v Hx)).
Qed.

Lemma write_does s x v :
  live s = true -> data_block_offset (disk s 0) <= x ->
  does (EWrite x v) s (set_disk s (upd (disk s) x v) ((x, v) :: writes s)).
Proof.
  intros L Hx. destruct (live_facts _ L) as [_ [_ [Hh _]]].
  destruct (hdr_ok_facts Hgeo _ Hh) as [F1 [F2 [F3 [F4 [F5 [F6 F7]]]]]].
  assert (E0 : upd (disk s) x v 0 = disk s 0) by (apply upd_other; lia).
  constructor; cbn [disk set_disk eff_delta eff_valid eff_disk eff_pre clock writes];
    rewrite ?E0; auto.
  - apply (live_upd Hgeo s x v _ L). lia.
  - apply same_geometry_refl.
  - rewrite Z.sub_0_r. symmetry. apply u32_small. apply get32_range.
  - intros b. now apply valid_block_upd.
  - intros b Hb. apply upd_other. lia.
Qed.

Lemma alloc_does s :
  live s = true ->
  (data_block_num_free (disk s 0) = 0 /\ alloc_data s = Ok (-1) s) \/
  (data_block_num_free (disk s 0) <> 0 /\
   exists x s', alloc_data s = Ok x s' /\ (x =? -1) = false /\
                does (EAlloc x) s s').
Proof.
  intros L. destruct (live_facts _ L) as [_ [_ [Hh _]]].
  destruct (hdr_ok_facts Hgeo _ Hh) as [F1 [F2 [F3 [F4 [F5 [F6 F7]]]]]].
  destruct (alloc_step Hgeo s L) as [?|[N [x [s' [Run [Nx [Rx [A [L' [_ [C _]]]]]]]]]]];
    [left; assumption|].
  right. split; [assumption|]. exists x, s'. split; [assumption|].
  split; [assumption|]. destruct A as [A1 A2 A3 A4 A5 A6 A7].
  assert (Nx' : x <> -1) by (apply Z.eqb_neq; assumption).
  destruct (live_facts _ L) as [_ [_ [_ [Hm _]]]].
  destruct (alloc_data_trace Hgeo s x s' Run Nx' Hh Hm) as [_ [Tw Td]].
  constructor; cbn [eff_delta eff_valid eff_disk eff_pre]; auto.
  - split; [assumption|lia].
  - intros b Hb. apply A7; lia.
  - intros b Hb. apply A7; lia.
Qed.

Lemma free_does s x :
  live s = true -> valid_block (disk s) x = true ->
  exists s', free_data x s = Ok tt s' /\ does (EFree x) s s'.
Proof.
  intros L V. destruct (live_facts _ L) as [_ [_ [Hh _]]].
  destruct (hdr_ok_facts Hgeo _ Hh) as [F1 [F2 [F3 [F4 [F5 [F6 F7]]]]]].
  destruct (free_step Hgeo s x L V) as [s' [Run [A [L' [_ [C _]]]]]].
  exists s'. split; [assumption|]. destruct A as [A1 A2 A3 A4 A5 A6].
  pose proof V as V'. apply valid_block_facts in V'. destruct V' as [V1 [V2 _]].
  destruct (free_data_trace Hgeo s x tt s' Run Hh V1 V2) as [Tw Td].
  constructor; cbn [eff_delta eff_valid eff_disk eff_pre]; auto.
  - intros b Hb. apply A6; lia.
  - intros b Hb. apply A6; lia.
Qed.

(** ** The trace of a sequence of calls *)

Lemma replay_app ws2 ws1 d : replay (ws2 ++ ws1) d = replay ws2 (replay ws1 d).
Proof.
  induction ws2 as [|[k v] ws2 IH]; cbn [app replay]; [reflexivity|].
  now rewrite IH.
Qed.

Lemma writes_ok_app ws2 ws1 d :
  writes_ok (ws2 ++ ws1) d = writes_ok ws1 d && writes_ok ws2 (replay ws1 d).
Proof.
  induction ws2 as [|w ws2 IH]; cbn [app writes_ok].
  - now rewrite andb_true_r.
  - rewrite IH, replay_app. now rewrite andb_assoc.
Qed.

Lemma traced_refl s : traced s s [].
Proof. constructor; reflexivity. Qed.

Lemma traced_trans s s1 s2 ws1 ws2 :
  traced s s1 ws1 -> traced s1 s2 ws2 -> traced s s2 (ws2 ++ ws1).
Proof.
  intros [A1 A2 A3] [B1 B2 B3]. constructor.
  - rewrite B1, A1. now rewrite app_assoc.
  - rewrite B2, A2. now rewrite replay_app.
  - rewrite writes_ok_app, A3. now rewrite <- A2.
Qed.

Lemma does_all_writes es s s' :
  does_all es s s' ->
  writes s' = effs_writes es (disk s) ++ writes s /\
  disk s' = replay (effs_writes es (disk s)) (disk s).
Proof.
  induction 1 as [s|e es s s1 s' D DA IH]; cbn [effs_writes].
  - split; reflexivity.
  - destruct IH as [I1 I2]. rewrite <- (do_replay _ _ _ D).
    split.
    + rewrite I1, (do_writes _ _ _ D). now rewrite app_assoc.
    + rewrite I2, replay_app. now rewrite <- (do_replay _ _ _ D).
Qed.

(** A write below the inode table stores no pointer. *)
Lemma write_ok_low d w :
  fst w < inode_block_offset (d 0) ->
  inode_block_offset (d 0) <= data_block_offset (d 0) ->
  write_ok d w = true.
Proof.
  intros H1 H2. unfold write_ok.
  destruct (Z.leb_spec (data_block_offset (d 0)) (fst w)); [lia|].
  destruct (Z.leb_spec (inode_block_offset (d 0)) (fst w)); [lia|reflexivity].
Qed.

(** The two writes of the allocator are fine. *)
Lemma bitmap_writes_ok d p v1 v2 :
  hdr_ok (d 0) = true -> 0 <= p < data_bits (d 0) ->
  writes_ok [(0, v2); (data_block_bitmap_offset (d 0) + p / siz, v1)] d = true.
Proof.
  intros Hh Hp.
  destruct (hdr_ok_facts Hgeo _ Hh) as [F1 [F2 [F3 [F4 [F5 [F6 F7]]]]]].
  pose proof (bitmap_block_low Hgeo _ p Hh Hp) as Lo.
  assert (Hb : data_block_bitmap_offset (d 0) + p / siz < inode_block_offset (d 0)).
  { unfold data_bits in Hp. pose proof (pos_block Hgeo p _ Hp). lia. }
  cbn [writes_ok replay]. apply andb_true_iff. split.
  - apply write_ok_low; cbn [fst]; lia.
  - apply write_ok_low; cbn [fst]; rewrite upd_other by lia; lia.
Qed.

Lemma eff_valid_ext e f g b :
  (forall b, f b = g b) -> eff_valid e f b = eff_valid e g b.
Proof. intros H. destruct e; cbn; now rewrite H. Qed.

(** The writes of one call are fine when the pointers it stores are. *)
Lemma does_writes_ok e s s' f d :
  live s = true -> does e s s' ->
  (forall b, valid_block (disk s) b = f b) ->
  (forall b, data_block_offset (disk s 0) <= b -> disk s b = d b) ->
  eff_safe e f d ->
  writes_ok (eff_writes e (disk s)) (disk s) = true.
Proof.
  intros L D Hf Hd Sf. pose proof (proj1 (proj2 (proj2 (live_facts _ L)))) as Hh.
  destruct (hdr_ok_facts Hgeo _ Hh) as [F1 [F2 [F3 [F4 [F5 [F6 F7]]]]]].
  destruct e as [x|x v|x]; cbn [eff_writes eff_safe] in *.
  - (* alloc *)
    pose proof (do_valid _ _ _ D x) as V. cbn [eff_valid] in V.
    rewrite Z.eqb_refl in V. cbn [orb] in V.
    apply valid_block_facts in V. destruct V as [V1 [V2 _]].
    destruct (do_geom _ _ _ D) as [S1 [S2 [S3 [S4 [S5 S6]]]]].
    destruct (same_geometry_bits _ _ (do_geom _ _ _ D)) as [_ B2].
    apply bitmap_writes_ok; [assumption|]. rewrite <- S6, B2 in *. lia.
  - (* write *)
    pose proof (do_pre _ _ _ D) as Hx. cbn [eff_pre] in Hx.
    cbn [writes_ok replay]. unfold write_ok. cbn [fst snd].
    destruct (Z.leb_spec (data_block_offset (disk s 0)) x); [|lia].
    apply forallb_forall. intros j Hj. apply zrange_In in Hj.
    unfold ptr_fine. rewrite (Hd x Hx). rewrite !Hf.
    destruct (Sf j Hj) as [E|[E|E]]; rewrite E.
    + reflexivity.
    + rewrite Z.eqb_refl. now rewrite orb_true_r.
    + now rewrite orb_true_r.
  - (* free *)
    pose proof (do_pre _ _ _ D) as V. cbn [eff_pre] in V.
    apply valid_block_facts in V. destruct V as [V1 [V2 _]].
    apply bitmap_writes_ok; [assumption|lia].
Qed.

(** The trace of a sequence of calls that store fine pointers. *)
Lemma does_all_traced es : forall s s' f d,
  does_all es s s' -> live s = true ->
  (forall b, valid_block (disk s) b = f b) ->
  (forall b, data_block_offset (disk s 0) <= b -> disk s b = d b) ->
  effs_safe es f d ->
  traced s s' (effs_writes es (disk s)).
Proof.
  induction es as [|e es IH]; intros s s' f d DA L Hf Hd Sf.
  - inversion DA; subst. apply traced_refl.
  - inversion DA as [|e0 es0 s0 s1 s2 D DA']; subst.
    cbn [effs_safe] in Sf. destruct Sf as [Se Ses].
    cbn [effs_writes]. rewrite <- (do_replay _ _ _ D).
    apply (traced_trans s s1 s').
    + constructor.
      * apply (do_writes _ _ _ D).
      * apply (do_replay _ _ _ D).
      * apply (does_writes_ok e s s1 f d L D Hf Hd Se).
    + apply (IH s1 s' (eff_valid e f) (eff_disk e d) DA' (do_live _ _ _ D)).
      * intros b. rewrite (do_valid _ _ _ D). now apply eff_valid_ext.
      * intros b Hb. destruct (do_geom _ _ _ D) as [_ [_ [_ [_ [_ S6]]]]].
        rewrite S6 in Hb. rewrite (do_disk _ _ _ D b Hb).
        destruct e; cbn [eff_disk]; try (now apply Hd).
        unfold upd. destruct (b =? x); [reflexivity|now apply Hd].
      * assumption.
Qed.

End Effects.

(** * What one iteration of the resize loop establishes *)

Lemma NoDup_map_inj {A B} (f : A -> B) (l : list A) x y :
  NoDup (map f l) -> In x l -> In y l -> f x = f y -> x = y.
Proof.
  induction l as [|a l IH]; cbn; intros ND Hx Hy E; [contradiction|].
  inversion ND as [|? ? Hn ND']; subst.
  destruct Hx as [->|Hx]; destruct Hy as [->|Hy]; auto.
  - exfalso. apply Hn. rewrite E. now apply in_map.
  - exfalso. apply Hn. rewrite <- E. now apply in_map.
Qed.

(** Splits a hypothesis of membership in an explicit list of blocks. *)
Ltac in_cases H :=
  cbn [effs_changed effs_written In app] in H;
  repeat match type of H with
  | _ \/ _ => destruct H as [H|H]
  | False => contradiction
  end.

(** The fields of an inode that [resize] leaves to its caller. *)
Definition kept (ino ino' : INode) : Prop :=
  type ino' = type ino /\ filesize ino' = filesize ino /\
  atime ino' = atime ino /\ mtime ino' = mtime ino /\ ctime ino' = ctime ino.

Definition same_ptrs (ino ino' : INode) : Prop :=
  direct_pointer ino' = direct_pointer ino /\
  indirect_pointer ino' = indirect_pointer ino /\
  iindirect_pointer ino' = iindirect_pointer ino.

Lemma kept_refl ino : kept ino ino.
Proof. unfold kept. auto. Qed.

Lemma kept_trans a b c : kept a b -> kept b c -> kept a c.
Proof. unfold kept. intuition congruence. Qed.

Lemma inode_norm_kept ino ino' :
  kept ino ino' -> inode_norm ino = true ->
  0 <= direct_pointer ino' < 2 ^ 32 -> 0 <= indirect_pointer ino' < 2 ^ 32 ->
  0 <= iindirect_pointer ino' < 2 ^ 32 -> inode_norm ino' = true.
Proof.
  intros [_ [K _]] N H1 H2 H3. apply inode_norm_facts in N.
  apply inode_norm_facts. rewrite K. tauto.
Qed.

Section StoredPointers.

Context {G : Geometry}.

(** The pointers of a write of a pointer block. *)
Lemma safe_zero f d x : eff_safe (EWrite x zero_block) f d.
Proof. intros j Hj. left. apply get_pointer_zero. Qed.

Lemma safe_set f d x b j y :
  d x = b -> u32 y = 0 \/ f (u32 y) = true ->
  eff_safe (EWrite x (set_pointer b j y)) f d.
Proof.
  intros E Hy k Hk. rewrite E. destruct (Z.eq_dec j k) as [<-|Hne].
  - rewrite get_pointer_set_same. destruct Hy; auto.
  - right. left. now apply get_pointer_set_other.
Qed.

Lemma safe_same f d x b : d x = b -> eff_safe (EWrite x b) f d.
Proof. intros E k Hk. rewrite E. right. now left. Qed.

Lemma effs_safe_app es1 es2 f d :
  effs_safe (es1 ++ es2) f d <->
  effs_safe es1 f d /\ effs_safe es2 (effs_valid es1 f) (effs_disk es1 d).
Proof.
  revert f d. induction es1 as [|e es1 IH]; intros f d; cbn [app effs_safe effs_valid effs_disk].
  - tauto.
  - rewrite IH. tauto.
Qed.

End StoredPointers.

(** The block an allocation returned lies on the device. *)
Ltac alloc_bound :=
  match goal with
  | D : does (EAlloc ?y) _ _ |- ?y < _ =>
      let H := fresh in pose proof (do_pre _ _ _ D) as [_ H]; lia
  | |- _ => lia
  end.

(** Steps of a proof that the calls of an iteration store fine
    pointers. *)
Ltac safe_split :=
  cbn [effs_safe app];
  repeat match goal with
         | |- eff_safe (EAlloc _) _ _ /\ _ => split; [exact Logic.I|]
         | |- eff_safe (EFree _) _ _ /\ _ => split; [exact Logic.I|]
         | |- eff_safe (EWrite _ zero_block) _ _ /\ _ => split; [apply safe_zero|]
         | |- True => exact Logic.I
         end.

Ltac valid_now := cbn [eff_valid]; rewrite ?Z.eqb_refl, ?orb_true_r; reflexivity.

Ltac disk_now :=
  cbn [eff_disk]; rewrite ?upd_same;
  repeat (rewrite upd_other by congruence; rewrite ?upd_same); reflexivity.

Section Steps.

Context {G : Geometry}.
Hypothesis Hgeo : geometry_ok = true.

Local Abbreviation P := POINTER_PER_BLOCK.

(** The state [s'] and in-memory inode [ino'] of [n'] blocks come from
    [s] and [ino] of [n] blocks by steps of [resize]. *)
Record step_post (s s' : state) (ino : INode) (n : Z) (ino' : INode) (n' : Z)
  : Prop := mkStep {
  sp_live : live s' = true;
  sp_wf : WF (disk s') ino' n';
  sp_kept : kept ino ino';
  sp_ev : exists Lw La,
     evolves (disk s) (disk s') (nblocks n' - nblocks n) Lw La /\
     forall b, In b Lw \/ In b La ->
       In b (owned (disk s) ino n) \/ valid_block (disk s) b = false;
  sp_owned : forall b, In b (owned (disk s') ino' n') ->
       In b (owned (disk s) ino n) \/ valid_block (disk s) b = false;
  sp_clock : clock s' = clock s;
  sp_trace : exists ws, traced s s' ws
}.

(** Growing writes pointer blocks of the file only: the pointer blocks
    stay, and a block of the data region that is no pointer block of
    the file afterwards holds what it held. *)
Record grow_frame (s s' : state) (ino ino' : INode) (n n' : Z) : Prop := mkGrown {
  gf_ptrs : incl (ptr_blocks (disk s) ino n) (ptr_blocks (disk s') ino' n');
  gf_data : forall b, data_block_offset (disk s 0) <= b ->
            ~ In b (ptr_blocks (disk s') ino' n') -> disk s' b = disk s b;
  gf_old : forall k, 0 <= k < n -> l2p (disk s') ino' k = l2p (disk s) ino k;
  gf_new : forall k, n <= k < n' ->
            l2p (disk s') ino' k < BLOCK_NUM /\
            valid_block (disk s) (l2p (disk s') ino' k) = false;
  gf_valid : forall b, valid_block (disk s) b = true -> valid_block (disk s') b = true
}.

Lemma grow_frame_refl s ino n : grow_frame s s ino ino n n.
Proof.
  constructor; auto.
  - apply incl_refl.
  - intros k Hk. lia.
Qed.

Lemma grow_frame_trans s s1 s2 ino ino1 ino2 n n1 n2 :
  data_block_offset (disk s1 0) = data_block_offset (disk s 0) -> 0 <= n <= n1 ->
  grow_frame s s1 ino ino1 n n1 -> grow_frame s1 s2 ino1 ino2 n1 n2 ->
  grow_frame s s2 ino ino2 n n2.
Proof.
  intros E Hn1 [A1 A2 A3 A4 A5] [B1 B2 B3 B4 B5]. constructor.
  - eapply incl_tran; eassumption.
  - intros b Hb Hn. rewrite B2 by (rewrite ?E; assumption).
    apply A2; [assumption|]. intros Hin. apply Hn. now apply B1.
  - intros k Hk. rewrite B3 by lia. now apply A3.
  - intros k Hk. destruct (Z_lt_le_dec k n1) as [Hlt|Hge].
    + rewrite B3 by lia. apply A4. lia.
    + destruct (B4 k) as [C1 C2]; [lia|]. split; [assumption|].
      destruct (valid_block (disk s) _) eqn:V; [|reflexivity].
      apply A5 in V. congruence.
  - auto.
Qed.

Lemma step_refl s ino n :
  live s = true -> WF (disk s) ino n -> step_post s s ino n ino n.
Proof.
  intros L W. destruct (live_facts _ L) as [_ [_ [Hh _]]].
  constructor; auto.
  - apply kept_refl.
  - exists [], []. rewrite Z.sub_diag. split; [now apply evolves_refl|].
    intros b [[]|[]].
  - exists []. apply traced_refl.
Qed.

Lemma step_trans s s1 s2 ino ino1 ino2 n n1 n2 :
  step_post s s1 ino n ino1 n1 -> step_post s1 s2 ino1 n1 ino2 n2 ->
  step_post s s2 ino n ino2 n2.
Proof.
  intros [A1 A2 A3 [Lw [La [A4 A5]]] A6 A7 [ws1 A8]]
         [B1 B2 B3 [Lw' [La' [B4 B5]]] B6 B7 [ws2 B8]].
  assert (Old : forall b, In b (owned (disk s1) ino1 n1) \/ valid_block (disk s1) b = false ->
                          In b (owned (disk s) ino n) \/ valid_block (disk s) b = false).
  { intros b [Hb|Hb]; [now apply A6|].
    destruct (in_dec Z.eq_dec b La) as [I|I]; [apply A5; now right|].
    right. now rewrite <- (ev_valid _ _ _ _ _ A4 b I). }
  constructor; auto.
  - eapply kept_trans; eassumption.
  - exists (Lw ++ Lw'), (La ++ La'). split.
    + replace (nblocks n2 - nblocks n)
        with ((nblocks n1 - nblocks n) + (nblocks n2 - nblocks n1)) by lia.
      apply evolves_trans with (d1 := disk s1).
      * eapply evolves_weaken; [| |exact A4]; intros b Hb; apply in_or_app; now left.
      * eapply evolves_weaken; [| |exact B4]; intros b Hb; apply in_or_app; now right.
    + intros b [Hb|Hb]; apply in_app_or in Hb; destruct Hb as [Hb|Hb].
      * apply A5. now left.
      * apply Old. apply B5. now left.
      * apply A5. now right.
      * apply Old. apply B5. now right.
  - congruence.
  - exists (ws2 ++ ws1). eapply traced_trans; eassumption.
Qed.

(** An inode with the same pointers over a device that reads alike. *)
Lemma WF_same d d' ino ino' n :
  WF d ino n -> same_ptrs ino ino' -> inode_norm ino' = true ->
  (forall b, In b (ptr_blocks d ino n) -> same_slots d d' b) ->
  (forall b, In b (owned d ino n) -> valid_block d' b = true) ->
  WF d' ino' n /\ owned d' ino' n = owned d ino n.
Proof.
  intros W [E1 [E2 E3]] N A V.
  destruct (WF_slots Hgeo d d' ino n W A V) as [W' [EP ED]].
  assert (EP' : ptr_blocks d' ino' n = ptr_blocks d' ino n).
  { unfold ptr_blocks, outer_slot. now rewrite E2, E3. }
  assert (ED' : data_blocks d' ino' n = data_blocks d' ino n).
  { unfold data_blocks, l2p, ind_slot, inner_slot, outer_slot.
    now rewrite E1, E2, E3. }
  assert (EZ : zeros_ok d' ino' n = zeros_ok d' ino n).
  { unfold zeros_ok, ind_slot, inner_slot, outer_slot. now rewrite E1, E2, E3. }
  split; [|unfold owned; congruence].
  destruct W' as [W1 W2 W3 W4 W5 W6]. constructor; auto.
  - now rewrite EP'.
  - now rewrite ED'.
  - unfold owned. now rewrite EP', ED'.
  - now rewrite EZ.
Qed.

(** The pointer blocks of a well-formed file are pairwise distinct. *)
Lemma ptr_blocks_distinct d ino n :
  WF d ino n -> 1 + P < n ->
  indirect_pointer ino <> iindirect_pointer ino /\
  (forall i, 0 <= i < n_inner n ->
     outer_slot d ino i <> indirect_pointer ino /\
     outer_slot d ino i <> iindirect_pointer ino) /\
  (forall i i', 0 <= i < n_inner n -> 0 <= i' < n_inner n ->
     outer_slot d ino i = outer_slot d ino i' -> i = i').
Proof.
  intros W Hn. pose proof (P_pos Hgeo) as HP.
  pose proof (WF_nodup _ _ _ W) as ND. unfold owned in ND.
  apply NoDup_app_inv in ND. destruct ND as [ND _].
  unfold ptr_blocks in ND.
  destruct (Z.leb_spec 2 n); [|lia]. destruct (Z.ltb_spec (1 + P) n); [|lia].
  cbn [app] in ND. inversion ND as [|? ? N1 ND1]; subst.
  inversion ND1 as [|? ? N2 ND2]; subst.
  split; [|split].
  - intros E. apply N1. left. now symmetry.
  - intros i Hi. split; intros E.
    + apply N1. right. rewrite <- E. apply in_map. now apply zrange_In.
    + apply N2. rewrite <- E. apply in_map. now apply zrange_In.
  - intros i i' Hi Hi' E.
    apply (NoDup_map_inj (outer_slot d ino) (zrange (n_inner n))); auto;
      now apply zrange_In.
Qed.

Lemma live_hdr s : live s = true -> hdr_ok (disk s 0) = true.
Proof. intros L. now destruct (live_facts _ L) as [_ [_ [Hh _]]]. Qed.

Lemma nblocks_diff n :
  0 <= n ->
  nblocks (n + 1) - nblocks n
  = 1 + (if n =? 1 then 1 else 0) + (if n =? 1 + P then 1 else 0)
    + (if (1 + P <=? n) && ((n - (1 + P)) mod P =? 0) then 1 else 0).
Proof.
  intros Hn.
  rewrite (nblocks_succ Hgeo (fun _ => zero_block) (mkINode 0 0 0 0 0 0 0 0) n Hn).
  rewrite new_ptrs_length. lia.
Qed.

Lemma nblocks_diff_cases n :
  0 <= n ->
  (n <> 1 -> n < 1 + P -> nblocks (n + 1) - nblocks n = 1) /\
  (n = 1 -> nblocks (n + 1) - nblocks n = 2) /\
  (n = 1 + P -> nblocks (n + 1) - nblocks n = 3) /\
  (1 + P < n -> (n - (1 + P)) mod P = 0 -> nblocks (n + 1) - nblocks n = 2) /\
  (1 + P <= n -> (n - (1 + P)) mod P <> 0 -> nblocks (n + 1) - nblocks n = 1).
Proof.
  intros Hn. pose proof (P_pos Hgeo) as HP. rewrite (nblocks_diff n Hn).
  assert (E0 : n = 1 + P -> (n - (1 + P)) mod P = 0).
  { intros ->. rewrite Z.sub_diag. apply Z.mod_0_l. lia. }
  destruct (Z.eqb_spec n 1); destruct (Z.eqb_spec n (1 + P));
    destruct (Z.leb_spec (1 + P) n);
    destruct (Z.eqb_spec ((n - (1 + P)) mod P) 0); cbn [andb];
    repeat split; intros; try lia; try tauto.
Qed.

(** A block number the allocator hands out, or one in use, is the same
    number at every integer type of the code. *)
Lemma block_number d x :
  hdr_ok (d 0) = true -> valid_block d x = true ->
  0 < x < 2 ^ 31 /\ data_block_offset (d 0) <= x /\
  u32 x = x /\ s32 x = x /\ (x =? 0) = false.
Proof.
  intros Hh V. destruct (valid_block_range Hgeo d x Hh V) as [R1 [R2 [R3 R4]]].
  assert (E1 : u32 x = x) by (apply u32_small; lia).
  assert (E2 : s32 x = x) by (apply s32_small; lia).
  assert (E3 : (x =? 0) = false) by (apply Z.eqb_neq; lia).
  repeat split; try lia; assumption.
Qed.

(** The end of a growing iteration: the calls [es] led from [s] to [s'],
    and the file has the new pointer blocks [news] and the new data
    block [x]. *)
Lemma grow_done es s s' ino ino' n news x :
  live s = true -> sums es s s' -> WF (disk s) ino n -> n < CAP ->
  kept ino ino' -> inode_norm ino' = true ->
  effs_delta es = nblocks (n + 1) - nblocks n ->
  (forall b, In b (effs_changed es) -> valid_block (disk s) b = false) ->
  (forall b, In b (effs_written es) ->
     In b (owned (disk s) ino n) \/ valid_block (disk s) b = false) ->
  ptr_blocks (disk s') ino' n = ptr_blocks (disk s) ino n /\
  data_blocks (disk s') ino' n = data_blocks (disk s) ino n ->
  new_ptrs (disk s') ino' n = news -> l2p (disk s') ino' n = x ->
  (forall b, In b (news ++ [x]) ->
     In b (effs_changed es) /\ valid_block (disk s') b = true) ->
  (forall b, In b news -> b < BLOCK_NUM) ->
  NoDup (news ++ [x]) ->
  zeros_ok (disk s') ino' (n + 1) = true ->
  effs_safe es (valid_block (disk s)) (disk s) ->
  (forall b, In b (effs_written es) ->
     In b (ptr_blocks (disk s) ino n) \/ In b news) ->
  x < BLOCK_NUM ->
  step_post s s' ino n ino' (n + 1) /\ grow_frame s s' ino ino' n (n + 1).
Proof.
  intros L S W Hn K N Hd Hc Hw [EP ED] En El Hnew Hlt ND Zr Sf Hwp Hx.
  pose proof (WF_n _ _ _ W) as Hn0.
  assert (EPS : ptr_blocks (disk s') ino' (n + 1)
                = ptr_blocks (disk s) ino n ++ news).
  { rewrite (ptr_blocks_succ Hgeo) by lia. now rewrite EP, En. }
  split.
  2:{ constructor.
      - rewrite EPS. intros b Hb. apply in_or_app. now left.
      - intros b Hb Hn'. rewrite (su_disk _ _ _ S b Hb). apply effs_disk_other.
        intros Hin. apply Hn'. rewrite EPS. apply in_or_app. now apply Hwp.
      - intros k Hk. apply (ext_in_map ED). now apply zrange_In.
      - intros k Hk. assert (k = n) by lia. subst k. rewrite El.
        split; [assumption|]. apply Hc. apply Hnew. apply in_or_app. right. now left.
      - intros b Hb. rewrite (su_valid _ _ _ S), effs_valid_other; [assumption|].
        intros Hin. apply Hc in Hin. congruence. }
  assert (V : forall b, In b (owned (disk s) ino n) -> valid_block (disk s') b = true).
  { intros b Hb. rewrite (su_valid _ _ _ S), effs_valid_other.
    - now apply (WF_owned_valid (disk s) ino n).
    - intros Hin. apply Hc in Hin.
      rewrite (WF_owned_valid (disk s) ino n b W Hb) in Hin. discriminate. }
  assert (Fr : forall b, In b (news ++ [x]) -> ~ In b (owned (disk s) ino n)).
  { intros b Hb Hin. apply Hnew in Hb. destruct Hb as [Hb _]. apply Hc in Hb.
    rewrite (WF_owned_valid (disk s) ino n b W Hin) in Hb. discriminate. }
  constructor.
  - apply (su_live _ _ _ S).
  - apply (WF_grow Hgeo (disk s) (disk s') ino ino' n); auto; rewrite ?En, ?El; auto.
    + intros b Hb. apply valid_ptr_block_facts. split; [|now apply Hlt].
      apply Hnew. apply in_or_app. now left.
    + apply Hnew. apply in_or_app. right. now left.
  - assumption.
  - exists (effs_written es), (effs_changed es). split.
    + rewrite <- Hd. now apply sums_evolves.
    + intros b [Hb|Hb]; [now apply Hw|right; now apply Hc].
  - intros b Hb.
    apply (Permutation_in _ (owned_succ Hgeo (disk s') ino' n (proj1 Hn0))) in Hb.
    apply in_app_or in Hb. destruct Hb as [Hb|Hb].
    + left. unfold owned in *. now rewrite <- EP, <- ED.
    + right. rewrite En, El in Hb. apply Hc. now apply Hnew.
  - apply (su_clock _ _ _ S).
  - exists (effs_writes es (disk s)).
    apply (does_all_traced Hgeo es s s' (valid_block (disk s)) (disk s)
             (su_does _ _ _ S) L); auto.
Qed.

(** The end of an iteration that gave up: what it allocated it released
    again, and the slots of the file read as before. *)
Lemma rollback_done es s s' ino ino' n :
  live s = true -> sums es s s' -> WF (disk s) ino n ->
  kept ino ino' -> same_ptrs ino ino' ->
  effs_delta es = 0 ->
  (forall b, In b (effs_changed es) -> valid_block (disk s) b = false) ->
  (forall b, In b (effs_written es) ->
     In b (owned (disk s) ino n) \/ valid_block (disk s) b = false) ->
  (forall b, In b (ptr_blocks (disk s) ino n) -> same_slots (disk s) (disk s') b) ->
  effs_safe es (valid_block (disk s)) (disk s) ->
  step_post s s' ino n ino' n.
Proof.
  intros L S W K SP Hd Hc Hw A Sf.
  assert (V : forall b, In b (owned (disk s) ino n) -> valid_block (disk s') b = true).
  { intros b Hb. rewrite (su_valid _ _ _ S), effs_valid_other.
    - now apply (WF_owned_valid (disk s) ino n).
    - intros Hin. apply Hc in Hin.
      rewrite (WF_owned_valid (disk s) ino n b W Hb) in Hin. discriminate. }
  assert (N : inode_norm ino' = true).
  { pose proof (WF_norm _ _ _ W) as N. pose proof N as N'.
    apply inode_norm_facts in N'. destruct SP as [E1 [E2 E3]].
    apply (inode_norm_kept ino ino' K N); rewrite ?E1, ?E2, ?E3; tauto. }
  destruct (WF_same (disk s) (disk s') ino ino' n W SP N A V) as [W' EO].
  constructor; auto.
  - apply (su_live _ _ _ S).
  - exists (effs_written es), (effs_changed es). split.
    + rewrite Z.sub_diag, <- Hd. now apply sums_evolves.
    + intros b [Hb|Hb]; [now apply Hw|right; now apply Hc].
  - intros b Hb. left. now rewrite <- EO.
  - apply (su_clock _ _ _ S).
  - exists (effs_writes es (disk s)).
    apply (does_all_traced Hgeo es s s' (valid_block (disk s)) (disk s)
             (su_does _ _ _ S) L); auto.
Qed.

(** How a growing iteration ends. *)
Definition grow_post (s : state) (ino : INode) (n : Z) (r : loop_exit) (s' : state)
  : Prop :=
  match r with
  | Continue ino' =>
      step_post s s' ino n ino' (n + 1) /\ grow_frame s s' ino ino' n (n + 1)
  | Rollback ino' =>
      step_post s s' ino n ino' n /\
      data_block_num_free (disk s 0) < nblocks (n + 1) - nblocks n
  end.

Lemma sums_one e s s' : does e s s' -> live s = true -> sums [e] s s'.
Proof.
  intros D L. apply does_all_sums; [|assumption].
  econstructor; [eassumption|constructor].
Qed.

Lemma grow_direct_ok s ino :
  live s = true -> WF (disk s) ino 0 ->
  exists r s', grow_direct ino s = Ok r s' /\ grow_post s ino 0 r s'.
Proof.
  intros L W. pose proof (P_pos Hgeo) as HP.
  destruct (live_facts _ L) as [_ [_ [Hh _]]].
  assert (H0 : 0 <= 0) by lia.
  destruct (nblocks_diff_cases 0 H0) as [ND _].
  assert (H01 : 0 <> 1) by lia. assert (H0P : 0 < 1 + P) by lia.
  specialize (ND H01 H0P).
  pose proof (WF_zeros _ _ _ W) as Zr. apply zeros_ok_facts in Zr.
  destruct Zr as [Z1 [Z2 [Z3 [Z4 [Z5 Z6]]]]].
  unfold grow_direct.
  destruct (alloc_does Hgeo s L) as [[F R]|[F [x [s' [R [Nx D]]]]]];
    rewrite (bind_run _ _ _ _ _ R).
  - exists (Rollback ino), s. split; [reflexivity|]. cbn [grow_post].
    split; [now apply step_refl|]. rewrite ND, F. lia.
  - rewrite Nx. exists (Continue (set_direct ino x)), s'. split; [reflexivity|].
    cbn [grow_post]. pose proof (sums_one _ _ _ D L) as S.
    pose proof (do_pre _ _ _ D) as [Fx Rx].
    assert (Vx : valid_block (disk s') x = true).
    { rewrite (do_valid _ _ _ D). cbn [eff_valid]. now rewrite Z.eqb_refl. }
    pose proof (live_hdr _ (su_live _ _ _ S)) as Hh'.
    destruct (block_number (disk s') x Hh' Vx) as [X1 [X2 [X3 [X4 X5]]]].
    assert (K : kept ino (set_direct ino x)) by (unfold kept; cbn; auto).
    apply (grow_done [EAlloc x] s s' ino (set_direct ino x) 0 [] x).
    + assumption.
    + assumption.
    + assumption.
    + unfold CAP. nia.
    + assumption.
    + pose proof (WF_norm _ _ _ W) as N.
      apply (inode_norm_kept ino); [assumption|assumption| | |];
        apply inode_norm_facts in N; cbn; try tauto. apply u32_range.
    + cbn [effs_delta eff_delta]. rewrite ND. reflexivity.
    + intros b [<-|[]]. assumption.
    + intros b [].
    + apply (lists_same Hgeo); lia.
    + unfold new_ptrs. destruct (Z.eqb_spec 0 (1 + P)); [lia|].
      destruct (Z.leb_spec (1 + P) 0); [lia|]. reflexivity.
    + unfold l2p. cbn. assumption.
    + intros b [<-|[]]. split; [now left|assumption].
    + intros b [].
    + constructor; [intros []|constructor].
    + apply zeros_ok_facts. cbn [direct_pointer indirect_pointer iindirect_pointer set_direct].
      repeat split; intros; lia.
    + cbn [effs_safe eff_safe]. tauto.
    + intros b [].
    + alloc_bound.
Qed.

(** ** The indirect tier *)

Lemma in_range_true a b : 0 <= a < b -> (0 <=? a) && (a <? b) = true.
Proof. intros H. b2p; lia. Qed.

(** An allocation that found nothing after [k] blocks were taken: no
    more than [k] were free to begin with. *)
Lemma free_bound (f k : Z) :
  0 <= f < 2 ^ 32 -> 0 <= k -> u32 (f - k) = 0 -> f <= k.
Proof.
  intros Hf Hk E. destruct (Z_lt_le_dec f k); [lia|].
  rewrite u32_small in E by lia. lia.
Qed.

Lemma free_bound_le (f k m : Z) :
  0 <= f < 2 ^ 32 -> 0 <= k -> 0 <= m -> u32 (f - k) <= m -> f <= k + m.
Proof.
  intros Hf Hk Hm E. destruct (Z_lt_le_dec f k); [lia|].
  rewrite u32_small in E by lia. lia.
Qed.

Lemma grow_indirect_fill_run s ino off ext :
  live s = true ->
  valid_block (disk s) (indirect_pointer ino) = true ->
  indirect_pointer ino < BLOCK_NUM -> 0 <= off < P ->
  (data_block_num_free (disk s 0) = 0 /\
   exists s',
     grow_indirect_fill off ino ext s
     = Ok (Rollback (if ext then set_indirect ino 0 else ino)) s' /\
     if ext then does (EFree (indirect_pointer ino)) s s' else s' = s) \/
  (exists x s1 s',
     grow_indirect_fill off ino ext s = Ok (Continue ino) s' /\
     does (EAlloc x) s s1 /\
     does (EWrite (indirect_pointer ino)
                  (set_pointer (disk s (indirect_pointer ino)) off (u32 x))) s1 s').
Proof.
  intros L V HI Hoff. set (I := indirect_pointer ino) in *.
  destruct (block_number (disk s) I (live_hdr _ L) V) as [I1 [I2 [I3 [I4 I5]]]].
  assert (RI : 0 <= I < BLOCK_NUM) by lia.
  unfold grow_indirect_fill. cbv zeta. fold I. rewrite I4.
  rewrite (bind_run _ _ _ _ _ (from_blockno_total I s RI)).
  destruct (alloc_does Hgeo s L) as [[F R]|[F [x [s1 [R [Nx D]]]]]];
    rewrite (bind_run _ _ _ _ _ R).
  - left. split; [assumption|]. change (-1 =? -1) with true. cbv iota.
    destruct ext.
    + destruct (free_does Hgeo s I L V) as [s' [Rf Df]].
      exists s'. rewrite (bind_run _ _ _ _ _ Rf). split; [reflexivity|assumption].
    + exists s. split; reflexivity.
  - right. rewrite Nx. unfold ptr_write. rewrite (in_range_true off P Hoff).
    exists x, s1. eexists. split; [reflexivity|]. split; [assumption|].
    assert (V1 : valid_block (disk s1) I = true).
    { rewrite (do_valid _ _ _ D). cbn [eff_valid]. rewrite V. apply orb_true_r. }
    destruct (block_number (disk s1) I (live_hdr _ (do_live _ _ _ D)) V1)
      as [_ [J2 _]].
    apply (write_does Hgeo); [apply (do_live _ _ _ D)|assumption].
Qed.

Lemma does_two e1 e2 s s1 s2 :
  does e1 s s1 -> does e2 s1 s2 -> does_all [e1; e2] s s2.
Proof. intros D1 D2. repeat (econstructor; [eassumption|]). constructor. Qed.

Lemma free_range s : 0 <= data_block_num_free (disk s 0) < 2 ^ 32.
Proof. apply get32_range. Qed.

Lemma grow_indirect_ok s ino n :
  live s = true -> WF (disk s) ino n -> 1 <= n < 1 + P ->
  exists r s', grow_indirect ino n s = Ok r s' /\ grow_post s ino n r s'.
Proof.
  intros L W Hn. pose proof (P_pos Hgeo) as HP.
  pose proof (live_hdr _ L) as Hh. pose proof (free_range s) as Rf.
  assert (Hn0 : 0 <= n) by lia.
  destruct (nblocks_diff_cases n Hn0) as [ND1 [ND2 _]].
  pose proof (WF_zeros _ _ _ W) as Zr. apply zeros_ok_facts in Zr.
  destruct Zr as [Z1 [Z2 [Z3 [Z4 [Z5 Z6]]]]].
  pose proof (WF_norm _ _ _ W) as N. pose proof N as N'.
  apply inode_norm_facts in N'.
  assert (HCAP : n < CAP) by (unfold CAP; nia).
  unfold grow_indirect. cbv zeta.
  destruct (Z.eqb_spec (n - 1) 0) as [E|E].
  - (* the indirect block is created first *)
    assert (n = 1) by lia. subst n. specialize (ND2 eq_refl).
    destruct (alloc_does Hgeo s L) as [[F R]|[F [x1 [s1 [R [Nx D1]]]]]];
      rewrite (bind_run _ _ _ _ _ R).
    { exists (Rollback ino), s. split; [reflexivity|]. cbn [grow_post].
      split; [now apply step_refl|]. lia. }
    rewrite Nx. pose proof (do_pre _ _ _ D1) as [Fx1 Rx1].
    pose proof (do_live _ _ _ D1) as L1.
    assert (V1 : valid_block (disk s1) x1 = true).
    { rewrite (do_valid _ _ _ D1). cbn [eff_valid]. now rewrite Z.eqb_refl. }
    destruct (block_number (disk s1) x1 (live_hdr _ L1) V1) as [X1 [X2 [X3 [X4 X5]]]].
    assert (RX : 0 <= x1 < BLOCK_NUM) by lia.
    rewrite (bind_run _ _ _ _ _ (from_blockno_total x1 s1 RX)).
    rewrite (bind_run _ _ _ _ _ (commit_run x1 zero_block s1)).
    set (s2 := set_disk s1 _ _).
    assert (D2 : does (EWrite x1 zero_block) s1 s2) by (now apply (write_does Hgeo)).
    pose proof (do_live _ _ _ D2) as L2.
    pose proof (does_all_sums _ _ _ (does_two _ _ _ _ _ D1 D2) L) as S2.
    assert (Ei : indirect_pointer (set_indirect ino x1) = x1) by (cbn; assumption).
    assert (Ed : direct_pointer (set_indirect ino x1) = direct_pointer ino) by reflexivity.
    assert (Eii : iindirect_pointer (set_indirect ino x1) = iindirect_pointer ino)
      by reflexivity.
    assert (K1 : kept ino (set_indirect ino x1)) by (unfold kept; cbn; auto).
    assert (Er : set_indirect (set_indirect ino x1) 0 = set_indirect ino 0) by reflexivity.
    remember (set_indirect ino x1) as ino1 eqn:Eino.
    assert (V2 : valid_block (disk s2) (indirect_pointer ino1) = true).
    { rewrite Ei, (do_valid _ _ _ D2). cbn [eff_valid]. assumption. }
    assert (HI : indirect_pointer ino1 < BLOCK_NUM) by (rewrite Ei; lia).
    assert (Hoff : 0 <= 1 - 1 < P) by lia.
    destruct (grow_indirect_fill_run s2 ino1 (1 - 1) true L2 V2 HI Hoff)
      as [[F2 [s3 [Run D3]]]|[x2 [s3 [s4 [Run [D3 D4]]]]]]; rewrite Run.
    + (* no block for the data: the indirect block is given back *)
      exists (Rollback (set_indirect ino1 0)), s3. split; [reflexivity|].
      cbn [grow_post]. rewrite Ei in D3.
      pose proof (does_all_sums _ _ _
        (does_all_snoc _ _ _ _ _ (does_two _ _ _ _ _ D1 D2) D3) L) as S3.
      cbn [app] in S3. split.
      * rewrite Er.
        apply (rollback_done _ s s3 ino (set_indirect ino 0) 1 L S3 W).
        -- unfold kept. cbn. auto.
        -- unfold same_ptrs. cbn. repeat split. rewrite Z2 by lia. reflexivity.
        -- reflexivity.
        -- intros b Hb. in_cases Hb; subst b; assumption.
        -- intros b Hb. in_cases Hb; subst b. now right.
        -- intros b Hb. unfold ptr_blocks in Hb.
           destruct (Z.ltb_spec (1 + P) 1); [lia|]. destruct Hb.
        -- cbn [effs_safe]. split; [exact Logic.I|]. split; [apply safe_zero|]. split; exact Logic.I.
      * rewrite (su_free _ _ _ S2) in F2. cbn [effs_delta eff_delta] in F2.
        apply free_bound in F2; lia.
    + (* the data block goes into slot 0 *)
      exists (Continue ino1), s4. split; [reflexivity|]. cbn [grow_post].
      rewrite Ei in D4.
      assert (E2 : disk s2 x1 = zero_block) by (apply upd_same).
      rewrite E2 in D4.
      pose proof (do_pre _ _ _ D3) as [Fx2 Rx2].
      pose proof (do_live _ _ _ D3) as L3.
      assert (V3 : valid_block (disk s3) x2 = true).
      { rewrite (do_valid _ _ _ D3). cbn [eff_valid]. now rewrite Z.eqb_refl. }
      destruct (block_number (disk s3) x2 (live_hdr _ L3) V3) as [Y1 [Y2 [Y3 [Y4 Y5]]]].
      rewrite (su_valid _ _ _ S2) in Fx2. cbn [effs_valid eff_valid] in Fx2.
      apply orb_false_iff in Fx2. destruct Fx2 as [Ne Fx2]. apply Z.eqb_neq in Ne.
      pose proof (does_all_sums _ _ _
        (does_all_snoc _ _ _ _ _
           (does_all_snoc _ _ _ _ _ (does_two _ _ _ _ _ D1 D2) D3) D4) L) as S4.
      cbn [app] in S4.
      assert (DBx : data_block_offset (disk s 0) <= x1).
      { destruct (do_geom _ _ _ D1) as [_ [_ [_ [_ [_ G6]]]]]. lia. }
      assert (C1 : disk s4 x1 = set_pointer zero_block (1 - 1) (u32 x2)).
      { rewrite (su_disk _ _ _ S4 x1 DBx). cbn [effs_disk eff_disk]. apply upd_same. }
      assert (Va : forall b, valid_block (disk s4) b
                             = (b =? x2) || ((b =? x1) || valid_block (disk s) b)).
      { intros b. rewrite (su_valid _ _ _ S4). reflexivity. }
      apply (grow_done _ s s4 ino ino1 1 [x1] x2 L S4 W HCAP K1).
      * apply (inode_norm_kept ino ino1 K1 N); rewrite ?Ei, ?Ed, ?Eii; try tauto. lia.
      * cbn [effs_delta eff_delta]. rewrite ND2. reflexivity.
      * intros b Hb. in_cases Hb; subst b; assumption.
      * intros b Hb. in_cases Hb; subst b; now right.
      * apply (lists_same Hgeo); lia.
      * unfold new_ptrs. rewrite Ei.
        destruct (Z.eqb_spec 1 (1 + P)); [lia|].
        destruct (Z.leb_spec (1 + P) 1); [lia|]. reflexivity.
      * unfold l2p, ind_slot. rewrite Ei, C1.
        destruct (Z.ltb_spec 1 (1 + P)); [|lia]. cbn [Z.eqb].
        rewrite get_pointer_set_same, u32_idem. assumption.
      * intros b Hb. cbn [app In] in Hb. rewrite Va.
        destruct Hb as [<-|[<-|[]]]; (split; [cbn; auto|]);
          rewrite ?Z.eqb_refl, ?orb_true_r; reflexivity.
      * intros b [<-|[]]. lia.
      * constructor; [intros [->|[]]; contradiction|constructor; [intros []|constructor]].
      * apply zeros_ok_facts. unfold ind_slot. rewrite Ei, C1, Ed, Eii.
        repeat split; intros; try lia.
        rewrite get_pointer_set_other by lia. apply get_pointer_zero.
      * cbn [effs_safe eff_valid eff_disk].
        split; [exact Logic.I|]. split; [apply safe_zero|]. split; [exact Logic.I|].
        split; [|exact Logic.I]. apply safe_set; [apply upd_same|].
        right. cbn [eff_valid]. rewrite u32_idem, Y3, Z.eqb_refl. reflexivity.
      * intros b Hb. in_cases Hb; subst b; right; now left.
      * alloc_bound.
  - (* the indirect block exists *)
    assert (H2 : 2 <= n) by lia.
    assert (ND : nblocks (n + 1) - nblocks n = 1) by (apply ND1; lia).
    pose proof (in_ptr_blocks_ind (disk s) ino n H2) as InI.
    destruct (WF_ptr_range Hgeo _ _ _ _ Hh W InI) as [V [R1 [R2 [R3 R4]]]].
    assert (Hoff : 0 <= n - 1 < P) by lia.
    destruct (grow_indirect_fill_run s ino (n - 1) false L V R3 Hoff)
      as [[F2 [s3 [Run D3]]]|[x2 [s3 [s4 [Run [D3 D4]]]]]]; rewrite Run.
    + subst s3. exists (Rollback ino), s. split; [reflexivity|]. cbn [grow_post].
      split; [now apply step_refl|]. lia.
    + exists (Continue ino), s4. split; [reflexivity|]. cbn [grow_post].
      set (I := indirect_pointer ino) in *.
      pose proof (do_pre _ _ _ D3) as [Fx2 Rx2].
      pose proof (do_live _ _ _ D3) as L3.
      assert (V3 : valid_block (disk s3) x2 = true).
      { rewrite (do_valid _ _ _ D3). cbn [eff_valid]. now rewrite Z.eqb_refl. }
      destruct (block_number (disk s3) x2 (live_hdr _ L3) V3) as [Y1 [Y2 [Y3 [Y4 Y5]]]].
      pose proof (does_all_sums _ _ _ (does_two _ _ _ _ _ D3 D4) L) as S4.
      assert (C1 : disk s4 I = set_pointer (disk s I) (n - 1) (u32 x2)).
      { rewrite (su_disk _ _ _ S4 I) by lia. cbn [effs_disk eff_disk]. apply upd_same. }
      assert (Va : forall b, valid_block (disk s4) b = (b =? x2) || valid_block (disk s) b).
      { intros b. rewrite (su_valid _ _ _ S4). reflexivity. }
      apply (grow_done _ s s4 ino ino n [] x2 L S4 W HCAP (kept_refl ino) N).
      * cbn [effs_delta eff_delta]. rewrite ND. reflexivity.
      * intros b Hb. in_cases Hb; subst b; assumption.
      * intros b Hb. in_cases Hb; subst b. left. unfold owned. apply in_or_app. now left.
      * apply (lists_same Hgeo); try lia; auto.
        intros _. split; [reflexivity|]. intros j Hj Hj'. unfold ind_slot. fold I.
        rewrite C1. apply get_pointer_set_other. lia.
      * unfold new_ptrs. destruct (Z.eqb_spec n 1); [lia|].
        destruct (Z.eqb_spec n (1 + P)); [lia|].
        destruct (Z.leb_spec (1 + P) n); [lia|]. reflexivity.
      * unfold l2p, ind_slot. fold I. rewrite C1.
        destruct (Z.eqb_spec n 0); [lia|]. destruct (Z.ltb_spec n (1 + P)); [|lia].
        rewrite get_pointer_set_same, u32_idem. assumption.
      * intros b [<-|[]]. rewrite Va, Z.eqb_refl. split; [cbn; auto|reflexivity].
      * intros b [].
      * constructor; [intros []|constructor].
      * apply zeros_ok_facts. unfold ind_slot. fold I. rewrite C1.
        repeat split; intros; try lia.
        rewrite get_pointer_set_other by lia. apply Z3; lia.
      * cbn [effs_safe eff_valid eff_disk].
        split; [exact Logic.I|]. split; [|exact Logic.I]. apply safe_set; [reflexivity|].
        right. cbn [eff_valid]. rewrite u32_idem, Y3, Z.eqb_refl. reflexivity.
      * intros b Hb. in_cases Hb; subst b. left. assumption.
      * alloc_bound.
Qed.

(** ** The double-indirect tier *)

Lemma does_one e s s' : does e s s' -> does_all [e] s s'.
Proof. intros D. econstructor; [eassumption|constructor]. Qed.

Lemma does_nil_inv s s' : does_all [] s s' -> s' = s.
Proof. intros D. inversion D. reflexivity. Qed.

Lemma does_all_app es1 es2 s s1 s' :
  does_all es1 s s1 -> does_all es2 s1 s' -> does_all (es1 ++ es2) s s'.
Proof.
  induction 1 as [s|e0 es0 s s0 s1 D0 D IH]; intros D2; cbn; [assumption|].
  econstructor; [eassumption|]. now apply IH.
Qed.

Lemma does_all_live es s s' : does_all es s s' -> live s = true -> live s' = true.
Proof.
  induction 1 as [s|e es s s1 s' D DA IH]; intros L; [assumption|].
  apply IH. apply (do_live _ _ _ D).
Qed.

(** The calls of the unwinding in [grow_iindirect_fill]. *)
Definition unwind_fill (d : Z -> block) (II B i : Z) (e1 e2 : bool) : list eff :=
  (if e1 then [EFree B] else []) ++
  [EWrite II (if e1 then set_pointer (d II) i 0 else d II)] ++
  (if e2 then [EFree II] else []).

Lemma grow_iindirect_fill_run s ino i j e1 e2 :
  live s = true ->
  let II := iindirect_pointer ino in
  let B := get_pointer (disk s II) i in
  valid_block (disk s) II = true -> II < BLOCK_NUM ->
  valid_block (disk s) B = true -> B < BLOCK_NUM -> II <> B ->
  0 <= i < P -> 0 <= j < P ->
  (data_block_num_free (disk s 0) = 0 /\
   exists s',
     grow_iindirect_fill i j ino e1 e2 s
     = Ok (Rollback (if e2 then set_iindirect ino 0 else ino)) s' /\
     does_all (unwind_fill (disk s) II B i e1 e2) s s') \/
  (exists x s1 s',
     grow_iindirect_fill i j ino e1 e2 s = Ok (Continue ino) s' /\
     does (EAlloc x) s s1 /\
     does (EWrite B (set_pointer (disk s B) j (u32 x))) s1 s').
Proof.
  intros L II B VI HI VB HB Ne Hi Hj.
  destruct (block_number (disk s) II (live_hdr _ L) VI) as [I1 [I2 [I3 [I4 I5]]]].
  destruct (block_number (disk s) B (live_hdr _ L) VB) as [B1 [B2 [B3 [B4 B5]]]].
  assert (RI : 0 <= II < BLOCK_NUM) by lia.
  assert (RB : 0 <= B < BLOCK_NUM) by lia.
  unfold grow_iindirect_fill. cbv zeta. fold II. rewrite I4.
  unfold ptr_read, ptr_write.
  rewrite !(in_range_true i P Hi), !(in_range_true j P Hj).
  rewrite !(bind_run _ _ _ _ _ (from_blockno_total II s RI)).
  rewrite !bind_ret. fold B. rewrite B4.
  rewrite !(bind_run _ _ _ _ _ (from_blockno_total B s RB)).
  destruct (alloc_does Hgeo s L) as [[F R]|[F [x [s1 [R [Nx D]]]]]];
    rewrite (bind_run _ _ _ _ _ R).
  - left. split; [assumption|]. change (-1 =? -1) with true. cbv iota.
    unfold unwind_fill. destruct e1.
    + destruct (free_does Hgeo s B L VB) as [s1 [Rf Df]].
      pose proof (do_live _ _ _ Df) as L1.
      assert (V1 : valid_block (disk s1) II = true).
      { rewrite (do_valid _ _ _ Df). cbn [eff_valid]. rewrite VI.
        destruct (Z.eqb_spec II B); [contradiction|reflexivity]. }
      destruct (block_number (disk s1) II (live_hdr _ L1) V1) as [_ [J2 _]].
      pose proof (write_does Hgeo s1 II (set_pointer (disk s II) i 0) L1 J2) as Dw.
      set (s2 := set_disk s1 _ _) in Dw.
      pose proof (do_live _ _ _ Dw) as L2.
      destruct e2.
      * assert (V2 : valid_block (disk s2) II = true).
        { rewrite (do_valid _ _ _ Dw). cbn [eff_valid]. assumption. }
        destruct (free_does Hgeo s2 II L2 V2) as [s3 [Rf3 Df3]].
        exists s3. split.
        -- rewrite bind_bind, bind_ret, bind_bind, B4.
           rewrite (bind_run _ _ _ _ _ Rf), bind_ret.
           rewrite (bind_run _ _ _ _ _ (commit_run II _ s1)). fold s2.
           rewrite (bind_run _ _ _ _ _ Rf3). reflexivity.
        -- cbn [app]. repeat (econstructor; [eassumption|]). constructor.
      * exists s2. split.
        -- rewrite bind_bind, bind_ret, bind_bind, B4.
           rewrite (bind_run _ _ _ _ _ Rf), bind_ret.
           rewrite (bind_run _ _ _ _ _ (commit_run II _ s1)). reflexivity.
        -- cbn [app]. repeat (econstructor; [eassumption|]). constructor.
    + pose proof (write_does Hgeo s II (disk s II) L I2) as Dw.
      set (s2 := set_disk s _ _) in Dw.
      pose proof (do_live _ _ _ Dw) as L2.
      destruct e2.
      * assert (V2 : valid_block (disk s2) II = true).
        { rewrite (do_valid _ _ _ Dw). cbn [eff_valid]. assumption. }
        destruct (free_does Hgeo s2 II L2 V2) as [s3 [Rf3 Df3]].
        exists s3. split.
        -- rewrite bind_ret. rewrite (bind_run _ _ _ _ _ (commit_run II _ s)). fold s2.
           rewrite (bind_run _ _ _ _ _ Rf3). reflexivity.
        -- cbn [app]. repeat (econstructor; [eassumption|]). constructor.
      * exists s2. split.
        -- rewrite bind_ret. rewrite (bind_run _ _ _ _ _ (commit_run II _ s)).
           reflexivity.
        -- cbn [app]. repeat (econstructor; [eassumption|]). constructor.
  - right. rewrite Nx.
    exists x, s1. eexists. split; [reflexivity|]. split; [assumption|].
    assert (V1 : valid_block (disk s1) B = true).
    { rewrite (do_valid _ _ _ D). cbn [eff_valid]. rewrite VB. apply orb_true_r. }
    destruct (block_number (disk s1) B (live_hdr _ (do_live _ _ _ D)) V1)
      as [_ [J2 _]].
    apply (write_does Hgeo); [apply (do_live _ _ _ D)|assumption].
Qed.

(** A block the allocator just handed out. *)
Definition fresh_block (d : Z -> block) (x : Z) : Prop :=
  valid_block d x = false /\ data_block_offset (d 0) <= x < BLOCK_NUM /\
  0 < x < 2 ^ 31 /\ u32 x = x.

Lemma alloc_fresh s x s' :
  live s = true -> does (EAlloc x) s s' ->
  fresh_block (disk s) x /\ valid_block (disk s') x = true /\
  s32 x = x /\ data_block_offset (disk s' 0) <= x.
Proof.
  intros L D. pose proof (do_pre _ _ _ D) as [Fx Rx].
  assert (V : valid_block (disk s') x = true).
  { rewrite (do_valid _ _ _ D). cbn [eff_valid]. now rewrite Z.eqb_refl. }
  destruct (block_number (disk s') x (live_hdr _ (do_live _ _ _ D)) V)
    as [X1 [X2 [X3 [X4 X5]]]].
  unfold fresh_block. auto 10.
Qed.

Lemma grow_iindirect_inner_run s ino i j e2 :
  live s = true ->
  let II := iindirect_pointer ino in
  valid_block (disk s) II = true -> II < BLOCK_NUM ->
  0 <= i < P -> 0 <= j < P ->
  (data_block_num_free (disk s 0) = 0 /\
   exists s',
     grow_iindirect_inner i j ino e2 s
     = Ok (Rollback (if e2 then set_iindirect ino 0 else ino)) s' /\
     does_all (if e2 then [EFree II] else []) s s') \/
  (data_block_num_free (disk s 0) <= 1 /\
   exists x1 s',
     grow_iindirect_inner i j ino e2 s
     = Ok (Rollback (if e2 then set_iindirect ino 0 else ino)) s' /\
     fresh_block (disk s) x1 /\
     does_all ([EAlloc x1; EWrite x1 zero_block;
                EWrite II (set_pointer (disk s II) i x1); EFree x1;
                EWrite II (set_pointer (set_pointer (disk s II) i x1) i 0)]
               ++ (if e2 then [EFree II] else [])) s s') \/
  (exists x1 x2 s',
     grow_iindirect_inner i j ino e2 s = Ok (Continue ino) s' /\
     fresh_block (disk s) x1 /\ fresh_block (disk s) x2 /\ x1 <> x2 /\
     does_all [EAlloc x1; EWrite x1 zero_block;
               EWrite II (set_pointer (disk s II) i x1);
               EAlloc x2; EWrite x1 (set_pointer zero_block j x2)] s s').
Proof.
  intros L II VI HI Hi Hj. pose proof (free_range s) as Rf.
  destruct (block_number (disk s) II (live_hdr _ L) VI) as [I1 [I2 [I3 [I4 I5]]]].
  assert (RI : 0 <= II < BLOCK_NUM) by lia.
  unfold grow_iindirect_inner. cbv zeta. fold II. rewrite I4.
  unfold ptr_write. rewrite !(in_range_true i P Hi).
  rewrite !(bind_run _ _ _ _ _ (from_blockno_total II s RI)).
  destruct (alloc_does Hgeo s L) as [[F R]|[F [x1 [s1 [R [Nx D1]]]]]];
    rewrite !(bind_run _ _ _ _ _ R).
  - left. split; [assumption|]. change (-1 =? -1) with true. cbv iota.
    destruct e2.
    + destruct (free_does Hgeo s II L VI) as [s1 [Rf1 Df]].
      exists s1. rewrite (bind_run _ _ _ _ _ Rf1).
      split; [reflexivity|now apply does_one].
    + exists s. split; [reflexivity|constructor].
  - right. rewrite Nx.
    destruct (alloc_fresh s x1 s1 L D1) as [Fx1 [V1 [S1 DB1]]].
    pose proof Fx1 as [Fx1a [Fx1b [Fx1c Fx1d]]].
    pose proof (do_live _ _ _ D1) as L1.
    assert (RX : 0 <= x1 < BLOCK_NUM) by lia.
    rewrite !(bind_run _ _ _ _ _ (from_blockno_total x1 s1 RX)).
    rewrite !(bind_run _ _ _ _ _ (commit_run x1 zero_block s1)).
    pose proof (write_does Hgeo s1 x1 zero_block L1 DB1)
      as D2.
    set (s2 := set_disk s1 _ _) in *.
    pose proof (do_live _ _ _ D2) as L2.
    rewrite !bind_ret, Fx1d.
    rewrite !(bind_run _ _ _ _ _ (commit_run II _ s2)).
    assert (DB2 : data_block_offset (disk s2 0) <= II).
    { destruct (do_geom _ _ _ D1) as [_ [_ [_ [_ [_ G6]]]]].
      destruct (do_geom _ _ _ D2) as [_ [_ [_ [_ [_ G6']]]]]. lia. }
    pose proof (write_does Hgeo s2 II (set_pointer (disk s II) i x1) L2 DB2) as D3.
    set (s3 := set_disk s2 _ _) in *.
    pose proof (do_live _ _ _ D3) as L3.
    assert (D123 : does_all [EAlloc x1; EWrite x1 zero_block;
                             EWrite II (set_pointer (disk s II) i x1)] s s3).
    { repeat (econstructor; [eassumption|]). constructor. }
    pose proof (does_all_sums _ _ _ D123 L) as S3.
    assert (Va : forall b, valid_block (disk s3) b = (b =? x1) || valid_block (disk s) b).
    { intros b. rewrite (su_valid _ _ _ S3). reflexivity. }
    assert (NeI : II <> x1).
    { intros E. rewrite <- E in Fx1a. rewrite VI in Fx1a. discriminate. }
    assert (C3I : disk s3 II = set_pointer (disk s II) i x1).
    { rewrite (su_disk _ _ _ S3 II I2). cbn [effs_disk eff_disk]. apply upd_same. }
    assert (C3x : disk s3 x1 = zero_block).
    { rewrite (su_disk _ _ _ S3 x1) by lia. cbn [effs_disk eff_disk].
      rewrite upd_other by lia. apply upd_same. }
    assert (EB : get_pointer (disk s3 II) i = x1).
    { rewrite C3I, get_pointer_set_same. assumption. }
    assert (V3I : valid_block (disk s3) II = true).
    { rewrite Va, VI. apply orb_true_r. }
    assert (V3B : valid_block (disk s3) (get_pointer (disk s3 II) i) = true).
    { rewrite EB, Va, Z.eqb_refl. reflexivity. }
    assert (HB : get_pointer (disk s3 II) i < BLOCK_NUM) by (rewrite EB; lia).
    assert (NeB : II <> get_pointer (disk s3 II) i) by (rewrite EB; assumption).
    destruct (grow_iindirect_fill_run s3 ino i j true e2 L3 V3I HI V3B HB NeB Hi Hj)
      as [[F3 [s4 [Run DA]]]|[x2 [s4 [s5 [Run [D4 D5]]]]]]; fold II in Run; rewrite Run.
    + left. split.
      { rewrite (su_free _ _ _ S3) in F3. cbn [effs_delta eff_delta] in F3.
        apply free_bound in F3; lia. }
      exists x1, s4. split; [reflexivity|]. split; [assumption|].
      fold II in DA. unfold unwind_fill in DA. rewrite EB, C3I in DA.
      apply (does_all_app _ _ _ _ _ D123 DA).
    + right. exists x1, x2, s5. split; [reflexivity|]. split; [assumption|].
      destruct (alloc_fresh s3 x2 s4 L3 D4) as [Fx2 [V4 [S4 DB4]]].
      destruct Fx2 as [Fx2a [Fx2b [Fx2c Fx2d]]].
      rewrite Va in Fx2a. apply orb_false_iff in Fx2a. destruct Fx2a as [Ne Fx2a].
      apply Z.eqb_neq in Ne.
      destruct (su_geom _ _ _ S3) as [_ [_ [_ [_ [_ G6]]]]].
      split; [unfold fresh_block; rewrite <- G6; auto 10|]. split; [auto|].
      fold II in D5. rewrite EB, C3x, Fx2d in D5.
      apply (does_all_app _ _ _ _ _ D123). now apply does_two with (s1 := s4).
Qed.

Lemma sums_frame es s s' b :
  sums es s s' -> data_block_offset (disk s 0) <= b ->
  ~ In b (effs_written es) -> disk s' b = disk s b.
Proof.
  intros S Hb Hn. rewrite (su_disk _ _ _ S b Hb). now apply effs_disk_other.
Qed.

(** Position [n] of the double-indirect tier: slot [o mod P] of inner
    block [o / P], where [o = n - (1 + P)]. *)
Lemma tier_index n :
  1 + P <= n < CAP ->
  let o := n - (1 + P) in
  0 <= o / P < P /\ 0 <= o mod P < P /\ n = 1 + P + (o / P) * P + o mod P /\
  Z.quot o P = o / P /\ Z.rem o P = o mod P.
Proof.
  intros Hn o. pose proof (P_pos Hgeo) as HP. unfold CAP in Hn.
  assert (Ho : 0 <= o) by (unfold o; lia).
  assert (Hnz : P <> 0) by lia. assert (Hpz : 0 < P) by lia.
  pose proof (Z.div_mod o P Hnz) as E.
  pose proof (Z.mod_pos_bound o P Hpz) as B.
  destruct (quot_div Hgeo o Ho) as [Q1 Q2].
  assert (0 <= o / P) by (apply Z.div_pos; lia).
  assert (o / P < P) by (apply Z.div_lt_upper_bound; unfold o; nia).
  unfold o in *. repeat split; try lia.
Qed.

Lemma succ_index n :
  1 + P <= n ->
  let o := n - (1 + P) in
  (o mod P + 1 < P ->
   (n + 1 - (1 + P)) mod P = o mod P + 1 /\ (n + 1 - (1 + P)) / P = o / P) /\
  (o mod P + 1 = P ->
   (n + 1 - (1 + P)) mod P = 0 /\ (n + 1 - (1 + P)) / P = o / P + 1).
Proof.
  intros Hn o. pose proof (P_pos Hgeo) as HP.
  assert (Hnz : P <> 0) by lia. assert (Hpz : 0 < P) by lia.
  pose proof (Z.div_mod o P Hnz) as E.
  pose proof (Z.mod_pos_bound o P Hpz) as B.
  replace (n + 1 - (1 + P)) with (o + 1) by (unfold o; lia).
  split; intros H.
  - assert (X : o + 1 = (o mod P + 1) + (o / P) * P) by lia.
    rewrite X. rewrite Z.mod_add, Z.div_add by lia.
    rewrite Z.mod_small, Z.div_small by lia. lia.
  - assert (X : o + 1 = 0 + (o / P + 1) * P) by lia.
    rewrite X. rewrite Z.mod_add, Z.div_add by lia.
    rewrite Z.mod_small, Z.div_small by lia. lia.
Qed.

(** A slot of an inner block already in use is appended to. *)
Lemma grow_iind_fill_ok s ino n :
  live s = true -> WF (disk s) ino n -> 1 + P <= n < CAP ->
  (n - (1 + P)) mod P <> 0 ->
  exists r s',
    grow_iindirect_fill ((n - (1 + P)) / P) ((n - (1 + P)) mod P) ino false false s
    = Ok r s' /\ grow_post s ino n r s'.
Proof.
  intros L W Hn Hj. pose proof (P_pos Hgeo) as HP.
  pose proof (live_hdr _ L) as Hh. pose proof (free_range s) as Rf.
  destruct (tier_index n Hn) as [Ti [Tj [Tn _]]]. cbv zeta in *.
  destruct (succ_index n (proj1 Hn)) as [Sa Sb]. cbv zeta in *.
  set (i := (n - (1 + P)) / P) in *. set (j := (n - (1 + P)) mod P) in *.
  assert (Hn0 : 0 <= n) by lia. assert (Hn1 : 1 + P < n) by lia.
  destruct (nblocks_diff_cases n Hn0) as [_ [_ [_ [_ ND]]]].
  specialize (ND (proj1 Hn) Hj).
  pose proof (WF_zeros _ _ _ W) as Zr. apply zeros_ok_facts in Zr.
  destruct Zr as [Z1 [Z2 [Z3 [Z4 [Z5 Z6]]]]].
  pose proof (WF_norm _ _ _ W) as N.
  assert (NI : n_inner n = i + 1).
  { rewrite (n_inner_step Hgeo n Hn1). fold j i.
    destruct (Z.eqb_spec j 0); [contradiction|reflexivity]. }
  destruct (ptr_blocks_distinct (disk s) ino n W Hn1) as [Dst1 [Dst2 Dst3]].
  set (II := iindirect_pointer ino) in *. set (I := indirect_pointer ino) in *.
  set (B := get_pointer (disk s II) i).
  assert (EB : B = outer_slot (disk s) ino i) by reflexivity.
  assert (Hi : 0 <= i < n_inner n) by lia.
  pose proof (in_ptr_blocks_iind (disk s) ino n Hn1) as InII. fold II in InII.
  pose proof (in_ptr_blocks_inner (disk s) ino n i Hn1 Hi) as InB.
  rewrite <- EB in InB.
  destruct (WF_ptr_range Hgeo _ _ _ _ Hh W InII) as [VI [RI1 [RI2 [RI3 RI4]]]].
  destruct (WF_ptr_range Hgeo _ _ _ _ Hh W InB) as [VB [RB1 [RB2 [RB3 RB4]]]].
  assert (NeIB : II <> B).
  { rewrite EB. intros E. apply (proj2 (Dst2 i Hi)). now symmetry. }
  destruct (grow_iindirect_fill_run s ino i j false false L VI RI3 VB RB3 NeIB Ti Tj)
    as [[F3 [s4 [Run DA]]]|[x [s1 [s' [Run [D1 D2]]]]]]; rewrite Run.
  - (* no space *)
    exists (Rollback ino), s4. split; [reflexivity|]. cbn [grow_post].
    fold II in DA. unfold unwind_fill in DA. cbn [app] in DA.
    pose proof (does_all_sums _ _ _ DA L) as S. split; [|lia].
    apply (rollback_done _ s s4 ino ino n L S W (kept_refl ino)).
    + unfold same_ptrs. auto.
    + reflexivity.
    + intros b Hb. in_cases Hb.
    + intros b Hb. in_cases Hb; subst b. left. unfold owned. apply in_or_app. now left.
    + intros b Hb k. destruct (WF_ptr_range Hgeo _ _ _ _ Hh W Hb) as [_ [Rb _]].
      rewrite (su_disk _ _ _ S b) by lia. cbn [effs_disk eff_disk].
      unfold upd. destruct (Z.eqb_spec b II); [subst b; reflexivity|reflexivity].
    + cbn [effs_safe]. split; [|exact Logic.I]. apply safe_same. reflexivity.
  - (* the slot is filled *)
    exists (Continue ino), s'. split; [reflexivity|]. cbn [grow_post]. fold B in D2.
    destruct (alloc_fresh s x s1 L D1) as [[Fx1 [Fx2 [Fx3 Fx4]]] _].
    rewrite Fx4 in D2.
    pose proof (does_all_sums _ _ _ (does_two _ _ _ _ _ D1 D2) L) as S.
    assert (Va : forall b, valid_block (disk s') b = (b =? x) || valid_block (disk s) b).
    { intros b. rewrite (su_valid _ _ _ S). reflexivity. }
    assert (CB : disk s' B = set_pointer (disk s B) j x).
    { rewrite (su_disk _ _ _ S B) by lia. cbn [effs_disk eff_disk]. apply upd_same. }
    assert (Fr : forall b, In b (ptr_blocks (disk s) ino n) -> b <> B ->
                           disk s' b = disk s b).
    { intros b Hb Hne. destruct (WF_ptr_range Hgeo _ _ _ _ Hh W Hb) as [_ [Rb _]].
      apply (sums_frame _ _ _ _ S); [lia|]. cbn [effs_written In]. intros [E|[]].
      now apply Hne. }
    assert (CI : disk s' I = disk s I).
    { apply Fr; [apply (in_ptr_blocks_ind _ _ _); lia|].
      rewrite EB. intros E. apply (proj1 (Dst2 i Hi)). now symmetry. }
    assert (CII : disk s' II = disk s II) by (apply Fr; assumption).
    assert (Out : forall k, outer_slot (disk s') ino k = outer_slot (disk s) ino k).
    { intros k. unfold outer_slot. fold II. now rewrite CII. }
    apply (grow_done _ s s' ino ino n [] x L S W (proj2 Hn) (kept_refl ino) N).
    + cbn [effs_delta eff_delta]. rewrite ND. reflexivity.
    + intros b Hb. in_cases Hb; subst b; assumption.
    + intros b Hb. in_cases Hb; subst b. left. unfold owned. apply in_or_app. now left.
    + apply (lists_same Hgeo); try lia; auto.
      * intros _. split; [reflexivity|]. intros k Hk Hk'. unfold ind_slot. fold I.
        now rewrite CI.
      * intros _. split; [reflexivity|]. split; [intros k Hk; apply Out|].
        intros k Hk. unfold inner_slot. rewrite Out.
        pose proof (inner_index_bound Hgeo n k Hk) as Bk.
        set (i' := (k - (1 + P)) / P) in *. set (m := (k - (1 + P)) mod P) in *.
        destruct (Z.eq_dec i' i) as [Ei|Ei].
        -- rewrite Ei, <- EB, CB. apply get_pointer_set_other.
           assert (Hnz : P <> 0) by lia.
           pose proof (Z.div_mod (k - (1 + P)) P Hnz) as E1. fold i' m in E1.
           intros Ej. lia.
        -- rewrite Fr; [reflexivity| |].
           ++ apply (in_ptr_blocks_inner _ _ _ _); assumption.
           ++ rewrite EB. intros E. apply Ei. now apply Dst3.
    + unfold new_ptrs. destruct (Z.eqb_spec n 1); [lia|].
      destruct (Z.eqb_spec n (1 + P)); [lia|]. fold j.
      destruct (Z.eqb_spec j 0); [contradiction|].
      rewrite andb_false_r. reflexivity.
    + unfold l2p. destruct (Z.eqb_spec n 0); [lia|].
      destruct (Z.ltb_spec n (1 + P)); [lia|]. cbv zeta. fold i j.
      unfold inner_slot. rewrite Out, <- EB, CB, get_pointer_set_same. assumption.
    + intros b [<-|[]]. rewrite Va, Z.eqb_refl. split; [cbn; auto|reflexivity].
    + intros b [].
    + constructor; [intros []|constructor].
    + apply zeros_ok_facts. repeat split; intros; try lia.
      * rewrite Out. apply Z5; [lia|]. rewrite n_inner_succ in * by lia.
        fold i in H0. lia.
      * destruct (Z_lt_le_dec (j + 1) P) as [Hlt|Hge].
        -- destruct (Sa Hlt) as [M1 M2]. rewrite M1 in *. rewrite M2.
           unfold inner_slot. rewrite Out, <- EB, CB.
           rewrite get_pointer_set_other by lia.
           apply (Z6 Hn1 Hj). lia.
        -- assert (Hj1 : j + 1 = P) by lia. destruct (Sb Hj1) as [M1 M2].
           contradiction.
    + cbn [effs_safe eff_valid eff_disk]. split; [exact Logic.I|].
      split; [|exact Logic.I]. apply safe_set; [reflexivity|].
      right. cbn [eff_valid]. rewrite Fx4, Z.eqb_refl. reflexivity.
    + intros b Hb. in_cases Hb; subst b. left. assumption.
    + alloc_bound.
Qed.

(** A new inner block is hooked into the outer block. *)
Lemma grow_iind_inner_ok s ino n :
  live s = true -> WF (disk s) ino n -> 1 + P < n < CAP ->
  (n - (1 + P)) mod P = 0 ->
  exists r s',
    grow_iindirect_inner ((n - (1 + P)) / P) ((n - (1 + P)) mod P) ino false s
    = Ok r s' /\ grow_post s ino n r s'.
Proof.
  intros L W Hn Hj. pose proof (P_pos Hgeo) as HP.
  pose proof (live_hdr _ L) as Hh. pose proof (free_range s) as Rf.
  assert (Hn' : 1 + P <= n < CAP) by lia.
  destruct (tier_index n Hn') as [Ti [Tj [Tn _]]]. cbv zeta in *.
  destruct (succ_index n (proj1 Hn')) as [Sa _]. cbv zeta in *.
  assert (Hn0 : 0 <= n) by lia. assert (Hn1 : 1 + P < n) by lia.
  destruct (nblocks_diff_cases n Hn0) as [_ [_ [_ [ND _]]]].
  specialize (ND Hn1 Hj).
  assert (NI : n_inner n = (n - (1 + P)) / P).
  { rewrite (n_inner_step Hgeo n Hn1).
    destruct (Z.eqb_spec ((n - (1 + P)) mod P) 0); [reflexivity|contradiction]. }
  assert (Hj1 : (n - (1 + P)) mod P + 1 < P) by lia.
  destruct (Sa Hj1) as [M1 M2]. rewrite Hj in M1.
  set (i := (n - (1 + P)) / P) in *. set (j := (n - (1 + P)) mod P) in *.
  pose proof (WF_zeros _ _ _ W) as Zr. apply zeros_ok_facts in Zr.
  destruct Zr as [Z1 [Z2 [Z3 [Z4 [Z5 Z6]]]]].
  pose proof (WF_norm _ _ _ W) as N.
  destruct (ptr_blocks_distinct (disk s) ino n W Hn1) as [Dst1 [Dst2 Dst3]].
  set (II := iindirect_pointer ino) in *. set (I := indirect_pointer ino) in *.
  pose proof (in_ptr_blocks_iind (disk s) ino n Hn1) as InII. fold II in InII.
  destruct (WF_ptr_range Hgeo _ _ _ _ Hh W InII) as [VI [RI1 [RI2 [RI3 RI4]]]].
  assert (Zi : get_pointer (disk s II) i = 0) by (apply (Z5 Hn1); lia).
  destruct (grow_iindirect_inner_run s ino i j false L VI RI3 Ti Tj)
    as [[F [s' [Run DA]]]|[[F [x1 [s' [Run [Fx1 DA]]]]]|
        [x1 [x2 [s' [Run [Fx1 [Fx2 [Ne DA]]]]]]]]]; rewrite Run; fold II in DA.
  - apply does_nil_inv in DA. subst s'. exists (Rollback ino), s.
    split; [reflexivity|]. cbn [grow_post]. split; [now apply step_refl|]. lia.
  - exists (Rollback ino), s'. split; [reflexivity|]. cbn [grow_post].
    cbn [app] in DA. pose proof (does_all_sums _ _ _ DA L) as S. split; [|lia].
    destruct Fx1 as [Fa [Fb [Fc Fd]]].
    apply (rollback_done _ s s' ino ino n L S W (kept_refl ino)).
    + unfold same_ptrs. auto.
    + reflexivity.
    + intros b Hb. in_cases Hb; subst b; assumption.
    + intros b Hb. in_cases Hb; subst b; try (now right);
        left; unfold owned; apply in_or_app; now left.
    + intros b Hb k. destruct (WF_ptr_range Hgeo _ _ _ _ Hh W Hb) as [Vb [Rb _]].
      rewrite (su_disk _ _ _ S b) by lia. cbn [effs_disk eff_disk].
      unfold upd. destruct (Z.eqb_spec b II) as [E|E].
      * subst b. destruct (Z.eq_dec k i) as [->|Hk].
        -- rewrite get_pointer_set_same. now rewrite Zi.
        -- rewrite !get_pointer_set_other by lia. reflexivity.
      * destruct (Z.eqb_spec b x1) as [E1|E1]; [|reflexivity].
        subst b. rewrite Fa in Vb. discriminate.
    + assert (NeI : II <> x1) by (intros E; rewrite <- E, VI in Fa; discriminate).
      safe_split. split; [|safe_split; split; [|safe_split]].
      * apply safe_set; [cbn [eff_disk]; now rewrite upd_other|].
        right. rewrite Fd. valid_now.
      * apply safe_set; [cbn [eff_disk]; apply upd_same|]. now left.
  - exists (Continue ino), s'. split; [reflexivity|]. cbn [grow_post].
    pose proof (does_all_sums _ _ _ DA L) as S.
    destruct Fx1 as [Fa [Fb [Fc Fd]]]. destruct Fx2 as [Ga [Gb [Gc Gd]]].
    assert (Va : forall b, valid_block (disk s') b
                           = (b =? x2) || ((b =? x1) || valid_block (disk s) b)).
    { intros b. rewrite (su_valid _ _ _ S). reflexivity. }
    assert (NeI : II <> x1) by (intros E; rewrite <- E, VI in Fa; discriminate).
    assert (CII : disk s' II = set_pointer (disk s II) i x1).
    { rewrite (su_disk _ _ _ S II) by lia. cbn [effs_disk eff_disk].
      rewrite upd_other by assumption. apply upd_same. }
    assert (Cx : disk s' x1 = set_pointer zero_block j x2).
    { rewrite (su_disk _ _ _ S x1) by lia. cbn [effs_disk eff_disk]. apply upd_same. }
    assert (Fr : forall b, In b (ptr_blocks (disk s) ino n) -> b <> II ->
                           disk s' b = disk s b).
    { intros b Hb Hne. destruct (WF_ptr_range Hgeo _ _ _ _ Hh W Hb) as [Vb [Rb _]].
      apply (sums_frame _ _ _ _ S); [lia|]. cbn [effs_written In].
      intros [E|[E|[E|[]]]]; try (now apply Hne); subst b;
        rewrite Fa in Vb; discriminate. }
    assert (CI : disk s' I = disk s I).
    { apply Fr; [apply in_ptr_blocks_ind; lia|assumption]. }
    assert (Out : forall k, k <> i ->
                  outer_slot (disk s') ino k = outer_slot (disk s) ino k).
    { intros k Hk. unfold outer_slot. fold II. rewrite CII.
      apply get_pointer_set_other. lia. }
    assert (Outi : outer_slot (disk s') ino i = x1).
    { unfold outer_slot. fold II. rewrite CII, get_pointer_set_same. assumption. }
    apply (grow_done _ s s' ino ino n [x1] x2 L S W (proj2 Hn) (kept_refl ino) N).
    + cbn [effs_delta eff_delta]. rewrite ND. reflexivity.
    + intros b Hb. in_cases Hb; subst b; assumption.
    + intros b Hb. in_cases Hb; subst b; try (now right);
        left; unfold owned; apply in_or_app; now left.
    + apply (lists_same Hgeo); try lia; auto.
      * intros _. split; [reflexivity|]. intros k Hk Hk'. unfold ind_slot. fold I.
        now rewrite CI.
      * intros _. split; [reflexivity|]. split; [intros k Hk; apply Out; lia|].
        intros k Hk. unfold inner_slot.
        pose proof (inner_index_bound Hgeo n k Hk) as Bk. rewrite Out by lia.
        rewrite Fr; [reflexivity| |].
        -- apply in_ptr_blocks_inner; assumption.
        -- apply (proj2 (Dst2 _ Bk)).
    + unfold new_ptrs. destruct (Z.eqb_spec n 1); [lia|].
      destruct (Z.eqb_spec n (1 + P)); [lia|]. fold j i.
      destruct (Z.leb_spec (1 + P) n); [|lia]. rewrite Hj. cbn [Z.eqb andb app].
      now rewrite Outi.
    + unfold l2p. destruct (Z.eqb_spec n 0); [lia|].
      destruct (Z.ltb_spec n (1 + P)); [lia|]. cbv zeta. fold i j.
      unfold inner_slot. rewrite Outi, Cx, get_pointer_set_same. assumption.
    + intros b Hb. cbn [app In] in Hb. rewrite Va.
      destruct Hb as [<-|[<-|[]]]; (split; [cbn; auto|]);
        rewrite ?Z.eqb_refl, ?orb_true_r; reflexivity.
    + intros b [<-|[]]. lia.
    + constructor; [intros [->|[]]; contradiction|constructor; [intros []|constructor]].
    + apply zeros_ok_facts. repeat split; intros; try lia.
      * rewrite n_inner_succ in * by lia. fold i in H0.
        rewrite Out by lia. apply Z5; lia.
      * rewrite M1 in *. rewrite M2. unfold inner_slot.
        rewrite Outi, Cx, get_pointer_set_other by lia. apply get_pointer_zero.
    + safe_split. split; [|safe_split; split; [|safe_split]].
      * apply safe_set; [cbn [eff_disk]; now rewrite upd_other|].
        right. rewrite Fd. valid_now.
      * apply safe_set.
        -- cbn [eff_disk]. rewrite upd_other by (intros E; now apply NeI).
           apply upd_same.
        -- right. rewrite Gd. valid_now.
    + intros b Hb. in_cases Hb; subst b; try (right; now left). now left.
    + alloc_bound.
Qed.

(** The outer block, the first inner block and the data block are all
    new. *)
Lemma grow_iind_new_ok s ino :
  live s = true -> WF (disk s) ino (1 + P) ->
  exists r s',
    (data <- alloc_data ;;
     if data =? -1 then ret (Rollback ino)
     else
       _ <- from_blockno data ;;
       commit data zero_block ;;;
       grow_iindirect_inner 0 0 (set_iindirect ino data) true) s = Ok r s' /\
    grow_post s ino (1 + P) r s'.
Proof.
  intros L W. pose proof (P_pos Hgeo) as HP.
  pose proof (live_hdr _ L) as Hh. pose proof (free_range s) as Rf.
  assert (Hn0 : 0 <= 1 + P) by lia.
  assert (HCAP : 1 + P < CAP) by (unfold CAP; nia).
  destruct (nblocks_diff_cases (1 + P) Hn0) as [_ [_ [ND _]]].
  specialize (ND eq_refl).
  pose proof (WF_zeros _ _ _ W) as Zr. apply zeros_ok_facts in Zr.
  destruct Zr as [Z1 [Z2 [Z3 [Z4 [Z5 Z6]]]]].
  pose proof (WF_norm _ _ _ W) as N. pose proof N as N'.
  apply inode_norm_facts in N'.
  assert (O0 : 1 + P + 1 - (1 + P) = 1) by lia.
  assert (M1 : 1 mod P = 1) by (apply Z.mod_small; lia).
  assert (M2 : 1 / P = 0) by (apply Z.div_small; lia).
  assert (M3 : (1 + P - (1 + P)) / P = 0) by (rewrite Z.sub_diag; apply Z.div_0_l; lia).
  assert (M4 : (1 + P - (1 + P)) mod P = 0) by (rewrite Z.sub_diag; apply Z.mod_0_l; lia).
  set (I := indirect_pointer ino) in *.
  assert (InI : In I (ptr_blocks (disk s) ino (1 + P))) by (apply in_ptr_blocks_ind; lia).
  destruct (WF_ptr_range Hgeo _ _ _ _ Hh W InI) as [VI [RI1 [RI2 [RI3 RI4]]]].
  destruct (alloc_does Hgeo s L) as [[F R]|[F [x0 [s1 [R [Nx D1]]]]]];
    rewrite (bind_run _ _ _ _ _ R).
  { exists (Rollback ino), s. split; [reflexivity|]. cbn [grow_post].
    split; [now apply step_refl|]. lia. }
  rewrite Nx.
  destruct (alloc_fresh s x0 s1 L D1) as [Fx0 [V1 [S1 DB1]]].
  pose proof Fx0 as [Fa [Fb [Fc Fd]]].
  pose proof (do_live _ _ _ D1) as L1.
  assert (RX : 0 <= x0 < BLOCK_NUM) by lia.
  rewrite (bind_run _ _ _ _ _ (from_blockno_total x0 s1 RX)).
  rewrite (bind_run _ _ _ _ _ (commit_run x0 zero_block s1)).
  pose proof (write_does Hgeo s1 x0 zero_block L1 DB1)
    as D2.
  set (s2 := set_disk s1 _ _) in *.
  pose proof (do_live _ _ _ D2) as L2.
  pose proof (does_two _ _ _ _ _ D1 D2) as D12.
  pose proof (does_all_sums _ _ _ D12 L) as S2.
  assert (V2 : forall b, valid_block (disk s2) b = (b =? x0) || valid_block (disk s) b).
  { intros b. rewrite (su_valid _ _ _ S2). reflexivity. }
  assert (C2 : disk s2 x0 = zero_block) by (apply upd_same).
  assert (Ei : iindirect_pointer (set_iindirect ino x0) = x0) by (cbn; assumption).
  assert (Ed : direct_pointer (set_iindirect ino x0) = direct_pointer ino) by reflexivity.
  assert (Ein : indirect_pointer (set_iindirect ino x0) = I) by reflexivity.
  assert (K1 : kept ino (set_iindirect ino x0)) by (unfold kept; cbn; auto).
  assert (Er : set_iindirect (set_iindirect ino x0) 0 = set_iindirect ino 0) by reflexivity.
  remember (set_iindirect ino x0) as ino1 eqn:Eino.
  assert (V2I : valid_block (disk s2) (iindirect_pointer ino1) = true).
  { rewrite Ei, V2, Z.eqb_refl. reflexivity. }
  assert (HI : iindirect_pointer ino1 < BLOCK_NUM) by (rewrite Ei; lia).
  assert (H0P : 0 <= 0 < P) by lia.
  assert (Fresh2 : forall x, fresh_block (disk s2) x ->
                             x <> x0 /\ valid_block (disk s) x = false).
  { intros x [Xa _]. rewrite V2 in Xa. apply orb_false_iff in Xa.
    destruct Xa as [Xa Xb]. apply Z.eqb_neq in Xa. auto. }
  assert (KR : kept ino (set_iindirect ino 0)) by (unfold kept; cbn; auto).
  assert (SR : same_ptrs ino (set_iindirect ino 0)).
  { unfold same_ptrs. cbn. repeat split. rewrite Z4 by lia. reflexivity. }
  assert (Old : forall es s', sums es s s' ->
            (forall b, In b (effs_written es) -> valid_block (disk s) b = false) ->
            forall b, In b (ptr_blocks (disk s) ino (1 + P)) ->
                      same_slots (disk s) (disk s') b).
  { intros es s' S Hw b Hb k.
    destruct (WF_ptr_range Hgeo _ _ _ _ Hh W Hb) as [Vb [Rb _]].
    rewrite (sums_frame _ _ _ _ S); [reflexivity|lia|].
    intros Hin. apply Hw in Hin. rewrite Vb in Hin. discriminate. }
  destruct (grow_iindirect_inner_run s2 ino1 0 0 true L2 V2I HI H0P H0P)
    as [[F2 [s' [Run DA]]]|[[F2 [x1 [s' [Run [Fx1 DA]]]]]|
        [x1 [x2 [s' [Run [Fx1 [Fx2 [Ne DA]]]]]]]]]; rewrite Run; rewrite Ei in DA.
  - (* no block for the inner block *)
    exists (Rollback (set_iindirect ino1 0)), s'. split; [reflexivity|].
    cbn [grow_post]. rewrite Er.
    pose proof (does_all_sums _ _ _ (does_all_app _ _ _ _ _ D12 DA) L) as S.
    cbn [app] in S. split.
    + apply (rollback_done _ s s' ino _ (1 + P) L S W KR SR).
      * reflexivity.
      * intros b Hb. in_cases Hb; subst b; assumption.
      * intros b Hb. in_cases Hb; subst b; now right.
      * apply (Old _ _ S). intros b Hb. in_cases Hb; subst b; assumption.
      * safe_split.
    + rewrite (su_free _ _ _ S2) in F2. cbn [effs_delta eff_delta] in F2.
      apply free_bound in F2; lia.
  - (* no block for the data *)
    exists (Rollback (set_iindirect ino1 0)), s'. split; [reflexivity|].
    cbn [grow_post]. rewrite Er.
    pose proof (does_all_sums _ _ _ (does_all_app _ _ _ _ _ D12 DA) L) as S.
    cbn [app] in S. destruct (Fresh2 x1 Fx1) as [Ne1 Fy1]. split.
    + apply (rollback_done _ s s' ino _ (1 + P) L S W KR SR).
      * reflexivity.
      * intros b Hb. in_cases Hb; subst b; assumption.
      * intros b Hb. in_cases Hb; subst b; now right.
      * apply (Old _ _ S). intros b Hb. in_cases Hb; subst b; assumption.
      * rewrite C2. safe_split. split; [|safe_split; split; [|safe_split]].
        -- apply safe_set; [disk_now|].
           right. rewrite (proj2 (proj2 (proj2 Fx1))). valid_now.
        -- apply safe_set; [disk_now|]. now left.
    + rewrite (su_free _ _ _ S2) in F2. cbn [effs_delta eff_delta] in F2.
      apply free_bound_le in F2; lia.
  - (* all three blocks are there *)
    exists (Continue ino1), s'. split; [reflexivity|]. cbn [grow_post].
    rewrite C2 in DA.
    pose proof (does_all_sums _ _ _ (does_all_app _ _ _ _ _ D12 DA) L) as S.
    cbn [app] in S.
    destruct (Fresh2 x1 Fx1) as [Ne1 Fy1]. destruct (Fresh2 x2 Fx2) as [Ne2 Fy2].
    destruct Fx1 as [_ [Fx1b [Fx1c Fx1d]]]. destruct Fx2 as [_ [Fx2b [Fx2c Fx2d]]].
    destruct (su_geom _ _ _ S2) as [_ [_ [_ [_ [_ G6]]]]].
    assert (Va : forall b, valid_block (disk s') b
                  = (b =? x2) || ((b =? x1) || ((b =? x0) || valid_block (disk s) b))).
    { intros b. rewrite (su_valid _ _ _ S). reflexivity. }
    assert (C0 : disk s' x0 = set_pointer zero_block 0 x1).
    { rewrite (su_disk _ _ _ S x0) by lia. cbn [effs_disk eff_disk].
      rewrite upd_other by lia. apply upd_same. }
    assert (C1 : disk s' x1 = set_pointer zero_block 0 x2).
    { rewrite (su_disk _ _ _ S x1) by lia. cbn [effs_disk eff_disk]. apply upd_same. }
    assert (CI : disk s' I = disk s I).
    { apply (sums_frame _ _ _ _ S); [lia|]. cbn [effs_written In].
      intros [E|[E|[E|[E|[]]]]]; subst I; rewrite <- E in VI; congruence. }
    assert (Out0 : outer_slot (disk s') ino1 0 = x1).
    { unfold outer_slot. rewrite Ei, C0, get_pointer_set_same. assumption. }
    apply (grow_done _ s s' ino ino1 (1 + P) [x0; x1] x2 L S W HCAP K1).
    + apply (inode_norm_kept ino ino1 K1 N); rewrite ?Ei, ?Ed, ?Ein; try tauto. lia.
    + cbn [effs_delta eff_delta]. rewrite ND. reflexivity.
    + intros b Hb. in_cases Hb; subst b; assumption.
    + intros b Hb. in_cases Hb; subst b; now right.
    + apply (lists_same Hgeo); try lia; auto.
      intros _. split; [assumption|]. intros k Hk Hk'. unfold ind_slot.
      rewrite Ein. now rewrite CI.
    + unfold new_ptrs. destruct (Z.eqb_spec (1 + P) 1); [lia|].
      rewrite Z.eqb_refl. destruct (Z.leb_spec (1 + P) (1 + P)); [|lia].
      rewrite M3, M4. cbn [Z.eqb andb app]. now rewrite Ei, Out0.
    + unfold l2p. destruct (Z.eqb_spec (1 + P) 0); [lia|].
      destruct (Z.ltb_spec (1 + P) (1 + P)); [lia|]. cbv zeta. rewrite M3, M4.
      unfold inner_slot. rewrite Out0, C1, get_pointer_set_same. assumption.
    + intros b Hb. cbn [app In] in Hb. rewrite Va.
      destruct Hb as [<-|[<-|[<-|[]]]]; (split; [cbn; auto|]);
        rewrite ?Z.eqb_refl, ?orb_true_r; reflexivity.
    + intros b [<-|[<-|[]]]; lia.
    + constructor; [intros [E|[E|[]]]; congruence|].
      constructor; [intros [->|[]]; contradiction|constructor; [intros []|constructor]].
    + apply zeros_ok_facts. repeat split; intros; try lia.
      * rewrite n_inner_succ in * by lia. rewrite M3 in *.
        unfold outer_slot. rewrite Ei, C0, get_pointer_set_other by lia.
        apply get_pointer_zero.
      * rewrite O0, M1 in *. rewrite M2. unfold inner_slot.
        rewrite Out0, C1, get_pointer_set_other by lia. apply get_pointer_zero.
    + safe_split. split; [|safe_split; split; [|safe_split]].
      * apply safe_set; [disk_now|]. right. rewrite Fx1d. valid_now.
      * apply safe_set; [disk_now|]. right. rewrite Fx2d. valid_now.
    + intros b Hb. in_cases Hb; subst b; right; cbn [In]; auto.
    + alloc_bound.
Qed.

Lemma grow_iindirect_ok s ino n :
  live s = true -> WF (disk s) ino n -> 1 + P <= n < CAP ->
  exists r s', grow_iindirect ino n s = Ok r s' /\ grow_post s ino n r s'.
Proof.
  intros L W Hn. pose proof (P_pos Hgeo) as HP.
  destruct (tier_index n Hn) as [Ti [Tj [Tn [Q1 Q2]]]]. cbv zeta in *.
  unfold grow_iindirect. cbv zeta. rewrite Q1, Q2.
  destruct (Z.eqb_spec ((n - (1 + P)) mod P) 0) as [Ej|Ej].
  - destruct (Z.eqb_spec ((n - (1 + P)) / P) 0) as [Ei|Ei].
    + assert (n = 1 + P) by lia. subst n. rewrite Ei, Ej.
      now apply grow_iind_new_ok.
    + apply grow_iind_inner_ok; auto. nia.
  - now apply grow_iind_fill_ok.
Qed.

(** Growing by one block, below the capacity of the three tiers: the
    iteration returns, and either the file has one block more or nothing
    is allocated that was not before. *)
Lemma grow_step_ok s ino n :
  live s = true -> WF (disk s) ino n -> n < CAP ->
  exists r s', grow_step ino n s = Ok r s' /\ grow_post s ino n r s'.
Proof.
  intros L W Hn. pose proof (WF_n _ _ _ W) as Hn0. unfold grow_step.
  destruct (Z.ltb_spec n 1).
  - assert (n = 0) by lia. subst n. now apply grow_direct_ok.
  - destruct (Z.ltb_spec n (1 + P)).
    + apply grow_indirect_ok; auto; lia.
    + apply grow_iindirect_ok; auto; lia.
Qed.

End Steps.

(** * Shrinking by one block *)

Ltac safe_all :=
  safe_split;
  repeat (split; [apply safe_set; [disk_now|now left]|]; safe_split).

Section Shrink.

Context {G : Geometry}.
Hypothesis Hgeo : geometry_ok = true.

Local Abbreviation P := POINTER_PER_BLOCK.

(** A shrinking iteration begins with the two writes that release the
    last data block of the file. *)
Definition shrunk_first (s s' : state) (ino : INode) (n : Z) : Prop :=
  exists rest,
    writes s' = rest ++ eff_writes (EFree (l2p (disk s) ino (n - 1))) (disk s)
                     ++ writes s.

(** The end of a shrinking iteration: the calls [es] released the last
    data block and the pointer blocks that only it needed. *)
Lemma shrink_done es s s' ino ino' n :
  live s = true -> sums es s s' -> WF (disk s) ino n -> 1 <= n ->
  kept ino ino' -> inode_norm ino' = true ->
  effs_delta es = nblocks (n - 1) - nblocks n ->
  (forall b, In b (effs_changed es) ->
     In b (new_ptrs (disk s) ino (n - 1) ++ [l2p (disk s) ino (n - 1)])) ->
  (forall b, In b (effs_written es) -> In b (owned (disk s) ino n)) ->
  ptr_blocks (disk s') ino' (n - 1) = ptr_blocks (disk s) ino (n - 1) /\
  data_blocks (disk s') ino' (n - 1) = data_blocks (disk s) ino (n - 1) ->
  zeros_ok (disk s') ino' (n - 1) = true ->
  effs_safe es (valid_block (disk s)) (disk s) ->
  (exists es', es = EFree (l2p (disk s) ino (n - 1)) :: es') ->
  step_post s s' ino n ino' (n - 1) /\ shrunk_first s s' ino n.
Proof.
  intros L S W Hn K N Hd Hc Hw [EP ED] Zr Sf [es' Ees].
  split.
  2:{ destruct (does_all_writes _ _ _ (su_does _ _ _ S)) as [Tw _].
      rewrite Ees in Tw. cbn [effs_writes] in Tw. rewrite <- app_assoc in Tw.
      eexists. exact Tw. }
  assert (Hm : 0 <= n - 1) by lia.
  assert (En : n = n - 1 + 1) by lia.
  pose proof W as W1. rewrite En in W1.
  destruct (owned_last Hgeo (disk s) ino (n - 1) W1 Hm) as [ND Last].
  assert (Mono : forall b, In b (owned (disk s) ino (n - 1)) -> In b (owned (disk s) ino n)).
  { intros b Hb. rewrite En. now apply (owned_mono Hgeo). }
  assert (V : forall b, In b (owned (disk s) ino (n - 1)) ->
                        valid_block (disk s') b = true).
  { intros b Hb. rewrite (su_valid _ _ _ S), effs_valid_other.
    - apply (WF_owned_valid (disk s) ino n b W). now apply Mono.
    - intros Hin. apply Hc in Hin. apply Last in Hin. tauto. }
  constructor.
  - apply (su_live _ _ _ S).
  - apply (WF_shrink Hgeo (disk s) (disk s') ino ino' (n - 1)); auto.
  - assumption.
  - exists (effs_written es), (effs_changed es). split.
    + rewrite <- Hd. now apply sums_evolves.
    + intros b [Hb|Hb]; left; [now apply Hw|].
      apply Hc in Hb. apply Last in Hb. rewrite En. tauto.
  - intros b Hb. left. apply Mono. unfold owned in *. now rewrite <- EP, <- ED.
  - apply (su_clock _ _ _ S).
  - exists (effs_writes es (disk s)).
    apply (does_all_traced Hgeo es s s' (valid_block (disk s)) (disk s)
             (su_does _ _ _ S) L); auto.
Qed.

(** A block still allocated after the calls [es]. *)
Lemma valid_after es s s1 x :
  sums es s s1 -> valid_block (disk s) x = true ->
  ~ In x (effs_changed es) -> valid_block (disk s1) x = true.
Proof.
  intros S V Hn. now rewrite (su_valid _ _ _ S), effs_valid_other.
Qed.

Lemma offset_after es s s1 x :
  sums es s s1 -> data_block_offset (disk s 0) <= x ->
  data_block_offset (disk s1 0) <= x.
Proof.
  intros S H. destruct (su_geom _ _ _ S) as [_ [_ [_ [_ [_ G6]]]]]. lia.
Qed.

Lemma shrink_direct_ok s ino :
  live s = true -> WF (disk s) ino 1 ->
  exists ino' s',
    (free_data (s32 (direct_pointer ino)) ;;; ret (set_direct ino 0)) s = Ok ino' s' /\
    step_post s s' ino 1 ino' (1 - 1) /\ shrunk_first s s' ino 1.
Proof.
  intros L W. pose proof (P_pos Hgeo) as HP.
  pose proof (live_hdr _ L) as Hh.
  assert (H0 : 0 <= 0) by lia.
  destruct (nblocks_diff_cases Hgeo 0 H0) as [ND _].
  assert (H01 : 0 <> 1) by lia. assert (H0P : 0 < 1 + P) by lia.
  specialize (ND H01 H0P).
  pose proof (WF_zeros _ _ _ W) as Zr. apply zeros_ok_facts in Zr.
  destruct Zr as [Z1 [Z2 [Z3 [Z4 [Z5 Z6]]]]].
  pose proof (WF_norm _ _ _ W) as N. pose proof N as N'.
  apply inode_norm_facts in N'.
  set (p := direct_pointer ino) in *.
  assert (Ep : l2p (disk s) ino 0 = p) by reflexivity.
  assert (Inp : In p (data_blocks (disk s) ino 1)).
  { rewrite <- Ep. apply in_data_blocks. lia. }
  pose proof (WF_data _ _ _ W p Inp) as Vp.
  destruct (block_number Hgeo (disk s) p Hh Vp) as [X1 [X2 [X3 [X4 X5]]]].
  rewrite X4. destruct (free_does Hgeo s p L Vp) as [s' [Rf Df]].
  exists (set_direct ino 0), s'. rewrite (bind_run _ _ _ _ _ Rf).
  split; [reflexivity|]. pose proof (sums_one _ _ _ Df L) as S.
  assert (K : kept ino (set_direct ino 0)) by (unfold kept; cbn; auto).
  apply (shrink_done _ s s' ino (set_direct ino 0) 1 L S W).
  - lia.
  - assumption.
  - apply (inode_norm_kept ino _ K N); cbn; try tauto. unfold u32. cbn. lia.
  - cbn [effs_delta eff_delta]. change (nblocks (1 - 1)) with (nblocks 0).
    change (nblocks 1) with (nblocks (0 + 1)). lia.
  - intros b Hb. in_cases Hb; subst b. change (1 - 1) with 0. rewrite Ep.
    apply in_or_app. right. now left.
  - intros b Hb. in_cases Hb.
  - change (1 - 1) with 0. apply (lists_same Hgeo); lia.
  - change (1 - 1) with 0. apply zeros_ok_facts.
    cbn [direct_pointer indirect_pointer iindirect_pointer set_direct].
    repeat split; intros; try lia; reflexivity.
  - safe_split.
  - change (1 - 1) with 0. rewrite Ep. eexists. reflexivity.
Qed.

Lemma shrink_indirect_ok s ino n :
  live s = true -> WF (disk s) ino n -> 2 <= n <= 1 + P ->
  exists ino' s',
    shrink_step ino n s = Ok ino' s' /\
    step_post s s' ino n ino' (n - 1) /\ shrunk_first s s' ino n.
Proof.
  intros L W Hn. pose proof (P_pos Hgeo) as HP.
  pose proof (live_hdr _ L) as Hh.
  assert (Hm : 0 <= n - 1) by lia.
  destruct (nblocks_diff_cases Hgeo (n - 1) Hm) as [ND1 [ND2 _]].
  replace (n - 1 + 1) with n in * by lia.
  pose proof (WF_zeros _ _ _ W) as Zr. apply zeros_ok_facts in Zr.
  destruct Zr as [Z1 [Z2 [Z3 [Z4 [Z5 Z6]]]]].
  pose proof (WF_norm _ _ _ W) as N. pose proof N as N'.
  apply inode_norm_facts in N'.
  assert (En : n = n - 1 + 1) by lia.
  pose proof W as W1. rewrite En in W1.
  destruct (owned_last Hgeo (disk s) ino (n - 1) W1 Hm) as [NDl _]. clear W1.
  set (I := indirect_pointer ino) in *.
  assert (InI : In I (ptr_blocks (disk s) ino n)) by (apply in_ptr_blocks_ind; lia).
  destruct (WF_ptr_range Hgeo _ _ _ _ Hh W InI) as [VI [RI1 [RI2 [RI3 RI4]]]].
  destruct (block_number Hgeo (disk s) I Hh VI) as [I1 [I2 [I3 [I4 I5]]]].
  assert (RI : 0 <= I < BLOCK_NUM) by lia.
  set (off := n - 1 - 1).
  assert (Hoff : 0 <= off < P) by (unfold off; lia).
  set (p := get_pointer (disk s I) off).
  assert (Ep : l2p (disk s) ino (n - 1) = p).
  { unfold l2p. destruct (Z.eqb_spec (n - 1) 0); [lia|].
    destruct (Z.ltb_spec (n - 1) (1 + P)); [reflexivity|lia]. }
  assert (Inp : In p (data_blocks (disk s) ino n)).
  { rewrite <- Ep. apply in_data_blocks. lia. }
  pose proof (WF_data _ _ _ W p Inp) as Vp.
  destruct (block_number Hgeo (disk s) p Hh Vp) as [X1 [X2 [X3 [X4 X5]]]].
  destruct (free_does Hgeo s p L Vp) as [s1 [Rf1 D1]].
  pose proof (do_live _ _ _ D1) as L1.
  pose proof (sums_one _ _ _ D1 L) as S1.
  pose proof (write_does Hgeo s1 I (set_pointer (disk s I) off 0) L1
                (offset_after _ _ _ _ S1 I2)) as D2.
  set (s2 := set_disk s1 _ _) in D2.
  pose proof (do_live _ _ _ D2) as L2.
  pose proof (does_two _ _ _ _ _ D1 D2) as D12.
  pose proof (does_all_sums _ _ _ D12 L) as S2.
  assert (Run : forall k : unit -> M INode,
     (ind_block <- from_blockno I ;;
      q <- ptr_read ind_block off ;;
      free_data (s32 q) ;;;
      ind_block <- ptr_write ind_block off 0 ;;
      commit I ind_block ;;; k tt) s = k tt s2).
  { intros k. rewrite (bind_run _ _ _ _ _ (from_blockno_total I s RI)).
    unfold ptr_read, ptr_write. rewrite (in_range_true off P Hoff), bind_ret.
    fold p. rewrite X4, (bind_run _ _ _ _ _ Rf1), bind_ret.
    rewrite (bind_run _ _ _ _ _ (commit_run I _ s1)). reflexivity. }
  unfold shrink_step. cbv zeta.
  destruct (Z.ltb_spec (n - 1) 1); [lia|].
  destruct (Z.ltb_spec (n - 1) (1 + P)); [|lia].
  fold I off. rewrite I4.
  rewrite (Run (fun _ => if off =? 0
                         then free_data I ;;; ret (set_indirect ino 0)
                         else ret ino)).
  destruct (Z.eqb_spec off 0) as [E0|E0].
  - (* the last slot of the indirect block: the block goes too *)
    assert (n = 2) by (unfold off in E0; lia). subst n.
    assert (NP : new_ptrs (disk s) ino (2 - 1) = [I]).
    { unfold new_ptrs. change (2 - 1) with 1. change (1 =? 1) with true.
      destruct (Z.eqb_spec 1 (1 + P)); [lia|].
      destruct (Z.leb_spec (1 + P) 1); [lia|]. reflexivity. }
    rewrite NP, Ep in NDl. cbn [app] in NDl.
    assert (NeIp : I <> p).
    { inversion NDl as [|? ? Hni _]; subst. intros E. apply Hni. now left. }
    assert (V2 : valid_block (disk s2) I = true).
    { apply (valid_after _ _ _ _ S2 VI). intros Hin. in_cases Hin. congruence. }
    destruct (free_does Hgeo s2 I L2 V2) as [s3 [Rf3 D3]].
    rewrite (bind_run _ _ _ _ _ Rf3).
    exists (set_indirect ino 0), s3. split; [reflexivity|].
    pose proof (does_all_sums _ _ _ (does_all_snoc _ _ _ _ _ D12 D3) L) as S3.
    cbn [app] in S3.
    assert (K : kept ino (set_indirect ino 0)) by (unfold kept; cbn; auto).
    apply (shrink_done _ s s3 ino (set_indirect ino 0) 2 L S3 W).
    + lia.
    + assumption.
    + apply (inode_norm_kept ino _ K N); cbn; try tauto. unfold u32. cbn. lia.
    + cbn [effs_delta eff_delta]. specialize (ND2 eq_refl). lia.
    + intros b Hb. rewrite NP, Ep. in_cases Hb; subst b; cbn; auto.
    + intros b Hb. in_cases Hb; subst b. unfold owned. apply in_or_app. now left.
    + apply (lists_same Hgeo); try lia. intros _. reflexivity.
    + apply zeros_ok_facts.
      cbn [direct_pointer indirect_pointer iindirect_pointer set_indirect].
      repeat split; intros; try lia; reflexivity.
    + safe_all.
    + rewrite Ep. eexists. reflexivity.
  - (* a slot further up *)
    exists ino, s2. split; [reflexivity|].
    assert (CI : disk s2 I = set_pointer (disk s I) off 0).
    { rewrite (su_disk _ _ _ S2 I I2). cbn [effs_disk eff_disk]. apply upd_same. }
    apply (shrink_done _ s s2 ino ino n L S2 W).
    + lia.
    + apply kept_refl.
    + assumption.
    + cbn [effs_delta eff_delta]. unfold off in E0.
      assert (Hx : n - 1 <> 1) by lia. assert (Hy : n - 1 < 1 + P) by lia.
      specialize (ND1 Hx Hy). lia.
    + intros b Hb. rewrite Ep. in_cases Hb; subst b. apply in_or_app. right. now left.
    + intros b Hb. in_cases Hb; subst b. unfold owned. apply in_or_app. now left.
    + apply (lists_same Hgeo); try lia; auto.
      intros _. split; [reflexivity|]. intros k Hk Hk'. unfold ind_slot. fold I.
      rewrite CI. apply get_pointer_set_other. unfold off. lia.
    + apply zeros_ok_facts. unfold ind_slot. fold I. rewrite CI.
      repeat split; intros; try lia.
      destruct (Z.eq_dec j off) as [->|Hj].
      * rewrite get_pointer_set_same. reflexivity.
      * rewrite get_pointer_set_other by lia. apply Z3; unfold off in *; lia.
    + safe_all.
    + rewrite Ep. eexists. reflexivity.
Qed.

Lemma shrink_iindirect_ok s ino n :
  live s = true -> WF (disk s) ino n -> 2 + P <= n ->
  exists ino' s',
    shrink_step ino n s = Ok ino' s' /\
    step_post s s' ino n ino' (n - 1) /\ shrunk_first s s' ino n.
Proof.
  intros L W Hn. pose proof (P_pos Hgeo) as HP.
  pose proof (live_hdr _ L) as Hh. pose proof (WF_n _ _ _ W) as HnC.
  assert (Hm : 0 <= n - 1) by lia.
  assert (Hm' : 1 + P <= n - 1 < CAP) by lia.
  assert (Hn1 : 1 + P < n) by lia.
  destruct (tier_index Hgeo (n - 1) Hm') as [Ti [Tj [Tn [Q1 Q2]]]]. cbv zeta in *.
  destruct (succ_index Hgeo (n - 1) (proj1 Hm')) as [Sa Sb]. cbv zeta in *.
  destruct (nblocks_diff_cases Hgeo (n - 1) Hm) as [_ [_ [ND3 [ND2 ND1]]]].
  replace (n - 1 + 1) with n in * by lia.
  pose proof (n_inner_succ (n - 1) (proj1 Hm')) as NI.
  replace (n - 1 + 1) with n in NI by lia.
  set (i := (n - 1 - (1 + P)) / P) in *. set (j := (n - 1 - (1 + P)) mod P) in *.
  pose proof (WF_zeros _ _ _ W) as Zr. apply zeros_ok_facts in Zr.
  destruct Zr as [Z1 [Z2 [Z3 [Z4 [Z5 Z6]]]]].
  pose proof (WF_norm _ _ _ W) as N. pose proof N as N'.
  apply inode_norm_facts in N'.
  assert (En : n = n - 1 + 1) by lia.
  pose proof W as W1. rewrite En in W1.
  destruct (owned_last Hgeo (disk s) ino (n - 1) W1 Hm) as [NDl _]. clear W1.
  destruct (ptr_blocks_distinct Hgeo (disk s) ino n W Hn1) as [Dst1 [Dst2 Dst3]].
  set (II := iindirect_pointer ino) in *. set (I := indirect_pointer ino) in *.
  set (B := get_pointer (disk s II) i).
  assert (EB : B = outer_slot (disk s) ino i) by reflexivity.
  assert (Hi : 0 <= i < n_inner n) by lia.
  pose proof (in_ptr_blocks_iind (disk s) ino n Hn1) as InII. fold II in InII.
  pose proof (in_ptr_blocks_inner (disk s) ino n i Hn1 Hi) as InB.
  rewrite <- EB in InB.
  assert (InI : In I (ptr_blocks (disk s) ino n)) by (apply in_ptr_blocks_ind; lia).
  destruct (WF_ptr_range Hgeo _ _ _ _ Hh W InII) as [VII [RII1 [RII2 [RII3 RII4]]]].
  destruct (WF_ptr_range Hgeo _ _ _ _ Hh W InB) as [VB [RB1 [RB2 [RB3 RB4]]]].
  destruct (WF_ptr_range Hgeo _ _ _ _ Hh W InI) as [VI [RI1 [RI2 [RI3 RI4]]]].
  destruct (block_number Hgeo (disk s) II Hh VII) as [_ [_ [_ [SII _]]]].
  destruct (block_number Hgeo (disk s) B Hh VB) as [_ [_ [_ [SB _]]]].
  assert (NeIB : II <> B).
  { rewrite EB. intros E. apply (proj2 (Dst2 i Hi)). now symmetry. }
  assert (NeI : I <> B).
  { rewrite EB. intros E. apply (proj1 (Dst2 i Hi)). now symmetry. }
  set (p := get_pointer (disk s B) j).
  assert (Ep : l2p (disk s) ino (n - 1) = p).
  { unfold l2p. destruct (Z.eqb_spec (n - 1) 0); [lia|].
    destruct (Z.ltb_spec (n - 1) (1 + P)); [lia|reflexivity]. }
  assert (Inp : In p (data_blocks (disk s) ino n)).
  { rewrite <- Ep. apply in_data_blocks. lia. }
  pose proof (WF_data _ _ _ W p Inp) as Vp.
  destruct (block_number Hgeo (disk s) p Hh Vp) as [X1 [X2 [X3 [X4 X5]]]].
  assert (RII : 0 <= II < BLOCK_NUM) by lia.
  assert (RB : 0 <= B < BLOCK_NUM) by lia.
  destruct (free_does Hgeo s p L Vp) as [s1 [Rf1 D1]].
  pose proof (do_live _ _ _ D1) as L1.
  pose proof (sums_one _ _ _ D1 L) as S1.
  pose proof (write_does Hgeo s1 B (set_pointer (disk s B) j 0) L1
                (offset_after _ _ _ _ S1 (proj2 RB1))) as D2.
  set (s2 := set_disk s1 _ _) in D2.
  pose proof (do_live _ _ _ D2) as L2.
  pose proof (does_two _ _ _ _ _ D1 D2) as D12.
  pose proof (does_all_sums _ _ _ D12 L) as S2.
  assert (Run : forall k : block -> Z -> M INode,
     (iind_block <- from_blockno II ;;
      inner <- ptr_read iind_block i ;;
      ind_block <- from_blockno (s32 inner) ;;
      q <- ptr_read ind_block j ;;
      free_data (s32 q) ;;;
      ind_block <- ptr_write ind_block j 0 ;;
      commit (s32 inner) ind_block ;;; k iind_block inner) s = k (disk s II) B s2).
  { intros k. rewrite (bind_run _ _ _ _ _ (from_blockno_total II s RII)).
    unfold ptr_read, ptr_write.
    rewrite (in_range_true i P Ti), (in_range_true j P Tj), bind_ret. fold B.
    rewrite SB, (bind_run _ _ _ _ _ (from_blockno_total B s RB)), bind_ret.
    fold p. rewrite X4, (bind_run _ _ _ _ _ Rf1), bind_ret.
    rewrite (bind_run _ _ _ _ _ (commit_run B _ s1)). reflexivity. }
  assert (CB2 : disk s2 B = set_pointer (disk s B) j 0).
  { rewrite (su_disk _ _ _ S2 B) by lia. cbn [effs_disk eff_disk]. apply upd_same. }
  assert (Inner : forall (d' : Z -> block) k,
            (forall b, In b (ptr_blocks (disk s) ino n) -> b <> B -> b <> II ->
                       d' b = disk s b) ->
            (forall i', 0 <= i' < n_inner (n - 1) ->
                        get_pointer (d' II) i' = get_pointer (disk s II) i') ->
            (j <> 0 -> forall j', 0 <= j' < j ->
                       get_pointer (d' B) j' = get_pointer (disk s B) j') ->
            1 + P < n - 1 -> 1 + P <= k < n - 1 ->
            get_pointer (d' (get_pointer (d' II) ((k - (1 + P)) / P)))
                        ((k - (1 + P)) mod P)
            = get_pointer (disk s (get_pointer (disk s II) ((k - (1 + P)) / P)))
                          ((k - (1 + P)) mod P)).
  { intros d' k Fr Ho Hb Hlt Hk.
    pose proof (inner_index_bound Hgeo (n - 1) k Hk) as Bk.
    assert (Hnz : P <> 0) by lia. assert (Hpz : 0 < P) by lia.
    pose proof (Z.div_mod (k - (1 + P)) P Hnz) as E1.
    pose proof (Z.mod_pos_bound (k - (1 + P)) P Hpz) as E2.
    set (i' := (k - (1 + P)) / P) in *. set (m := (k - (1 + P)) mod P) in *.
    rewrite Ho by assumption.
    rewrite (n_inner_step Hgeo (n - 1) Hlt) in Bk. fold j i in Bk.
    destruct (Z.eq_dec i' i) as [Ei|Ei].
    - rewrite Ei. fold B. destruct (Z.eqb_spec j 0) as [Ej|Ej]; [lia|].
      apply Hb; [assumption|]. lia.
    - assert (Hi' : 0 <= i' < n_inner n) by (destruct (j =? 0); lia).
      rewrite Fr; [reflexivity| | |].
      + apply (in_ptr_blocks_inner (disk s) ino n i' Hn1 Hi').
      + fold (outer_slot (disk s) ino i'). rewrite EB. intros E. apply Ei.
        now apply Dst3.
      + apply (proj2 (Dst2 i' Hi')). }
  assert (E : shrink_step ino n s =
     (if j =? 0
      then free_data (s32 B) ;;;
           iind_block <- ptr_write (disk s II) i 0 ;;
           commit II iind_block ;;;
           (if i =? 0 then free_data II ;;; ret (set_iindirect ino 0) else ret ino)
      else ret ino) s2).
  { unfold shrink_step. cbv zeta.
    destruct (Z.ltb_spec (n - 1) 1); [lia|].
    destruct (Z.ltb_spec (n - 1) (1 + P)); [lia|].
    rewrite Q1, Q2. fold II i j. rewrite SII.
    apply (Run (fun iind_block inner =>
      if j =? 0
      then free_data (s32 inner) ;;;
           iind_block <- ptr_write iind_block i 0 ;;
           commit II iind_block ;;;
           (if i =? 0 then free_data II ;;; ret (set_iindirect ino 0) else ret ino)
      else ret ino)). }
  rewrite E. clear E Run.
  destruct (Z.eqb_spec j 0) as [Ej|Ej].
  - (* the last slot of an inner block: the block goes too *)
    rewrite SB. unfold ptr_write. rewrite (in_range_true i P Ti).
    assert (NeBp : B <> p /\ (i = 0 -> II <> p)).
    { unfold new_ptrs in NDl. fold j i II in NDl. rewrite Ej, Ep in NDl.
      destruct (Z.eqb_spec (n - 1) 1); [lia|].
      destruct (Z.leb_spec (1 + P) (n - 1)); [|lia].
      cbn [Z.eqb andb app] in NDl. rewrite <- EB in NDl.
      destruct (Z.eqb_spec (n - 1) (1 + P)); cbn [app] in NDl.
      - inversion NDl as [|? ? Hni ND']; subst.
        inversion ND' as [|? ? Hni' _]; subst. split.
        + intros E. apply Hni'. now left.
        + intros _ E. apply Hni. right. now left.
      - inversion NDl as [|? ? Hni _]; subst. split.
        + intros E. apply Hni. now left.
        + intros E0. exfalso. lia. }
    destruct NeBp as [NeBp NeIIp].
    assert (V2 : valid_block (disk s2) B = true).
    { apply (valid_after _ _ _ _ S2 VB). intros Hin. in_cases Hin. congruence. }
    destruct (free_does Hgeo s2 B L2 V2) as [s3 [Rf3 D3]].
    pose proof (do_live _ _ _ D3) as L3.
    pose proof (does_all_snoc _ _ _ _ _ D12 D3) as D123. cbn [app] in D123.
    pose proof (does_all_sums _ _ _ D123 L) as S3.
    pose proof (write_does Hgeo s3 II (set_pointer (disk s II) i 0) L3
                  (offset_after _ _ _ _ S3 (proj2 RII1))) as D4.
    set (s4 := set_disk s3 _ _) in D4.
    pose proof (do_live _ _ _ D4) as L4.
    pose proof (does_all_snoc _ _ _ _ _ D123 D4) as D1234. cbn [app] in D1234.
    pose proof (does_all_sums _ _ _ D1234 L) as S4.
    rewrite (bind_run _ _ _ _ _ Rf3), bind_ret.
    rewrite (bind_run _ _ _ _ _ (commit_run II _ s3)). fold s4.
    assert (NP : In B (new_ptrs (disk s) ino (n - 1))).
    { unfold new_ptrs. fold j i. rewrite Ej.
      destruct (Z.leb_spec (1 + P) (n - 1)); [|lia]. cbn [Z.eqb andb].
      apply in_or_app. right. apply in_or_app. right. rewrite <- EB. now left. }
    destruct (Z.eqb_spec i 0) as [Ei|Ei].
    + (* ... and it was the only inner block: the outer block goes too *)
      assert (En1 : n - 1 = 1 + P) by lia.
      assert (V4 : valid_block (disk s4) II = true).
      { apply (valid_after _ _ _ _ S4 VII). intros Hin. in_cases Hin.
        - now apply NeIIp.
        - congruence. }
      destruct (free_does Hgeo s4 II L4 V4) as [s5 [Rf5 D5]].
      rewrite (bind_run _ _ _ _ _ Rf5).
      exists (set_iindirect ino 0), s5. split; [reflexivity|].
      pose proof (does_all_sums _ _ _ (does_all_snoc _ _ _ _ _ D1234 D5) L) as S5.
      cbn [app] in S5.
      assert (K : kept ino (set_iindirect ino 0)) by (unfold kept; cbn; auto).
      assert (CI : disk s5 I = disk s I).
      { apply (sums_frame _ _ _ _ S5); [lia|]. intros Hin. in_cases Hin; congruence. }
      apply (shrink_done _ s s5 ino (set_iindirect ino 0) n L S5 W).
      * lia.
      * assumption.
      * apply (inode_norm_kept ino _ K N); cbn; try tauto. unfold u32. cbn. lia.
      * cbn [effs_delta eff_delta]. specialize (ND3 En1). lia.
      * intros b Hb. rewrite Ep. in_cases Hb; subst b.
        -- apply in_or_app. right. now left.
        -- apply in_or_app. now left.
        -- apply in_or_app. left. unfold new_ptrs. rewrite En1, Z.eqb_refl.
           apply in_or_app. right. now left.
      * intros b Hb. in_cases Hb; subst b; unfold owned; apply in_or_app; now left.
      * apply (lists_same Hgeo); try lia; auto.
        intros _. split; [reflexivity|]. intros k Hk Hk'. unfold ind_slot.
        cbn [indirect_pointer set_iindirect]. fold I. now rewrite CI.
      * apply zeros_ok_facts.
        cbn [direct_pointer indirect_pointer iindirect_pointer set_iindirect].
        repeat split; intros; try lia; reflexivity.
      * safe_all.
      * rewrite Ep. eexists. reflexivity.
    + (* ... and other inner blocks remain *)
      exists ino, s4. split; [reflexivity|].
      assert (Hlt : 1 + P < n - 1) by nia.
      assert (NIm : n_inner (n - 1) = i).
      { rewrite (n_inner_step Hgeo (n - 1) Hlt). fold j i. now rewrite Ej. }
      assert (CII : disk s4 II = set_pointer (disk s II) i 0).
      { rewrite (su_disk _ _ _ S4 II) by lia. cbn [effs_disk eff_disk]. apply upd_same. }
      assert (Fr : forall b, In b (ptr_blocks (disk s) ino n) -> b <> B -> b <> II ->
                             disk s4 b = disk s b).
      { intros b Hb Hne1 Hne2.
        destruct (WF_ptr_range Hgeo _ _ _ _ Hh W Hb) as [_ [Rb _]].
        apply (sums_frame _ _ _ _ S4); [lia|]. intros Hin. in_cases Hin; congruence. }
      assert (Out : forall k, k <> i ->
                    outer_slot (disk s4) ino k = outer_slot (disk s) ino k).
      { intros k Hk. unfold outer_slot. fold II. rewrite CII.
        apply get_pointer_set_other. lia. }
      apply (shrink_done _ s s4 ino ino n L S4 W).
      * lia.
      * apply kept_refl.
      * assumption.
      * cbn [effs_delta eff_delta]. specialize (ND2 Hlt Ej). lia.
      * intros b Hb. rewrite Ep. in_cases Hb; subst b.
        -- apply in_or_app. right. now left.
        -- apply in_or_app. now left.
      * intros b Hb. in_cases Hb; subst b; unfold owned; apply in_or_app; now left.
      * apply (lists_same Hgeo); try lia; auto.
        -- intros _. split; [reflexivity|]. intros k Hk Hk'. unfold ind_slot. fold I.
           rewrite Fr; auto; congruence.
        -- intros _. split; [reflexivity|]. split; [intros k Hk; apply Out; lia|].
           intros k Hk. unfold inner_slot, outer_slot. fold II.
           apply Inner.
           ++ assumption.
           ++ intros i' Hi'. rewrite CII. apply get_pointer_set_other. lia.
           ++ intros Hj. contradiction.
           ++ assumption.
           ++ assumption.
      * apply zeros_ok_facts.
        split; [intros; lia|]. split; [intros; lia|]. split; [intros; lia|].
        split; [intros; lia|]. split; [intros|intros; lia].
        rewrite NIm in *. unfold outer_slot. fold II. rewrite CII.
        destruct (Z.eq_dec i0 i) as [->|Hne].
        -- rewrite get_pointer_set_same. reflexivity.
        -- rewrite get_pointer_set_other by lia. apply (Z5 Hn1). lia.
      * safe_all.
      * rewrite Ep. eexists. reflexivity.
  - (* a slot further up in the inner block *)
    exists ino, s2. split; [reflexivity|].
    assert (Hlt : 1 + P < n - 1) by lia.
    assert (NIm : n_inner (n - 1) = i + 1).
    { rewrite (n_inner_step Hgeo (n - 1) Hlt). fold j i.
      destruct (Z.eqb_spec j 0); [contradiction|reflexivity]. }
    assert (Fr : forall b, In b (ptr_blocks (disk s) ino n) -> b <> B ->
                           disk s2 b = disk s b).
    { intros b Hb Hne1.
      destruct (WF_ptr_range Hgeo _ _ _ _ Hh W Hb) as [_ [Rb _]].
      apply (sums_frame _ _ _ _ S2); [lia|]. intros Hin. in_cases Hin; congruence. }
    assert (CII : disk s2 II = disk s II) by (apply Fr; assumption).
    assert (Out : forall k, outer_slot (disk s2) ino k = outer_slot (disk s) ino k).
    { intros k. unfold outer_slot. fold II. now rewrite CII. }
    apply (shrink_done _ s s2 ino ino n L S2 W).
    + lia.
    + apply kept_refl.
    + assumption.
    + cbn [effs_delta eff_delta]. specialize (ND1 (proj1 Hm') Ej). lia.
    + intros b Hb. rewrite Ep. in_cases Hb; subst b. apply in_or_app. right. now left.
    + intros b Hb. in_cases Hb; subst b; unfold owned; apply in_or_app; now left.
    + apply (lists_same Hgeo); try lia; auto.
      * intros _. split; [reflexivity|]. intros k Hk Hk'. unfold ind_slot. fold I.
        rewrite Fr; auto.
      * intros _. split; [reflexivity|]. split; [intros k Hk; apply Out|].
        intros k Hk. unfold inner_slot, outer_slot. fold II.
        apply Inner.
        -- intros b Hb Hne1 _. now apply Fr.
        -- intros i' Hi'. now rewrite CII.
        -- intros _ j' Hj'. rewrite CB2. apply get_pointer_set_other. lia.
        -- assumption.
        -- assumption.
    + apply zeros_ok_facts. repeat split; intros; try lia.
      * rewrite NIm in *. rewrite Out. apply (Z5 Hn1). lia.
      * fold j in H0, H1. fold i. unfold inner_slot. rewrite Out, <- EB, CB2.
        destruct (Z.eq_dec j0 j) as [->|Hne].
        -- rewrite get_pointer_set_same. reflexivity.
        -- rewrite get_pointer_set_other by lia.
           destruct (Z_lt_le_dec (j + 1) P) as [Hlt1|Hge]; [|lia].
           destruct (Sa Hlt1) as [M1 M2].
           assert (Hne0 : (n - (1 + P)) mod P <> 0) by lia.
           pose proof (Z6 Hn1 Hne0 j0) as Zz. rewrite M1, M2 in Zz.
           unfold inner_slot in Zz. rewrite <- EB in Zz. apply Zz. lia.
    + safe_all.
    + rewrite Ep. eexists. reflexivity.
Qed.

(** Shrinking by one block: the iteration returns and the file has one
    block less. *)
Lemma shrink_step_ok s ino n :
  live s = true -> WF (disk s) ino n -> 1 <= n ->
  exists ino' s',
    shrink_step ino n s = Ok ino' s' /\
    step_post s s' ino n ino' (n - 1) /\ shrunk_first s s' ino n.
Proof.
  intros L W Hn. pose proof (P_pos Hgeo) as HP.
  destruct (Z_lt_le_dec n 2).
  - assert (n = 1) by lia. subst n.
    destruct (shrink_direct_ok s ino L W) as [ino' [s' [Run Post]]].
    exists ino', s'. split; [|assumption]. unfold shrink_step. cbv zeta.
    destruct (Z.ltb_spec (1 - 1) 1); [assumption|lia].
  - destruct (Z_lt_le_dec n (2 + P)).
    + apply shrink_indirect_ok; auto; lia.
    + apply shrink_iindirect_ok; auto; lia.
Qed.

End Shrink.

(** * The inode record and the block count *)

(** An inode record as it reads back from the inode table. *)
Definition norm_inode (v : INode) : INode :=
  mkINode (u32 (type v)) (u32 (filesize v)) (u32 (atime v)) (u32 (mtime v))
          (u32 (ctime v)) (u32 (direct_pointer v)) (u32 (indirect_pointer v))
          (u32 (iindirect_pointer v)).

Lemma load_store_inode b idx v :
  load_inode (store_inode b idx v) idx = norm_inode v.
Proof.
  unfold load_inode, store_inode, norm_inode. cbv zeta.
  f_equal; rewrite ?get32_set32_other by lia; apply get32_set32_same.
Qed.

Lemma load_store_inode_other b idx idx' v :
  idx <> idx' -> load_inode (store_inode b idx v) idx' = load_inode b idx'.
Proof.
  intros H. unfold load_inode, store_inode, INODE_SIZE. cbv zeta.
  f_equal; rewrite !get32_set32_other by lia; reflexivity.
Qed.

Section Proxy.

Context {G : Geometry}.
Hypothesis Hgeo : geometry_ok = true.

Local Abbreviation P := POINTER_PER_BLOCK.

Lemma inode_ok_facts h inodeno :
  hdr_ok h = true -> inode_ok h inodeno = true ->
  0 <= inodeno < 2 ^ 31 /\
  inode_location h inodeno
  = (inode_block_offset h + inodeno / INODE_IN_BLOCK, inodeno mod INODE_IN_BLOCK) /\
  inode_block_offset h <= inode_block_offset h + inodeno / INODE_IN_BLOCK
    < data_block_offset h /\
  0 <= inode_block_offset h + inodeno / INODE_IN_BLOCK < BLOCK_NUM.
Proof.
  intros Hh Ho. unfold inode_ok in Ho. b2p.
  destruct (hdr_ok_facts Hgeo _ Hh) as [F1 [F2 [F3 [F4 [F5 [F6 F7]]]]]].
  destruct (geo_inodes Hgeo) as [_ HI].
  assert (Hq : 0 <= inodeno / INODE_IN_BLOCK) by (apply Z.div_pos; lia).
  assert (Hpz : 0 < INODE_IN_BLOCK) by lia.
  pose proof (Z.mod_pos_bound inodeno INODE_IN_BLOCK Hpz) as Hm.
  destruct (geo_block_size Hgeo) as [_ [_ Hb]].
  assert (INODE_IN_BLOCK < 2 ^ 31) by (destruct (geo_inodes Hgeo); lia).
  split; [lia|]. split; [|lia].
  unfold inode_location. rewrite (u32_small inodeno) by lia.
  rewrite (u32_small (_ + _)) by lia. rewrite !s32_small by lia.
  f_equal. lia.
Qed.

Lemma INodeProxy_run s inodeno :
  hdr_ok (disk s 0) = true -> inode_ok (disk s 0) inodeno = true ->
  INodeProxy inodeno s = Ok (inode_at (disk s) inodeno) s.
Proof.
  intros Hh Ho. destruct (inode_ok_facts _ _ Hh Ho) as [_ [E [_ R]]].
  destruct (hdr_ok_facts Hgeo _ Hh) as [F1 [F2 [F3 [F4 [F5 [F6 F7]]]]]].
  assert (H0 : 0 <= 0 < BLOCK_NUM) by lia.
  unfold INodeProxy, get_header.
  rewrite (bind_run _ _ _ _ _ (from_blockno_total 0 s H0)), E.
  rewrite (bind_run _ _ _ _ _ (from_blockno_total _ s R)). reflexivity.
Qed.

(** The state after [INodeProxy::commit] of record [v]. *)
Definition put_inode (s : state) (inodeno : Z) (v : INode) : state :=
  let blk := inode_block_offset (disk s 0) + inodeno / INODE_IN_BLOCK in
  let b := store_inode (disk s blk) (inodeno mod INODE_IN_BLOCK) v in
  set_disk s (upd (disk s) blk b) ((blk, b) :: writes s).

Lemma INodeProxy_commit_run s inodeno v :
  hdr_ok (disk s 0) = true -> inode_ok (disk s 0) inodeno = true ->
  INodeProxy_commit inodeno v s = Ok tt (put_inode s inodeno v).
Proof.
  intros Hh Ho. destruct (inode_ok_facts _ _ Hh Ho) as [_ [E [_ R]]].
  destruct (hdr_ok_facts Hgeo _ Hh) as [F1 [F2 [F3 [F4 [F5 [F6 F7]]]]]].
  assert (H0 : 0 <= 0 < BLOCK_NUM) by lia.
  unfold INodeProxy_commit, get_header.
  rewrite (bind_run _ _ _ _ _ (from_blockno_total 0 s H0)), E.
  rewrite (bind_run _ _ _ _ _ (from_blockno_total _ s R)). reflexivity.
Qed.

(** What [INodeProxy::commit] changes: one record of the inode table. *)
Lemma put_inode_facts s inodeno v :
  live s = true -> inode_ok (disk s 0) inodeno = true ->
  let s' := put_inode s inodeno v in
  live s' = true /\ disk s' 0 = disk s 0 /\
  inode_at (disk s') inodeno = norm_inode v /\
  (forall b, data_block_offset (disk s 0) <= b -> disk s' b = disk s b) /\
  (forall b, b < inode_block_offset (disk s 0) -> disk s' b = disk s b) /\
  (forall b, valid_block (disk s') b = valid_block (disk s) b) /\
  clock s' = clock s /\
  (forall other, other <> inodeno -> 0 <= other ->
     inode_at (disk s') other = inode_at (disk s) other).
Proof.
  intros L Ho. pose proof (live_hdr _ L) as Hh.
  destruct (inode_ok_facts _ _ Hh Ho) as [Hi [E [R1 R]]].
  destruct (hdr_ok_facts Hgeo _ Hh) as [F1 [F2 [F3 [F4 [F5 [F6 F7]]]]]].
  destruct (geo_inodes Hgeo) as [_ HI].
  cbv zeta. unfold put_inode. cbv zeta.
  set (blk := inode_block_offset (disk s 0) + inodeno / INODE_IN_BLOCK) in *.
  cbn [disk set_disk clock].
  assert (E0 : upd (disk s) blk (store_inode (disk s blk) (inodeno mod INODE_IN_BLOCK) v) 0
               = disk s 0) by (apply upd_other; lia).
  repeat split.
  - apply (live_upd Hgeo); [assumption|lia].
  - assumption.
  - unfold inode_at. rewrite E0. fold blk. rewrite upd_same.
    apply load_store_inode.
  - intros b Hb. apply upd_other. lia.
  - intros b Hb. apply upd_other. lia.
  - intros b. unfold valid_block, data_bit, bitmap_bit. rewrite E0.
    destruct (Z.leb_spec (data_block_offset (disk s 0)) b); [|reflexivity].
    destruct (Z.ltb_spec (b - data_block_offset (disk s 0)) (data_bits (disk s 0)));
      [|reflexivity].
    cbn [andb]. f_equal. apply upd_other.
    assert (Hq : 0 <= b - data_block_offset (disk s 0) < data_bits (disk s 0)) by lia.
    unfold data_bits in Hq. pose proof (pos_block Hgeo _ _ Hq). lia.
  - intros other Hne Hge. unfold inode_at. rewrite E0.
    set (blk' := inode_block_offset (disk s 0) + other / INODE_IN_BLOCK).
    unfold upd. destruct (Z.eqb_spec blk' blk) as [Eb|Eb]; [|reflexivity].
    rewrite Eb. apply load_store_inode_other.
    assert (Hq : other / INODE_IN_BLOCK = inodeno / INODE_IN_BLOCK)
      by (unfold blk', blk in Eb; lia).
    intros Em. apply Hne.
    rewrite (Z.div_mod other INODE_IN_BLOCK), (Z.div_mod inodeno INODE_IN_BLOCK) by lia.
    congruence.
Qed.

(** ** [get_block_size] *)

Lemma count_leading_spec fuel : forall b i c,
  0 <= c <= Z.of_nat fuel ->
  (forall k, i <= k < i + c -> get_pointer b k <> 0) ->
  (c < Z.of_nat fuel -> get_pointer b (i + c) = 0) ->
  count_leading fuel b i = c.
Proof.
  induction fuel as [|f IH]; intros b i c Hc Hnz Hz.
  - cbn in *. lia.
  - cbn [count_leading]. rewrite Nat2Z.inj_succ in *.
    destruct (Z.eqb_spec (get_pointer b i) 0) as [E|E].
    + destruct (Z.eq_dec c 0) as [->|Hc0]; [reflexivity|].
      exfalso. apply (Hnz i); [lia|assumption].
    + assert (Hc1 : 1 <= c).
      { destruct (Z.eq_dec c 0) as [->|Hc0]; [|lia].
        exfalso. apply E. rewrite <- (Z.add_0_r i). apply Hz. lia. }
      rewrite (IH b (i + 1) (c - 1)); [lia|lia| |].
      * intros k Hk. apply Hnz. lia.
      * intros Hlt. replace (i + 1 + (c - 1)) with (i + c) by lia. apply Hz. lia.
Qed.

(** A file holds no more blocks than the data bitmap has bits. *)
Lemma WF_count d ino n :
  hdr_ok (d 0) = true -> WF d ino n -> n <= data_bits (d 0).
Proof.
  intros Hh W. destruct (hdr_ok_facts Hgeo _ Hh) as [F1 [F2 [F3 [F4 [F5 [F6 F7]]]]]].
  pose proof (WF_n _ _ _ W) as Hn.
  pose proof (WF_nodup _ _ _ W) as ND. unfold owned in ND.
  apply NoDup_app_inv in ND. destruct ND as [_ [ND _]].
  set (l := data_blocks d ino n) in *.
  set (r := zrange_from (data_block_offset (d 0))
                        (data_block_offset (d 0) + data_bits (d 0))).
  assert (Inc : incl l r).
  { intros b Hb. pose proof (WF_data _ _ _ W b Hb) as V.
    apply valid_block_facts in V. apply zrange_from_In. lia. }
  pose proof (NoDup_incl_length ND Inc) as Len.
  assert (Ll : Z.of_nat (length l) = n).
  { unfold l, data_blocks. rewrite length_map. now apply zrange_length. }
  assert (Lr : Z.of_nat (length r) = data_bits (d 0)).
  { unfold r, zrange_from. rewrite length_map.
    replace (data_block_offset (d 0) + data_bits (d 0) - data_block_offset (d 0))
      with (data_bits (d 0)) by lia.
    now apply zrange_length. }
  lia.
Qed.

Lemma count_outer_spec outer K s fuel : forall now nb,
  0 <= now <= K -> K <= P -> 1 <= K -> Z.of_nat fuel = P - now ->
  (forall i, now <= i < K -> get_pointer outer i <> 0) ->
  (K < P -> get_pointer outer K = 0 /\
            0 <= s32 (get_pointer outer (K - 1)) < BLOCK_NUM) ->
  count_outer fuel outer now nb s
  = Ok (if K <? P
        then nb + (K - now) * P - P
             + count_leading (Z.to_nat P)
                 (disk s (s32 (get_pointer outer (K - 1)))) 0
        else nb + (P - now) * P) s.
Proof.
  induction fuel as [|f IH]; intros now nb Hnow HK HK1 Hf Hnz Hz.
  - cbn [count_outer]. cbn in Hf. assert (K = P) by lia. subst K.
    rewrite Z.ltb_irrefl. unfold ret. f_equal. lia.
  - cbn [count_outer]. rewrite Nat2Z.inj_succ in Hf.
    destruct (Z.eqb_spec (get_pointer outer now) 0) as [E|E].
    + assert (K = now).
      { destruct (Z.eq_dec K now); [assumption|]. exfalso.
        apply (Hnz now); [lia|assumption]. }
      subst K. destruct (Z.ltb_spec now P); [|lia].
      destruct (Z.eqb_spec now 0); [lia|]. cbn [negb].
      destruct (Hz H) as [_ R].
      rewrite (bind_run _ _ _ _ _ (from_blockno_total _ s R)).
      unfold ret. f_equal. lia.
    + assert (now < K).
      { destruct (Z_lt_le_dec now K); [assumption|]. exfalso.
        assert (K = now) by lia. subst K. apply E. apply Hz. lia. }
      rewrite (IH (now + 1) (nb + P));
        [|lia|assumption|assumption|lia| |assumption].
      * destruct (K <? P); f_equal; lia.
      * intros i Hi. apply Hnz. lia.
Qed.

(** The outer block has a free slot exactly up to [TOP] blocks. *)
Lemma inner_top n :
  1 + P < n -> (n_inner n < P <-> n <= TOP).
Proof.
  intros Hn. pose proof (P_pos Hgeo) as HP. unfold n_inner, TOP.
  destruct (Z.leb_spec n (1 + P)); [lia|].
  assert (Hpz : 0 < P) by lia.
  split; intros H1.
  - destruct (Z_le_gt_dec n (1 + P + (P - 1) * P)) as [Hle|Hgt]; [assumption|].
    exfalso.
    assert ((P - 1) <= (n - (2 + P)) / P) by (apply Z.div_le_lower_bound; lia).
    lia.
  - assert ((n - (2 + P)) / P < P - 1) by (apply Z.div_lt_upper_bound; lia).
    lia.
Qed.

(** The blocks of a file that reaches the double-indirect tier, counted
    as [get_block_size] counts them. *)
Lemma tier_total n :
  1 + P < n ->
  1 <= n_inner n /\
  1 + P + (n_inner n - 1) * P
  + (if (n - (1 + P)) mod P =? 0 then P else (n - (1 + P)) mod P) = n /\
  (n - (1 + P)) / P
  = (if (n - (1 + P)) mod P =? 0 then n_inner n else n_inner n - 1).
Proof.
  intros Hn. pose proof (P_pos Hgeo) as HP.
  assert (Hnz : P <> 0) by lia. assert (Hpz : 0 < P) by lia.
  pose proof (Z.div_mod (n - (1 + P)) P Hnz) as DM.
  pose proof (Z.mod_pos_bound (n - (1 + P)) P Hpz) as MB.
  rewrite (n_inner_step Hgeo n Hn).
  assert (0 <= (n - (1 + P)) / P) by (apply Z.div_pos; lia).
  destruct (Z.eqb_spec ((n - (1 + P)) mod P) 0) as [E|E].
  - assert (1 <= (n - (1 + P)) / P) by nia. split; [lia|]. split; [nia|lia].
  - split; [lia|]. split; [nia|lia].
Qed.

(** The number of blocks [get_block_size] reports for a file of [n]
    blocks: it takes a full outer block for a full last tier. *)
Definition seen_blocks (n : Z) : Z := if TOP <? n then CAP else n.

Lemma get_block_size_spec s inodeno n :
  hdr_ok (disk s 0) = true -> inode_ok (disk s 0) inodeno = true ->
  WF (disk s) (inode_at (disk s) inodeno) n ->
  (TOP < n -> CAP < 2 ^ 31) ->
  get_block_size inodeno s = Ok (seen_blocks n) s.
Proof.
  intros Hh Ho W HC. pose proof (P_pos Hgeo) as HP.
  destruct (hdr_ok_facts Hgeo _ Hh) as [F1 [F2 [F3 [F4 [F5 [F6 F7]]]]]].
  pose proof (WF_count _ _ _ Hh W) as Cn.
  pose proof (WF_n _ _ _ W) as Hn.
  destruct (CAP_TOP Hgeo) as [CT1 CT2].
  set (ino := inode_at (disk s) inodeno) in *.
  pose proof (WF_zeros _ _ _ W) as Zr. apply zeros_ok_facts in Zr.
  destruct Zr as [Z1 [Z2 [Z3 [Z4 [Z5 Z6]]]]].
  assert (NZ : forall k, 0 <= k < n -> l2p (disk s) ino k <> 0).
  { intros k Hk. pose proof (WF_data _ _ _ W _ (in_data_blocks (disk s) ino n k Hk)) as V.
    destruct (block_number Hgeo _ _ Hh V). lia. }
  unfold get_block_size. rewrite (bind_run _ _ _ _ _ (INodeProxy_run s inodeno Hh Ho)).
  fold ino. unfold seen_blocks.
  destruct (Z.eq_dec n 0) as [E0|E0].
  { rewrite (Z1 E0). cbn [Z.eqb]. destruct (Z.ltb_spec TOP n); [lia|].
    subst n. reflexivity. }
  assert (D0 : direct_pointer ino <> 0).
  { specialize (NZ 0). unfold l2p in NZ. cbn [Z.eqb] in NZ. apply NZ. lia. }
  destruct (Z.eqb_spec (direct_pointer ino) 0); [contradiction|].
  destruct (Z.eq_dec n 1) as [E1|E1].
  { rewrite Z2 by lia. cbn [Z.eqb]. destruct (Z.ltb_spec TOP n); [lia|].
    subst n. reflexivity. }
  assert (H2 : 2 <= n) by lia.
  pose proof (in_ptr_blocks_ind (disk s) ino n H2) as InI.
  destruct (WF_ptr_range Hgeo _ _ _ _ Hh W InI) as [VI [RI1 [RI2 [RI3 RI4]]]].
  destruct (block_number Hgeo _ _ Hh VI) as [I1 [I2 [I3 [I4 I5]]]].
  rewrite I5, I4.
  assert (RI : 0 <= indirect_pointer ino < BLOCK_NUM) by lia.
  rewrite (bind_run _ _ _ _ _ (from_blockno_total _ s RI)).
  assert (CL : count_leading (Z.to_nat P) (disk s (indirect_pointer ino)) 0
               = Z.min (n - 1) P).
  { apply count_leading_spec.
    - rewrite Z2Nat.id by lia. lia.
    - intros k Hk. specialize (NZ (k + 1)). unfold l2p in NZ.
      destruct (Z.eqb_spec (k + 1) 0); [lia|].
      destruct (Z.ltb_spec (k + 1) (1 + P)); [|lia].
      unfold ind_slot in NZ. replace (k + 1 - 1) with k in NZ by lia.
      apply NZ. lia.
    - rewrite Z2Nat.id by lia. intros Hlt. apply Z3; lia. }
  rewrite CL.
  destruct (Z_le_gt_dec n P) as [HnP|HnP].
  { rewrite Z.min_l by lia. destruct (Z.ltb_spec (n - 1) P); [|lia].
    destruct (Z.ltb_spec TOP n); [lia|]. unfold ret. f_equal.
    rewrite s32_small by lia. lia. }
  rewrite Z.min_r by lia. rewrite Z.ltb_irrefl.
  destruct (Z.eq_dec n (1 + P)) as [EP|EP].
  { rewrite Z4 by lia. cbn [Z.eqb]. destruct (Z.ltb_spec TOP n); [lia|].
    unfold ret. f_equal. rewrite s32_small by lia. lia. }
  assert (Hn1 : 1 + P < n) by lia.
  pose proof (in_ptr_blocks_iind (disk s) ino n Hn1) as InII.
  destruct (WF_ptr_range Hgeo _ _ _ _ Hh W InII) as [VII [RII1 [RII2 [RII3 RII4]]]].
  destruct (block_number Hgeo _ _ Hh VII) as [J1 [J2 [J3 [J4 J5]]]].
  rewrite J5, J4.
  assert (RII : 0 <= iindirect_pointer ino < BLOCK_NUM) by lia.
  rewrite (bind_run _ _ _ _ _ (from_blockno_total _ s RII)).
  set (outer := disk s (iindirect_pointer ino)).
  pose proof (n_inner_range Hgeo n Hn) as NR.
  destruct (tier_total n Hn1) as [HK1 [Tot Tdiv]].
  pose proof (inner_top n Hn1) as Top.
  assert (Hpz : 0 < P) by lia.
  pose proof (Z.mod_pos_bound (n - (1 + P)) P Hpz) as MB.
  assert (Valid_inner : forall i, 0 <= i < n_inner n ->
            get_pointer outer i <> 0 /\ s32 (get_pointer outer i) = get_pointer outer i /\
            0 <= get_pointer outer i < BLOCK_NUM).
  { intros i Hi. pose proof (in_ptr_blocks_inner (disk s) ino n i Hn1 Hi) as InB.
    destruct (WF_ptr_range Hgeo _ _ _ _ Hh W InB) as [VB [RB1 [RB2 [RB3 RB4]]]].
    destruct (block_number Hgeo _ _ Hh VB) as [B1 [B2 [B3 [B4 B5]]]].
    unfold outer_slot in *. fold outer in B4, B1, RB3 |- *. lia. }
  assert (Zero_outer : forall i, n_inner n <= i < P -> get_pointer outer i = 0).
  { intros i Hi. apply (Z5 Hn1 i Hi). }
  assert (Hzero : 0 <= 0 <= n_inner n) by lia.
  assert (Hfuel : Z.of_nat (Z.to_nat P) = P - 0) by (rewrite Z2Nat.id; lia).
  assert (Hlast : 0 <= n_inner n - 1 < n_inner n) by lia.
  assert (Hz : n_inner n < P ->
               get_pointer outer (n_inner n) = 0 /\
               0 <= s32 (get_pointer outer (n_inner n - 1)) < BLOCK_NUM).
  { intros Hlt. split; [apply Zero_outer; lia|].
    destruct (Valid_inner _ Hlast) as [_ [S32 B]]. rewrite S32. exact B. }
  rewrite (bind_run _ _ _ _ _
     (count_outer_spec outer (n_inner n) s (Z.to_nat P) 0 (1 + P)
        Hzero (proj2 NR) HK1 Hfuel
        (fun i Hi => proj1 (Valid_inner i Hi)) Hz)).
  unfold ret. f_equal.
  destruct (Z.ltb_spec (n_inner n) P) as [HKP|HKP].
  - (* the last inner block is not the last slot of the outer block *)
    assert (HT : n <= TOP) by (now apply Top).
    destruct (Z.ltb_spec TOP n); [lia|].
    destruct (Valid_inner (n_inner n - 1) Hlast) as [_ [S32 _]].
    rewrite S32.
    set (c := if (n - (1 + P)) mod P =? 0 then P else (n - (1 + P)) mod P) in *.
    assert (Hc : 0 < c <= P).
    { unfold c. destruct (Z.eqb_spec ((n - (1 + P)) mod P) 0); lia. }
    assert (CLi : count_leading (Z.to_nat P)
                    (disk s (get_pointer outer (n_inner n - 1))) 0 = c).
    { apply count_leading_spec.
      - rewrite Z2Nat.id by lia. lia.
      - intros k Hk.
        assert (Hprod : 0 <= (n_inner n - 1) * P) by (apply Z.mul_nonneg_nonneg; lia).
        assert (Hk1 : 0 <= 1 + P + (n_inner n - 1) * P + k < n) by lia.
        specialize (NZ _ Hk1). unfold l2p in NZ.
        destruct (Z.eqb_spec (1 + P + (n_inner n - 1) * P + k) 0); [lia|].
        destruct (Z.ltb_spec (1 + P + (n_inner n - 1) * P + k) (1 + P)); [lia|].
        cbv zeta in NZ.
        replace (1 + P + (n_inner n - 1) * P + k - (1 + P))
          with (k + (n_inner n - 1) * P) in NZ by lia.
        rewrite Z.div_add, Z.mod_add, Z.div_small, Z.mod_small in NZ by lia.
        unfold inner_slot, outer_slot in NZ. fold outer in NZ.
        rewrite Z.add_0_l in NZ. exact NZ.
      - rewrite Z2Nat.id by lia. intros Hlt. unfold c in Hlt.
        destruct (Z.eqb_spec ((n - (1 + P)) mod P) 0) as [Em|Em]; [lia|].
        pose proof (Z6 Hn1 Em ((n - (1 + P)) mod P)) as X.
        unfold inner_slot, outer_slot in X. fold outer in X.
        rewrite Tdiv in X. rewrite Z.add_0_l. unfold c.
        destruct (Z.eqb_spec ((n - (1 + P)) mod P) 0); [contradiction|].
        apply X. lia. }
    rewrite CLi. rewrite s32_small by lia. lia.
  - (* every slot of the outer block is in use *)
    assert (HT : TOP < n).
    { destruct (Z_lt_le_dec TOP n); [assumption|]. exfalso.
      assert (n_inner n < P) by (apply Top; lia). lia. }
    destruct (Z.ltb_spec TOP n); [|lia]. specialize (HC HT).
    assert (EC : 1 + P + (P - 0) * P = CAP) by (unfold CAP; lia).
    rewrite EC. apply s32_small. unfold CAP in *. nia.
Qed.

End Proxy.

(** * The resize loop *)

Section Loop.

Context {G : Geometry}.
Hypothesis Hgeo : geometry_ok = true.

Local Abbreviation P := POINTER_PER_BLOCK.

Lemma nblocks_step_pos n : 0 <= n -> 1 <= nblocks (n + 1) - nblocks n.
Proof.
  intros Hn. rewrite (nblocks_diff Hgeo n Hn).
  destruct (n =? 1); destruct (n =? 1 + P);
    destruct ((1 + P <=? n) && ((n - (1 + P)) mod P =? 0)); lia.
Qed.

Lemma nblocks_mono a b : 0 <= a <= b -> nblocks a <= nblocks b.
Proof.
  intros [Ha Hab]. replace b with (a + (b - a)) by lia.
  assert (Hk : 0 <= b - a) by lia. revert Hk. generalize (b - a).
  apply (natlike_ind (fun k => nblocks a <= nblocks (a + k))).
  - rewrite Z.add_0_r. lia.
  - intros k Hk IH. unfold Z.succ. rewrite Z.add_assoc.
    pose proof (nblocks_step_pos (a + k)). lia.
Qed.

(** At the capacity of the three tiers the grow branch indexes the outer
    pointer block behind its end, unless the allocator has nothing to
    give. *)
Lemma grow_at_cap s ino :
  live s = true -> WF (disk s) ino CAP ->
  grow_step ino CAP s = Fault \/
  (data_block_num_free (disk s 0) = 0 /\ grow_step ino CAP s = Ok (Rollback ino) s).
Proof.
  intros L W. pose proof (P_pos Hgeo) as HP. pose proof (live_hdr _ L) as Hh.
  assert (Hn1 : 1 + P < CAP) by (unfold CAP; nia).
  pose proof (in_ptr_blocks_iind (disk s) ino CAP Hn1) as InII.
  destruct (WF_ptr_range Hgeo _ _ _ _ Hh W InII) as [VII [RII1 [RII2 [RII3 RII4]]]].
  destruct (block_number Hgeo _ _ Hh VII) as [J1 [J2 [J3 [J4 J5]]]].
  assert (RII : 0 <= iindirect_pointer ino < BLOCK_NUM) by lia.
  assert (EO : CAP - (1 + P) = P * P) by (unfold CAP; lia).
  assert (Q : Z.quot (P * P) P = P) by (apply Z.quot_mul; lia).
  assert (R : Z.rem (P * P) P = 0) by (apply Z.rem_mul; lia).
  unfold grow_step. destruct (Z.ltb_spec CAP 1); [lia|].
  destruct (Z.ltb_spec CAP (1 + P)); [lia|].
  unfold grow_iindirect. cbv zeta. rewrite EO, Q, R. cbn [Z.eqb].
  destruct (Z.eqb_spec P 0); [lia|].
  unfold grow_iindirect_inner. cbv zeta. rewrite J4.
  rewrite (bind_run _ _ _ _ _ (from_blockno_total _ s RII)).
  destruct (alloc_does Hgeo s L) as [[F Run]|[F [x [s1 [Run [Nx D]]]]]];
    rewrite (bind_run _ _ _ _ _ Run).
  - right. split; [assumption|reflexivity].
  - left. rewrite Nx.
    destruct (alloc_fresh Hgeo s x s1 L D) as [[_ [Fb _]] _].
    assert (RX : 0 <= x < BLOCK_NUM).
    { destruct (hdr_ok_facts Hgeo _ Hh) as [F1 [F2 [F3 [F4 [F5 [F6 F7]]]]]]. lia. }
    rewrite (bind_run _ _ _ _ _ (from_blockno_total x s1 RX)).
    rewrite (bind_run _ _ _ _ _ (commit_run x zero_block s1)).
    unfold ptr_write. destruct (Z.ltb_spec P P); [lia|].
    rewrite andb_false_r. reflexivity.
Qed.

(** How the loop ends: at [need] blocks, or given up at some [k] on the
    way up, no more free blocks being there than the next step takes. *)
Definition loop_post (s : state) (ino : INode) (now need : Z)
    (r : loop_exit) (s' : state) : Prop :=
  match r with
  | Continue ino' =>
      step_post s s' ino now ino' need /\
      (now <= need -> grow_frame s s' ino ino' now need) /\
      (need < now -> shrunk_first s s' ino now)
  | Rollback ino' =>
      exists k, now <= k < need /\ step_post s s' ino now ino' k /\
                data_block_num_free (disk s 0) < nblocks (k + 1) - nblocks now
  end.

Lemma step_free s s' ino n ino' n' :
  step_post s s' ino n ino' n' ->
  data_block_num_free (disk s' 0)
  = u32 (data_block_num_free (disk s 0) - (nblocks n' - nblocks n)).
Proof.
  intros [_ _ _ [Lw [La [E _]]] _ _ _]. apply (ev_free _ _ _ _ _ E).
Qed.

Lemma step_offset s s' ino n ino' n' :
  step_post s s' ino n ino' n' ->
  data_block_offset (disk s' 0) = data_block_offset (disk s 0).
Proof.
  intros [_ _ _ [Lw [La [E _]]] _ _ _].
  destruct (ev_geom _ _ _ _ _ E) as [S1 [S2 [S3 [S4 [S5 S6]]]]]. congruence.
Qed.

Lemma loop_stop s ino n :
  live s = true -> WF (disk s) ino n -> loop_post s ino n n (Continue ino) s.
Proof.
  intros L W. cbn [loop_post]. split; [now apply step_refl|].
  split; [intros _; apply grow_frame_refl|intros H; lia].
Qed.

Lemma resize_loop_run fuel : forall need now ino s,
  live s = true -> WF (disk s) ino now -> 0 <= need ->
  Z.abs (need - now) <= Z.of_nat fuel ->
  (CAP < need /\ resize_loop fuel need now ino s = Fault) \/
  exists r s', resize_loop fuel need now ino s = Ok r s' /\
               loop_post s ino now need r s'.
Proof.
  induction fuel as [|f IH]; intros need now ino s L W Hneed Hf;
    pose proof (WF_n _ _ _ W) as Hnow.
  - assert (now = need) by lia. subst now. right.
    exists (Continue ino), s. cbn [resize_loop]. rewrite Z.eqb_refl.
    split; [reflexivity|]. now apply loop_stop.
  - cbn [resize_loop]. rewrite Nat2Z.inj_succ in Hf.
    destruct (Z.eqb_spec now need) as [E|E].
    { subst now. right. exists (Continue ino), s.
      split; [reflexivity|]. now apply loop_stop. }
    destruct (Z.ltb_spec now need) as [Hlt|Hge].
    + (* grow *)
      destruct (Z_lt_le_dec now CAP) as [HC|HC].
      * destruct (grow_step_ok Hgeo s ino now L W HC) as [r [s1 [Run Post]]].
        rewrite (bind_run _ _ _ _ _ Run). destruct r as [ino1|ino1]; cbn [grow_post] in Post.
        -- destruct Post as [Post Fr1].
           assert (Hf1 : Z.abs (need - (now + 1)) <= Z.of_nat f) by lia.
           destruct (IH need (now + 1) ino1 s1 (sp_live _ _ _ _ _ _ Post)
                       (sp_wf _ _ _ _ _ _ Post) Hneed Hf1)
             as [[HF RunF]|[r' [s' [Run' Post']]]].
           ++ left. auto.
           ++ right. exists r', s'. split; [assumption|].
              destruct r' as [ino2|ino2]; cbn [loop_post] in *.
              ** destruct Post' as [Post' [Fr2 _]].
                 split; [eapply step_trans; eassumption|].
                 split; [intros _|intros H; lia].
                 apply (grow_frame_trans s s1 s' ino ino1 ino2 now (now + 1) need
                          (step_offset _ _ _ _ _ _ Post)); [lia|exact Fr1|].
                 apply Fr2. lia.
              ** destruct Post' as [k [Hk [SP Fr]]]. exists k.
                 split; [lia|]. split; [eapply step_trans; eassumption|].
                 rewrite (step_free _ _ _ _ _ _ Post) in Fr.
                 pose proof (free_range s) as Rf.
                 pose proof (nblocks_step_pos now (proj1 Hnow)) as Sp.
                 assert (Mo : nblocks (now + 1) <= nblocks (k + 1))
                   by (apply nblocks_mono; lia).
                 pose proof (u32_range (data_block_num_free (disk s 0)
                                        - (nblocks (now + 1) - nblocks now))) as Ur.
                 assert (X : u32 (data_block_num_free (disk s 0)
                                  - (nblocks (now + 1) - nblocks now))
                             <= nblocks (k + 1) - nblocks (now + 1) - 1) by lia.
                 apply free_bound_le in X; lia.
        -- right. exists (Rollback ino1), s1. split; [reflexivity|].
           cbn [loop_post]. destruct Post as [SP Fr]. exists now.
           split; [lia|]. split; assumption.
      * assert (now = CAP) by lia. subst now.
        destruct (grow_at_cap s ino L W) as [RunF|[F Run]].
        -- left. split; [lia|]. unfold bind. now rewrite RunF.
        -- right. rewrite (bind_run _ _ _ _ _ Run).
           exists (Rollback ino), s. split; [reflexivity|]. cbn [loop_post].
           exists CAP. split; [lia|]. split; [now apply step_refl|].
           pose proof (nblocks_step_pos CAP (proj1 Hnow)). lia.
    + (* shrink *)
      assert (Hn1 : 1 <= now) by lia.
      destruct (shrink_step_ok Hgeo s ino now L W Hn1) as [ino1 [s1 [Run [Post Sh]]]].
      rewrite (bind_run _ _ _ _ _ Run).
      assert (Hf1 : Z.abs (need - (now - 1)) <= Z.of_nat f) by lia.
      destruct (IH need (now - 1) ino1 s1 (sp_live _ _ _ _ _ _ Post)
                  (sp_wf _ _ _ _ _ _ Post) Hneed Hf1)
        as [[HF RunF]|[r' [s' [Run' Post']]]].
      * left. auto.
      * right. exists r', s'. split; [assumption|].
        destruct r' as [ino2|ino2]; cbn [loop_post] in *.
        -- destruct Post' as [Post' _].
           split; [eapply step_trans; eassumption|].
           split; [intros H; lia|intros _].
           destruct (sp_trace _ _ _ _ _ _ Post') as [ws T].
           destruct Sh as [rest Sh]. exists (ws ++ rest).
           rewrite (tr_writes _ _ _ T), Sh, <- app_assoc. reflexivity.
        -- destruct Post' as [k [Hk _]]. lia.
Qed.

End Loop.

(** * [DataProxy::resize] *)

Section Resize.

Context {G : Geometry}.
Hypothesis Hgeo : geometry_ok = true.

Local Abbreviation P := POINTER_PER_BLOCK.

(** [block_need] as [resize] computes it from its [size_t] argument. *)
Definition need_of (size : Z) : Z :=
  Z.max 0 (s32 (u64 (size + BLOCK_SIZE - 1) / BLOCK_SIZE)).

(** The file [inodeno] of the live state [s] has [n] blocks. *)
Definition file_at (s : state) (inodeno n : Z) : Prop :=
  live s = true /\ inode_ok (disk s 0) inodeno = true /\
  WF (disk s) (inode_at (disk s) inodeno) n.

Lemma need_of_small size :
  0 <= size < 2 ^ 32 -> need_of size = blocks_for size /\ 0 <= blocks_for size < 2 ^ 31.
Proof.
  intros H. destruct (geo_block_size Hgeo) as [B1 [_ B2]].
  unfold need_of, blocks_for.
  assert (0 <= (size + BLOCK_SIZE - 1) / BLOCK_SIZE) by (apply Z.div_pos; lia).
  assert ((size + BLOCK_SIZE - 1) / BLOCK_SIZE < 2 ^ 31)
    by (apply Z.div_lt_upper_bound; lia).
  rewrite u64_small by lia. rewrite s32_small by lia. lia.
Qed.

Lemma need_of_nonneg size : 0 <= need_of size.
Proof. unfold need_of. lia. Qed.

Lemma inode_ok_geom h h' inodeno :
  same_geometry h h' -> inode_ok h' inodeno = inode_ok h inodeno.
Proof.
  intros [S1 [S2 [S3 [S4 [S5 S6]]]]]. unfold inode_ok. now rewrite S3, S6.
Qed.

(** The lists and the invariant look at the three pointers only. *)
Lemma WF_fields d ino ino' n :
  WF d ino n -> same_ptrs ino ino' -> inode_norm ino' = true ->
  WF d ino' n /\ owned d ino' n = owned d ino n.
Proof.
  intros W SP N. apply (WF_same Hgeo d d ino ino' n W SP N).
  - intros b Hb j. reflexivity.
  - intros b Hb. now apply (WF_owned_valid d ino n).
Qed.

Lemma norm_inode_ptrs v :
  inode_norm v = true -> same_ptrs v (norm_inode v) /\ inode_norm (norm_inode v) = true /\
  filesize (norm_inode v) = filesize v.
Proof.
  intros N. pose proof N as N'. apply inode_norm_facts in N'.
  destruct N' as [N1 [N2 [N3 N4]]]. unfold same_ptrs, norm_inode.
  rewrite (u32_small (filesize v)), (u32_small (direct_pointer v)),
    (u32_small (indirect_pointer v)), (u32_small (iindirect_pointer v)) by lia.
  cbn [direct_pointer indirect_pointer iindirect_pointer filesize].
  split; [auto|]. split; [|reflexivity].
  apply inode_norm_facts.
  cbn [direct_pointer indirect_pointer iindirect_pointer filesize]. auto.
Qed.

(** Committing the in-memory inode [v] of a file of [m] blocks. *)
Lemma commit_file s inodeno v m :
  live s = true -> inode_ok (disk s 0) inodeno = true -> WF (disk s) v m ->
  let s' := put_inode s inodeno v in
  file_at s' inodeno m /\ disk s' 0 = disk s 0 /\ clock s' = clock s /\
  inode_at (disk s') inodeno = norm_inode v /\
  filesize (inode_at (disk s') inodeno) = filesize v /\
  owned (disk s') (inode_at (disk s') inodeno) m = owned (disk s) v m /\
  (forall b, data_block_offset (disk s 0) <= b -> disk s' b = disk s b) /\
  (forall b, valid_block (disk s') b = valid_block (disk s) b).
Proof.
  intros L Ho W. pose proof (live_hdr _ L) as Hh.
  destruct (put_inode_facts Hgeo s inodeno v L Ho)
    as [L' [E0 [Ei [Fd [Fl [Fv [Fc Fo]]]]]]].
  cbv zeta in *. set (s' := put_inode s inodeno v) in *.
  destruct (norm_inode_ptrs v (WF_norm _ _ _ W)) as [SP [N Fs]].
  destruct (WF_same Hgeo (disk s) (disk s') v (norm_inode v) m W SP N) as [W' EO].
  - intros b Hb j. destruct (WF_ptr_range Hgeo _ _ _ _ Hh W Hb) as [_ [Rb _]].
    rewrite Fd by lia. reflexivity.
  - intros b Hb. rewrite Fv. now apply (WF_owned_valid (disk s) v m).
  - assert (Ho' : inode_ok (disk s' 0) inodeno = true) by (rewrite E0; assumption).
    rewrite Ei.
    split; [unfold file_at; rewrite Ei; auto|]. split; [assumption|].
    split; [assumption|]. split; [reflexivity|]. split; [assumption|].
    split; [assumption|]. split; assumption.
Qed.

(** The lists of a file read the pointer blocks only. *)
Lemma same_file d d' ino ino' n :
  hdr_ok (d 0) = true -> WF d ino n -> same_ptrs ino ino' ->
  (forall b, data_block_offset (d 0) <= b -> d' b = d b) ->
  ptr_blocks d' ino' n = ptr_blocks d ino n /\
  forall k, 0 <= k < n -> l2p d' ino' k = l2p d ino k.
Proof.
  intros Hh W [E1 [E2 E3]] Fr.
  assert (A : forall b, In b (ptr_blocks d ino n) -> same_slots d d' b).
  { intros b Hb j. destruct (WF_ptr_range Hgeo _ _ _ _ Hh W Hb) as [_ [Rb _]].
    rewrite Fr by lia. reflexivity. }
  split.
  - rewrite <- (ptr_blocks_agree d d' ino n A).
    unfold ptr_blocks, outer_slot. now rewrite E2, E3.
  - intros k Hk. rewrite <- (l2p_agree Hgeo d d' ino n k A Hk).
    unfold l2p, ind_slot, inner_slot, outer_slot. now rewrite E1, E2, E3.
Qed.

(** The pointers of the record of a well-formed file are null or name
    allocated blocks. *)
Lemma WF_ptrs_fine d v n old :
  hdr_ok (d 0) = true -> WF d v n -> inode_ptrs_fine d old (norm_inode v) = true.
Proof.
  intros Hh W. pose proof (P_pos Hgeo) as HP. pose proof (WF_n _ _ _ W) as Hn.
  pose proof (WF_norm _ _ _ W) as N. apply inode_norm_facts in N.
  destruct N as [N1 [N2 [N3 N4]]].
  pose proof (WF_zeros _ _ _ W) as Zr. apply zeros_ok_facts in Zr.
  destruct Zr as [Z1 [Z2 [_ [Z4 _]]]].
  unfold inode_ptrs_fine, ptr_fine, norm_inode.
  cbn [direct_pointer indirect_pointer iindirect_pointer].
  rewrite (u32_small (direct_pointer v)), (u32_small (indirect_pointer v)),
    (u32_small (iindirect_pointer v)) by lia.
  rewrite !andb_true_iff. split; [split|].
  - destruct (Z.eq_dec n 0) as [E|E].
    + rewrite (Z1 E). reflexivity.
    + assert (Hk : 0 <= 0 < n) by lia.
      pose proof (WF_data _ _ _ W _ (in_data_blocks d v n 0 Hk)) as V.
      change (l2p d v 0) with (direct_pointer v) in V. rewrite V.
      now rewrite orb_true_r.
  - destruct (Z_le_gt_dec n 1) as [E|E].
    + rewrite (Z2 E). reflexivity.
    + assert (Hi : 2 <= n) by lia.
      destruct (WF_ptr_range Hgeo _ _ _ _ Hh W (in_ptr_blocks_ind d v n Hi)) as [V _].
      rewrite V. now rewrite orb_true_r.
  - destruct (Z_le_gt_dec n (1 + P)) as [E|E].
    + rewrite (Z4 E). reflexivity.
    + assert (Hi : 1 + P < n) by lia.
      destruct (WF_ptr_range Hgeo _ _ _ _ Hh W (in_ptr_blocks_iind d v n Hi)) as [V _].
      rewrite V. now rewrite orb_true_r.
Qed.

(** The write of [INodeProxy::commit] stores fine pointers. *)
Lemma commit_traced s inodeno v m :
  live s = true -> inode_ok (disk s 0) inodeno = true -> WF (disk s) v m ->
  exists w, traced s (put_inode s inodeno v) [w] /\
            fst w < data_block_offset (disk s 0).
Proof.
  intros L Ho W. pose proof (live_hdr _ L) as Hh.
  destruct (inode_ok_facts Hgeo _ _ Hh Ho) as [Hi [E [R1 R]]].
  destruct (geo_inodes Hgeo) as [_ HI].
  set (blk := inode_block_offset (disk s 0) + inodeno / INODE_IN_BLOCK) in *.
  set (b := store_inode (disk s blk) (inodeno mod INODE_IN_BLOCK) v).
  exists (blk, b). split; [|cbn [fst]; lia]. constructor.
  - reflexivity.
  - reflexivity.
  - cbn [writes_ok replay andb]. unfold write_ok. cbn [fst snd].
    destruct (Z.leb_spec (data_block_offset (disk s 0)) blk); [lia|].
    destruct (Z.leb_spec (inode_block_offset (disk s 0)) blk); [|lia].
    apply forallb_forall. intros k Hk. apply zrange_In in Hk.
    destruct (Z.eq_dec (inodeno mod INODE_IN_BLOCK) k) as [<-|Hne].
    + unfold b. rewrite load_store_inode. now apply (WF_ptrs_fine _ _ m).
    + unfold b. rewrite load_store_inode_other by assumption.
      unfold inode_ptrs_fine, ptr_fine. rewrite !Z.eqb_refl, !orb_true_r. reflexivity.
Qed.

(** [resize] up to its loop. *)
Lemma resize_head depth inodeno size s n :
  file_at s inodeno n -> (TOP < n -> n = CAP /\ CAP < 2 ^ 31) ->
  let ino0 := set_ctime (inode_at (disk s) inodeno) (clock s) in
  WF (disk s) ino0 n /\
  resize (S depth) inodeno size s
  = (r <- resize_loop (Z.to_nat (Z.abs (need_of size - n))) (need_of size) n ino0 ;;
     match r with
     | Continue inode =>
         INodeProxy_commit inodeno (set_filesize inode size) ;;; ret 0
     | Rollback inode =>
         INodeProxy_commit inodeno inode ;;;
         _ <- resize depth inodeno (filesize ino0) ;; ret ENOSPC
     end) s.
Proof.
  intros [L [Ho W]] HT. pose proof (live_hdr _ L) as Hh. cbv zeta. split.
  - apply (WF_fields _ (inode_at (disk s) inodeno)); [assumption| |].
    + unfold same_ptrs. cbn. auto.
    + pose proof (WF_norm _ _ _ W) as N. apply inode_norm_facts in N.
      apply inode_norm_facts. cbn. assumption.
  - assert (Seen : seen_blocks n = n).
    { unfold seen_blocks. destruct (Z.ltb_spec TOP n) as [H|H]; [|reflexivity].
      destruct (HT H) as [-> _]. reflexivity. }
    assert (HC : TOP < n -> CAP < 2 ^ 31) by (intros H; apply (HT H)).
    cbn [resize].
    rewrite (bind_run _ _ _ _ _ (get_block_size_spec Hgeo s inodeno n Hh Ho W HC)), Seen.
    rewrite (bind_run _ _ _ _ _ (INodeProxy_run Hgeo s inodeno Hh Ho)).
    unfold time at 1. unfold bind at 1. reflexivity.
Qed.

(** What the loop and the commit behind it make of the file. *)
Record resized (s s' : state) (inodeno n n' : Z) : Prop := mkResized {
  rs_file : file_at s' inodeno n';
  rs_geom : same_geometry (disk s 0) (disk s' 0);
  rs_free : data_block_num_free (disk s' 0)
            = u32 (data_block_num_free (disk s 0) - (nblocks n' - nblocks n));
  rs_ifree : inode_num_free (disk s' 0) = inode_num_free (disk s 0);
  rs_clock : clock s' = clock s;
  rs_trace : exists ws, traced s s' ws
}.

Lemma after_loop s s1 inodeno ino0 n ino1 n1 v :
  live s = true -> inode_ok (disk s 0) inodeno = true ->
  step_post s s1 ino0 n ino1 n1 ->
  same_ptrs ino1 v -> inode_norm v = true ->
  let s' := put_inode s1 inodeno v in
  resized s s' inodeno n n1 /\
  INodeProxy_commit inodeno v s1 = Ok tt s' /\
  filesize (inode_at (disk s') inodeno) = filesize v /\
  (ptr_blocks (disk s') (inode_at (disk s') inodeno) n1 = ptr_blocks (disk s1) ino1 n1 /\
   forall k, 0 <= k < n1 ->
     l2p (disk s') (inode_at (disk s') inodeno) k = l2p (disk s1) ino1 k) /\
  (forall b, data_block_offset (disk s1 0) <= b -> disk s' b = disk s1 b) /\
  (forall b, valid_block (disk s') b = valid_block (disk s1) b) /\
  exists w, writes s' = w :: writes s1.
Proof.
  intros L Ho SP Sp N. pose proof (sp_live _ _ _ _ _ _ SP) as L1.
  destruct (sp_ev _ _ _ _ _ _ SP) as [Lw [La [E _]]].
  pose proof (ev_geom _ _ _ _ _ E) as SG.
  assert (Ho1 : inode_ok (disk s1 0) inodeno = true)
    by (rewrite (inode_ok_geom _ _ inodeno SG); assumption).
  destruct (WF_fields _ _ v _ (sp_wf _ _ _ _ _ _ SP) Sp N) as [Wv _].
  destruct (commit_file s1 inodeno v n1 L1 Ho1 Wv)
    as [F [E0 [Ec [Ei [Fs [_ [Fd Fv]]]]]]]. cbv zeta in *.
  split; [|split; [|split; [|split; [|split; [|split]]]]].
  - constructor; auto; rewrite ?E0.
    + assumption.
    + apply (ev_free _ _ _ _ _ E).
    + apply (ev_ifree _ _ _ _ _ E).
    + rewrite Ec. apply (sp_clock _ _ _ _ _ _ SP).
    + destruct (sp_trace _ _ _ _ _ _ SP) as [ws T].
      destruct (commit_traced s1 inodeno v n1 L1 Ho1 Wv) as [w [T' _]].
      exists ([w] ++ ws). eapply traced_trans; eassumption.
  - apply (INodeProxy_commit_run Hgeo); [apply (live_hdr _ L1)|assumption].
  - assumption.
  - rewrite Ei. destruct (norm_inode_ptrs v N) as [[P1 [P2 P3]] _].
    destruct Sp as [Q1 [Q2 Q3]].
    apply (same_file (disk s1) _ ino1 _ n1 (live_hdr _ L1) (sp_wf _ _ _ _ _ _ SP)).
    + unfold same_ptrs. rewrite P1, P2, P3. auto.
    + assumption.
  - assumption.
  - assumption.
  - eexists. reflexivity.
Qed.

(** What a call that returns 0 leaves of the blocks of the file:
    growing, the pointer blocks stay and no other block of the data
    region is written; shrinking, the first two writes release the last
    block. *)
Definition resize_frame (s s' : state) (inodeno n n' : Z) : Prop :=
  (n <= n' -> grow_frame s s' (inode_at (disk s) inodeno)
                         (inode_at (disk s') inodeno) n n') /\
  (n' < n -> shrunk_first s s' (inode_at (disk s) inodeno) n).

(** The three ways a call of [resize] goes on a well-formed file. *)
Lemma resize_cases_frame depth inodeno size s n :
  file_at s inodeno n -> (TOP < n -> n = CAP /\ CAP < 2 ^ 31) ->
  let size_orig := filesize (inode_at (disk s) inodeno) in
  (CAP < need_of size /\ resize (S depth) inodeno size s = Fault) \/
  (exists s', resize (S depth) inodeno size s = Ok 0 s' /\
              resized s s' inodeno n (need_of size) /\
              filesize (inode_at (disk s') inodeno) = u32 size /\
              resize_frame s s' inodeno n (need_of size)) \/
  (exists k s2, n <= k < need_of size /\
      data_block_num_free (disk s 0) < nblocks (k + 1) - nblocks n /\
      resized s s2 inodeno n k /\
      filesize (inode_at (disk s2) inodeno) = size_orig /\
      resize (S depth) inodeno size s
      = (_ <- resize depth inodeno size_orig ;; ret ENOSPC) s2).
Proof.
  intros F HT. pose proof F as [L [Ho W]]. cbv zeta.
  destruct (resize_head depth inodeno size s n F HT) as [W0 Eq]. cbv zeta in *.
  rewrite Eq. clear Eq.
  set (ino0 := set_ctime (inode_at (disk s) inodeno) (clock s)) in *.
  assert (Hfuel : Z.abs (need_of size - n)
                  <= Z.of_nat (Z.to_nat (Z.abs (need_of size - n))))
    by (rewrite Z2Nat.id; lia).
  destruct (resize_loop_run Hgeo _ (need_of size) n ino0 s L W0
              (need_of_nonneg size) Hfuel)
    as [[HF RunF]|[r [s1 [Run Post]]]].
  - left. split; [assumption|]. unfold bind. now rewrite RunF.
  - right. rewrite (bind_run _ _ _ _ _ Run).
    destruct r as [ino1|ino1]; cbn [loop_post] in Post.
    + left. set (v := set_filesize ino1 size). destruct Post as [Post [Fr Sh]].
      pose proof (WF_norm _ _ _ (sp_wf _ _ _ _ _ _ Post)) as N1.
      assert (Sp : same_ptrs ino1 v) by (unfold same_ptrs; cbn; auto).
      assert (N : inode_norm v = true).
      { apply inode_norm_facts in N1. apply inode_norm_facts. cbn.
        pose proof (u32_range size). tauto. }
      destruct (after_loop s s1 inodeno ino0 n ino1 _ v L Ho Post Sp N)
        as [R [Run2 [Fs [[EP EL] [Fd [Fv [w Ew]]]]]]]. cbv zeta in *.
      exists (put_inode s1 inodeno v). rewrite (bind_run _ _ _ _ _ Run2).
      split; [reflexivity|]. split; [assumption|].
      split; [rewrite Fs; reflexivity|]. split.
      * intros H. destruct (Fr H) as [I1 I2 I3 I4 I5]. constructor.
        -- rewrite EP. exact I1.
        -- intros b Hb Hn. rewrite EP in Hn.
           rewrite Fd by (rewrite (step_offset _ _ _ _ _ _ Post); assumption).
           now apply I2.
        -- intros k Hk. rewrite EL by lia. now apply I3.
        -- intros k Hk. rewrite EL by (pose proof (WF_n _ _ _ W); lia). now apply I4.
        -- intros b Hb. rewrite Fv. now apply I5.
      * intros H. destruct (Sh H) as [rest Er]. exists (w :: rest).
        rewrite Ew, Er. reflexivity.
    + right. destruct Post as [k [Hk [SP Fr]]].
      pose proof (WF_norm _ _ _ (sp_wf _ _ _ _ _ _ SP)) as N1.
      assert (Sp : same_ptrs ino1 ino1) by (unfold same_ptrs; auto).
      destruct (after_loop s s1 inodeno ino0 n ino1 _ ino1 L Ho SP Sp N1)
        as [R [Run2 [Fs _]]]. cbv zeta in *.
      exists k, (put_inode s1 inodeno ino1). rewrite (bind_run _ _ _ _ _ Run2).
      split; [assumption|]. split; [assumption|]. split; [assumption|].
      split; [|reflexivity].
      rewrite Fs. destruct (sp_kept _ _ _ _ _ _ SP) as [_ [Kf _]]. rewrite Kf.
      reflexivity.
Qed.

Lemma resize_cases depth inodeno size s n :
  file_at s inodeno n -> (TOP < n -> n = CAP /\ CAP < 2 ^ 31) ->
  let size_orig := filesize (inode_at (disk s) inodeno) in
  (CAP < need_of size /\ resize (S depth) inodeno size s = Fault) \/
  (exists s', resize (S depth) inodeno size s = Ok 0 s' /\
              resized s s' inodeno n (need_of size) /\
              filesize (inode_at (disk s') inodeno) = u32 size) \/
  (exists k s2, n <= k < need_of size /\
      data_block_num_free (disk s 0) < nblocks (k + 1) - nblocks n /\
      resized s s2 inodeno n k /\
      filesize (inode_at (disk s2) inodeno) = size_orig /\
      resize (S depth) inodeno size s
      = (_ <- resize depth inodeno size_orig ;; ret ENOSPC) s2).
Proof.
  intros F HT.
  destruct (resize_cases_frame depth inodeno size s n F HT)
    as [C1|[[s' [Run [R [Fs _]]]]|C3]]; [now left| |now right; right].
  right. left. exists s'. auto.
Qed.

(** A call that asks for no more blocks than the file has returns 0. *)
Lemma resize_down depth inodeno size s n :
  file_at s inodeno n -> (TOP < n -> n = CAP /\ CAP < 2 ^ 31) ->
  need_of size <= n ->
  exists s', resize (S depth) inodeno size s = Ok 0 s' /\
             resized s s' inodeno n (need_of size) /\
             filesize (inode_at (disk s') inodeno) = u32 size.
Proof.
  intros F HT Hle. pose proof F as [_ [_ W]]. pose proof (WF_n _ _ _ W) as Hn.
  destruct (resize_cases depth inodeno size s n F HT)
    as [[HF _]|[Ok0|[k [s2 [Hk _]]]]]; [lia|assumption|lia].
Qed.

Lemma free_data_zero s :
  hdr_ok (disk s 0) = true -> free_data 0 s = Abort.
Proof.
  intros Hh. destruct (hdr_ok_facts Hgeo _ Hh) as [F1 [F2 [F3 [F4 [F5 [F6 F7]]]]]].
  assert (H0 : 0 <= 0 < BLOCK_NUM) by lia.
  unfold free_data, get_header.
  rewrite (bind_run _ _ _ _ _ (from_blockno_total 0 s H0)).
  rewrite s32_u32_neg by lia.
  destruct (Z.leb_spec 0 (0 - data_block_offset (disk s 0))); [lia|]. reflexivity.
Qed.

(** Between [TOP] and [CAP] blocks [get_block_size] reports [CAP], and
    the shrink branch then releases a block that is not there: the
    assertion of [free_data] stops the program. *)
Lemma resize_stuck depth inodeno size s k :
  file_at s inodeno k -> TOP < k < CAP -> CAP < 2 ^ 31 -> need_of size < CAP ->
  resize (S depth) inodeno size s = Abort.
Proof.
  intros [L [Ho W]] Hk HC Hneed. pose proof (P_pos Hgeo) as HP.
  pose proof (live_hdr _ L) as Hh. destruct (CAP_TOP Hgeo) as [CT1 CT2].
  assert (Hn1 : 1 + P < k) by lia.
  set (ino := inode_at (disk s) inodeno) in *.
  set (ino0 := set_ctime ino (clock s)).
  assert (HCk : TOP < k -> CAP < 2 ^ 31) by auto.
  assert (Seen : seen_blocks k = CAP).
  { unfold seen_blocks. destruct (Z.ltb_spec TOP k); [reflexivity|lia]. }
  destruct (tier_total Hgeo k Hn1) as [HK1 [Tot Tdiv]].
  pose proof (inner_top Hgeo k Hn1) as Top.
  pose proof (n_inner_range Hgeo k (WF_n _ _ _ W)) as NR.
  assert (NI : n_inner k = P).
  { destruct (Z_lt_le_dec (n_inner k) P) as [Hlt|Hge]; [|lia].
    apply Top in Hlt. lia. }
  assert (Hpz : 0 < P) by lia.
  pose proof (Z.mod_pos_bound (k - (1 + P)) P Hpz) as MB.
  assert (Em : (k - (1 + P)) mod P <> 0).
  { intros E. rewrite E in Tot. cbn [Z.eqb] in Tot. rewrite NI in Tot.
    unfold CAP in Hk. nia. }
  assert (Ed : (k - (1 + P)) / P = P - 1).
  { rewrite Tdiv. destruct (Z.eqb_spec ((k - (1 + P)) mod P) 0); [contradiction|lia]. }
  pose proof (WF_zeros _ _ _ W) as Zr. apply zeros_ok_facts in Zr.
  destruct Zr as [Z1 [Z2 [Z3 [Z4 [Z5 Z6]]]]].
  assert (Zlast : inner_slot (disk s) ino (P - 1) (P - 1) = 0).
  { rewrite <- Ed at 1. apply (Z6 Hn1 Em). lia. }
  pose proof (in_ptr_blocks_iind (disk s) ino k Hn1) as InII.
  destruct (WF_ptr_range Hgeo _ _ _ _ Hh W InII) as [VII [RII1 [RII2 [RII3 RII4]]]].
  destruct (block_number Hgeo _ _ Hh VII) as [_ [_ [_ [SII _]]]].
  assert (Hi : 0 <= P - 1 < n_inner k) by lia.
  pose proof (in_ptr_blocks_inner (disk s) ino k (P - 1) Hn1 Hi) as InB.
  destruct (WF_ptr_range Hgeo _ _ _ _ Hh W InB) as [VB [RB1 [RB2 [RB3 RB4]]]].
  destruct (block_number Hgeo _ _ Hh VB) as [_ [_ [_ [SB _]]]].
  assert (RII : 0 <= iindirect_pointer ino < BLOCK_NUM) by lia.
  assert (RB : 0 <= outer_slot (disk s) ino (P - 1) < BLOCK_NUM) by lia.
  assert (Hm' : 1 + P <= CAP - 1 < CAP) by (unfold CAP; nia).
  destruct (tier_index Hgeo (CAP - 1) Hm') as [Ti [Tj [Tn [Q1 Q2]]]]. cbv zeta in *.
  assert (EO : CAP - 1 - (1 + P) = (P - 1) + (P - 1) * P) by (unfold CAP; lia).
  assert (D1 : (CAP - 1 - (1 + P)) / P = P - 1).
  { rewrite EO, Z.div_add, Z.div_small by lia. lia. }
  assert (M1 : (CAP - 1 - (1 + P)) mod P = P - 1).
  { rewrite EO, Z.mod_add, Z.mod_small by lia. lia. }
  cbn [resize].
  rewrite (bind_run _ _ _ _ _ (get_block_size_spec Hgeo s inodeno k Hh Ho W HCk)), Seen.
  rewrite (bind_run _ _ _ _ _ (INodeProxy_run Hgeo s inodeno Hh Ho)).
  unfold time at 1. unfold bind at 1. fold ino. fold ino0.
  fold (need_of size).
  pose proof (need_of_nonneg size) as Hn0.
  destruct (Z.to_nat (Z.abs (need_of size - CAP))) as [|f] eqn:Ef; [lia|].
  cbn [resize_loop].
  destruct (Z.eqb_spec CAP (need_of size)); [lia|].
  destruct (Z.ltb_spec CAP (need_of size)); [lia|].
  assert (Stuck : shrink_step ino0 CAP s = Abort).
  { unfold shrink_step. cbv zeta.
    destruct (Z.ltb_spec (CAP - 1) 1); [lia|].
    destruct (Z.ltb_spec (CAP - 1) (1 + P)); [lia|].
    rewrite Q1, Q2, D1, M1.
    cbn [iindirect_pointer ino0 set_ctime]. rewrite SII.
    rewrite (bind_run _ _ _ _ _ (from_blockno_total _ s RII)).
    unfold ptr_read. assert (Hr : 0 <= P - 1 < P) by lia.
    rewrite (in_range_true _ _ Hr), bind_ret.
    fold (outer_slot (disk s) ino (P - 1)). rewrite SB.
    rewrite (bind_run _ _ _ _ _ (from_blockno_total _ s RB)), bind_ret.
    fold (inner_slot (disk s) ino (P - 1) (P - 1)). rewrite Zlast.
    change (s32 0) with 0. unfold bind at 1. now rewrite (free_data_zero s Hh). }
  unfold bind. rewrite Stuck. reflexivity.
Qed.

End Resize.

(** * What [resize] guarantees *)

Section ResizeClaims.

Context {G : Geometry}.
Hypothesis Hgeo : geometry_ok = true.

Local Abbreviation P := POINTER_PER_BLOCK.

Lemma fs_wf_facts s inodeno :
  fs_wf s inodeno = true ->
  let n := blocks_for (filesize (inode_at (disk s) inodeno)) in
  hdr_ok (disk s 0) = true /\ inode_ok (disk s 0) inodeno = true /\
  WF (disk s) (inode_at (disk s) inodeno) n /\ 0 <= n <= TOP /\
  need_of (filesize (inode_at (disk s) inodeno)) = n.
Proof.
  unfold fs_wf. intros H. cbv zeta in *. b2p.
  match goal with W : wf_mem _ _ _ = true |- _ => apply wf_mem_WF in W; rename W into W0 end.
  pose proof (WF_n _ _ _ W0) as Hn.
  assert (Rf : 0 <= filesize (inode_at (disk s) inodeno) < 2 ^ 32)
    by (apply get32_range).
  destruct (need_of_small Hgeo _ Rf) as [E _].
  split; [assumption|]. split; [assumption|]. split; [assumption|].
  split; [lia|assumption].
Qed.

Lemma fs_wf_file s inodeno :
  live s = true -> fs_wf s inodeno = true ->
  file_at s inodeno (blocks_for (filesize (inode_at (disk s) inodeno))).
Proof.
  intros L H. destruct (fs_wf_facts s inodeno H) as [_ [Ho [W _]]].
  unfold file_at. auto.
Qed.

Lemma file_fs_wf s inodeno :
  file_at s inodeno (blocks_for (filesize (inode_at (disk s) inodeno))) ->
  blocks_for (filesize (inode_at (disk s) inodeno)) <= TOP ->
  fs_wf s inodeno = true.
Proof.
  intros [L [Ho W]] HT. destruct (live_facts _ L) as [_ [_ [Hh [Hm _]]]].
  unfold fs_wf. cbv zeta. rewrite Hh, Ho. apply wf_mem_WF in W. rewrite W.
  cbn [andb]. b2p; lia.
Qed.

Lemma file_block_size s inodeno n :
  file_at s inodeno n -> n <= TOP -> get_block_size inodeno s = Ok n s.
Proof.
  intros [L [Ho W]] HT.
  rewrite (get_block_size_spec Hgeo s inodeno n (live_hdr _ L) Ho W) by lia.
  unfold seen_blocks. destruct (Z.ltb_spec TOP n); [lia|reflexivity].
Qed.

Lemma u32_back f a : 0 <= f < 2 ^ 32 -> u32 (u32 (f - a) - (- a)) = f.
Proof.
  intros H. unfold Z.sub. rewrite u32_add_l.
  replace (f + - a + - - a) with f by lia. now apply u32_small.
Qed.

(** After a grow to [k] blocks and a shrink back to [n]. *)
Lemma rollback_end s s2 s3 inodeno k :
  let n := blocks_for (filesize (inode_at (disk s) inodeno)) in
  n <= TOP ->
  resized s s2 inodeno n k -> resized s2 s3 inodeno k n ->
  filesize (inode_at (disk s3) inodeno)
  = u32 (filesize (inode_at (disk s) inodeno)) ->
  filesize (inode_at (disk s3) inodeno) = filesize (inode_at (disk s) inodeno) /\
  get_block_size inodeno s3 = Ok n s3 /\
  data_block_num_free (disk s3 0) = data_block_num_free (disk s 0) /\
  live s3 = true /\ fs_wf s3 inodeno = true.
Proof.
  intros n HT R2 R4 Fs4. pose proof (rs_file _ _ _ _ _ R4) as F4.
  assert (Efs : filesize (inode_at (disk s3) inodeno)
                = filesize (inode_at (disk s) inodeno)).
  { rewrite Fs4. apply u32_small. apply get32_range. }
  split; [assumption|]. split; [apply file_block_size; auto; lia|].
  split.
  { rewrite (rs_free _ _ _ _ _ R4), (rs_free _ _ _ _ _ R2).
    replace (nblocks n - nblocks k) with (- (nblocks k - nblocks n)) by lia.
    apply u32_back. apply get32_range. }
  split; [apply F4|]. apply file_fs_wf; rewrite Efs; assumption.
Qed.

(** What a call that returned [ENOSPC] left behind. *)
Lemma resize_enospc_restores (depth : nat) (inodeno size : Z) (s s' : state) :
  live s = true -> fs_wf s inodeno = true -> CAP < 2 ^ 31 ->
  resize depth inodeno size s = Ok ENOSPC s' ->
  let n := blocks_for (filesize (inode_at (disk s) inodeno)) in
  filesize (inode_at (disk s') inodeno) = filesize (inode_at (disk s) inodeno) /\
  get_block_size inodeno s = Ok n s /\
  get_block_size inodeno s' = Ok n s' /\
  data_block_num_free (disk s' 0) = data_block_num_free (disk s 0) /\
  live s' = true /\ fs_wf s' inodeno = true.
Proof.
  intros L Hwf HC Run. cbv zeta.
  destruct (fs_wf_facts s inodeno Hwf) as [Hh [Ho [W [Hn En]]]]. cbv zeta in *.
  pose proof (fs_wf_file s inodeno L Hwf) as F.
  set (n := blocks_for (filesize (inode_at (disk s) inodeno))) in *.
  destruct (CAP_TOP Hgeo) as [CT1 CT2]. pose proof (P_pos Hgeo) as HP.
  destruct depth as [|d]; [discriminate|].
  assert (HT : TOP < n -> n = CAP /\ CAP < 2 ^ 31) by lia.
  destruct (resize_cases Hgeo d inodeno size s n F HT)
    as [[_ RunF]|[[s1 [Run0 _]]|[k [s2 [Hk [Fr [R2 [Fs2 Eq]]]]]]]].
  - rewrite RunF in Run. discriminate.
  - rewrite Run0 in Run. inversion Run.
  - cbv zeta in Eq. rewrite Eq in Run. clear Eq.
    apply bind_Ok in Run. destruct Run as [a [s3 [Run3 Ret]]].
    apply ret_Ok in Ret. destruct Ret as [_ <-].
    destruct d as [|d']; [discriminate|].
    pose proof (rs_file _ _ _ _ _ R2) as F2.
    pose proof F2 as [_ [_ W2]]. pose proof (WF_n _ _ _ W2) as Hk2.
    assert (Down : need_of (filesize (inode_at (disk s) inodeno)) <= k) by lia.
    destruct (Z_le_gt_dec k TOP) as [Hle|Hgt];
      [|destruct (Z.eq_dec k CAP) as [Ek|Ek]].
    + assert (HT2 : TOP < k -> k = CAP /\ CAP < 2 ^ 31) by lia.
      destruct (resize_down Hgeo d' inodeno _ s2 k F2 HT2 Down) as [s4 [Run4 [R4 Fs4]]].
      rewrite Run4 in Run3. inversion Run3; subst s4. clear Run3.
      rewrite En in R4.
      destruct (rollback_end s s2 s3 inodeno k (proj2 Hn) R2 R4 Fs4)
        as [C1 [C2 [C3 [C4 C5]]]].
      split; [assumption|]. split; [apply file_block_size; auto; lia|]. auto.
    + assert (HT2 : TOP < k -> k = CAP /\ CAP < 2 ^ 31) by auto.
      destruct (resize_down Hgeo d' inodeno _ s2 k F2 HT2 Down) as [s4 [Run4 [R4 Fs4]]].
      rewrite Run4 in Run3. inversion Run3; subst s4. clear Run3.
      rewrite En in R4.
      destruct (rollback_end s s2 s3 inodeno k (proj2 Hn) R2 R4 Fs4)
        as [C1 [C2 [C3 [C4 C5]]]].
      split; [assumption|]. split; [apply file_block_size; auto; lia|]. auto.
    + assert (Hkk : TOP < k < CAP) by lia.
      assert (Hnc : need_of (filesize (inode_at (disk s) inodeno)) < CAP) by lia.
      rewrite (resize_stuck Hgeo d' inodeno _ s2 k F2 Hkk HC Hnc) in Run3.
      discriminate.
Qed.

(** One successful call, for a size the 32-bit [filesize] holds. *)
Lemma resize_success depth inodeno size s s' :
  live s = true -> fs_wf s inodeno = true -> size_ok size = true ->
  resize depth inodeno size s = Ok 0 s' ->
  live s' = true /\ fs_wf s' inodeno = true /\
  filesize (inode_at (disk s') inodeno) = size /\
  get_block_size inodeno s' = Ok (blocks_for size) s' /\
  (size = 0 -> direct_pointer (inode_at (disk s') inodeno) = 0 /\
               indirect_pointer (inode_at (disk s') inodeno) = 0 /\
               iindirect_pointer (inode_at (disk s') inodeno) = 0).
Proof.
  intros L Hwf Hs Run. unfold size_ok in Hs. b2p.
  assert (Rs : 0 <= size < 2 ^ 32) by lia.
  destruct (need_of_small Hgeo size Rs) as [En _].
  destruct (fs_wf_facts s inodeno Hwf) as [Hh [Ho [W [Hn _]]]]. cbv zeta in *.
  pose proof (fs_wf_file s inodeno L Hwf) as F.
  set (n := blocks_for (filesize (inode_at (disk s) inodeno))) in *.
  destruct depth as [|d]; [discriminate|].
  assert (HT : TOP < n -> n = CAP /\ CAP < 2 ^ 31) by lia.
  destruct (resize_cases Hgeo d inodeno size s n F HT)
    as [[_ RunF]|[[s1 [Run0 [R Fs]]]|[k [s2 [_ [_ [_ [_ Eq]]]]]]]].
  - rewrite RunF in Run. discriminate.
  - rewrite Run0 in Run. inversion Run; subst s1. clear Run.
    rewrite En in R. rewrite (u32_small size Rs) in Fs.
    pose proof (rs_file _ _ _ _ _ R) as F1.
    split; [apply F1|]. split; [|split; [assumption|split]].
    + apply file_fs_wf; rewrite Fs; assumption.
    + now apply file_block_size.
    + intros E0. rewrite E0 in F1.
      assert (B0 : blocks_for 0 = 0).
      { unfold blocks_for. destruct (geo_block_size Hgeo) as [B1 _].
        apply Z.div_small. lia. }
      rewrite B0 in F1. destruct F1 as [_ [_ W1]].
      pose proof (WF_zeros _ _ _ W1) as Zr. apply zeros_ok_facts in Zr.
      destruct Zr as [Z1 [Z2 [_ [Z4 _]]]].
      pose proof (P_pos Hgeo). repeat split; [apply Z1|apply Z2|apply Z4]; lia.
  - cbv zeta in Eq. rewrite Eq in Run.
    apply bind_Ok in Run. destruct Run as [a [s3 [_ Ret]]].
    apply ret_Ok in Ret. destruct Ret as [Ret _]. discriminate.
Qed.

(** C4 (amended).  For any sequence of [resize] calls on a well-formed
    file, each returning 0 and each for a size below [2 ^ 32] that needs at
    most [TOP] blocks: after the last call [filesize] is the size last
    asked for, [get_block_size] reports [ceil (size / BLOCK_SIZE)] blocks,
    a file of size zero holds no block, and the file is well formed for
    the next call. *)
Theorem resize_chain_sizes (depth : nat) (inodeno : Z) (sizes : list Z)
    (s s' : state) :
  live s = true -> fs_wf s inodeno = true ->
  forallb size_ok sizes = true ->
  resize_chain depth inodeno s sizes s' ->
  (live s' = true /\ fs_wf s' inodeno = true) /\
  forall pre size, sizes = pre ++ [size] ->
    filesize (inode_at (disk s') inodeno) = size /\
    get_block_size inodeno s' = Ok (blocks_for size) s' /\
    (size = 0 -> direct_pointer (inode_at (disk s') inodeno) = 0 /\
                 indirect_pointer (inode_at (disk s') inodeno) = 0 /\
                 iindirect_pointer (inode_at (disk s') inodeno) = 0).
Proof.
  intros L Hwf Hs Ch. revert L Hwf Hs.
  induction Ch as [s|s size s1 rest s2 Run Ch IH]; intros L Hwf Hs.
  - split; [auto|]. intros pre size E. destruct pre; discriminate.
  - cbn [forallb] in Hs. apply andb_true_iff in Hs. destruct Hs as [Hs1 Hs2].
    destruct (resize_success depth inodeno size s s1 L Hwf Hs1 Run)
      as [L1 [Hwf1 Post1]].
    destruct (IH L1 Hwf1 Hs2) as [Inv2 Post2]. split; [assumption|].
    intros pre sz E. destruct pre as [|a pre'].
    + cbn in E. inversion E; subst. inversion Ch; subst. assumption.
    + cbn in E. inversion E; subst. apply (Post2 pre' sz). reflexivity.
Qed.

(** A call for a size the file system can hold returns: with 0 and the
    file resized, or with [ENOSPC], the free blocks not sufficing, and
    the file as it was. *)
Lemma resize_total d inodeno size s :
  live s = true -> fs_wf s inodeno = true -> size_ok size = true ->
  let n := blocks_for (filesize (inode_at (disk s) inodeno)) in
  exists r s', resize (S (S d)) inodeno size s = Ok r s' /\
    live s' = true /\ fs_wf s' inodeno = true /\
    ((r = 0 /\ filesize (inode_at (disk s') inodeno) = size /\
      get_block_size inodeno s' = Ok (blocks_for size) s') \/
     (r = ENOSPC /\
      data_block_num_free (disk s 0) < nblocks (blocks_for size) - nblocks n /\
      filesize (inode_at (disk s') inodeno) = filesize (inode_at (disk s) inodeno) /\
      get_block_size inodeno s' = Ok n s' /\
      data_block_num_free (disk s' 0) = data_block_num_free (disk s 0))).
Proof.
  intros L Hwf Hs. cbv zeta. pose proof Hs as Hs'. unfold size_ok in Hs'. b2p.
  assert (Rs : 0 <= size < 2 ^ 32) by lia.
  destruct (need_of_small Hgeo size Rs) as [En _].
  destruct (fs_wf_facts s inodeno Hwf) as [Hh [Ho [W [Hn Eo]]]]. cbv zeta in *.
  pose proof (fs_wf_file s inodeno L Hwf) as F.
  set (n := blocks_for (filesize (inode_at (disk s) inodeno))) in *.
  destruct (CAP_TOP Hgeo) as [CT1 CT2]. pose proof (P_pos Hgeo) as HP.
  assert (HT : TOP < n -> n = CAP /\ CAP < 2 ^ 31) by lia.
  destruct (resize_cases Hgeo (S d) inodeno size s n F HT)
    as [[HF _]|[[s1 [Run0 _]]|[k [s2 [Hk [Fr [R2 [Fs2 Eq]]]]]]]].
  - lia.
  - exists 0, s1. split; [assumption|].
    destruct (resize_success _ inodeno size s s1 L Hwf Hs Run0) as [L1 [W1 [Fs [Gb _]]]].
    split; [assumption|]. split; [assumption|]. left. auto.
  - cbv zeta in Eq. pose proof (rs_file _ _ _ _ _ R2) as F2.
    assert (HT2 : TOP < k -> k = CAP /\ CAP < 2 ^ 31) by lia.
    assert (Down : need_of (filesize (inode_at (disk s) inodeno)) <= k) by lia.
    destruct (resize_down Hgeo d inodeno _ s2 k F2 HT2 Down) as [s4 [Run4 [R4 Fs4]]].
    rewrite Eo in R4.
    destruct (rollback_end s s2 s4 inodeno k (proj2 Hn) R2 R4 Fs4)
      as [C1 [C2 [C3 [C4 C5]]]].
    exists ENOSPC, s4. split.
    { rewrite Eq. rewrite (bind_run _ _ _ _ _ Run4). reflexivity. }
    split; [assumption|]. split; [assumption|]. right.
    split; [reflexivity|]. split; [|auto].
    assert (Mo : nblocks (k + 1) <= nblocks (blocks_for size))
      by (apply (nblocks_mono Hgeo); lia).
    lia.
Qed.

(** C3 (amended).  ENOSPC rollback of resize, for a well-formed file of
    a live file system (its block count is [ceil (filesize / BLOCK_SIZE)],
    at most [TOP]).  Whenever [resize] returns [ENOSPC], the file's
    [filesize], the block count [get_block_size] reports and the
    superblock's [data_block_num_free] are what they were before the
    call, and the file system is well formed again.  And a call for a
    size below [2 ^ 32] within [TOP] blocks returns 0 or [ENOSPC], the
    latter only when the free blocks are fewer than the growth needs. *)
Theorem resize_enospc_rollback (inodeno : Z) (s : state) :
  live s = true -> fs_wf s inodeno = true -> CAP < 2 ^ 31 ->
  let n := blocks_for (filesize (inode_at (disk s) inodeno)) in
  (forall depth size s',
     resize depth inodeno size s = Ok ENOSPC s' ->
     filesize (inode_at (disk s') inodeno) = filesize (inode_at (disk s) inodeno) /\
     get_block_size inodeno s = Ok n s /\
     get_block_size inodeno s' = Ok n s' /\
     data_block_num_free (disk s' 0) = data_block_num_free (disk s 0) /\
     live s' = true /\ fs_wf s' inodeno = true) /\
  (forall d size, size_ok size = true ->
     exists r s', resize (S (S d)) inodeno size s = Ok r s' /\
       (r = 0 \/
        (r = ENOSPC /\
         data_block_num_free (disk s 0) < nblocks (blocks_for size) - nblocks n))).
Proof.
  intros L Hwf HC. cbv zeta. split.
  - intros depth size s' Run.
    apply (resize_enospc_restores depth inodeno size s s' L Hwf HC Run).
  - intros d size Hs.
    destruct (resize_total d inodeno size s L Hwf Hs)
      as [r [s' [Run [_ [_ [[-> _]|[-> [Fr _]]]]]]]].
    + exists 0, s'. split; [assumption|]. now left.
    + exists ENOSPC, s'. split; [assumption|]. right. auto.
Qed.

(** C9 (amended).  A write of length 0 at an offset beyond the end of a
    well-formed file, the offset below [2 ^ 32] and within [TOP] blocks,
    returns: with 0, the file grown to [offset] bytes and to the blocks
    that takes; or, the free blocks not sufficing, with [-ENOSPC] and the
    file at its former size and block count. *)
Theorem zero_length_write_grows (d : nat) (fh : Z) (buffer : list Z) (offset : Z)
    (s : state) :
  live s = true -> fs_wf s fh = true -> size_ok offset = true ->
  filesize (inode_at (disk s) fh) < offset ->
  let n := blocks_for (filesize (inode_at (disk s) fh)) in
  exists r s', fs_write (S (S d)) fh buffer 0 offset s = Ok r s' /\
    ((r = 0 /\ filesize (inode_at (disk s') fh) = offset /\
      get_block_size fh s' = Ok (blocks_for offset) s') \/
     (r = - ENOSPC /\
      data_block_num_free (disk s 0) < nblocks (blocks_for offset) - nblocks n /\
      filesize (inode_at (disk s') fh) = filesize (inode_at (disk s) fh) /\
      get_block_size fh s' = Ok n s')).
Proof.
  intros L Hwf Hs Hlt. cbv zeta. pose proof Hs as Hs'. unfold size_ok in Hs'. b2p.
  destruct (fs_wf_facts s fh Hwf) as [Hh [Ho _]].
  assert (U : u64 (0 + offset) = offset) by (apply u64_small; lia).
  assert (U' : u64 offset = offset) by (apply u64_small; lia).
  unfold fs_write. rewrite (bind_run _ _ _ _ _ (INodeProxy_run Hgeo s fh Hh Ho)).
  rewrite U. destruct (Z.ltb_spec (filesize (inode_at (disk s) fh)) offset); [|lia].
  destruct (resize_total d fh offset s L Hwf Hs) as [r [s1 [Run [L1 [Hwf1 Post]]]]].
  rewrite (bind_run _ _ _ _ _ Run).
  destruct Post as [[-> [Fs Gb]]|[-> [Fr [Fs [Gb _]]]]].
  - cbn [Z.eqb negb].
    destruct (fs_wf_facts s1 fh Hwf1) as [Hh1 [Ho1 [W1 _]]]. cbv zeta in W1.
    set (v := set_mtime (inode_at (disk s1) fh) (clock s1)).
    assert (Wv : WF (disk s1) v (blocks_for offset)).
    { rewrite Fs in W1.
      apply (WF_fields Hgeo _ (inode_at (disk s1) fh)); [assumption| |].
      - unfold same_ptrs. cbn. auto.
      - pose proof (WF_norm _ _ _ W1) as N. apply inode_norm_facts in N.
        apply inode_norm_facts. cbn. assumption. }
    destruct (commit_file Hgeo s1 fh v _ L1 Ho1 Wv) as [F2 [_ [_ [_ [Fs2 _]]]]].
    cbv zeta in *.
    exists 0, (put_inode s1 fh v). split.
    + assert (Wr : write fh (u64 offset) 0 buffer s1 = Ok 0 (put_inode s1 fh v)).
      { unfold write.
        rewrite (bind_run _ _ _ _ _ (INodeProxy_run Hgeo s1 fh Hh1 Ho1)).
        assert (Tm : time s1 = Ok (clock s1) s1) by reflexivity.
        rewrite (bind_run _ _ _ _ _ Tm). fold v.
        rewrite (bind_run _ _ _ _ _ (INodeProxy_commit_run Hgeo s1 fh v Hh1 Ho1)).
        rewrite U'. rewrite Z.add_0_r, U'.
        assert (Ev : filesize v = offset) by (unfold v; cbn; assumption).
        rewrite Ev, Z.ltb_irrefl. reflexivity. }
      rewrite (bind_run _ _ _ _ _ Wr). reflexivity.
    + left. split; [reflexivity|]. split.
      * rewrite Fs2. unfold v. cbn. assumption.
      * apply file_block_size; [assumption|lia].
  - exists (- ENOSPC), s1. split; [reflexivity|]. right. auto.
Qed.

End ResizeClaims.

(** * Reading a file back *)

Section ReadBack.

Context {G : Geometry}.
Hypothesis Hgeo : geometry_ok = true.

Local Abbreviation P := POINTER_PER_BLOCK.

(** [get_data_block] computes the mapping L2P of a well-formed file. *)
Lemma get_data_block_spec s inodeno n k :
  file_at s inodeno n -> 0 <= k < n ->
  get_data_block inodeno k s = Ok (l2p (disk s) (inode_at (disk s) inodeno) k) s.
Proof.
  intros [L [Ho W]] Hk. pose proof (live_hdr _ L) as Hh.
  pose proof (P_pos Hgeo) as HP. pose proof (WF_n _ _ _ W) as Hn.
  set (ino := inode_at (disk s) inodeno) in *.
  pose proof (WF_data _ _ _ W _ (in_data_blocks (disk s) ino n k Hk)) as Vk.
  destruct (block_number Hgeo _ _ Hh Vk) as [X1 [X2 [X3 [X4 X5]]]].
  unfold get_data_block.
  rewrite (bind_run _ _ _ _ _ (INodeProxy_run Hgeo s inodeno Hh Ho)). fold ino.
  unfold l2p in *. destruct (Z.eqb_spec k 0) as [E|E].
  - rewrite X5. cbn [negb assert]. rewrite bind_ret, X4. reflexivity.
  - assert (H2 : 2 <= n) by lia.
    destruct (WF_ptr_range Hgeo _ _ _ _ Hh W (in_ptr_blocks_ind (disk s) ino n H2))
      as [VI [RI1 [RI2 [RI3 RI4]]]].
    destruct (block_number Hgeo _ _ Hh VI) as [_ [_ [_ [SI ZI]]]].
    rewrite ZI. cbn [negb assert]. rewrite bind_ret.
    destruct (Z.ltb_spec k (1 + P)) as [Hlt|Hge].
    + rewrite SI.
      assert (RI : 0 <= indirect_pointer ino < BLOCK_NUM) by lia.
      rewrite (bind_run _ _ _ _ _ (from_blockno_total _ s RI)).
      unfold ptr_read. assert (Hr : 0 <= k - 1 < P) by lia.
      rewrite (in_range_true _ _ Hr), bind_ret.
      unfold ind_slot in *. rewrite X5. cbn [negb assert]. rewrite bind_ret, X4.
      reflexivity.
    + assert (Hn1 : 1 + P < n) by lia. cbv zeta in *.
      assert (Hk' : 1 + P <= k < CAP) by lia.
      destruct (tier_index Hgeo k Hk') as [Ti [Tj [_ [Q1 Q2]]]]. cbv zeta in *.
      pose proof (in_ptr_blocks_iind (disk s) ino n Hn1) as InII.
      destruct (WF_ptr_range Hgeo _ _ _ _ Hh W InII) as [VII [RII1 [RII2 [RII3 RII4]]]].
      destruct (block_number Hgeo _ _ Hh VII) as [_ [_ [_ [SII ZII]]]].
      assert (Hkn : 1 + P <= k < n) by lia.
      pose proof (in_ptr_blocks_inner (disk s) ino n _ Hn1
                    (inner_index_bound Hgeo n k Hkn)) as InB.
      destruct (WF_ptr_range Hgeo _ _ _ _ Hh W InB) as [VB [RB1 [RB2 [RB3 RB4]]]].
      destruct (block_number Hgeo _ _ Hh VB) as [_ [_ [_ [SB ZB]]]].
      assert (RII : 0 <= iindirect_pointer ino < BLOCK_NUM) by lia.
      assert (RB : 0 <= outer_slot (disk s) ino ((k - (1 + P)) / P) < BLOCK_NUM) by lia.
      rewrite ZII. cbn [negb assert]. rewrite bind_ret, SII.
      rewrite (bind_run _ _ _ _ _ (from_blockno_total _ s RII)).
      rewrite Q1, Q2. unfold ptr_read.
      rewrite (in_range_true _ _ Ti), bind_ret.
      fold (outer_slot (disk s) ino ((k - (1 + P)) / P)).
      rewrite ZB. cbn [negb assert]. rewrite bind_ret, SB.
      rewrite (bind_run _ _ _ _ _ (from_blockno_total _ s RB)).
      rewrite (in_range_true _ _ Tj), bind_ret.
      unfold inner_slot in *. rewrite X5. cbn [negb assert]. rewrite bind_ret, X4.
      reflexivity.
Qed.

(** The logical block of a byte of the file. *)
Lemma byte_block size o :
  0 <= o < size -> 0 <= o / BLOCK_SIZE < blocks_for size.
Proof.
  intros H. destruct (geo_block_size Hgeo) as [B1 _].
  split; [apply Z.div_pos; lia|]. unfold blocks_for.
  replace (size + BLOCK_SIZE - 1) with (size - 1 + 1 * BLOCK_SIZE) by lia.
  rewrite Z.div_add by lia.
  assert (o / BLOCK_SIZE <= (size - 1) / BLOCK_SIZE) by (apply Z.div_le_mono; lia).
  lia.
Qed.

(** [DataProxy::read] of one byte of a well-formed file whose block
    lies on the device: the byte the device holds there. *)
Lemma read_byte s inodeno o :
  live s = true -> fs_wf s inodeno = true ->
  let ino := inode_at (disk s) inodeno in
  let b := l2p (disk s) ino (o / BLOCK_SIZE) in
  0 <= o < filesize ino -> b < BLOCK_NUM ->
  exists s', read inodeno o 1 s
             = Ok (1, [byte_at (disk s b) (o mod BLOCK_SIZE)]) s' /\
             forall x, data_block_offset (disk s 0) <= x -> disk s' x = disk s x.
Proof.
  intros L Hwf ino b Ho Hb. pose proof (live_hdr _ L) as Hh.
  destruct (geo_block_size Hgeo) as [B1 [_ B2]].
  destruct (fs_wf_facts Hgeo s inodeno Hwf) as [_ [Hi [W [Hn _]]]]. cbv zeta in *.
  fold ino in W, Hn. set (n := blocks_for (filesize ino)) in *.
  pose proof (byte_block _ _ Ho) as Hk. fold n in Hk.
  assert (Rf : 0 <= filesize ino < 2 ^ 32) by apply get32_range.
  set (v := set_atime ino (clock s)).
  assert (Sp : same_ptrs ino v) by (unfold same_ptrs; cbn; auto).
  assert (N : inode_norm v = true).
  { pose proof (WF_norm _ _ _ W) as N0. apply inode_norm_facts in N0.
    apply inode_norm_facts. cbn. pose proof (u32_range (clock s)). tauto. }
  destruct (WF_fields Hgeo _ _ v _ W Sp N) as [Wv _].
  destruct (commit_file Hgeo s inodeno v n L Hi Wv)
    as [F [E0 [Ec [Ei [Fs [_ [Fd Fv]]]]]]]. cbv zeta in *.
  set (s1 := put_inode s inodeno v) in *.
  destruct (norm_inode_ptrs v N) as [[P1 [P2 P3]] _].
  assert (Sp1 : same_ptrs ino (inode_at (disk s1) inodeno)).
  { rewrite Ei. destruct Sp as [Q1 [Q2 Q3]]. unfold same_ptrs.
    rewrite P1, P2, P3. auto. }
  destruct (same_file Hgeo (disk s) (disk s1) ino _ n Hh W Sp1 Fd) as [_ EL].
  assert (Eb : l2p (disk s1) (inode_at (disk s1) inodeno) (o / BLOCK_SIZE) = b)
    by (apply EL; assumption).
  pose proof (WF_data _ _ _ W _ (in_data_blocks (disk s) ino n _ Hk)) as Vb.
  fold b in Vb.
  destruct (block_number Hgeo _ _ Hh Vb) as [X1 [X2 _]].
  exists s1. split; [|assumption].
  unfold read.
  rewrite (bind_run _ _ _ _ _ (INodeProxy_run Hgeo s inodeno Hh Hi)). fold ino.
  unfold time at 1. unfold bind at 1. fold v.
  rewrite (bind_run _ _ _ _ _ (INodeProxy_commit_run Hgeo s inodeno v Hh Hi)).
  fold s1.
  assert (Es : u64 (Z.min (u64 (o + 1)) (filesize (set_atime ino (clock s))) - o) = 1).
  { cbn [filesize set_atime]. rewrite (u64_small (o + 1)) by lia.
    rewrite Z.min_l by lia. replace (o + 1 - o) with 1 by lia. reflexivity. }
  fold v in Es. rewrite Es. change (Z.to_nat 1) with 1%nat.
  cbn [read_loop]. change (1 =? 0) with false. cbv iota.
  assert (Sk : s32 (o / BLOCK_SIZE) = o / BLOCK_SIZE).
  { apply s32_small. destruct (CAP_TOP Hgeo). pose proof (P_pos Hgeo).
    assert (o / BLOCK_SIZE <= o) by (apply Z.div_le_upper_bound; nia).
    assert (o / BLOCK_SIZE < 2 ^ 31); [|lia].
    apply Z.div_lt_upper_bound; lia. }
  rewrite Sk.
  assert (Rb : 0 <= b < BLOCK_NUM) by lia.
  assert (Hm : 0 <= o mod BLOCK_SIZE < BLOCK_SIZE) by (apply Z.mod_pos_bound; lia).
  rewrite Z.min_l by lia. change (u64 (1 - 1) =? 0) with true. cbv iota.
  rewrite bind_bind.
  rewrite (bind_run _ _ _ _ _ (get_data_block_spec s1 inodeno n _ F Hk)), Eb.
  rewrite bind_bind.
  rewrite (bind_run _ _ _ _ _ (from_blockno_total b s1 Rb)).
  rewrite Fd by lia. unfold copy_out.
  destruct (Z.leb_spec (o mod BLOCK_SIZE + 1) BLOCK_SIZE); [|lia].
  change (seq 0 (Z.to_nat 1)) with [0%nat]. cbn [map].
  change (Z.of_nat 0) with 0. rewrite Z.add_0_r. reflexivity.
Qed.

Lemma blocks_for_mono a b : a <= b -> blocks_for a <= blocks_for b.
Proof.
  intros H. destruct (geo_block_size Hgeo) as [B1 _]. unfold blocks_for.
  apply Z.div_le_mono; lia.
Qed.

Lemma NoDup_app_right {A} (l1 l2 : list A) x :
  NoDup (l1 ++ l2) -> In x l2 -> ~ In x l1.
Proof.
  induction l1 as [|a l1 IH]; cbn [app]; intros ND H2 H1; [destruct H1|].
  inversion ND as [|? ? Hn ND']; subst. destruct H1 as [->|H1].
  - apply Hn. apply in_or_app. now right.
  - now apply IH.
Qed.

(** A call of [resize] for a size the file system can hold, with the
    writes it issues: it returns 0, leaving what [resize_frame] says, or
    it returns [ENOSPC], which takes a growing call. *)
Lemma resize_traced d inodeno size s :
  live s = true -> fs_wf s inodeno = true -> size_ok size = true ->
  let n := blocks_for (filesize (inode_at (disk s) inodeno)) in
  exists r s' ws,
    resize (S (S d)) inodeno size s = Ok r s' /\ traced s s' ws /\
    ((r = 0 /\ resized s s' inodeno n (blocks_for size) /\
      resize_frame s s' inodeno n (blocks_for size)) \/
     (r = ENOSPC /\ n < blocks_for size)).
Proof.
  intros L Hwf Hs. cbv zeta. pose proof Hs as Hs'. unfold size_ok in Hs'. b2p.
  assert (Rs : 0 <= size < 2 ^ 32) by lia.
  destruct (need_of_small Hgeo size Rs) as [En _].
  destruct (fs_wf_facts Hgeo s inodeno Hwf) as [Hh [Ho [W [Hn Eo]]]]. cbv zeta in *.
  pose proof (fs_wf_file Hgeo s inodeno L Hwf) as F.
  set (n := blocks_for (filesize (inode_at (disk s) inodeno))) in *.
  destruct (CAP_TOP Hgeo) as [CT1 CT2]. pose proof (P_pos Hgeo) as HP.
  assert (HT : TOP < n -> n = CAP /\ CAP < 2 ^ 31) by lia.
  destruct (resize_cases_frame Hgeo (S d) inodeno size s n F HT)
    as [[HF _]|[[s1 [Run0 [R [_ Fr]]]]|[k [s2 [Hk [_ [R2 [Fs2 Eq]]]]]]]].
  - lia.
  - rewrite En in *. destruct (rs_trace _ _ _ _ _ R) as [ws T].
    exists 0, s1, ws. split; [assumption|]. split; [assumption|]. left. auto.
  - cbv zeta in Eq. pose proof (rs_file _ _ _ _ _ R2) as F2.
    assert (HT2 : TOP < k -> k = CAP /\ CAP < 2 ^ 31) by lia.
    assert (Down : need_of (filesize (inode_at (disk s) inodeno)) <= k) by lia.
    destruct (resize_down Hgeo d inodeno _ s2 k F2 HT2 Down) as [s4 [Run4 [R4 Fs4]]].
    destruct (rs_trace _ _ _ _ _ R2) as [ws2 T2].
    destruct (rs_trace _ _ _ _ _ R4) as [ws4 T4].
    exists ENOSPC, s4, (ws4 ++ ws2). split.
    { rewrite Eq. rewrite (bind_run _ _ _ _ _ Run4). reflexivity. }
    split; [eapply traced_trans; eassumption|]. right. split; [reflexivity|lia].
Qed.

(** C6 (amended).  The order of the writes of [resize], for a
    well-formed file of a live file system and a size the file system can
    hold.  The call returns, and the writes [ws] it issued (newest first)
    are those that take the device from its state before the call to its
    state after it.  Every one of them stores fine pointers only
    ([writes_ok]): each slot of a block of the data region and each
    pointer field of a block of the inode table that the write changes
    holds null or the number of a block whose bitmap bit is set on the
    device at the moment of the write, in all three tiers, growing,
    shrinking and rolling back; so the bitmap bit of a block is set before
    a pointer to it is written.  A shrinking call, however, releases
    before it unlinks: it returns 0, its first write [w1] is the bitmap
    block with the bit of the last data block [b] of the file cleared,
    and with that write on the device [b] is marked free while the inode
    and the pointer blocks on the device still lead to it. *)
Theorem resize_write_order (d : nat) (inodeno size : Z) (s : state) :
  live s = true -> fs_wf s inodeno = true -> size_ok size = true ->
  let ino := inode_at (disk s) inodeno in
  let n := blocks_for (filesize ino) in
  exists r s' ws,
    resize (S (S d)) inodeno size s = Ok r s' /\
    writes s' = ws ++ writes s /\ disk s' = replay ws (disk s) /\
    writes_ok ws (disk s) = true /\
    (blocks_for size < n ->
       r = 0 /\
       exists rest w2 w1, ws = rest ++ [w2; w1] /\
         let b := l2p (disk s) ino (n - 1) in
         let d1 := replay [w1] (disk s) in
         valid_block (disk s) b = true /\ valid_block d1 b = false /\
         inode_at d1 inodeno = ino /\ l2p d1 ino (n - 1) = b).
Proof.
  intros L Hwf Hs ino n.
  destruct (resize_traced d inodeno size s L Hwf Hs) as [r [s' [ws [Run [T Cases]]]]].
  cbv zeta in Cases. fold ino in Cases. fold n in Cases.
  exists r, s', ws. split; [assumption|].
  split; [apply (tr_writes _ _ _ T)|]. split; [apply (tr_disk _ _ _ T)|].
  split; [apply (tr_ok _ _ _ T)|]. intros Hlt.
  destruct Cases as [[R0 [R [_ Sh]]]|[_ Hgt]]; [|lia].
  split; [assumption|]. destruct (Sh Hlt) as [rest Er]. fold ino in Er.
  rewrite (tr_writes _ _ _ T), app_assoc in Er. apply app_inv_tail in Er.
  pose proof (live_hdr _ L) as Hh.
  destruct (fs_wf_facts Hgeo s inodeno Hwf) as [_ [Ho [W [Hn _]]]]. cbv zeta in *.
  fold ino in W, Hn. fold n in W, Hn.
  unfold size_ok in Hs. b2p.
  assert (Rs : 0 <= size < 2 ^ 32) by lia.
  destruct (need_of_small Hgeo size Rs) as [_ Hb0].
  assert (Hk : 0 <= n - 1 < n) by lia.
  pose proof (WF_data _ _ _ W _ (in_data_blocks (disk s) ino n _ Hk)) as Vb.
  set (b := l2p (disk s) ino (n - 1)) in *.
  destruct (valid_block_range Hgeo _ _ Hh Vb) as [Y1 [Y2 [Y3 Y4]]].
  destruct (hdr_ok_facts Hgeo _ Hh) as [F1 [F2 [F3 [F4 [F5 [F6 F7]]]]]].
  unfold data_bits in Y3. pose proof (pos_block Hgeo _ _ Y3) as Hbb.
  cbn [eff_writes] in Er. cbv zeta in Er.
  set (bb := data_block_bitmap_offset (disk s 0)
             + (b - data_block_offset (disk s 0)) / siz) in *.
  eexists rest, _, _. split; [exact Er|]. cbn [replay].
  assert (Low : forall x, inode_block_offset (disk s 0) <= x ->
                upd (disk s) bb (bb_clear (disk s bb)
                  ((b - data_block_offset (disk s 0)) mod siz)) x = disk s x).
  { intros x Hx. apply upd_other. lia. }
  split; [assumption|]. split; [apply (bit_after_clear Hgeo); [assumption|lia]|].
  destruct (inode_ok_facts Hgeo _ _ Hh Ho) as [_ [_ [Ri _]]].
  split.
  - unfold ino, inode_at. rewrite (upd_other _ _ _ 0) by lia.
    rewrite Low by lia. reflexivity.
  - assert (Sp : same_ptrs ino ino) by (unfold same_ptrs; auto).
    apply (same_file Hgeo (disk s) _ ino ino n Hh W Sp); [|lia].
    intros x Hx. apply Low. lia.
Qed.

(** C7 (amended).  What a grown file reads, for a well-formed file of a
    live file system and a size, not below the file's, that the file
    system can hold.  The call returns 0 or [ENOSPC].  When it returns 0,
    no data block of the file has been written: the block [b] of every
    byte offset below the new size holds what the device held in block
    [b] before the call.  And for every offset in a block that the call
    allocated, [b] was free before the call, lies on the device, and
    reading one byte at the offset returns the byte that was on the
    device at that place before the call; it reads as zero only if the
    device held zero there. *)
Theorem grown_block_reads_device_content (d : nat) (inodeno size : Z) (s : state) :
  live s = true -> fs_wf s inodeno = true -> size_ok size = true ->
  let ino := inode_at (disk s) inodeno in
  filesize ino <= size ->
  exists r s',
    resize (S (S d)) inodeno size s = Ok r s' /\ (r = 0 \/ r = ENOSPC) /\
    (r = 0 ->
     forall o, 0 <= o < size ->
       let b := l2p (disk s') (inode_at (disk s') inodeno) (o / BLOCK_SIZE) in
       disk s' b = disk s b /\
       (blocks_for (filesize ino) * BLOCK_SIZE <= o ->
        valid_block (disk s) b = false /\ valid_block (disk s') b = true /\
        exists s'',
          read inodeno o 1 s' = Ok (1, [byte_at (disk s b) (o mod BLOCK_SIZE)]) s'')).
Proof.
  intros L Hwf Hs ino Hle.
  destruct (resize_traced d inodeno size s L Hwf Hs) as [r [s' [ws [Run [T Cases]]]]].
  cbv zeta in Cases. fold ino in Cases.
  exists r, s'. split; [assumption|].
  destruct Cases as [[R0 [R [Gr _]]]|[RE _]]; [|split; [now right|]].
  2:{ intros E. rewrite E in RE. discriminate. }
  split; [now left|]. intros _ o Ho. cbv zeta.
  subst r. destruct (geo_block_size Hgeo) as [B1 _].
  pose proof (blocks_for_mono _ _ Hle) as Hnn. specialize (Gr Hnn).
  destruct (resize_success Hgeo _ inodeno size s s' L Hwf Hs Run)
    as [L1 [Hwf1 [Fs1 _]]].
  destruct (rs_file _ _ _ _ _ R) as [_ [Ho1 W1]].
  pose proof (live_hdr _ L1) as Hh1.
  pose proof (byte_block _ _ Ho) as Hk.
  set (ino1 := inode_at (disk s') inodeno) in *.
  set (b := l2p (disk s') ino1 (o / BLOCK_SIZE)).
  pose proof (in_data_blocks (disk s') ino1 _ _ Hk) as Inb. fold b in Inb.
  pose proof (WF_data _ _ _ W1 _ Inb) as Vb.
  destruct (valid_block_range Hgeo _ _ Hh1 Vb) as [Y1 _].
  destruct (rs_geom _ _ _ _ _ R) as [_ [_ [_ [_ [_ G6]]]]].
  assert (Eb : disk s' b = disk s b).
  { apply (gf_data _ _ _ _ _ _ Gr); [lia|].
    apply (NoDup_app_right _ _ _ (WF_nodup _ _ _ W1) Inb). }
  split; [assumption|]. intros Hnew.
  assert (Hkn : blocks_for (filesize ino) <= o / BLOCK_SIZE)
    by (apply Z.div_le_lower_bound; lia).
  destruct (gf_new _ _ _ _ _ _ Gr (o / BLOCK_SIZE)) as [Hb Fb]; [lia|].
  fold b in Hb, Fb. split; [assumption|]. split; [assumption|].
  assert (Ho' : 0 <= o < filesize ino1) by (rewrite Fs1; assumption).
  destruct (read_byte s' inodeno o L1 Hwf1 Ho' Hb) as [s2 [Rd _]].
  exists s2. fold ino1 in Rd. fold b in Rd. rewrite Eb in Rd. exact Rd.
Qed.

End ReadBack.

(** * Concrete devices *)

(** The value and the final state of a run that returned. *)
Definition value_of {A} (r : result A) : option A :=
  match r with Ok a _ => Some a | _ => None end.

Definition state_of {A} (r : result A) (dflt : state) : state :=
  match r with Ok _ s => s | _ => dflt end.

Lemma run_eq {A} (r : result A) (a : A) (dflt : state) :
  value_of r = Some a -> r = Ok a (state_of r dflt).
Proof. destruct r; cbn; intros H; inversion H; reflexivity. Qed.

Lemma bind_fault {A B} (m : M A) (k : A -> M B) (s : state) :
  m s = Fault -> bind m k s = Fault.
Proof. unfold bind. intros ->. reflexivity. Qed.

(** A device of 64 blocks of 64 bytes (30 data blocks, one block for
    each bitmap), and the device of the lab:
    65536 blocks of 4096 bytes. *)
Definition small_geometry : Geometry := mkGeometry 64 64.
Definition lab_geometry : Geometry := mkGeometry 4096 65536.

(** A device of 1024 blocks of 64 bytes: 509 data blocks, two blocks of
    inode bitmap and one of data bitmap. *)
Definition mid_geometry : Geometry := mkGeometry 64 1024.

(** A device every byte of which is [fill], as the program finds it when
    it starts: both hints 0, no write issued. *)
Definition blank (fill : Z) : state :=
  mkState (fun _ _ => fill) 0 0 1000 (fun _ => 7) [].

(** The state after [m], run from [s]. *)
Definition after {A} (m : M A) (s : state) : state := state_of (m s) s.

Lemma after_eq {A} (m : M A) (s : state) (a : A) :
  value_of (m s) = Some a -> m s = Ok a (after m s).
Proof. unfold after. apply run_eq. Qed.

(** The small device after [mkfs] and [mknod /f]: inode 0 is the root
    directory, inode 1 the empty file. *)
Definition one_file (fill : Z) : state :=
  after (@mkfs small_geometry 2 ;;; @fs_mknod small_geometry 2 (bytes_of_string "/f"))
        (blank fill).

(** The scenario S2 of the specification, on the lab's device: what the
    two reads return, each with the bytes stored in its buffer. *)
Definition scenario_S2 : M ((Z * list Z) * (Z * list Z)) :=
  @mkfs lab_geometry 2 ;;;
  @fs_mknod lab_geometry 2 (bytes_of_string "/f") ;;;
  @fs_truncate lab_geometry 2 (bytes_of_string "/f") (4096 * 13) ;;;
  o <- @fs_open lab_geometry (bytes_of_string "/f") ;;
  match snd o with
  | Some fh =>
      @fs_write lab_geometry 2 fh [90] 1 (4096 * 12) ;;;
      r1 <- @fs_read lab_geometry fh 1 (4096 * 12) ;;
      r2 <- @fs_read lab_geometry fh 1 0 ;;
      ret (r1, r2)
  | None => ret ((fst o, []), (fst o, []))
  end.

(** The lab's device after [mkfs], [mknod /f] and [truncate /f size]. *)
Definition lab_file (size : Z) : state :=
  after (@mkfs lab_geometry 2 ;;;
         @fs_mknod lab_geometry 2 (bytes_of_string "/f") ;;;
         @fs_truncate lab_geometry 2 (bytes_of_string "/f") size)
        (blank 0).

(** * The byte I/O loops on the lab's device *)

Section LabDevice.

Local Existing Instance lab_geometry.

(** C1.  The loops of [write] and [read] copy [min(size, BLOCK_SIZE)]
    bytes in one iteration, whatever the offset inside the block.  On a
    file of 8192 bytes, writing 4096 bytes at offset 2048 (so that
    [off + len <= n]) copies 4096 bytes to offset 2048 of a 4096-byte
    block buffer in its first iteration, and reading them back does the
    same: both run past the end of the buffer instead of stopping at the
    block boundary, and the round trip never completes. *)
Theorem unaligned_io_overruns_block :
  value_of (resize 2 1 8192 (lab_file 0)) = Some 0 /\
  write 1 2048 4096 (repeat 90 4096) (lab_file 8192) = Fault /\
  read 1 2048 4096 (lab_file 8192) = Fault.
Proof. split; [|split]; vm_compute; reflexivity. Qed.

(** C2.  [read] clamps with [min(offset + size, filesize) - offset] in
    [size_t].  On a file of 10 bytes a read of 5 bytes at offset 20 gets
    the length [2 ^ 64 - 10] instead of 0; its first iteration copies
    4096 bytes from offset 20 of the block buffer, past its end and into
    a buffer of 5 bytes, where the clamp of the specification copies
    nothing and returns 0. *)
Theorem read_beyond_eof_overruns :
  filesize (inode_at (disk (lab_file 10)) 1) = 10 /\
  u64 (Z.min (u64 (20 + 5)) 10 - 20) = 2 ^ 64 - 10 /\
  read 1 20 5 (lab_file 10) = Fault.
Proof.
  split; [vm_compute; reflexivity|]. split; [vm_compute; reflexivity|].
  unfold read.
  erewrite bind_run by (apply (run_eq _ _ (lab_file 10)); vm_compute; reflexivity).
  erewrite bind_run by (apply (run_eq _ _ (lab_file 10)); vm_compute; reflexivity).
  erewrite bind_run by (apply (run_eq _ _ (lab_file 10)); vm_compute; reflexivity).
  cbv zeta. cbn [filesize set_atime].
  change (u64 (Z.min (u64 (20 + 5)) 10 - 20)) with 18446744073709551606.
  replace (Z.to_nat 18446744073709551606)
    with (S (Z.to_nat 18446744073709551605))
    by (rewrite <- Z2Nat.inj_succ by lia; f_equal).
  apply bind_fault.
  generalize (Z.to_nat 18446744073709551605). intros n.
  vm_compute. reflexivity.
Qed.

(** Scenario S2 on the lab's device, whatever the device held before
    [mkfs] (the hints are 0, as when the program starts): the read at
    offset [4096 * 12] returns the byte written; the read at offset 0
    returns the byte that block 517, the first block the file was given,
    held before [mkfs], which writes no block of the data region. *)
Lemma S2_reads_device_byte (d0 : Z -> block) (clk : Z) :
  value_of (scenario_S2 (mkState d0 0 0 clk (fun _ => 7) []))
  = Some ((1, [90]), (1, [byte_at (d0 517) 0])).
Proof. vm_compute. reflexivity. Qed.

(** On a device that held the byte 170 everywhere, the read at offset 0
    of scenario S2 returns 170, not NUL. *)
Lemma S2_reads_old_content :
  value_of (scenario_S2 (blank 170)) = Some ((1, [90]), (1, [170])) /\
  value_of (scenario_S2 (blank 170)) <> Some ((1, [90]), (1, [0])).
Proof.
  assert (E : value_of (scenario_S2 (blank 170)) = Some ((1, [90]), (1, [170])))
    by (vm_compute; reflexivity).
  split; [exact E|]. rewrite E. discriminate.
Qed.

End LabDevice.

(** * Runs on the small device *)

Section SmallDevice.

Local Existing Instance small_geometry.

Lemma small_geometry_ok : geometry_ok = true.
Proof. reflexivity. Qed.

Lemma small_CAP : CAP < 2 ^ 31.
Proof. vm_compute. reflexivity. Qed.

Lemma one_file_live : live (one_file 0) = true.
Proof. vm_compute. reflexivity. Qed.

Lemma one_file_wf : fs_wf (one_file 0) 1 = true.
Proof. vm_compute. reflexivity. Qed.

(** With 29 data blocks free, a file of 40 blocks does not fit. *)
Lemma resize_enospc_rollback_witness :
  let s := one_file 0 in
  let s' := after (resize 2 1 (64 * 40)) s in
  resize 2 1 (64 * 40) s = Ok ENOSPC s' /\
  filesize (inode_at (disk s') 1) = filesize (inode_at (disk s) 1) /\
  data_block_num_free (disk s' 0) = data_block_num_free (disk s 0) /\
  fs_wf s' 1 = true.
Proof.
  cbv zeta.
  assert (Run : resize 2 1 (64 * 40) (one_file 0)
                = Ok ENOSPC (after (resize 2 1 (64 * 40)) (one_file 0)))
    by (apply after_eq; vm_compute; reflexivity).
  split; [exact Run|].
  destruct (resize_enospc_rollback small_geometry_ok 1 (one_file 0)
              one_file_live one_file_wf small_CAP) as [Back _].
  destruct (Back 2%nat (64 * 40) _ Run) as [A [_ [_ [B [_ C]]]]].
  auto.
Defined.

(** A file that is not well formed: [resize (2 ^ 37 + 100)] asks for
    [2 ^ 31 + 2] blocks, which is negative as an [int] and counts as 0,
    returns 0 and leaves a file of 100 bytes without a block.  From
    there [resize (64 * 40)] runs out of space and returns [ENOSPC], but
    its rollback resizes to 100 bytes: the file has 2 blocks instead of
    0, and 26 blocks are free instead of 29. *)
Definition size_100_no_block : state := after (resize 2 1 (2 ^ 37 + 100)) (one_file 0).

Lemma enospc_rollback_changes_counts :
  let s := size_100_no_block in
  let s' := after (resize 2 1 (64 * 40)) s in
  resize 2 1 (2 ^ 37 + 100) (one_file 0) = Ok 0 s /\
  resize 2 1 (64 * 40) s = Ok ENOSPC s' /\
  value_of (get_block_size 1 s) = Some 0 /\
  value_of (get_block_size 1 s') = Some 2 /\
  data_block_num_free (disk s 0) = 29 /\
  data_block_num_free (disk s' 0) = 26.
Proof.
  cbv zeta.
  split; [unfold size_100_no_block; apply after_eq; vm_compute; reflexivity|].
  split; [apply after_eq; vm_compute; reflexivity|].
  split; [vm_compute; reflexivity|]. split; [vm_compute; reflexivity|].
  split; vm_compute; reflexivity.
Qed.

(** A size of [2 ^ 44] bytes asks for [2 ^ 38] blocks, which is 0 as an
    [int]: the call returns 0 and the file has size 0. *)
Lemma resize_size_beyond_32_bits :
  exists s', resize 2 1 (2 ^ 44) (one_file 0) = Ok 0 s' /\
             filesize (inode_at (disk s') 1) = 0 /\
             filesize (inode_at (disk s') 1) <> 2 ^ 44.
Proof.
  exists (after (resize 2 1 (2 ^ 44)) (one_file 0)).
  split; [apply after_eq; vm_compute; reflexivity|].
  assert (E : filesize (inode_at (disk (after (resize 2 1 (2 ^ 44)) (one_file 0))) 1) = 0)
    by (vm_compute; reflexivity).
  split; [exact E|]. rewrite E. discriminate.
Qed.

(** The file grown to 200 bytes, emptied, and grown to 64 bytes. *)
Definition resized_200 : state := after (resize 2 1 200) (one_file 0).
Definition resized_200_0 : state := after (resize 2 1 0) resized_200.
Definition resized_200_0_64 : state := after (resize 2 1 64) resized_200_0.

Lemma grow_shrink_chain :
  resize_chain 2 1 (one_file 0) [200; 0; 64] resized_200_0_64.
Proof.
  apply (chain_cons 2 1 (one_file 0) 200 resized_200).
  { unfold resized_200. apply after_eq. vm_compute. reflexivity. }
  apply (chain_cons 2 1 resized_200 0 resized_200_0).
  { unfold resized_200_0. apply after_eq. vm_compute. reflexivity. }
  apply (chain_cons 2 1 resized_200_0 64 resized_200_0_64).
  { unfold resized_200_0_64. apply after_eq. vm_compute. reflexivity. }
  apply chain_nil.
Qed.

Lemma resize_chain_sizes_witness :
  filesize (inode_at (disk resized_200_0_64) 1) = 64 /\
  get_block_size 1 resized_200_0_64 = Ok (blocks_for 64) resized_200_0_64.
Proof.
  destruct (resize_chain_sizes small_geometry_ok 2 1 [200; 0; 64] (one_file 0)
              resized_200_0_64 one_file_live one_file_wf eq_refl grow_shrink_chain)
    as [_ Last].
  destruct (Last [200; 0] 64 eq_refl) as [A [B _]]. auto.
Defined.

(** A write of no bytes at offset [64 * 40], beyond the end of the empty
    file, returns [-ENOSPC] and leaves the file empty. *)
Lemma zero_length_write_no_space :
  filesize (inode_at (disk (one_file 0)) 1) < 64 * 40 /\
  exists s', fs_write 2 1 [] 0 (64 * 40) (one_file 0) = Ok (- ENOSPC) s' /\
             filesize (inode_at (disk s') 1) = 0.
Proof.
  split; [vm_compute; reflexivity|].
  exists (after (fs_write 2 1 [] 0 (64 * 40)) (one_file 0)).
  split; [apply after_eq; vm_compute; reflexivity|vm_compute; reflexivity].
Qed.

Lemma zero_length_write_grows_witness :
  exists r s', fs_write 2 1 [] 0 (64 * 4) (one_file 0) = Ok r s' /\
    ((r = 0 /\ filesize (inode_at (disk s') 1) = 64 * 4 /\
      get_block_size 1 s' = Ok (blocks_for (64 * 4)) s') \/
     (r = - ENOSPC /\
      data_block_num_free (disk (one_file 0) 0)
      < nblocks (blocks_for (64 * 4))
        - nblocks (blocks_for (filesize (inode_at (disk (one_file 0)) 1))) /\
      filesize (inode_at (disk s') 1) = filesize (inode_at (disk (one_file 0)) 1) /\
      get_block_size 1 s'
      = Ok (blocks_for (filesize (inode_at (disk (one_file 0)) 1))) s')).
Proof.
  apply (zero_length_write_grows small_geometry_ok 0 1 [] (64 * 4) (one_file 0)
           one_file_live one_file_wf).
  - vm_compute. reflexivity.
  - vm_compute. reflexivity.
Defined.

(** A run of allocator calls from the state after [mknod]: block 35 is
    the first free data block, inode 2 the first free inode. *)
Definition alloc_run : list alloc_op :=
  [OpAllocData; OpAllocInode; OpAllocData; OpFreeData 35; OpFreeInode 2; OpAllocData].

Lemma alloc_run_runs :
  run_ops alloc_run (one_file 0) = Ok tt (after (run_ops alloc_run) (one_file 0)).
Proof. apply after_eq. vm_compute. reflexivity. Qed.

Lemma allocator_counts_agree_witness :
  let s' := after (run_ops alloc_run) (one_file 0) in
  inode_num_free (disk s' 0) = inode_num_tot (disk s' 0) - inode_used (disk s') /\
  data_block_num_free (disk s' 0) = data_block_num_tot (disk s' 0) - data_used (disk s').
Proof.
  cbv zeta.
  apply (allocator_counts_agree small_geometry_ok alloc_run (one_file 0) _).
  - vm_compute. reflexivity.
  - vm_compute. reflexivity.
  - exact alloc_run_runs.
Defined.

(** The inode bitmap of the small device has 512 positions.
    [free_inode 512] finds its bit in the block behind the inode bitmap,
    which is the data bitmap: position 0 there is set (the block of the
    root directory), the call clears it and counts one more free inode.
    The counts were 60 free inodes and 29 free data blocks, in step with
    the bitmaps; afterwards [inode_num_free] is 61 against 60 clear
    positions, and [data_block_num_free] 29 against 30. *)
Lemma free_inode_beyond_bitmap :
  let s := one_file 0 in
  let s' := after (free_inode 512) s in
  alloc_inv s = true /\
  free_inode 512 s = Ok tt s' /\
  inode_num_free (disk s' 0) = 61 /\
  inode_num_tot (disk s' 0) - inode_used (disk s') = 60 /\
  data_block_num_free (disk s' 0) = 29 /\
  data_block_num_tot (disk s' 0) - data_used (disk s') = 30.
Proof.
  cbv zeta. split; [vm_compute; reflexivity|].
  split; [apply after_eq; vm_compute; reflexivity|].
  split; [vm_compute; reflexivity|]. split; [vm_compute; reflexivity|].
  split; vm_compute; reflexivity.
Qed.

(** The file grown to three blocks: block 35 directly, blocks 37 and 38
    through the pointer block 36. *)
Definition three_blocks : state := after (resize 2 1 192) (one_file 0).

Lemma three_blocks_live : live three_blocks = true.
Proof. vm_compute. reflexivity. Qed.

Lemma three_blocks_WF : WF (disk three_blocks) (inode_at (disk three_blocks) 1) 3.
Proof. apply wf_mem_WF. vm_compute. reflexivity. Qed.

(** Shrinking the file from three blocks to two issues four writes: to
    the data bitmap (block 2), the superblock, the pointer block 36 and
    the inode block 3.  When the first of them has reached the device,
    block 38 is marked free and slot 1 of the pointer block still holds
    38. *)
Lemma shrink_marks_free_before_unlinking :
  let s := three_blocks in
  let s' := after (resize 2 1 128) s in
  let w1 := nth 3 (writes s') (0, zero_block) in
  let d1 := replay [w1] (disk s) in
  resize 2 1 128 s = Ok 0 s' /\
  map fst (writes s') = [3; 36; 0; 2] ++ map fst (writes s) /\
  ind_slot (disk s) (inode_at (disk s) 1) 1 = 38 /\
  valid_block (disk s) 38 = true /\
  valid_block d1 38 = false /\
  ind_slot d1 (inode_at d1 1) 1 = 38.
Proof.
  cbv zeta. split; [apply after_eq; vm_compute; reflexivity|].
  split; [vm_compute; reflexivity|]. split; [vm_compute; reflexivity|].
  split; [vm_compute; reflexivity|]. split; vm_compute; reflexivity.
Qed.

Lemma three_blocks_wf : fs_wf three_blocks 1 = true.
Proof. vm_compute. reflexivity. Qed.

Lemma resize_write_order_witness :
  exists s' ws,
    resize 2 1 128 three_blocks = Ok 0 s' /\
    writes s' = ws ++ writes three_blocks /\
    disk s' = replay ws (disk three_blocks) /\
    writes_ok ws (disk three_blocks) = true /\
    exists rest w2 w1, ws = rest ++ [w2; w1] /\
      valid_block (replay [w1] (disk three_blocks))
                  (l2p (disk three_blocks) (inode_at (disk three_blocks) 1)
                       (blocks_for (filesize (inode_at (disk three_blocks) 1)) - 1))
      = false.
Proof.
  destruct (resize_write_order small_geometry_ok 0 1 128 three_blocks
              three_blocks_live three_blocks_wf eq_refl)
    as [r [s' [ws [Run [Tw [Td [Ok1 Sh]]]]]]].
  destruct Sh as [R0 [rest [w2 [w1 [E [_ [V _]]]]]]]; [vm_compute; reflexivity|].
  subst r. exists s', ws. split; [exact Run|]. split; [exact Tw|].
  split; [exact Td|]. split; [exact Ok1|]. exists rest, w2, w1. split; [exact E|exact V].
Defined.

(** The file of no block on a device that held the byte 170 everywhere
    before [mkfs]. *)
Lemma junk_file_live : live (one_file 170) = true.
Proof. vm_compute. reflexivity. Qed.

Lemma junk_file_wf : fs_wf (one_file 170) 1 = true.
Proof. vm_compute. reflexivity. Qed.

Lemma grown_block_reads_device_content_witness :
  exists r s',
    resize 2 1 192 (one_file 170) = Ok r s' /\ (r = 0 \/ r = ENOSPC) /\
    (r = 0 ->
     forall o, 0 <= o < 192 ->
       let b := l2p (disk s') (inode_at (disk s') 1) (o / BLOCK_SIZE) in
       disk s' b = disk (one_file 170) b /\
       (blocks_for (filesize (inode_at (disk (one_file 170)) 1)) * BLOCK_SIZE <= o ->
        valid_block (disk (one_file 170)) b = false /\
        valid_block (disk s') b = true /\
        exists s'',
          read 1 o 1 s'
          = Ok (1, [byte_at (disk (one_file 170) b) (o mod BLOCK_SIZE)]) s'')).
Proof.
  apply (grown_block_reads_device_content small_geometry_ok 0 1 192 (one_file 170)
           junk_file_live junk_file_wf eq_refl).
  vm_compute. discriminate.
Defined.

(** Deleting the only entry of the root directory: the file owns no
    block, and block 34, the block of the root directory, is released. *)
Lemma unlink_frees_parent_block :
  let s := one_file 0 in
  let s' := after (fs_unlink 2 (bytes_of_string "/f")) s in
  fs_unlink 2 (bytes_of_string "/f") s = Ok 0 s' /\
  value_of (get_block_size 1 s) = Some 0 /\
  direct_pointer (inode_at (disk s) 0) = 34 /\
  valid_block (disk s) 34 = true /\
  valid_block (disk s') 34 = false.
Proof.
  cbv zeta. split; [apply after_eq; vm_compute; reflexivity|].
  split; [vm_compute; reflexivity|]. split; [vm_compute; reflexivity|].
  split; vm_compute; reflexivity.
Qed.

End SmallDevice.

(** * Runs on the device of 1024 blocks *)

Section MidDevice.

Local Existing Instance mid_geometry.

Lemma mid_geometry_ok : geometry_ok = true.
Proof. reflexivity. Qed.

(** The device after [mkfs]: 1024 inode positions, 512 data positions,
    the data region from block 515. *)
Definition formatted : state := after (mkfs 2) (blank 0).

(** Seventy data blocks are taken, which moves the hint of the data
    bitmap to 69, into its second 64-bit word; then block 581
    (position 66) is given back and two inodes are taken. *)
Definition hint_run : list alloc_op :=
  repeat OpAllocData 70 ++ [OpFreeData 581; OpAllocInode; OpAllocInode].

Lemma hint_run_runs :
  run_ops hint_run formatted = Ok tt (after (run_ops hint_run) formatted).
Proof. apply after_eq. vm_compute. reflexivity. Qed.

Lemma first_zero_hint_independent_witness :
  let s' := after (run_ops hint_run) formatted in
  let h := disk s' 0 in
  data_bitmap_min_pos s' = 66 /\
  BitMap_get_first_zero (data_bitmap h (data_bitmap_min_pos s')) s'
  = BitMap_get_first_zero (data_bitmap h 0) s' /\
  BitMap_get_first_zero (data_bitmap h 0) s'
  = Ok (lowest_clear (disk s') (data_block_bitmap_offset h) (data_bits h)) s'.
Proof.
  cbv zeta. split; [vm_compute; reflexivity|].
  apply (first_zero_hint_independent mid_geometry_ok hint_run formatted _).
  - vm_compute. reflexivity.
  - vm_compute. reflexivity.
  - exact hint_run_runs.
Defined.

(** Seventy data blocks are taken (hint 69); then [free_inode 1029]
    names position 5 of the block behind the 1024 positions of the inode
    bitmap, which is the data bitmap: the bit of data block 520 is
    cleared and the hint of the data bitmap stays 69.  The search from
    the hint starts at word 1 and returns 70; the search from position 0
    returns 5; [alloc_data] takes block 585, not the free block 520. *)
Definition stray_free_run : list alloc_op :=
  repeat OpAllocData 70 ++ [OpFreeInode 1029].

Lemma first_zero_depends_on_hint :
  let s' := after (run_ops stray_free_run) formatted in
  let h := disk s' 0 in
  hints_ok formatted = true /\
  run_ops stray_free_run formatted = Ok tt s' /\
  data_bitmap_min_pos s' = 69 /\
  data_bit (disk s') 5 = false /\
  value_of (BitMap_get_first_zero (data_bitmap h (data_bitmap_min_pos s')) s') = Some 70 /\
  value_of (BitMap_get_first_zero (data_bitmap h 0) s') = Some 5 /\
  data_block_offset h = 515 /\
  value_of (alloc_data s') = Some 585.
Proof.
  cbv zeta. split; [vm_compute; reflexivity|].
  split; [apply after_eq; vm_compute; reflexivity|].
  split; [vm_compute; reflexivity|]. split; [vm_compute; reflexivity|].
  split; [vm_compute; reflexivity|]. split; [vm_compute; reflexivity|].
  split; vm_compute; reflexivity.
Qed.

End MidDevice.
